(** * Pintos storage stack: free map, inode layer, directories, eviction

    A shallow embedding of the file-system core (lib/kernel/bitmap.c,
    filesys/free-map.c, filesys/fsdisk.c, filesys/inode.c,
    filesys/directory.c, filesys/filesys.c) and of the eviction path of the
    supplemental page table (vm/mappings.c, vm/swaptbl.c), with the
    properties of the specification stated over it.

    Conventions.
    - Integers of the C code are [Z]; every narrowing conversion is written
      out ([mod 2^16], [mod 2^32], [sint32]).
    - A sector buffer is a [list byte]; struct fields are read and written at
      their byte offsets, little-endian as on the i386 target.
    - The model is sequential: the buffer cache is the coherent view
      "sector -> 512 bytes" that its locking discipline provides to one
      thread; locks, pins, eviction of cache slots and the read-ahead queue
      carry no data and are not represented, with one exception:
      [byte_to_sector] can return with the buffer of the inode sector still
      held, and the next request of the same thread for that buffer never
      returns ([Deadlock]).
    - A failed ASSERT / PANIC, an array access outside of the array (where
      C leaves the behaviour undefined), a use of a freed object and a call
      that never returns are results of their own ([Err]). *)

From Stdlib Require Import ZArith List Lia Bool.
From Stdlib Require Import Strings.Byte.
From coqutil Require Import Byte Word.LittleEndianList.
Import ListNotations.
Local Open Scope Z_scope.

(* ===================================================================== *)
(** ** Results of fallible code *)
(* ===================================================================== *)

Inductive fault : Type :=
| AssertFail      (* ASSERT or PANIC *)
| OutOfBounds     (* array index outside the array *)
| NullDeref       (* use of a null or freed pointer *)
| Deadlock        (* a lock is acquired that its holder never releases:
                     the call does not return *)
| OutOfFuel.      (* loop bound of the model exhausted; never reached *)

Inductive res (A : Type) : Type :=
| Ok (a : A)
| Err (f : fault).
Arguments Ok {A} a.
Arguments Err {A} f.

Definition rbind {A B} (m : res A) (k : A -> res B) : res B :=
  match m with
  | Ok a => k a
  | Err f => Err f
  end.

Notation "x <- m ;; k" := (rbind m (fun x => k))
  (at level 61, m at next level, right associativity).
Notation "' pat <- m ;; k" := (rbind m (fun x => match x with pat => k end))
  (at level 61, pat pattern, m at next level, right associativity).

Definition assert (b : bool) : res unit :=
  if b then Ok tt else Err AssertFail.

(* ===================================================================== *)
(** ** Bytes and buffers *)
(* ===================================================================== *)

Definition BLOCK_SECTOR_SIZE : Z := 512.

Definition zero_byte : byte := Byte.x00.

(** [memcpy(dst, b + k, n)]: the [n] bytes of [b] from offset [k]. *)
Definition sub (b : list byte) (k n : Z) : list byte :=
  firstn (Z.to_nat n) (skipn (Z.to_nat k) b).

(** [memcpy(b + k, src, |src|)]. *)
Definition splice (b : list byte) (k : Z) (src : list byte) : list byte :=
  firstn (Z.to_nat k) b ++ src ++ skipn (Z.to_nat k + length src) b.

Definition byte_at (b : list byte) (i : Z) : byte :=
  nth (Z.to_nat i) b zero_byte.

(** Little-endian integers of [n] bytes at byte offset [k]. *)
Definition load (n : nat) (b : list byte) (k : Z) : Z :=
  le_combine (sub b k (Z.of_nat n)).

Definition store (n : nat) (b : list byte) (k : Z) (v : Z) : list byte :=
  splice b k (le_split n v).

Definition zeros (n : Z) : list byte := repeat zero_byte (Z.to_nat n).

(** [ZERO_BUF] of fsdisk.c. *)
Definition ZERO_BUF : list byte := zeros BLOCK_SECTOR_SIZE.


(** Unsigned and signed 32-bit views of an integer. *)
Definition u32 (x : Z) : Z := x mod 2 ^ 32.
Definition u16 (x : Z) : Z := x mod 2 ^ 16.
Definition sint32 (x : Z) : Z :=
  let y := u32 x in if y <? 2 ^ 31 then y else y - 2 ^ 32.

(** [DIV_ROUND_UP] of round.h. *)
Definition DIV_ROUND_UP (x step : Z) : Z := (x + step - 1) / step.

(** Bounds-checked array cells of a C array held in a list. *)
Definition cell_get {A} (l : list A) (i : Z) : res A :=
  if (0 <=? i) && (i <? Z.of_nat (length l))
  then match nth_error l (Z.to_nat i) with
       | Some a => Ok a
       | None => Err OutOfBounds
       end
  else Err OutOfBounds.

Fixpoint list_set {A} (l : list A) (n : nat) (a : A) : list A :=
  match l, n with
  | [], _ => []
  | _ :: t, O => a :: t
  | h :: t, S n' => h :: list_set t n' a
  end.

Definition cell_set {A} (l : list A) (i : Z) (a : A) : res (list A) :=
  if (0 <=? i) && (i <? Z.of_nat (length l))
  then Ok (list_set l (Z.to_nat i) a)
  else Err OutOfBounds.

(* ===================================================================== *)
(** ** lib/kernel/bitmap.c *)
(* ===================================================================== *)

(** [elem_type] is [unsigned long], 32 bits on the target. *)
Definition ELEM_BITS : Z := 32.
Definition ELEM_MAX : Z := 2 ^ 32 - 1.

(** [BITMAP_ERROR] is [SIZE_MAX]. *)
Definition BITMAP_ERROR : Z := 2 ^ 32 - 1.

(** [struct bitmap]: the number of bits and the array of elements that
    holds them, bit [k] of the bitmap being bit [k mod 32] of element
    [k / 32]. *)
Record bitmap : Type := mkBitmap {
  bit_cnt : Z;
  bits : list Z
}.

Definition elem_idx (bit_idx : Z) : Z := bit_idx / ELEM_BITS.
Definition bit_mask (bit_idx : Z) : Z := Z.shiftl 1 (bit_idx mod ELEM_BITS).
Definition elem_cnt (bit_cnt : Z) : Z := DIV_ROUND_UP bit_cnt ELEM_BITS.

(** [sizeof (bitmap_t) + sizeof (elem_type) * elem_cnt(bit_cnt)]. *)
Definition bitmap_buf_size (bit_cnt : Z) : Z := 8 + 4 * elem_cnt bit_cnt.

Definition bitmap_size (b : bitmap) : Z := bit_cnt b.

(** [b->bits[idx] |= mask]; no assertion in the source. *)
Definition bitmap_mark (b : bitmap) (bit_idx : Z) : res bitmap :=
  let idx := elem_idx bit_idx in
  let mask := bit_mask bit_idx in
  w <- cell_get (bits b) idx ;;
  bs <- cell_set (bits b) idx (Z.lor w mask) ;;
  Ok (mkBitmap (bit_cnt b) bs).

(** [b->bits[idx] &= ~mask]. *)
Definition bitmap_reset (b : bitmap) (bit_idx : Z) : res bitmap :=
  let idx := elem_idx bit_idx in
  let mask := bit_mask bit_idx in
  w <- cell_get (bits b) idx ;;
  bs <- cell_set (bits b) idx (Z.land w (Z.lxor mask ELEM_MAX)) ;;
  Ok (mkBitmap (bit_cnt b) bs).

Definition bitmap_set (b : bitmap) (idx : Z) (value : bool) : res bitmap :=
  _ <- assert (idx <? bit_cnt b) ;;
  if value then bitmap_mark b idx else bitmap_reset b idx.

Definition bitmap_test (b : bitmap) (idx : Z) : res bool :=
  _ <- assert (idx <? bit_cnt b) ;;
  w <- cell_get (bits b) (elem_idx idx) ;;
  Ok (negb (Z.land w (bit_mask idx) =? 0)).

(** The loop [for (i = 0; i < cnt; i++) bitmap_set (b, start + i, value)],
    with [n] iterations left. *)
Fixpoint bitmap_set_loop (n : nat) (b : bitmap) (start i : Z) (value : bool)
  : res bitmap :=
  match n with
  | O => Ok b
  | S n' =>
      b' <- bitmap_set b (start + i) value ;;
      bitmap_set_loop n' b' start (i + 1) value
  end.

Definition bitmap_set_multiple (b : bitmap) (start cnt : Z) (value : bool)
  : res bitmap :=
  _ <- assert (start <=? bit_cnt b) ;;
  _ <- assert (u32 (start + cnt) <=? bit_cnt b) ;;
  bitmap_set_loop (Z.to_nat cnt) b start 0 value.

Definition bitmap_set_all (b : bitmap) (value : bool) : res bitmap :=
  bitmap_set_multiple b 0 (bitmap_size b) value.

Fixpoint bitmap_contains_loop (n : nat) (b : bitmap) (start i : Z)
  (value : bool) : res bool :=
  match n with
  | O => Ok false
  | S n' =>
      t <- bitmap_test b (start + i) ;;
      if Bool.eqb t value then Ok true
      else bitmap_contains_loop n' b start (i + 1) value
  end.

Definition bitmap_contains (b : bitmap) (start cnt : Z) (value : bool)
  : res bool :=
  _ <- assert (start <=? bit_cnt b) ;;
  _ <- assert (u32 (start + cnt) <=? bit_cnt b) ;;
  bitmap_contains_loop (Z.to_nat cnt) b start 0 value.

Definition bitmap_all (b : bitmap) (start cnt : Z) : res bool :=
  r <- bitmap_contains b start cnt false ;; Ok (negb r).

(** The loop [for (i = start; i <= last; i++)] of [bitmap_scan], with [n]
    iterations left. *)
Fixpoint bitmap_scan_loop (n : nat) (b : bitmap) (i cnt : Z) (value : bool)
  : res Z :=
  match n with
  | O => Ok BITMAP_ERROR
  | S n' =>
      r <- bitmap_contains b i cnt (negb value) ;;
      if negb r then Ok i else bitmap_scan_loop n' b (i + 1) cnt value
  end.

Definition bitmap_scan (b : bitmap) (start cnt : Z) (value : bool) : res Z :=
  _ <- assert (start <=? bit_cnt b) ;;
  if cnt <=? bit_cnt b then
    let last := bit_cnt b - cnt in
    bitmap_scan_loop (Z.to_nat (last + 1 - start)) b start cnt value
  else Ok BITMAP_ERROR.

Definition bitmap_scan_and_flip (b : bitmap) (start cnt : Z) (value : bool)
  : res (bitmap * Z) :=
  idx <- bitmap_scan b start cnt value ;;
  if negb (idx =? BITMAP_ERROR) then
    b' <- bitmap_set_multiple b idx cnt (negb value) ;; Ok (b', idx)
  else Ok (b, idx).

(** The inner loop of [bitmap_lowest] over the bits [j] of one element. *)
Fixpoint lowest_in_elem (n : nat) (w : Z) (j : Z) (value : bool) : option Z :=
  match n with
  | O => None
  | S n' =>
      if Bool.eqb (negb (Z.land w (bit_mask j) =? 0)) value then Some j
      else lowest_in_elem n' w (j + 1) value
  end.

(** The outer loop of [bitmap_lowest] over the elements; it runs over all
    [ELEM_BITS] bits of every element and never consults [bit_cnt]. *)
Fixpoint bitmap_lowest_loop (n : nat) (b : bitmap) (i : Z) (value : bool)
  : res Z :=
  match n with
  | O => Ok BITMAP_ERROR
  | S n' =>
      w <- cell_get (bits b) i ;;
      let empty := if value then 0 else ELEM_MAX in
      if negb (w =? empty) then
        match lowest_in_elem (Z.to_nat ELEM_BITS) w 0 value with
        | Some j => Ok (i * ELEM_BITS + j)
        | None => bitmap_lowest_loop n' b (i + 1) value
        end
      else bitmap_lowest_loop n' b (i + 1) value
  end.

Definition bitmap_lowest (b : bitmap) (value : bool) : res Z :=
  let elem_count := elem_cnt (bitmap_size b) in
  bitmap_lowest_loop (Z.to_nat elem_count) b 0 value.

(** [bitmap_create_in_buf]: [bit_cnt] bits over the elements found in the
    buffer, the first [bit_cnt] of them cleared. *)
Definition bitmap_create_in_buf (bit_cnt : Z) (block : list Z) (block_size : Z)
  : res bitmap :=
  _ <- assert (bitmap_buf_size bit_cnt <=? block_size) ;;
  bitmap_set_all (mkBitmap bit_cnt block) false.

(** The value of bit [x] as the element array holds it. *)
Definition bitval (b : bitmap) (x : Z) : bool :=
  Z.testbit (nth (Z.to_nat (elem_idx x)) (bits b) 0) (x mod ELEM_BITS).

(** A bitmap whose element array holds all of its [bit_cnt] bits. *)
Definition bitmap_wf (b : bitmap) : Prop :=
  0 <= bit_cnt b < 2 ^ 31 /\
  elem_cnt (bit_cnt b) <= Z.of_nat (length (bits b)).

(* ===================================================================== *)
(** ** State of the file system *)
(* ===================================================================== *)

(** [struct inode], the in-memory inode.  The list element and the advisory
    lock carry no data. *)
Record inode : Type := mkInode {
  i_sector : Z;
  open_cnt : Z;
  removed : bool;
  deny_write_cnt : Z
}.

(** The global state of fsdisk.c, free-map.c and inode.c.
    - [disk_size] is [block_size(device)];
    - [sectors] is the content of every sector as seen through the cache;
    - [free_map] is the bitmap kept in [free_map_buffer];
    - [open_inodes] is the list of that name; a pointer to a [struct inode]
      is modelled by the sector of the inode, which identifies it in the list;
    - [heap] gives the outcome of the coming [malloc]/[calloc] calls
      ([false]: null pointer), an empty list meaning that all succeed;
    - [junk] is the content of unspecified memory (a cache buffer obtained
      with [CACHE_NOLOAD], an uninitialised local). *)
Record fs : Type := mkFs {
  disk_size : Z;
  sectors : Z -> list byte;
  free_map : bitmap;
  open_inodes : list inode;
  heap : list bool;
  junk : list byte
}.

Definition set_sectors (st : fs) (f : Z -> list byte) : fs :=
  mkFs (disk_size st) f (free_map st) (open_inodes st) (heap st) (junk st).
Definition set_free_map (st : fs) (b : bitmap) : fs :=
  mkFs (disk_size st) (sectors st) b (open_inodes st) (heap st) (junk st).
Definition set_open_inodes (st : fs) (l : list inode) : fs :=
  mkFs (disk_size st) (sectors st) (free_map st) l (heap st) (junk st).
Definition set_heap (st : fs) (h : list bool) : fs :=
  mkFs (disk_size st) (sectors st) (free_map st) (open_inodes st) h (junk st).

(** [malloc]/[calloc]: consumes one outcome. *)
Definition malloc (st : fs) : fs * bool :=
  match heap st with
  | [] => (st, true)
  | ok :: h => (set_heap st h, ok)
  end.

(* ===================================================================== *)
(** ** filesys/fsdisk.c *)
(* ===================================================================== *)

Definition MAX_DISK_SIZE : Z := 8388608.       (* 0x800000 *)
Definition FREE_MAP_START : Z := 1.
Definition ROOT_DIR_SECTOR : Z := 0.
Definition CACHE_WRITE : Z := 1.
Definition CACHE_NOLOAD : Z := 2.

(** [(block_sector_t) -1]. *)
Definition INVALID_SECTOR : Z := 2 ^ 32 - 1.

(** [ROUND_UP (BITMAP_BUF_SIZE (MAX_DISK_SIZE / BLOCK_SECTOR_SIZE)),
    BLOCK_SECTOR_SIZE)]. *)
Definition FREE_MAP_BUF_SIZE : Z :=
  DIV_ROUND_UP (bitmap_buf_size (MAX_DISK_SIZE / BLOCK_SECTOR_SIZE))
    BLOCK_SECTOR_SIZE * BLOCK_SECTOR_SIZE.

Definition fs_disk_size (st : fs) : Z := disk_size st.

(** The static [free_map_sectors], set once by [fs_cache_init]. *)
Definition free_map_sectors (st : fs) : Z :=
  DIV_ROUND_UP (bitmap_buf_size (fs_disk_size st)) BLOCK_SECTOR_SIZE.

Definition is_free_map_sec (st : fs) (sector : Z) : bool :=
  (1 <=? sector) && (sector <? FREE_MAP_START + free_map_sectors st).

(** The assertions of [cache_get] and of its callers on the sector. *)
Definition cache_check (st : fs) (sector : Z) : res unit :=
  _ <- assert (sector <? fs_disk_size st) ;;
  assert (negb (is_free_map_sec st sector)).

Definition fs_cache_write (st : fs) (sector : Z) (buf : option (list byte))
  : res fs :=
  _ <- cache_check st sector ;;
  let content := match buf with
                 | Some b => sub b 0 BLOCK_SECTOR_SIZE
                 | None => ZERO_BUF
                 end in
  Ok (set_sectors st (fun s => if s =? sector then content else sectors st s)).

Definition fs_cache_read (st : fs) (sector : Z) : res (list byte) :=
  if sector =? INVALID_SECTOR then Ok (zeros BLOCK_SECTOR_SIZE)
  else
    _ <- cache_check st sector ;;
    Ok (sectors st sector).

(** [fs_cache_get]: the content of the buffer the caller receives.  With
    [CACHE_NOLOAD] it is unspecified. *)
Definition fs_cache_get (st : fs) (sector flags : Z) : res (list byte) :=
  if (sector =? INVALID_SECTOR)
     && (Z.land flags (Z.lor CACHE_WRITE CACHE_NOLOAD) =? 0)
  then Ok ZERO_BUF
  else
    _ <- cache_check st sector ;;
    let noload := negb (Z.land flags CACHE_NOLOAD =? 0) in
    Ok (if noload then junk st else sectors st sector).

(** [fs_cache_release] of a buffer obtained by [fs_cache_get st sector
    flags], whose content is now [data]: what the caller wrote through the
    pointer is in the cache.  Releasing [ZERO_BUF] does nothing. *)
Definition fs_cache_release (st : fs) (sector flags : Z) (data : list byte)
  : fs :=
  if Z.land flags (Z.lor CACHE_WRITE CACHE_NOLOAD) =? 0 then st
  else set_sectors st (fun s => if s =? sector then data else sectors st s).

(* ===================================================================== *)
(** ** filesys/free-map.c *)
(* ===================================================================== *)

Definition free_map_allocate (st : fs) (cnt : Z) : res (fs * option Z) :=
  '(b, sector) <- bitmap_scan_and_flip (free_map st) 0 cnt false ;;
  let st' := set_free_map st b in
  if negb (sector =? BITMAP_ERROR) then Ok (st', Some sector)
  else Ok (st', None).

Definition free_map_get (st : fs) : res (fs * option Z) :=
  sector <- bitmap_lowest (free_map st) false ;;
  let found := negb (sector =? BITMAP_ERROR) in
  if found then
    b <- bitmap_mark (free_map st) sector ;;
    Ok (set_free_map st b, Some sector)
  else Ok (st, None).

Definition free_map_release (st : fs) (sector cnt : Z) : res fs :=
  all <- bitmap_all (free_map st) sector cnt ;;
  _ <- assert all ;;
  b <- bitmap_set_multiple (free_map st) sector cnt false ;;
  Ok (set_free_map st b).

(** [free_map_create], over the elements [block] found in the buffer. *)
Definition free_map_create (st : fs) (block : list Z) : res fs :=
  b <- bitmap_create_in_buf (fs_disk_size st) block FREE_MAP_BUF_SIZE ;;
  b <- bitmap_mark b ROOT_DIR_SECTOR ;;
  let fms := DIV_ROUND_UP (bitmap_buf_size (fs_disk_size st)) BLOCK_SECTOR_SIZE in
  b <- bitmap_set_multiple b FREE_MAP_START fms true ;;
  Ok (set_free_map st b).

(* ===================================================================== *)
(** ** filesys/inode.c: on-disk layout *)
(* ===================================================================== *)

Definition INODE_MAGIC : Z := 1229868868.      (* 0x494e4f44 *)

(** [(fs_sector_t) -1], with [fs_sector_t] being [uint16_t]. *)
Definition NO_SECTOR : Z := 65535.

Definition SIZEOF_HEADER : Z := 12.            (* sizeof(inode_header_t) *)
Definition SIZEOF_FS_SECTOR : Z := 2.          (* sizeof(fs_sector_t) *)

Definition NUM_INDIRECT : Z := 64.
Definition NUM_DIRECT : Z :=
  (BLOCK_SECTOR_SIZE - SIZEOF_HEADER) / SIZEOF_FS_SECTOR - NUM_INDIRECT.
Definition INDIRECT_NUM_DIRECT : Z := BLOCK_SECTOR_SIZE / SIZEOF_FS_SECTOR.

(** [sizeof(inode_disk_t)]. *)
Definition SIZEOF_INODE_DISK : Z :=
  SIZEOF_HEADER + SIZEOF_FS_SECTOR * NUM_DIRECT + SIZEOF_FS_SECTOR * NUM_INDIRECT.

(** Byte offsets of the fields of [inode_disk_t]. *)
Definition OFS_LENGTH : Z := 0.
Definition OFS_MAGIC : Z := 4.
Definition OFS_COUNTER : Z := 8.
Definition OFS_DIRECT : Z := SIZEOF_HEADER.
Definition OFS_INDIRECT : Z := SIZEOF_HEADER + SIZEOF_FS_SECTOR * NUM_DIRECT.

Definition header_length (data : list byte) : Z := sint32 (load 4 data OFS_LENGTH).
Definition header_magic (data : list byte) : Z := load 4 data OFS_MAGIC.
Definition header_counter (data : list byte) : Z := sint32 (load 4 data OFS_COUNTER).
Definition set_header_length (data : list byte) (v : Z) : list byte :=
  store 4 data OFS_LENGTH v.
Definition set_header_magic (data : list byte) (v : Z) : list byte :=
  store 4 data OFS_MAGIC v.
Definition set_header_counter (data : list byte) (v : Z) : list byte :=
  store 4 data OFS_COUNTER v.

(** [data->direct[i]] of an [inode_disk_t]. *)
Definition direct_get (data : list byte) (i : Z) : res Z :=
  if (0 <=? i) && (i <? NUM_DIRECT)
  then Ok (load 2 data (OFS_DIRECT + SIZEOF_FS_SECTOR * i))
  else Err OutOfBounds.
Definition direct_set (data : list byte) (i v : Z) : res (list byte) :=
  if (0 <=? i) && (i <? NUM_DIRECT)
  then Ok (store 2 data (OFS_DIRECT + SIZEOF_FS_SECTOR * i) v)
  else Err OutOfBounds.

(** [data->indirect[i]] of an [inode_disk_t].  [byte_to_sector] does not
    compare [i] with [NUM_INDIRECT]: an index outside of the array is an
    access past the 512 bytes of the sector buffer, which C leaves
    undefined, and the fault [OutOfBounds] here. *)
Definition indirect_get (data : list byte) (i : Z) : res Z :=
  if (0 <=? i) && (i <? NUM_INDIRECT)
  then Ok (load 2 data (OFS_INDIRECT + SIZEOF_FS_SECTOR * i))
  else Err OutOfBounds.
Definition indirect_set (data : list byte) (i v : Z) : res (list byte) :=
  if (0 <=? i) && (i <? NUM_INDIRECT)
  then Ok (store 2 data (OFS_INDIRECT + SIZEOF_FS_SECTOR * i) v)
  else Err OutOfBounds.

(** [subnode->direct[j]] of an [indirect_node_t]. *)
Definition sub_get (node : list byte) (j : Z) : res Z :=
  if (0 <=? j) && (j <? INDIRECT_NUM_DIRECT)
  then Ok (load 2 node (SIZEOF_FS_SECTOR * j))
  else Err OutOfBounds.
Definition sub_set (node : list byte) (j v : Z) : res (list byte) :=
  if (0 <=? j) && (j <? INDIRECT_NUM_DIRECT)
  then Ok (store 2 node (SIZEOF_FS_SECTOR * j) v)
  else Err OutOfBounds.

(** A loop [for (i = 0; i < n; i++) a[i] = v], with [n] iterations left. *)
Fixpoint fill_loop (set : list byte -> Z -> Z -> res (list byte))
  (n : nat) (data : list byte) (i v : Z) : res (list byte) :=
  match n with
  | O => Ok data
  | S n' => data' <- set data i v ;; fill_loop set n' data' (i + 1) v
  end.

(* ===================================================================== *)
(** ** filesys/inode.c: in-memory inodes *)
(* ===================================================================== *)

Definition find_inode (l : list inode) (sector : Z) : option inode :=
  find (fun i => i_sector i =? sector) l.

(** Dereferencing a pointer to a [struct inode]. *)
Definition deref (st : fs) (p : Z) : res inode :=
  match find_inode (open_inodes st) p with
  | Some i => Ok i
  | None => Err NullDeref
  end.

Fixpoint update_inode (l : list inode) (p : Z) (f : inode -> inode)
  : list inode :=
  match l with
  | [] => []
  | i :: t => if i_sector i =? p then f i :: t else i :: update_inode t p f
  end.

Fixpoint remove_inode (l : list inode) (p : Z) : list inode :=
  match l with
  | [] => []
  | i :: t => if i_sector i =? p then t else i :: remove_inode t p
  end.

Definition add_open_cnt (b : Z) (i : inode) : inode :=
  mkInode (i_sector i) (sint32 (open_cnt i + b)) (removed i) (deny_write_cnt i).
Definition add_deny_write_cnt (b : Z) (i : inode) : inode :=
  mkInode (i_sector i) (open_cnt i) (removed i) (sint32 (deny_write_cnt i + b)).
Definition set_removed (i : inode) : inode :=
  mkInode (i_sector i) (open_cnt i) true (deny_write_cnt i).

Definition inode_reopen (st : fs) (p : option Z) : res (fs * option Z) :=
  match p with
  | None => Ok (st, None)
  | Some s =>
      _ <- deref st s ;;
      Ok (set_open_inodes st (update_inode (open_inodes st) s (add_open_cnt 1)),
          Some s)
  end.

Definition inode_open (st : fs) (sector : Z) : res (fs * option Z) :=
  match find_inode (open_inodes st) sector with
  | Some _ => inode_reopen st (Some sector)
  | None =>
      let (st, ok) := malloc st in
      if ok then
        Ok (set_open_inodes st (mkInode sector 1 false 0 :: open_inodes st),
            Some sector)
      else Ok (st, None)
  end.

Definition inode_get_inumber (st : fs) (p : Z) : res Z :=
  i <- deref st p ;; Ok (i_sector i).

Definition inode_get_open_cnt (st : fs) (p : Z) : res Z :=
  i <- deref st p ;; Ok (u32 (open_cnt i)).

Definition inode_remove (st : fs) (p : Z) : res fs :=
  _ <- deref st p ;;
  Ok (set_open_inodes st (update_inode (open_inodes st) p set_removed)).

(* ===================================================================== *)
(** ** filesys/inode.c: sector index, creation, closing *)
(* ===================================================================== *)

(** Allocation of one index entry in [byte_to_sector]:
    [if (free_map_get(&sec)) { ASSERT(sec < fs_disk_size()); a[i] = sec;
    allocated = true; }] *)
Definition alloc_entry (st : fs) (data : list byte)
  (set : list byte -> Z -> Z -> res (list byte)) (i : Z)
  : res (fs * list byte * bool) :=
  '(st, r) <- free_map_get st ;;
  match r with
  | Some sec =>
      _ <- assert (sec <? fs_disk_size st) ;;
      data <- set data i sec ;;
      Ok (st, data, true)
  | None => Ok (st, data, false)
  end.

(** [byte_to_sector].  The result is the sector, or [INVALID_SECTOR] for
    [-1], and whether the buffer of the inode sector is still held when
    the function returns: on the path where [create] is set and the
    indirect sector cannot be allocated the source returns [-1] without
    [fs_cache_release (data)].  The array [data->indirect] is indexed
    without a check of [subnode_i]; an index of 64 or more, which every
    position from [16570 * 512] on gives, is outside of the array and of
    the buffer, and the model stops there with [OutOfBounds]. *)
Definition byte_to_sector (st : fs) (ino : Z) (pos : Z) (create : bool)
  : res (fs * Z * bool) :=
  inode <- deref st ino ;;
  let flags := CACHE_WRITE * (if create then 1 else 0) in
  data <- fs_cache_get st (i_sector inode) flags ;;
  let sec_off := u32 (Z.quot pos BLOCK_SECTOR_SIZE) in
  '(st, ret, allocated, held) <-
    (if sec_off <? NUM_DIRECT then
       d <- direct_get data sec_off ;;
       '(st, data, allocated) <-
         (if create && (d =? NO_SECTOR)
          then alloc_entry st data direct_set sec_off
          else Ok (st, data, false)) ;;
       d <- direct_get data sec_off ;;
       let ret := if negb (d =? NO_SECTOR) then d else INVALID_SECTOR in
       Ok (fs_cache_release st (i_sector inode) flags data, ret, allocated,
           false)
     else
       let subnode_i := (sec_off - NUM_DIRECT) / INDIRECT_NUM_DIRECT in
       let subnode_j := (sec_off - NUM_DIRECT) mod INDIRECT_NUM_DIRECT in
       n <- indirect_get data subnode_i ;;
       '(st, subnode, held) <-
         (if (n =? NO_SECTOR) && create then
            '(st, r) <- free_map_get st ;;
            match r with
            | Some sec =>
                _ <- assert (sec <? fs_disk_size st) ;;
                data <- indirect_set data subnode_i sec ;;
                let st := fs_cache_release st (i_sector inode) flags data in
                node <- fs_cache_get st sec CACHE_NOLOAD ;;
                node <- fill_loop sub_set (Z.to_nat INDIRECT_NUM_DIRECT)
                          node 0 NO_SECTOR ;;
                Ok (st, Some (sec, CACHE_NOLOAD, node), false)
            | None => Ok (st, None, true)
            end
          else if negb (n =? NO_SECTOR) then
            _ <- assert (n <? fs_disk_size st) ;;
            let st := fs_cache_release st (i_sector inode) flags data in
            node <- fs_cache_get st n flags ;;
            Ok (st, Some (n, flags, node), false)
          else Ok (fs_cache_release st (i_sector inode) flags data, None,
                   false)) ;;
       match subnode with
       | Some (nsec, nflags, node) =>
           c <- sub_get node subnode_j ;;
           '(st, node, allocated) <-
             (if create && (c =? NO_SECTOR)
              then alloc_entry st node sub_set subnode_j
              else Ok (st, node, false)) ;;
           c <- sub_get node subnode_j ;;
           ret <- (if negb (c =? NO_SECTOR)
                   then _ <- assert (c <? fs_disk_size st) ;; Ok c
                   else Ok INVALID_SECTOR) ;;
           Ok (fs_cache_release st nsec nflags node, ret, allocated, held)
       | None => Ok (st, INVALID_SECTOR, false, held)
       end) ;;
  if allocated : bool then
    st <- fs_cache_write st ret None ;; Ok (st, ret, held)
  else Ok (st, ret, held).

Definition inode_create (st : fs) (sector length : Z) : res (fs * bool) :=
  _ <- assert (0 <=? length) ;;
  _ <- assert (SIZEOF_INODE_DISK =? BLOCK_SECTOR_SIZE) ;;
  disk_inode <- fs_cache_get st sector CACHE_NOLOAD ;;
  let disk_inode := set_header_length disk_inode length in
  let disk_inode := set_header_magic disk_inode INODE_MAGIC in
  let disk_inode := set_header_counter disk_inode 0 in
  disk_inode <- fill_loop direct_set (Z.to_nat NUM_DIRECT)
                  disk_inode 0 NO_SECTOR ;;
  disk_inode <- fill_loop indirect_set (Z.to_nat NUM_INDIRECT)
                  disk_inode 0 NO_SECTOR ;;
  Ok (fs_cache_release st sector CACHE_NOLOAD disk_inode, true).

(** A loop [for (i = 0; i < n; i++) if (a[i] != NO_SECTOR)
    free_map_release(a[i], 1)], with [n] iterations left. *)
Fixpoint release_loop (get : list byte -> Z -> res Z) (n : nat) (st : fs)
  (data : list byte) (i : Z) : res fs :=
  match n with
  | O => Ok st
  | S n' =>
      d <- get data i ;;
      st <- (if negb (d =? NO_SECTOR) then free_map_release st d 1 else Ok st) ;;
      release_loop get n' st data (i + 1)
  end.

(** The loop of [inode_close] over the indirect sectors; the inner loop of
    the source runs to [NUM_DIRECT]. *)
Fixpoint release_indirect_loop (n : nat) (st : fs) (indirect : list byte)
  (i : Z) : res fs :=
  match n with
  | O => Ok st
  | S n' =>
      s <- indirect_get indirect i ;;
      st <- (if negb (s =? NO_SECTOR) then
               subnode <- fs_cache_get st s 0 ;;
               st <- release_loop sub_get (Z.to_nat NUM_DIRECT) st subnode 0 ;;
               st <- free_map_release st s 1 ;;
               Ok (fs_cache_release st s 0 subnode)
             else Ok st) ;;
      release_indirect_loop n' st indirect (i + 1)
  end.

Definition inode_close (st : fs) (p : option Z) : res fs :=
  match p with
  | None => Ok st
  | Some s =>
      inode <- deref st s ;;
      let st := set_open_inodes st
                  (update_inode (open_inodes st) s (add_open_cnt (-1))) in
      if sint32 (open_cnt inode + -1) =? 0 then
        let st := set_open_inodes st (remove_inode (open_inodes st) s) in
        if removed inode then
          data <- fs_cache_get st (i_sector inode) 0 ;;
          st <- release_loop direct_get (Z.to_nat NUM_DIRECT) st data 0 ;;
          let indirect := data in
          let st := fs_cache_release st (i_sector inode) 0 data in
          st <- release_indirect_loop (Z.to_nat NUM_INDIRECT) st indirect 0 ;;
          free_map_release st (i_sector inode) 1
        else Ok st
      else Ok st
  end.

Definition inode_length (st : fs) (ino : Z) : res Z :=
  inode <- deref st ino ;;
  data <- fs_cache_get st (i_sector inode) 0 ;;
  Ok (header_length data).

Definition inode_counter_get (st : fs) (ino : Z) : res Z :=
  inode <- deref st ino ;;
  data <- fs_cache_get st (i_sector inode) 0 ;;
  Ok (header_counter data).

Definition inode_counter_add (st : fs) (ino : Z) (x : Z) : res (fs * Z) :=
  inode <- deref st ino ;;
  data <- fs_cache_get st (i_sector inode) CACHE_WRITE ;;
  let counter := sint32 (header_counter data + x) in
  let data := set_header_counter data counter in
  Ok (fs_cache_release st (i_sector inode) CACHE_WRITE data, counter).

Definition inode_deny_write (st : fs) (ino : Z) : res fs :=
  inode <- deref st ino ;;
  let st := set_open_inodes st
              (update_inode (open_inodes st) ino (add_deny_write_cnt 1)) in
  _ <- assert (sint32 (deny_write_cnt inode + 1) <=? open_cnt inode) ;;
  Ok st.

Definition inode_allow_write (st : fs) (ino : Z) : res fs :=
  inode <- deref st ino ;;
  _ <- assert (deny_write_cnt inode <=? open_cnt inode) ;;
  let st := set_open_inodes st
              (update_inode (open_inodes st) ino (add_deny_write_cnt (-1))) in
  _ <- assert (0 <=? sint32 (deny_write_cnt inode + -1)) ;;
  Ok st.

(* ===================================================================== *)
(** ** filesys/inode.c: reading and writing *)
(* ===================================================================== *)

(** The loop of [inode_read_at].  [out] is what has been copied to the
    caller's buffer so far, [fuel] bounds the number of iterations (every
    iteration that continues consumes at least one byte of [size]).
    [byte_to_sector] without [create] leaves the state as it is, and the
    read-ahead request has no effect on the data. *)
Fixpoint inode_read_loop (fuel : nat) (st : fs) (ino : Z)
  (size offset bytes_read : Z) (out : list byte) : res (Z * list byte) :=
  if 0 <? size then
    match fuel with
    | O => Err OutOfFuel
    | S fuel' =>
        len <- inode_length st ino ;;
        let inode_left := sint32 (len - offset) in
        '(_, sector_idx, _) <- byte_to_sector st ino offset false ;;
        let sector_ofs := Z.rem offset BLOCK_SECTOR_SIZE in
        _ <- (if BLOCK_SECTOR_SIZE <? inode_left then
                '(_, next_sector_idx, _) <-
                  byte_to_sector st ino (sint32 (offset + BLOCK_SECTOR_SIZE)) false ;;
                Ok tt
              else Ok tt) ;;
        let sector_left := BLOCK_SECTOR_SIZE - sector_ofs in
        let min_left := if inode_left <? sector_left then inode_left
                        else sector_left in
        let chunk_size := if size <? min_left then size else min_left in
        if chunk_size <=? 0 then Ok (bytes_read, out)
        else
          chunk <-
            (if (sector_ofs =? 0) && (chunk_size =? BLOCK_SECTOR_SIZE) then
               fs_cache_read st sector_idx
             else
               sec <- fs_cache_get st sector_idx 0 ;;
               Ok (sub sec sector_ofs chunk_size)) ;;
          inode_read_loop fuel' st ino (size - chunk_size)
            (sint32 (offset + chunk_size)) (bytes_read + chunk_size)
            (out ++ chunk)
    end
  else Ok (bytes_read, out).

(** [inode_read_at]: the number of bytes read and the bytes stored at the
    start of the caller's buffer. *)
Definition inode_read_at (st : fs) (ino : Z) (size offset : Z)
  : res (Z * list byte) :=
  inode_read_loop (Z.to_nat size) st ino size offset 0 [].

(** The loop of [inode_write_at]; it returns the state, the final
    [offset], [bytes_written], and whether [byte_to_sector] has left the
    buffer of the inode sector held.  With the buffer held the next
    [fs_cache_get] of the inode sector, which is the first thing the next
    iteration does, waits for a lock that its own thread holds. *)
Fixpoint inode_write_loop (fuel : nat) (st : fs) (ino : Z) (buffer : list byte)
  (size offset bytes_written : Z) : res (fs * Z * Z * bool) :=
  if 0 <? size then
    match fuel with
    | O => Err OutOfFuel
    | S fuel' =>
        '(st, sector_idx, held) <- byte_to_sector st ino offset true ;;
        if sector_idx =? INVALID_SECTOR
        then Ok (st, offset, bytes_written, held)
        else
          let sector_ofs := Z.rem offset BLOCK_SECTOR_SIZE in
          let sector_left := BLOCK_SECTOR_SIZE - sector_ofs in
          let min_left := sector_left in
          let chunk_size := if size <? min_left then size else min_left in
          if chunk_size <=? 0 then Ok (st, offset, bytes_written, held)
          else
            st <-
              (if (sector_ofs =? 0) && (chunk_size =? BLOCK_SECTOR_SIZE) then
                 fs_cache_write st sector_idx
                   (Some (sub buffer bytes_written BLOCK_SECTOR_SIZE))
               else
                 sec <- fs_cache_get st sector_idx CACHE_WRITE ;;
                 let sec := splice sec sector_ofs
                              (sub buffer bytes_written chunk_size) in
                 Ok (fs_cache_release st sector_idx CACHE_WRITE sec)) ;;
            if held : bool then Err Deadlock
            else
              inode_write_loop fuel' st ino buffer (size - chunk_size)
                (sint32 (offset + chunk_size)) (bytes_written + chunk_size)
    end
  else Ok (st, offset, bytes_written, false).

(** [inode_write_at]; [buffer] holds the [size] bytes to write.  After the
    loop the function takes the buffer of the inode sector for writing
    (inode.c:403); when [byte_to_sector] has left that buffer held, the
    call waits for ever. *)
Definition inode_write_at (st : fs) (ino : Z) (buffer : list byte)
  (size offset : Z) : res (fs * Z) :=
  inode <- deref st ino ;;
  if negb (deny_write_cnt inode =? 0) then Ok (st, 0)
  else
    '(st, offset, bytes_written, held) <-
      inode_write_loop (Z.to_nat size) st ino buffer size offset 0 ;;
    _ <- (if held : bool then Err Deadlock else Ok tt) ;;
    data <- fs_cache_get st (i_sector inode) CACHE_WRITE ;;
    let data := if header_length data <? offset
                then set_header_length data offset else data in
    Ok (fs_cache_release st (i_sector inode) CACHE_WRITE data, bytes_written).

(* ===================================================================== *)
(** ** filesys/directory.c *)
(* ===================================================================== *)

(** C strings are the bytes before the terminator. *)
Definition cstring : Type := list byte.

Definition NAME_MAX : Z := 14.
Definition SIZEOF_DIR_ENTRY : Z := 16.         (* sizeof(dir_entry_t) *)
Definition DEFAULT_ENTRY_CNT : Z := 16.
Definition PARENT_STR : cstring := [Byte.x2e; Byte.x2e].
Definition SELF_STR : cstring := [Byte.x2e].

(** [strncmp(a, b, n) == 0]; reading past the end of a list reads the
    terminator. *)
Fixpoint strncmp_eq (n : nat) (a b : list byte) : bool :=
  match n with
  | O => true
  | S n' =>
      let ca := hd zero_byte a in
      let cb := hd zero_byte b in
      if Byte.eqb ca cb then
        if Byte.eqb ca zero_byte then true else strncmp_eq n' (tl a) (tl b)
      else false
  end.

(** [strcmp(a, b) == 0] on two C strings. *)
Definition strcmp_eq (a b : cstring) : bool :=
  if list_eq_dec Byte.byte_eq_dec a b then true else false.

(** The C string held in a character array: the bytes before the first
    terminator. *)
Fixpoint cstr_of (l : list byte) : cstring :=
  match l with
  | [] => []
  | c :: t => if Byte.eqb c zero_byte then [] else c :: cstr_of t
  end.

(** [struct dir]. *)
Record dir : Type := mkDir {
  d_inode : Z;
  d_pos : Z
}.

(** [dir_entry_t], 16 bytes: [name] at offset 0, then one 16-bit unit with
    [inode_sector] in bits 0..13, [in_use] in bit 14, [is_dir] in bit 15. *)
Definition OFS_NAME : Z := 0.
Definition OFS_BITS : Z := 14.

Definition e_name (e : list byte) : list byte := sub e OFS_NAME NAME_MAX.
Definition e_inode_sector (e : list byte) : Z := Z.land (load 2 e OFS_BITS) 16383.
Definition e_in_use (e : list byte) : bool := Z.testbit (load 2 e OFS_BITS) 14.
Definition e_is_dir (e : list byte) : bool := Z.testbit (load 2 e OFS_BITS) 15.

Definition set_e_inode_sector (e : list byte) (v : Z) : list byte :=
  store 2 e OFS_BITS
    (Z.lor (Z.land (load 2 e OFS_BITS) 49152) (Z.land v 16383)).
Definition set_e_in_use (e : list byte) (v : bool) : list byte :=
  store 2 e OFS_BITS
    (Z.lor (Z.land (load 2 e OFS_BITS) 49151) (if v then 16384 else 0)).
Definition set_e_is_dir (e : list byte) (v : bool) : list byte :=
  store 2 e OFS_BITS
    (Z.lor (Z.land (load 2 e OFS_BITS) 32767) (if v then 32768 else 0)).

Definition dir_entry_set_name (e : list byte) (name : cstring)
  : res (list byte) :=
  let name_len := Z.of_nat (length name) in
  _ <- assert (name_len <=? NAME_MAX) ;;
  let e := splice e OFS_NAME name in
  Ok (if name_len <? NAME_MAX then splice e (OFS_NAME + name_len) [zero_byte]
      else e).

(** [dir_open]; it takes ownership of the inode. *)
Definition dir_open (st : fs) (inode : option Z) : res (fs * option dir) :=
  match inode with
  | None => Ok (st, None)
  | Some p =>
      let (st, ok) := malloc st in
      if ok then Ok (st, Some (mkDir p 0))
      else st <- inode_close st (Some p) ;; Ok (st, None)
  end.

Definition dir_open_root (st : fs) : res (fs * option dir) :=
  '(st, p) <- inode_open st ROOT_DIR_SECTOR ;;
  dir_open st p.

Definition dir_reopen (st : fs) (d : option dir) : res (fs * option dir) :=
  match d with
  | None => Ok (st, None)
  | Some d =>
      '(st, p) <- inode_reopen st (Some (d_inode d)) ;;
      dir_open st p
  end.

Definition dir_close (st : fs) (d : option dir) : res fs :=
  match d with
  | None => Ok st
  | Some d => inode_close st (Some (d_inode d))
  end.

(** The entries of a directory are read until a read comes short, which
    happens at the latest at offset [inode_length]: [entry_fuel] bounds the
    number of iterations of the scanning loops. *)
Definition entry_fuel (st : fs) (ino : Z) : res nat :=
  len <- inode_length st ino ;;
  Ok (S (Z.to_nat (len / SIZEOF_DIR_ENTRY))).

(** The loop of [lookup]: the entry found and its offset. *)
Fixpoint lookup_loop (fuel : nat) (st : fs) (ino : Z) (name : cstring)
  (ofs : Z) : res (option (list byte * Z)) :=
  match fuel with
  | O => Err OutOfFuel
  | S fuel' =>
      '(n, e) <- inode_read_at st ino SIZEOF_DIR_ENTRY ofs ;;
      if n =? SIZEOF_DIR_ENTRY then
        if e_in_use e && strncmp_eq (Z.to_nat NAME_MAX) name (e_name e)
        then Ok (Some (e, ofs))
        else lookup_loop fuel' st ino name (ofs + SIZEOF_DIR_ENTRY)
      else Ok None
  end.

Definition lookup (st : fs) (d : dir) (name : cstring)
  : res (option (list byte * Z)) :=
  fuel <- entry_fuel st (d_inode d) ;;
  lookup_loop fuel st (d_inode d) name 0.

(** [dir_lookup]: on success the opened inode and [is_dir]. *)
Definition dir_lookup (st : fs) (d : option dir) (name : cstring)
  : res (fs * option (Z * bool)) :=
  match d with
  | None => Err AssertFail
  | Some d =>
      r <- lookup st d name ;;
      match r with
      | Some (e, _) =>
          '(st, p) <- inode_open st (e_inode_sector e) ;;
          match p with
          | Some p => Ok (st, Some (p, e_is_dir e))
          | None => Ok (st, None)
          end
      | None => Ok (st, None)
      end
  end.

(** The loop of [dir_add] that looks for a free slot: the local [e] and
    the offset at which the loop stops. *)
Fixpoint free_slot_loop (fuel : nat) (st : fs) (ino : Z) (e : list byte)
  (ofs : Z) : res (list byte * Z) :=
  match fuel with
  | O => Err OutOfFuel
  | S fuel' =>
      '(n, out) <- inode_read_at st ino SIZEOF_DIR_ENTRY ofs ;;
      let e := splice e 0 out in
      if n =? SIZEOF_DIR_ENTRY then
        if negb (e_in_use e) then Ok (e, ofs)
        else free_slot_loop fuel' st ino e (ofs + SIZEOF_DIR_ENTRY)
      else Ok (e, ofs)
  end.

Definition dir_add (st : fs) (d : option dir) (name : cstring)
  (inode_sector : Z) (is_dir : bool) : res (fs * bool) :=
  match d with
  | None => Err AssertFail
  | Some d =>
      if (Z.of_nat (length name) =? 0) || (NAME_MAX <? Z.of_nat (length name))
      then Ok (st, false)
      else
        found <- lookup st d name ;;
        match found with
        | Some _ => Ok (st, false)
        | None =>
            fuel <- entry_fuel st (d_inode d) ;;
            '(e, ofs) <- free_slot_loop fuel st (d_inode d)
                           (sub (junk st) 0 SIZEOF_DIR_ENTRY) 0 ;;
            let e := set_e_in_use e true in
            e <- dir_entry_set_name e name ;;
            let e := set_e_inode_sector e inode_sector in
            let e := set_e_is_dir e is_dir in
            '(st, n) <- inode_write_at st (d_inode d) e SIZEOF_DIR_ENTRY ofs ;;
            let success := n =? SIZEOF_DIR_ENTRY in
            '(st, _) <- inode_counter_add st (d_inode d) 1 ;;
            Ok (st, success)
        end
  end.

Definition dir_remove (st : fs) (d : option dir) (name : cstring)
  : res (fs * bool) :=
  match d with
  | None => Err AssertFail
  | Some d =>
      if strcmp_eq name PARENT_STR || strcmp_eq name SELF_STR
      then Ok (st, false)
      else
        found <- lookup st d name ;;
        match found with
        | None => Ok (st, false)
        | Some (e, ofs) =>
            '(st, inode) <- inode_open st (e_inode_sector e) ;;
            match inode with
            | None => Ok (st, false)
            | Some inode =>
                let e := set_e_in_use e false in
                '(st, n) <- inode_write_at st (d_inode d) e SIZEOF_DIR_ENTRY ofs ;;
                _ <- assert (n =? SIZEOF_DIR_ENTRY) ;;
                st <- inode_remove st inode ;;
                st <- inode_close st (Some inode) ;;
                '(st, _) <- inode_counter_add st (d_inode d) (-1) ;;
                Ok (st, true)
            end
        end
  end.

Definition _dir_create (st : fs) (sector entry_cnt parent : Z)
  : res (fs * bool) :=
  '(st, ok) <- inode_create st sector (entry_cnt * SIZEOF_DIR_ENTRY) ;;
  if negb ok then Ok (st, false)
  else
    '(st, p) <- inode_open st sector ;;
    '(st, d) <- dir_open st p ;;
    match d with
    | None => Ok (st, false)
    | Some dd =>
        '(st, ok1) <- dir_add st d SELF_STR sector true ;;
        if negb ok1 then st <- dir_close st d ;; Ok (st, false)
        else
          '(st, ok2) <- dir_add st d PARENT_STR parent true ;;
          if negb ok2 then st <- dir_close st d ;; Ok (st, false)
          else
            '(st, _) <- inode_counter_add st (d_inode dd) (-2) ;;
            st <- dir_close st d ;;
            Ok (st, true)
    end.

Definition dir_create_root (st : fs) : res (fs * bool) :=
  _dir_create st ROOT_DIR_SECTOR DEFAULT_ENTRY_CNT ROOT_DIR_SECTOR.

Definition dir_create (st : fs) (sector : Z) (_parent : option dir)
  : res (fs * bool) :=
  match _parent with
  | None => Err NullDeref
  | Some d =>
      parent <- inode_get_inumber st (d_inode d) ;;
      _dir_create st sector DEFAULT_ENTRY_CNT parent
  end.

(** The loop of [dir_readdir]: the new position and the name found. *)
Fixpoint readdir_loop (fuel : nat) (st : fs) (ino : Z) (pos : Z)
  : res (Z * option cstring) :=
  match fuel with
  | O => Err OutOfFuel
  | S fuel' =>
      '(n, e) <- inode_read_at st ino SIZEOF_DIR_ENTRY pos ;;
      if n =? SIZEOF_DIR_ENTRY then
        let pos := pos + SIZEOF_DIR_ENTRY in
        if e_in_use e
           && negb (strncmp_eq (Z.to_nat NAME_MAX) (e_name e) PARENT_STR)
           && negb (strncmp_eq (Z.to_nat NAME_MAX) (e_name e) SELF_STR)
        then Ok (pos, Some (cstr_of (e_name e)))
        else readdir_loop fuel' st ino pos
      else Ok (pos, None)
  end.

Definition dir_readdir (st : fs) (d : dir) : res (dir * option cstring) :=
  fuel <- entry_fuel st (d_inode d) ;;
  '(pos, name) <- readdir_loop fuel st (d_inode d) (d_pos d) ;;
  Ok (mkDir (d_inode d) pos, name).

(* ===================================================================== *)
(** ** filesys/filesys.c *)
(* ===================================================================== *)

Module Filesys.

(** [(block_sector_t) -1]; filesys.c has its own [NO_SECTOR]. *)
Definition NO_SECTOR : Z := 2 ^ 32 - 1.

Definition SLASH : byte := Byte.x2f.

(** [strrchr(path, '/')] as the index of the last ['/']. *)
Fixpoint strrchr_slash (path : cstring) (i : Z) (last : option Z) : option Z :=
  match path with
  | [] => last
  | c :: t =>
      strrchr_slash t (i + 1) (if Byte.eqb c SLASH then Some i else last)
  end.

(** The tokens that [strtok_r(..., "/", ...)] yields one after the other:
    the maximal runs of bytes other than ['/'].  [cur] is the run being
    read, reversed. *)
Fixpoint tokens (s : cstring) (cur : list byte) : list cstring :=
  match s with
  | [] => match cur with [] => [] | _ => [rev cur] end
  | c :: t =>
      if Byte.eqb c SLASH then
        match cur with
        | [] => tokens t []
        | _ => rev cur :: tokens t []
        end
      else tokens t (c :: cur)
  end.

(** The loop of [filesys_locate_dir] over the tokens. *)
Fixpoint locate_loop (st : fs) (d : option dir) (toks : list cstring)
  : res (fs * option dir * bool) :=
  match toks with
  | [] => Ok (st, d, true)
  | subdir_str :: rest =>
      '(st, r) <- dir_lookup st d subdir_str ;;
      match r with
      | Some (inode, true) =>
          '(st, subdir) <- dir_open st (Some inode) ;;
          st <- dir_close st d ;;
          locate_loop st subdir rest
      | _ =>
          st <- dir_close st d ;;
          Ok (st, None, false)
      end
  end.

(** [filesys_locate_dir]; [palloc_get_page] draws from the same [heap], and
    the page is written without a check. *)
Definition filesys_locate_dir (st : fs) (path : cstring) (wd : option dir)
  (len : Z) : res (fs * option dir) :=
  let abs := Byte.eqb (hd zero_byte path) SLASH
             || match wd with None => true | Some _ => false end in
  '(st, wd) <- (if abs then dir_open_root st else Ok (st, wd)) ;;
  let (st, ok) := malloc st in
  _ <- (if ok then Ok tt else Err NullDeref) ;;
  let _path := cstr_of (firstn (Z.to_nat len) path) in
  '(st, d) <- dir_reopen st wd ;;
  '(st, d, ok) <- locate_loop st d (tokens _path []) ;;
  if ok : bool then
    st <- (if abs then dir_close st wd else Ok st) ;;
    Ok (st, d)
  else Ok (st, None).

Definition filesys_open_dir (st : fs) (path : option cstring) (wd : option dir)
  : res (fs * option dir) :=
  match path with
  | None | Some [] => Ok (st, None)
  | Some path => filesys_locate_dir st path wd (Z.of_nat (length path))
  end.

(** [filesys_locate_parent]: on success the file name and the directory. *)
Definition filesys_locate_parent (st : fs) (path : option cstring)
  (wd : option dir) : res (fs * option (cstring * option dir)) :=
  match path with
  | None | Some [] => Ok (st, None)
  | Some path =>
      match strrchr_slash path 0 None with
      | None =>
          '(st, d) <- (match wd with
                       | Some _ => dir_reopen st wd
                       | None => dir_open_root st
                       end) ;;
          Ok (st, Some (path, d))
      | Some len =>
          if len =? Z.of_nat (length path) - 1 then Ok (st, None)
          else
            '(st, d) <- filesys_locate_dir st path wd len ;;
            match d with
            | None => Ok (st, None)
            | Some _ => Ok (st, Some (skipn (Z.to_nat (len + 1)) path, d))
            end
      end
  end.

Definition filesys_create (st : fs) (path : option cstring)
  (initial_size : Z) (is_dir : bool) (wd : option dir) : res (fs * bool) :=
  '(st, r) <- filesys_locate_parent st path wd ;;
  match r with
  | None => Ok (st, false)
  | Some (file_str, d) =>
      '(st, got) <- free_map_get st ;;
      let inode_sector := match got with Some s => s | None => NO_SECTOR end in
      '(st, success) <-
        (match got with
         | None => Ok (st, false)
         | Some _ =>
             '(st, ok) <- (if is_dir then dir_create st inode_sector d
                           else inode_create st inode_sector initial_size) ;;
             if negb ok then Ok (st, false)
             else
               '(st, ok) <- dir_add st d file_str inode_sector is_dir ;;
               Ok (st, ok)
         end) ;;
      st <- (if negb success && negb (inode_sector =? NO_SECTOR)
             then free_map_release st inode_sector 1 else Ok st) ;;
      st <- dir_close st d ;;
      Ok (st, success)
  end.

Definition filesys_create_file (st : fs) (path : option cstring)
  (initial_size : Z) (wd : option dir) : res (fs * bool) :=
  filesys_create st path initial_size false wd.

Definition filesys_create_dir (st : fs) (path : option cstring)
  (wd : option dir) : res (fs * bool) :=
  filesys_create st path 0 true wd.

(** The test of [filesys_remove] on a directory, made while its inode is
    write-locked. *)
Definition removable (st : fs) (inode : Z) : res bool :=
  cnt <- inode_get_open_cnt st inode ;;
  if cnt <=? 1 then
    counter <- inode_counter_get st inode ;; Ok (counter =? 0)
  else Ok false.

Definition filesys_remove (st : fs) (path : option cstring) (d : option dir)
  : res (fs * bool) :=
  '(st, r) <- filesys_locate_parent st path d ;;
  match r with
  | None => Ok (st, false)
  | Some (file_name, file_dir) =>
      '(st, found) <- dir_lookup st file_dir file_name ;;
      match found with
      | None => st <- dir_close st file_dir ;; Ok (st, false)
      | Some (inode, is_dir) =>
          '(st, success) <-
            (if is_dir : bool then
               ok <- removable st inode ;;
               if ok : bool then dir_remove st file_dir file_name
               else Ok (st, false)
             else dir_remove st file_dir file_name) ;;
          st <- inode_close st (Some inode) ;;
          st <- dir_close st file_dir ;;
          Ok (st, success)
      end
  end.

(** [do_format]; a failed [dir_create_root] is a PANIC. *)
Definition do_format (st : fs) (block : list Z) : res fs :=
  st <- free_map_create st block ;;
  '(st, ok) <- dir_create_root st ;;
  _ <- assert ok ;;
  Ok st.

End Filesys.

(* ===================================================================== *)
(** ** vm/swaptbl.c and vm/mappings.c *)
(* ===================================================================== *)

Module Vm.

(** Constants of threads/vaddr.h. *)
Definition PGSIZE : Z := 4096.
Definition PHYS_BASE : Z := 3221225472.        (* 0xc0000000 *)
Definition pg_ofs (va : Z) : Z := Z.land va (PGSIZE - 1).

Definition SECTORS_PER_PAGE : Z := PGSIZE / BLOCK_SECTOR_SIZE.

(** [struct vm_mapping].  The union [data] occupies two words: the first
    holds [file_info.file] or [swap_slot], the second [file_info.offset]
    and [file_info.size]. *)
Record mapping : Type := mkMapping {
  page : Z;
  present : bool;
  writable : bool;
  hasfile : bool;
  fwrite : bool;
  map_start : bool;
  orphaned : bool;
  swapped : bool;
  isstack : bool;
  pt : Z;
  frame : Z;
  data_w0 : Z;
  data_w1 : Z
}.

Definition file_info_file (m : mapping) : Z := data_w0 m.
Definition file_info_offset (m : mapping) : Z := Z.land (data_w1 m) (2 ^ 20 - 1).
Definition file_info_size (m : mapping) : Z := Z.shiftr (data_w1 m) 20.
Definition swap_slot (m : mapping) : Z := data_w0 m.

Definition set_present (m : mapping) (v : bool) : mapping :=
  mkMapping (page m) v (writable m) (hasfile m) (fwrite m) (map_start m)
    (orphaned m) (swapped m) (isstack m) (pt m) (frame m) (data_w0 m) (data_w1 m).
Definition set_hasfile (m : mapping) (v : bool) : mapping :=
  mkMapping (page m) (present m) (writable m) v (fwrite m) (map_start m)
    (orphaned m) (swapped m) (isstack m) (pt m) (frame m) (data_w0 m) (data_w1 m).
Definition set_fwrite (m : mapping) (v : bool) : mapping :=
  mkMapping (page m) (present m) (writable m) (hasfile m) v (map_start m)
    (orphaned m) (swapped m) (isstack m) (pt m) (frame m) (data_w0 m) (data_w1 m).
Definition set_swapped (m : mapping) (v : bool) : mapping :=
  mkMapping (page m) (present m) (writable m) (hasfile m) (fwrite m) (map_start m)
    (orphaned m) v (isstack m) (pt m) (frame m) (data_w0 m) (data_w1 m).
Definition set_frame (m : mapping) (v : Z) : mapping :=
  mkMapping (page m) (present m) (writable m) (hasfile m) (fwrite m) (map_start m)
    (orphaned m) (swapped m) (isstack m) (pt m) v (data_w0 m) (data_w1 m).
Definition set_swap_slot (m : mapping) (v : Z) : mapping :=
  mkMapping (page m) (present m) (writable m) (hasfile m) (fwrite m) (map_start m)
    (orphaned m) (swapped m) (isstack m) (pt m) (frame m) (u32 v) (data_w1 m).

(** A hardware page-table entry, as far as mappings.c consults it. *)
Record pte : Type := mkPte {
  pte_frame : option Z;
  pte_dirty : bool;
  pte_accessed : bool
}.

(** The state that the eviction path works on.
    - [pd pt page]: the page-table entry of [page] in the page directory of
      the supplemental page table [pt];
    - [mem]: the content of every frame, by its kernel address;
    - [occupied], [swap_dev]: the bitmap of swaptbl.c and the sectors of the
      swap device;
    - [file_writes]: the writes made to files, latest first, as
      (file, byte offset, bytes);
    - [file_data f ofs n]: what [file_read] returns at offset [ofs] of [f]
      for [n] bytes;
    - [closed_files], [freed_pages]: the files closed and the pages given
      back to the page allocator;
    - [page_supply]: the outcomes of the coming [palloc_get_page] calls. *)
Record vm : Type := mkVm {
  pd : Z -> Z -> pte;
  mem : Z -> list byte;
  occupied : bitmap;
  swap_dev : Z -> list byte;
  file_writes : list (Z * Z * list byte);
  file_data : Z -> Z -> Z -> list byte;
  closed_files : list Z;
  freed_pages : list Z;
  page_supply : list (option Z)
}.

Definition set_pd (st : vm) (f : Z -> Z -> pte) : vm :=
  mkVm f (mem st) (occupied st) (swap_dev st) (file_writes st) (file_data st)
    (closed_files st) (freed_pages st) (page_supply st).
Definition set_mem (st : vm) (f : Z -> list byte) : vm :=
  mkVm (pd st) f (occupied st) (swap_dev st) (file_writes st) (file_data st)
    (closed_files st) (freed_pages st) (page_supply st).
Definition set_occupied (st : vm) (b : bitmap) : vm :=
  mkVm (pd st) (mem st) b (swap_dev st) (file_writes st) (file_data st)
    (closed_files st) (freed_pages st) (page_supply st).
Definition set_swap_dev (st : vm) (f : Z -> list byte) : vm :=
  mkVm (pd st) (mem st) (occupied st) f (file_writes st) (file_data st)
    (closed_files st) (freed_pages st) (page_supply st).
Definition set_file_writes (st : vm) (l : list (Z * Z * list byte)) : vm :=
  mkVm (pd st) (mem st) (occupied st) (swap_dev st) l (file_data st)
    (closed_files st) (freed_pages st) (page_supply st).
Definition set_closed_files (st : vm) (l : list Z) : vm :=
  mkVm (pd st) (mem st) (occupied st) (swap_dev st) (file_writes st)
    (file_data st) l (freed_pages st) (page_supply st).
Definition set_freed_pages (st : vm) (l : list Z) : vm :=
  mkVm (pd st) (mem st) (occupied st) (swap_dev st) (file_writes st)
    (file_data st) (closed_files st) l (page_supply st).
Definition set_page_supply (st : vm) (l : list (option Z)) : vm :=
  mkVm (pd st) (mem st) (occupied st) (swap_dev st) (file_writes st)
    (file_data st) (closed_files st) (freed_pages st) l.

(** Modelled from the spec: userprog/pagedir.c, threads/palloc.c,
    filesys/file.c and devices/block.c are not part of the sources; the
    next definitions give the part of their contract that mappings.c and
    swaptbl.c rely on ("clear the hardware mapping, inspect dirty bit",
    "read [size] bytes into the frame", whole-sector writes). *)
Definition pagedir_is_dirty (st : vm) (pt page : Z) : bool :=
  pte_dirty (pd st pt page).

Definition pagedir_clear_page (st : vm) (pt page : Z) : vm :=
  set_pd st (fun t p =>
    if (t =? pt) && (p =? page)
    then mkPte None (pte_dirty (pd st t p)) (pte_accessed (pd st t p))
    else pd st t p).

Definition pagedir_set_page (st : vm) (pt page kpage : Z) : vm :=
  set_pd st (fun t p =>
    if (t =? pt) && (p =? page) then mkPte (Some kpage) false false
    else pd st t p).

Definition palloc_free_page (st : vm) (page : Z) : vm :=
  set_freed_pages st (page :: freed_pages st).

Definition palloc_get_page (st : vm) : vm * option Z :=
  match page_supply st with
  | [] => (st, None)
  | p :: l => (set_page_supply st l, p)
  end.

Definition file_close (st : vm) (file : Z) : vm :=
  set_closed_files st (file :: closed_files st).

(** [file_seek (file, offset); file_write (file, bytes, size)]. *)
Definition file_write_at (st : vm) (file offset : Z) (bytes : list byte) : vm :=
  set_file_writes st ((file, offset, bytes) :: file_writes st).

Definition block_write (st : vm) (sec : Z) (buf : list byte) : vm :=
  set_swap_dev st (fun s => if s =? sec then buf else swap_dev st s).

(** The loop of [swaptbl_store] over the sectors of the slot, with [n]
    iterations left. *)
Fixpoint store_loop (n : nat) (st : vm) (page slot sec : Z) : vm :=
  match n with
  | O => st
  | S n' =>
      let off := (sec - slot * SECTORS_PER_PAGE) * BLOCK_SECTOR_SIZE in
      store_loop n' (block_write st sec (sub (mem st page) off BLOCK_SECTOR_SIZE))
        page slot (sec + 1)
  end.

Definition swaptbl_store (st : vm) (page : Z) : res (vm * Z) :=
  _ <- assert (pg_ofs page =? 0) ;;
  _ <- assert (PHYS_BASE <? page) ;;
  slot <- bitmap_lowest (occupied st) false ;;
  _ <- assert (negb (slot =? BITMAP_ERROR)) ;;
  b <- bitmap_set (occupied st) slot true ;;
  let st := set_occupied st b in
  let st := store_loop (Z.to_nat SECTORS_PER_PAGE) st page slot
              (slot * SECTORS_PER_PAGE) in
  Ok (st, slot).

(** The loop of [swaptbl_load]: the page content read from the slot. *)
Fixpoint load_loop (n : nat) (st : vm) (sec : Z) : list byte :=
  match n with
  | O => []
  | S n' => sub (swap_dev st sec) 0 BLOCK_SECTOR_SIZE ++ load_loop n' st (sec + 1)
  end.

Definition swaptbl_load (st : vm) (page : option Z) (slot : Z) : res vm :=
  st <- (match page with
         | None => Ok st
         | Some page =>
             _ <- assert (pg_ofs page =? 0) ;;
             _ <- assert (PHYS_BASE <? page) ;;
             let content := load_loop (Z.to_nat SECTORS_PER_PAGE) st
                              (slot * SECTORS_PER_PAGE) in
             Ok (set_mem st (fun a => if a =? page then content else mem st a))
         end) ;;
  _ <- assert (slot <? bitmap_size (occupied st)) ;;
  t <- bitmap_test (occupied st) slot ;;
  _ <- assert t ;;
  b <- bitmap_set (occupied st) slot false ;;
  Ok (set_occupied st b).

Definition evict_to_file (st : vm) (m : mapping) : vm :=
  let file := file_info_file m in
  let offset := sint32 (file_info_offset m * PGSIZE) in
  let size := file_info_size m + 1 in
  file_write_at st file offset (sub (mem st (frame m)) 0 size).

(** [mapping_free]; the mapping no longer exists afterwards. *)
Definition mapping_free (st : vm) (m : mapping) : res vm :=
  let st := if fwrite m then file_close st (file_info_file m) else st in
  st <- (if swapped m && negb (present m)
         then swaptbl_load st None (swap_slot m) else Ok st) ;;
  Ok (if present m then palloc_free_page st (frame m) else st).

(** [vm_evict_page]: the state and the mapping afterwards, [None] when the
    mapping was freed (or was null). *)
Definition vm_evict_page (st : vm) (m : option mapping)
  : res (vm * option mapping) :=
  match m with
  | None => Ok (st, None)
  | Some m =>
      _ <- assert (present m) ;;
      let frame := frame m in
      if orphaned m then
        st <- mapping_free st m ;; Ok (st, None)
      else
        let m := set_present m false in
        let is_dirty := pagedir_is_dirty st (pt m) (page m) in
        let st := pagedir_clear_page st (pt m) (page m) in
        '(st, m) <-
          (if negb is_dirty && negb (swapped m) then Ok (st, m)
           else if hasfile m && fwrite m then Ok (evict_to_file st m, m)
           else
             let m := if hasfile m
                      then set_hasfile (set_fwrite m false) false else m in
             let m := set_swapped m true in
             '(st, slot) <- swaptbl_store st frame ;;
             Ok (st, set_swap_slot m slot)) ;;
        Ok (palloc_free_page st frame, Some m)
  end.

(** [_load_page] on the mapping found for the page: the state, the mapping
    and the frame, [None] for a null result. *)
Definition _load_page (st : vm) (m : mapping)
  : res (vm * mapping * option Z) :=
  '(st, kpage) <-
    (if hasfile m then
       let (st, kpage) := palloc_get_page st in
       match kpage with
       | None => Ok (st, None)
       | Some k =>
           let offset := sint32 (file_info_offset m * PGSIZE) in
           let size := file_info_size m + 1 in
           let got := file_data st (file_info_file m) offset size in
           let eof := Z.of_nat (length got) in
           Ok (set_mem st (fun a => if a =? k then got ++ zeros (PGSIZE - eof)
                                    else mem st a), Some k)
       end
     else if swapped m then
       let (st, kpage) := palloc_get_page st in
       match kpage with
       | None => Ok (st, None)
       | Some k => st <- swaptbl_load st (Some k) (swap_slot m) ;; Ok (st, Some k)
       end
     else
       let (st, kpage) := palloc_get_page st in
       match kpage with
       | None => Ok (st, None)
       | Some k =>
           Ok (set_mem st (fun a => if a =? k then zeros PGSIZE else mem st a),
               Some k)
       end) ;;
  match kpage with
  | None => Ok (st, m, None)
  | Some k =>
      let st := pagedir_set_page st (pt m) (page m) k in
      Ok (st, set_frame (set_present m true) k, Some k)
  end.

Definition set_orphaned (m : mapping) (v : bool) : mapping :=
  mkMapping (page m) (present m) (writable m) (hasfile m) (fwrite m)
    (map_start m) v (swapped m) (isstack m) (pt m) (frame m) (data_w0 m)
    (data_w1 m).

(** [mapping_destroy] on the mapping of a hash element: the state and the
    mapping afterwards, [None] when the mapping was freed. *)
Definition mapping_destroy (st : vm) (m : option mapping)
  : res (vm * option mapping) :=
  match m with
  | None => Ok (st, None)
  | Some m =>
      if present m then
        let m := set_orphaned m true in
        let st := if fwrite m && pagedir_is_dirty st (pt m) (page m)
                  then evict_to_file st m else st in
        Ok (st, Some m)
      else st <- mapping_free st m ;; Ok (st, None)
  end.

(** What can happen to a mapping that stays in the supplemental page
    table: its page is loaded, its page is evicted, and the processor sets
    the accessed and dirty bits of its page-table entry. *)
Inductive mstep : vm * mapping -> vm * mapping -> Prop :=
| mstep_load st m st' m' k :
    _load_page st m = Ok (st', m', k) -> mstep (st, m) (st', m')
| mstep_evict st m st' m' :
    vm_evict_page st (Some m) = Ok (st', Some m') -> mstep (st, m) (st', m')
| mstep_access st m d a :
    mstep (st, m)
      (set_pd st (fun t p =>
         if (t =? pt m) && (p =? page m)
         then mkPte (pte_frame (pd st t p)) d a else pd st t p), m).

Inductive msteps : vm * mapping -> vm * mapping -> Prop :=
| msteps_refl x : msteps x x
| msteps_step x y z : mstep x y -> msteps y z -> msteps x z.

End Vm.

(* ===================================================================== *)
(** ** Notions used to state the properties *)
(* ===================================================================== *)

(** The number of sectors that the index of an inode addresses, and the
    corresponding length in bytes. *)
Definition MAX_SECTORS : Z := NUM_DIRECT + NUM_INDIRECT * INDIRECT_NUM_DIRECT.
Definition MAX_LENGTH : Z := MAX_SECTORS * BLOCK_SECTOR_SIZE.

(** The index entries as pure functions of the sector contents. *)
Definition dir_entry (data : list byte) (i : Z) : Z :=
  load 2 data (OFS_DIRECT + SIZEOF_FS_SECTOR * i).
Definition ind_entry (data : list byte) (i : Z) : Z :=
  load 2 data (OFS_INDIRECT + SIZEOF_FS_SECTOR * i).
Definition sub_entry (node : list byte) (j : Z) : Z :=
  load 2 node (SIZEOF_FS_SECTOR * j).

(** The places where the index of an inode can name a sector. *)
Inductive slot : Type :=
| SDir (i : Z)            (* direct[i] *)
| SInd (i : Z)            (* indirect[i] *)
| SChild (i j : Z).       (* direct[j] of the sector indirect[i] *)

Definition slot_ok (sl : slot) : Prop :=
  match sl with
  | SDir i => 0 <= i < NUM_DIRECT
  | SInd i => 0 <= i < NUM_INDIRECT
  | SChild i j => 0 <= i < NUM_INDIRECT /\ 0 <= j < INDIRECT_NUM_DIRECT
  end.

(** The sector named at a slot of the inode in sector [s], [NO_SECTOR] if
    there is none. *)
Definition slot_val (st : fs) (s : Z) (sl : slot) : Z :=
  match sl with
  | SDir i => dir_entry (sectors st s) i
  | SInd i => ind_entry (sectors st s) i
  | SChild i j =>
      let n := ind_entry (sectors st s) i in
      if n =? NO_SECTOR then NO_SECTOR else sub_entry (sectors st n) j
  end.

(** The slot that holds the data sector number [k] of a file. *)
Definition slot_of (k : Z) : slot :=
  if k <? NUM_DIRECT then SDir k
  else SChild ((k - NUM_DIRECT) / INDIRECT_NUM_DIRECT)
              ((k - NUM_DIRECT) mod INDIRECT_NUM_DIRECT).

(** The content of data sector number [k] of the file: zeros where no
    sector is allocated. *)
Definition fsec (st : fs) (s : Z) (k : Z) : list byte :=
  let x := slot_val st s (slot_of k) in
  if x =? NO_SECTOR then ZERO_BUF else sectors st x.

(** The byte at offset [pos] of the file. *)
Definition fbyte (st : fs) (s : Z) (pos : Z) : byte :=
  byte_at (fsec st s (pos / BLOCK_SECTOR_SIZE)) (pos mod BLOCK_SECTOR_SIZE).

(** The [n] bytes of the file from offset [off]. *)
Definition fbytes (st : fs) (s : Z) (off n : Z) : list byte :=
  map (fun i => fbyte st s (off + Z.of_nat i)) (seq 0 (Z.to_nat n)).

(** A sector that the cache serves: on the device, outside the free map. *)
Definition valid_sector (st : fs) (x : Z) : Prop :=
  0 <= x < fs_disk_size st /\ is_free_map_sec st x = false.

(** A sector marked as in use in the free map. *)
Definition marked (st : fs) (x : Z) : Prop := bitval (free_map st) x = true.

(** Well-formed global state: sector-sized buffers, a device within the
    limit that [fs_disk_init] enforces, a free map of a sensible size. *)
Record fs_ok (st : fs) : Prop := mkFsOk {
  ok_sectors : forall x, length (sectors st x) = Z.to_nat BLOCK_SECTOR_SIZE;
  ok_junk : length (junk st) = Z.to_nat BLOCK_SECTOR_SIZE;
  ok_size : 0 <= fs_disk_size st <= MAX_DISK_SIZE / BLOCK_SECTOR_SIZE;
  ok_bit_cnt : 0 <= bit_cnt (free_map st) < 2 ^ 31
}.

(** Well-formed inode in sector [s]: the sectors its index names are
    sectors that the cache serves, are marked in the free map, differ from
    the inode sector, and no sector is named twice. *)
Record inode_wf (st : fs) (s : Z) : Prop := mkInodeWf {
  wf_self : valid_sector st s /\ marked st s;
  wf_slots : forall sl, slot_ok sl -> slot_val st s sl <> NO_SECTOR ->
             valid_sector st (slot_val st s sl) /\
             marked st (slot_val st s sl) /\
             slot_val st s sl <> s;
  wf_inj : forall sl sl', slot_ok sl -> slot_ok sl' ->
           slot_val st s sl <> NO_SECTOR ->
           slot_val st s sl = slot_val st s sl' -> sl = sl'
}.

(** The fields of the state other than the sectors and the free map. *)
Definition same_meta (st st' : fs) : Prop :=
  disk_size st' = disk_size st /\ open_inodes st' = open_inodes st /\
  heap st' = heap st /\ junk st' = junk st.

(** The sectors of the inode in sector [s]: the inode sector and the
    sectors that its index names. *)
Definition owned (st : fs) (s x : Z) : Prop :=
  x = s \/ (x <> NO_SECTOR /\ exists sl, slot_ok sl /\ slot_val st s sl = x).

(** From [st] to [st'] no sector in use becomes free, and a sector in use
    that the inode in sector [s] does not own keeps its content and is not
    owned by that inode in [st'] either. *)
Definition frame (st st' : fs) (s : Z) : Prop :=
  (forall x, 0 <= x -> marked st x -> marked st' x) /\
  (forall x, 0 <= x -> marked st x -> ~ owned st s x ->
     sectors st' x = sectors st x /\ ~ owned st' s x).

(** [st'] keeps the inode in sector [s] well formed, leaves its header and
    the content of the file as they are in [st], and leaves the sectors in
    use that are not its own alone. *)
Definition preserves (st st' : fs) (s : Z) : Prop :=
  same_meta st st' /\ fs_ok st' /\ inode_wf st' s /\
  (forall k, 0 <= k < MAX_SECTORS -> fsec st' s k = fsec st s k) /\
  (forall m a, 0 <= a -> a + Z.of_nat m <= SIZEOF_HEADER ->
     load m (sectors st' s) a = load m (sectors st s) a) /\
  frame st st' s.

(** The sector and the byte offset at which a slot is stored. *)
Definition slot_loc (st : fs) (s : Z) (sl : slot) : Z * Z :=
  match sl with
  | SDir i => (s, OFS_DIRECT + SIZEOF_FS_SECTOR * i)
  | SInd i => (s, OFS_INDIRECT + SIZEOF_FS_SECTOR * i)
  | SChild i j => (ind_entry (sectors st s) i, SIZEOF_FS_SECTOR * j)
  end.

(** The slot exists: the indirect sector of a child slot is there. *)
Definition slot_present (st : fs) (s : Z) (sl : slot) : Prop :=
  match sl with
  | SChild i _ => ind_entry (sectors st s) i <> NO_SECTOR
  | _ => True
  end.

(** The initial content of a sector newly named at a slot: zeros for a data
    sector, [NO_SECTOR] in every entry for an indirect sector. *)
Definition fresh_content (sl : slot) (c : list byte) : Prop :=
  match sl with
  | SInd _ => length c = Z.to_nat BLOCK_SECTOR_SIZE /\
              forall j, 0 <= j < INDIRECT_NUM_DIRECT -> sub_entry c j = NO_SECTOR
  | _ => c = ZERO_BUF
  end.

(** [st'] is [st] after the allocation of the sector [sec], with initial
    content [c], at the slot [sl] of the inode in sector [s]. *)
Definition allocated_at (st st' : fs) (s : Z) (sl : slot) (sec : Z)
  (c : list byte) : Prop :=
  same_meta st st' /\
  bit_cnt (free_map st') = bit_cnt (free_map st) /\
  bitval (free_map st') sec = true /\
  (forall y, 0 <= y -> y <> sec ->
     bitval (free_map st') y = bitval (free_map st) y) /\
  sectors st' sec = c /\
  sectors st' (fst (slot_loc st s sl)) =
    store 2 (sectors st (fst (slot_loc st s sl))) (snd (slot_loc st s sl)) sec /\
  (forall x, x <> sec -> x <> fst (slot_loc st s sl) ->
     sectors st' x = sectors st x).

(** The [k]-th entry of the directory whose inode is in sector [s]. *)
Definition entry_at (st : fs) (s k : Z) : list byte :=
  fbytes st s (SIZEOF_DIR_ENTRY * k) SIZEOF_DIR_ENTRY.

(** The test of [lookup] on one entry:
    [e.in_use && !strncmp(name, e.name, NAME_MAX)]. *)
Definition entry_matches (name : cstring) (e : list byte) : bool :=
  e_in_use e && strncmp_eq (Z.to_nat NAME_MAX) name (e_name e).

(** The first of the [n] entries from the [k]-th on that passes the test of
    [lookup], with its byte offset. *)
Fixpoint first_match (name : cstring) (st : fs) (s : Z) (n : nat) (k : Z)
  : option (list byte * Z) :=
  match n with
  | O => None
  | S n' =>
      if entry_matches name (entry_at st s k)
      then Some (entry_at st s k, SIZEOF_DIR_ENTRY * k)
      else first_match name st s n' (k + 1)
  end.

(** The loop bound of the model was enough: the result is not the fault
    that stands for an exhausted bound. *)
Definition terminates {A} (r : res A) : Prop := r <> Err OutOfFuel.

(** The call returns or stops at a failed assertion: it makes no access
    outside of an array or through a dangling pointer, it does not wait
    for ever, and the loop bound of the model was enough. *)
Definition well_defined {A} (r : res A) : Prop :=
  match r with
  | Ok _ | Err AssertFail => True
  | _ => False
  end.

(** The same, with what is known of the result of a call that returns. *)
Definition wd_post {A} (r : res A) (P : A -> Prop) : Prop :=
  well_defined r /\ forall a, r = Ok a -> P a.


(** Two inodes that share no sector. *)
Definition disjoint (st : fs) (s t : Z) : Prop :=
  forall x, owned st s x -> ~ owned st t x.

(** The inodes in the sectors [inos] on a well-formed device: each is well
    formed, no two of them share a sector, and no open inode has been
    removed. *)
Record files_ok (st : fs) (inos : list Z) : Prop := mkFilesOk {
  fo_fs : fs_ok st;
  fo_wf : forall t, In t inos -> inode_wf st t;
  fo_disjoint : forall t u, In t inos -> In u inos -> t <> u ->
                disjoint st t u;
  fo_live : forall i, In i (open_inodes st) -> removed i = false
}.

(** The calls on an inode, [inode_remove] apart. *)
Inductive inode_op : Type :=
| OpWrite (buffer : list byte) (size offset : Z)   (* inode_write_at *)
| OpRead (size offset : Z)                         (* inode_read_at *)
| OpLength                                         (* inode_length *)
| OpCounterGet                                     (* inode_counter_get *)
| OpCounterAdd (x : Z)                             (* inode_counter_add *)
| OpDenyWrite                                      (* inode_deny_write *)
| OpAllowWrite                                     (* inode_allow_write *)
| OpOpen                                           (* inode_open *)
| OpReopen                                         (* inode_reopen *)
| OpClose.                                         (* inode_close *)

(** The arguments of a call.  A write has an [off_t] offset that is not
    negative and a buffer that holds [size] bytes.  The positions that a
    read or a write hands to [byte_to_sector], those of the read-ahead
    included, are within the [MAX_LENGTH] bytes that the index of an inode
    addresses. *)
Definition op_ok (op : inode_op) : Prop :=
  match op with
  | OpWrite buffer size offset =>
      0 <= offset < 2 ^ 31 /\ 0 <= size <= Z.of_nat (length buffer) /\
      (size = 0 \/ offset + size <= MAX_LENGTH)
  | OpRead size offset =>
      size <= 0 \/
      (0 <= offset /\ offset + size + BLOCK_SECTOR_SIZE <= MAX_LENGTH)
  | _ => True
  end.

(** One call on the inode [ino]; for a write that is not denied, also the
    final offset, that is, the offset plus the number of bytes written. *)
Definition run_op (st : fs) (ino : Z) (op : inode_op) : res (fs * option Z) :=
  match op with
  | OpWrite buffer size offset =>
      i <- deref st ino ;;
      '(st', w) <- inode_write_at st ino buffer size offset ;;
      Ok (st', if deny_write_cnt i =? 0 then Some (offset + w) else None)
  | OpRead size offset =>
      _ <- inode_read_at st ino size offset ;; Ok (st, None)
  | OpLength => _ <- inode_length st ino ;; Ok (st, None)
  | OpCounterGet => _ <- inode_counter_get st ino ;; Ok (st, None)
  | OpCounterAdd x =>
      '(st', _) <- inode_counter_add st ino x ;; Ok (st', None)
  | OpDenyWrite => st' <- inode_deny_write st ino ;; Ok (st', None)
  | OpAllowWrite => st' <- inode_allow_write st ino ;; Ok (st', None)
  | OpOpen => '(st', _) <- inode_open st ino ;; Ok (st', None)
  | OpReopen => '(st', _) <- inode_reopen st (Some ino) ;; Ok (st', None)
  | OpClose => st' <- inode_close st (Some ino) ;; Ok (st', None)
  end.

(** A sequence of calls, each with the inode it is made on; [hi] becomes
    the largest of its initial value and the final offsets of the writes
    on the inode [ino]. *)
Fixpoint run_ops (st : fs) (ino : Z) (ops : list (Z * inode_op)) (hi : Z)
  : res (fs * Z) :=
  match ops with
  | [] => Ok (st, hi)
  | (t, op) :: rest =>
      '(st', r) <- run_op st t op ;;
      run_ops st' ino rest
        (match r with
         | Some x => if t =? ino then Z.max hi x else hi
         | None => hi
         end)
  end.

(** The calls are made on inodes of [inos], with arguments as above. *)
Definition ops_ok (inos : list Z) (ops : list (Z * inode_op)) : Prop :=
  Forall (fun o => In (fst o) inos /\ op_ok (snd o)) ops.

(* ===================================================================== *)
(** ** Concrete runs *)
(* ===================================================================== *)

Module Scenario.
Import Filesys.

(** A device of [n] sectors before formatting: zeroed sectors, a zeroed
    free-map buffer, no open inode. *)
Definition blank (n : Z) : fs :=
  mkFs n (fun _ => zeros BLOCK_SECTOR_SIZE) (mkBitmap 0 []) [] []
    (repeat Byte.xaa (Z.to_nat BLOCK_SECTOR_SIZE)).

(** [filesys_init (true)] on it. *)
Definition formatted (n : Z) : res fs :=
  do_format (blank n) (repeat 0 (Z.to_nat (elem_cnt n))).

(** [n] calls of [free_map_get]. *)
Fixpoint take_sectors (n : nat) (st : fs) : res fs :=
  match n with
  | O => Ok st
  | S n' => '(st, _) <- free_map_get st ;; take_sectors n' st
  end.

Definition digit (i : Z) : byte :=
  match Byte.of_N (Z.to_N (48 + i)) with Some b => b | None => Byte.x30 end.

(** The path ["/fNN"]. *)
Definition fname (i : Z) : cstring :=
  [Byte.x2f; Byte.x66; digit (i / 10); digit (i mod 10)].

(** [filesys_create_file] of ["/f<i>"], ["/f<i+1>"], ..., [n] files of
    size 0, each of which must succeed. *)
Fixpoint create_files (n : nat) (i : Z) (st : fs) : res fs :=
  match n with
  | O => Ok st
  | S n' =>
      '(st, ok) <- filesys_create_file st (Some (fname i)) 0 None ;;
      _ <- assert ok ;;
      create_files n' (i + 1) st
  end.

(** The names that [dir_readdir] yields from position [d_pos d] on, at most
    [fuel] of them. *)
Fixpoint readdir_all (fuel : nat) (st : fs) (d : dir) : res (list cstring) :=
  match fuel with
  | O => Ok []
  | S fuel' =>
      '(d, r) <- dir_readdir st d ;;
      match r with
      | Some name => l <- readdir_all fuel' st d ;; Ok (name :: l)
      | None => Ok []
      end
  end.

(** The number of entries in use other than "." and "..", as [dir_readdir]
    enumerates them, of the directory whose inode is open as [ino]. *)
Definition live_entries (st : fs) (ino : Z) : res Z :=
  len <- inode_length st ino ;;
  l <- readdir_all (S (Z.to_nat (len / SIZEOF_DIR_ENTRY))) st (mkDir ino 0) ;;
  Ok (Z.of_nat (length l)).

(** A 40-sector device, formatted, whose 37 remaining sectors have all
    been allocated. *)
Definition full40 : res fs :=
  st <- formatted 40 ;; take_sectors 37 st.

(** A file whose only data byte lies in sector 200 of its first indirect
    node, removed while one opener is left: the state and the inode. *)
Definition sparse_removed : res (fs * Z) :=
  st <- formatted 64 ;;
  '(st, r) <- free_map_get st ;;
  match r with
  | None => Err AssertFail
  | Some sec =>
      '(st, _) <- inode_create st sec 0 ;;
      '(st, _) <- inode_open st sec ;;
      '(st, _) <- inode_write_at st sec [Byte.x01] 1
                    ((NUM_DIRECT + 200) * BLOCK_SECTOR_SIZE) ;;
      st <- inode_remove st sec ;;
      Ok (st, sec)
  end.

(** A 96-sector device with 62 files in the root directory, whose two data
    sectors are thereby full, the root directory open as inode 0, and all
    but one of the remaining sectors taken by the data of "/f00". *)
Definition crowded_root : res fs :=
  st <- formatted 96 ;;
  st <- create_files 62 0 st ;;
  '(st, root) <- dir_open_root st ;;
  '(st, f) <- dir_lookup st root [Byte.x66; Byte.x30; Byte.x30] ;;
  match f with
  | None => Err AssertFail
  | Some (ino, _) =>
      '(st, n) <- inode_write_at st ino (zeros (29 * BLOCK_SECTOR_SIZE))
                    (29 * BLOCK_SECTOR_SIZE) 0 ;;
      _ <- assert (n =? 29 * BLOCK_SECTOR_SIZE) ;;
      inode_close st (Some ino)
  end.

(** A 64-sector device with the directory "/a". *)
Definition with_dir_a : res fs :=
  st <- formatted 64 ;;
  '(st, ok) <- filesys_create_dir st (Some [Byte.x2f; Byte.x61]) None ;;
  _ <- assert ok ;;
  Ok st.

(** An inode created with a length of 2^30 on a 64-sector device, open. *)
Definition huge_file : res (fs * Z) :=
  st <- formatted 64 ;;
  '(st, r) <- free_map_get st ;;
  match r with
  | None => Err AssertFail
  | Some sec =>
      '(st, _) <- inode_create st sec (2 ^ 30) ;;
      '(st, _) <- inode_open st sec ;;
      Ok (st, sec)
  end.

(** The same device with the file "/a/b" in that directory. *)
Definition with_file_a_b : res fs :=
  st <- with_dir_a ;;
  '(st, ok) <- filesys_create_file st
                 (Some [Byte.x2f; Byte.x61; Byte.x2f; Byte.x62]) 0 None ;;
  _ <- assert ok ;;
  Ok st.

(** The state in which a run without a result ends. *)
Definition final (r : res fs) : fs :=
  match r with
  | Ok st => st
  | Err _ => blank 0
  end.

(** A 64-sector device whose sectors 0 to 5 are in use. *)
Definition six_used : fs :=
  mkFs 64 (fun _ => zeros BLOCK_SECTOR_SIZE) (mkBitmap 64 [63; 0]) [] []
    (repeat Byte.xaa (Z.to_nat BLOCK_SECTOR_SIZE)).

(** The state in which a run ends. *)
Definition state_of {A} (r : res (fs * A)) : fs :=
  match r with
  | Ok (st, _) => st
  | Err _ => blank 0
  end.

(** On it, an inode of length [len] created in sector 5 and opened. *)
Definition file_created (len : Z) : fs := state_of (inode_create six_used 5 len).
Definition file_open (len : Z) : fs := state_of (inode_open (file_created len) 5).

(** The same with every sector of the device in use. *)
Definition full_file (len : Z) : fs :=
  set_free_map (file_open len) (mkBitmap 64 [ELEM_MAX; ELEM_MAX]).

(** The device of [six_used] with an empty inode in sector 4, open. *)
Definition other_open : fs :=
  state_of (inode_open (state_of (inode_create six_used 4 0)) 4).

(** A frame of the user pool whose bytes are all ['A'], the present page
    of a mapping with a file that it may not write, and written to since
    it was loaded; slot 0 of a swap device of four slots is taken. *)
Definition a_frame : Z := Vm.PHYS_BASE + 1048576.
Definition a_vm : Vm.vm :=
  Vm.mkVm (fun _ _ => Vm.mkPte (Some a_frame) true true)
    (fun _ => repeat Byte.x41 (Z.to_nat Vm.PGSIZE))
    (mkBitmap 4 [1]) (fun _ => zeros BLOCK_SECTOR_SIZE) []
    (fun _ _ _ => []) [] [] [].
Definition a_mapping : Vm.mapping :=
  Vm.mkMapping 134512640 true true true false true false false false 1
    a_frame 7 (Z.shiftl 4095 20).

End Scenario.
Lemma rbind_ok {A B} (m : res A) (k : A -> res B) (b : B) :
  rbind m k = Ok b -> exists a, m = Ok a /\ k a = Ok b.
Proof. destruct m; simpl; intros H; [eauto | discriminate]. Qed.

Lemma rbind_ret {A B} (a : A) (k : A -> res B) : rbind (Ok a) k = k a.
Proof. reflexivity. Qed.

Lemma assert_ok b u : assert b = Ok u -> b = true.
Proof. destruct b; simpl; congruence. Qed.

Lemma length_sub b k n :
  0 <= k -> 0 <= n -> k + n <= Z.of_nat (length b) ->
  length (sub b k n) = Z.to_nat n.
Proof.
  intros. unfold sub. rewrite length_firstn, length_skipn. lia.
Qed.

Lemma length_splice b k src :
  0 <= k -> k + Z.of_nat (length src) <= Z.of_nat (length b) ->
  length (splice b k src) = length b.
Proof.
  intros. unfold splice.
  rewrite !length_app, length_firstn, length_skipn. lia.
Qed.

Lemma byte_at_sub b k n i :
  0 <= k -> 0 <= i < n ->
  byte_at (sub b k n) i = byte_at b (k + i).
Proof.
  intros Hk Hi. unfold byte_at, sub.
  rewrite nth_firstn.
  replace (Z.to_nat i <? Z.to_nat n)%nat with true
    by (symmetry; apply Nat.ltb_lt; lia).
  rewrite nth_skipn. f_equal. lia.
Qed.

Lemma byte_at_splice b k src i :
  0 <= k -> k + Z.of_nat (length src) <= Z.of_nat (length b) -> 0 <= i ->
  byte_at (splice b k src) i =
  if (k <=? i) && (i <? k + Z.of_nat (length src))
  then byte_at src (i - k) else byte_at b i.
Proof.
  intros Hk Hlen Hi. unfold byte_at, splice.
  destruct (k <=? i) eqn:E1; simpl.
  - apply Z.leb_le in E1.
    rewrite app_nth2 by (rewrite length_firstn; lia).
    rewrite length_firstn.
    replace (Nat.min (Z.to_nat k) (length b)) with (Z.to_nat k) by lia.
    destruct (i <? k + Z.of_nat (length src)) eqn:E2.
    + apply Z.ltb_lt in E2.
      rewrite app_nth1 by lia. f_equal. lia.
    + apply Z.ltb_ge in E2.
      rewrite app_nth2 by lia. rewrite nth_skipn. f_equal. lia.
  - apply Z.leb_gt in E1.
    rewrite app_nth1 by (rewrite length_firstn; lia).
    rewrite nth_firstn.
    replace (Z.to_nat i <? Z.to_nat k)%nat with true
      by (symmetry; apply Nat.ltb_lt; lia).
    reflexivity.
Qed.

Lemma list_eq_byte_at (a b : list byte) :
  length a = length b ->
  (forall i, 0 <= i < Z.of_nat (length a) -> byte_at a i = byte_at b i) ->
  a = b.
Proof.
  intros Hl H. apply (nth_ext a b zero_byte zero_byte Hl).
  intros n Hn. specialize (H (Z.of_nat n)).
  unfold byte_at in H. rewrite Nat2Z.id in H. apply H. lia.
Qed.

Lemma sub_splice_same b k src :
  0 <= k -> k + Z.of_nat (length src) <= Z.of_nat (length b) ->
  sub (splice b k src) k (Z.of_nat (length src)) = src.
Proof.
  intros Hk Hlen. apply list_eq_byte_at.
  - rewrite length_sub; rewrite ?length_splice; lia.
  - intros i Hi.
    rewrite length_sub in Hi by (rewrite ?length_splice; lia).
    rewrite byte_at_sub by lia.
    rewrite byte_at_splice by lia.
    replace ((k <=? k + i) && (k + i <? k + Z.of_nat (length src))) with true.
    + f_equal. lia.
    + symmetry. apply andb_true_iff. split; [apply Z.leb_le | apply Z.ltb_lt]; lia.
Qed.

Lemma sub_splice_other b k src k' n :
  0 <= k -> k + Z.of_nat (length src) <= Z.of_nat (length b) ->
  0 <= k' -> 0 <= n -> k' + n <= Z.of_nat (length b) ->
  k' + n <= k \/ k + Z.of_nat (length src) <= k' ->
  sub (splice b k src) k' n = sub b k' n.
Proof.
  intros Hk Hlen Hk' Hn Hb Hd. apply list_eq_byte_at.
  - rewrite !length_sub; rewrite ?length_splice; lia.
  - intros i Hi.
    rewrite length_sub in Hi by (rewrite ?length_splice; lia).
    rewrite !byte_at_sub by lia.
    rewrite byte_at_splice by lia.
    replace ((k <=? k' + i) && (k' + i <? k + Z.of_nat (length src))) with false.
    + reflexivity.
    + symmetry. apply andb_false_iff.
      destruct Hd; [left; apply Z.leb_gt | right; apply Z.ltb_ge]; lia.
Qed.

Lemma length_store n b k v :
  0 <= k -> k + Z.of_nat n <= Z.of_nat (length b) ->
  length (store n b k v) = length b.
Proof.
  intros. unfold store. apply length_splice; rewrite ?length_le_split; lia.
Qed.

Lemma load_store_same n b k v :
  0 <= k -> k + Z.of_nat n <= Z.of_nat (length b) ->
  load n (store n b k v) k = v mod 2 ^ (Z.of_nat n * 8).
Proof.
  intros Hk Hlen. unfold load, store.
  rewrite <- (length_le_split n v) at 2.
  rewrite sub_splice_same by (rewrite ?length_le_split; lia).
  apply le_combine_split.
Qed.

Lemma load_store_other n m b k v k' :
  0 <= k -> k + Z.of_nat n <= Z.of_nat (length b) ->
  0 <= k' -> k' + Z.of_nat m <= Z.of_nat (length b) ->
  k' + Z.of_nat m <= k \/ k + Z.of_nat n <= k' ->
  load m (store n b k v) k' = load m b k'.
Proof.
  intros. unfold load, store.
  rewrite sub_splice_other; rewrite ?length_le_split; auto; lia.
Qed.

Lemma load_range n b k : 0 <= load n b k < 2 ^ (Z.of_nat n * 8).
Proof.
  unfold load.
  pose proof (le_combine_bound (sub b k (Z.of_nat n))) as Hb.
  assert (Hl : (length (sub b k (Z.of_nat n)) <= n)%nat).
  { unfold sub. rewrite length_firstn. lia. }
  split; [lia|].
  eapply Z.lt_le_trans; [apply Hb|].
  apply Z.pow_le_mono_r; lia.
Qed.

(* ===================================================================== *)
(** ** Bitmaps *)
(* ===================================================================== *)

Lemma Ok_inj {A} (a b : A) : Ok a = Ok b -> a = b.
Proof. intros H; injection H; auto. Qed.

Lemma pair_inj {A B} (a c : A) (b d : B) : (a, b) = (c, d) -> a = c /\ b = d.
Proof. intros H; injection H; auto. Qed.

(** Inversion of the monadic code: splits a successful run into its
    successful steps. *)
Ltac subst_eq H :=
  match type of H with
  | ?a = ?b => first [is_var b; subst b | is_var a; subst a | idtac]
  end.

Ltac inv_ok :=
  repeat match goal with
  | H : rbind ?m ?k = Ok _ |- _ =>
      let a := fresh "a" in
      let Ha := fresh "Ha" in
      apply rbind_ok in H; destruct H as [a [Ha H]]
  | H : assert _ = Ok _ |- _ => apply assert_ok in H
  | H : Ok _ = Ok _ |- _ => apply Ok_inj in H; subst_eq H
  | H : (_, _) = (_, _) |- _ =>
      let H1 := fresh "H" in
      let H2 := fresh "H" in
      apply pair_inj in H; destruct H as [H1 H2]; subst_eq H1; subst_eq H2
  | H : Err _ = Ok _ |- _ => discriminate H
  | H : (let (_, _) := ?x in _) = Ok _ |- _ => destruct x
  | H : match ?x with (_, _) => _ end = Ok _ |- _ => destruct x
  end.

Lemma length_list_set {A} (l : list A) n a : length (list_set l n a) = length l.
Proof. revert n; induction l; destruct n; simpl; auto. Qed.

Lemma nth_list_set {A} (l : list A) n m a d :
  nth m (list_set l n a) d =
  if (m =? n)%nat && (n <? length l)%nat then a else nth m l d.
Proof.
  revert n m; induction l as [|h t IH]; intros n m.
  - simpl. rewrite andb_false_r. reflexivity.
  - destruct n, m; simpl; try reflexivity. apply IH.
Qed.

Lemma cell_get_ok {A} (l : list A) i a d :
  cell_get l i = Ok a ->
  0 <= i < Z.of_nat (length l) /\ nth (Z.to_nat i) l d = a.
Proof.
  unfold cell_get.
  destruct ((0 <=? i) && (i <? Z.of_nat (length l))) eqn:E; [|discriminate].
  apply andb_true_iff in E. destruct E as [E1 E2].
  apply Z.leb_le in E1. apply Z.ltb_lt in E2.
  destruct (nth_error l (Z.to_nat i)) eqn:En; [|discriminate].
  intros H; inversion H; subst. split; [lia|].
  apply nth_error_nth. exact En.
Qed.

Lemma cell_get_total {A} (l : list A) i d :
  0 <= i < Z.of_nat (length l) -> cell_get l i = Ok (nth (Z.to_nat i) l d).
Proof.
  intros H. unfold cell_get.
  replace ((0 <=? i) && (i <? Z.of_nat (length l))) with true
    by (symmetry; apply andb_true_iff; split; [apply Z.leb_le|apply Z.ltb_lt]; lia).
  destruct (nth_error l (Z.to_nat i)) eqn:En.
  - f_equal. symmetry. apply nth_error_nth. exact En.
  - apply nth_error_None in En. lia.
Qed.

Lemma cell_set_ok {A} (l l' : list A) i a :
  cell_set l i a = Ok l' ->
  0 <= i < Z.of_nat (length l) /\ l' = list_set l (Z.to_nat i) a.
Proof.
  unfold cell_set.
  destruct ((0 <=? i) && (i <? Z.of_nat (length l))) eqn:E; [|discriminate].
  apply andb_true_iff in E. destruct E as [E1 E2].
  apply Z.leb_le in E1. apply Z.ltb_lt in E2.
  intros H; inversion H; subst. split; [lia|reflexivity].
Qed.

Lemma bit_mask_pow j : bit_mask j = 2 ^ (j mod ELEM_BITS).
Proof.
  unfold bit_mask. rewrite Z.shiftl_1_l. reflexivity.
Qed.

Lemma mod_elem_bits_range j : 0 <= j mod ELEM_BITS < 32.
Proof. unfold ELEM_BITS. apply Z.mod_pos_bound. lia. Qed.

Lemma land_mask_testbit w j :
  negb (Z.land w (bit_mask j) =? 0) = Z.testbit w (j mod ELEM_BITS).
Proof.
  rewrite bit_mask_pow.
  pose proof (mod_elem_bits_range j) as Hr.
  set (k := j mod ELEM_BITS) in *.
  destruct (Z.testbit w k) eqn:Eb.
  - apply negb_true_iff. apply Z.eqb_neq. intros Hz.
    assert (Ht : Z.testbit (Z.land w (2 ^ k)) k = true).
    { rewrite Z.land_spec, Eb, Z.pow2_bits_true by lia. reflexivity. }
    rewrite Hz, Z.bits_0 in Ht. discriminate.
  - apply negb_false_iff. apply Z.eqb_eq. apply Z.bits_inj'.
    intros n Hn. rewrite Z.land_spec, Z.bits_0.
    destruct (Z.eq_dec n k) as [->|Hne].
    + rewrite Eb. reflexivity.
    + rewrite Z.pow2_bits_false by lia. apply andb_false_r.
Qed.

Lemma lor_mask_testbit w j n :
  0 <= n ->
  Z.testbit (Z.lor w (bit_mask j)) n =
  if n =? j mod ELEM_BITS then true else Z.testbit w n.
Proof.
  intros Hn. rewrite bit_mask_pow, Z.lor_spec.
  pose proof (mod_elem_bits_range j) as Hr.
  destruct (n =? j mod ELEM_BITS) eqn:E.
  - apply Z.eqb_eq in E. subst n.
    rewrite Z.pow2_bits_true by lia. apply orb_true_r.
  - apply Z.eqb_neq in E.
    rewrite Z.pow2_bits_false by lia. apply orb_false_r.
Qed.

Lemma land_notmask_testbit w j n :
  0 <= n < 32 ->
  Z.testbit (Z.land w (Z.lxor (bit_mask j) ELEM_MAX)) n =
  if n =? j mod ELEM_BITS then false else Z.testbit w n.
Proof.
  intros Hn. rewrite bit_mask_pow, Z.land_spec, Z.lxor_spec.
  pose proof (mod_elem_bits_range j) as Hr.
  assert (Hm : Z.testbit ELEM_MAX n = true).
  { unfold ELEM_MAX. replace (2 ^ 32 - 1) with (Z.ones 32) by reflexivity.
    apply Z.ones_spec_low. lia. }
  rewrite Hm.
  destruct (n =? j mod ELEM_BITS) eqn:E.
  - apply Z.eqb_eq in E. subst n.
    rewrite Z.pow2_bits_true by lia. simpl. apply andb_false_r.
  - apply Z.eqb_neq in E.
    rewrite Z.pow2_bits_false by lia. simpl. apply andb_true_r.
Qed.

Lemma elem_idx_split x : 0 <= x -> x = elem_idx x * ELEM_BITS + x mod ELEM_BITS.
Proof.
  intros. unfold elem_idx, ELEM_BITS.
  pose proof (Z.div_mod x 32). lia.
Qed.

Lemma bitmap_test_spec b x t :
  bitmap_test b x = Ok t -> x < bit_cnt b /\ t = bitval b x.
Proof.
  unfold bitmap_test. intros H. inv_ok.
  apply Z.ltb_lt in Ha.
  apply (cell_get_ok _ _ _ 0) in Ha0. destruct Ha0 as [_ Hn].
  split; [assumption|].
  unfold bitval. rewrite Hn. apply land_mask_testbit.
Qed.

Lemma bitmap_test_total b x :
  0 <= x < bit_cnt b -> elem_idx x < Z.of_nat (length (bits b)) ->
  bitmap_test b x = Ok (bitval b x).
Proof.
  intros Hx Hl. unfold bitmap_test.
  replace (x <? bit_cnt b) with true by (symmetry; apply Z.ltb_lt; lia).
  simpl.
  assert (0 <= elem_idx x) by (unfold elem_idx, ELEM_BITS; apply Z.div_pos; lia).
  rewrite (cell_get_total _ _ 0) by lia. simpl.
  unfold bitval. rewrite land_mask_testbit. reflexivity.
Qed.

(** Effect of [bitmap_mark] on the bits. *)
Lemma bitmap_mark_spec b x b' :
  bitmap_mark b x = Ok b' -> 0 <= x ->
  bit_cnt b' = bit_cnt b /\
  length (bits b') = length (bits b) /\
  elem_idx x < Z.of_nat (length (bits b)) /\
  bitval b' x = true /\
  (forall y, 0 <= y -> y <> x -> bitval b' y = bitval b y).
Proof.
  unfold bitmap_mark. intros H Hx. inv_ok.
  apply (cell_get_ok _ _ _ 0) in Ha. destruct Ha as [Hr Hn].
  apply cell_set_ok in Ha0. destruct Ha0 as [_ ->].
  simpl. rewrite length_list_set.
  repeat split; try lia.
  - unfold bitval; simpl. rewrite nth_list_set.
    rewrite Nat.eqb_refl.
    replace (Z.to_nat (elem_idx x) <? length (bits b))%nat with true
      by (symmetry; apply Nat.ltb_lt; lia).
    simpl. rewrite lor_mask_testbit by apply mod_elem_bits_range.
    rewrite Z.eqb_refl. reflexivity.
  - intros y Hy Hne. unfold bitval; simpl. rewrite nth_list_set.
    assert (0 <= elem_idx y) by (unfold elem_idx, ELEM_BITS; apply Z.div_pos; lia).
    destruct (Z.to_nat (elem_idx y) =? Z.to_nat (elem_idx x))%nat eqn:E; simpl.
    + apply Nat.eqb_eq in E.
      replace (Z.to_nat (elem_idx x) <? length (bits b))%nat with true
        by (symmetry; apply Nat.ltb_lt; lia).
      rewrite lor_mask_testbit by apply mod_elem_bits_range.
      destruct (y mod ELEM_BITS =? x mod ELEM_BITS) eqn:E2.
      * apply Z.eqb_eq in E2. exfalso. apply Hne.
        rewrite (elem_idx_split x), (elem_idx_split y) by lia.
        assert (elem_idx y = elem_idx x) by lia. congruence.
      * rewrite <- Hn. f_equal. f_equal. lia.
    + reflexivity.
Qed.

(** Effect of [bitmap_reset] on the bits. *)
Lemma bitmap_reset_spec b x b' :
  bitmap_reset b x = Ok b' -> 0 <= x ->
  bit_cnt b' = bit_cnt b /\
  length (bits b') = length (bits b) /\
  bitval b' x = false /\
  (forall y, 0 <= y -> y <> x -> bitval b' y = bitval b y).
Proof.
  unfold bitmap_reset. intros H Hx. inv_ok.
  apply (cell_get_ok _ _ _ 0) in Ha. destruct Ha as [Hr Hn].
  apply cell_set_ok in Ha0. destruct Ha0 as [_ ->].
  simpl. rewrite length_list_set.
  repeat split; try lia.
  - unfold bitval; simpl. rewrite nth_list_set.
    rewrite Nat.eqb_refl.
    replace (Z.to_nat (elem_idx x) <? length (bits b))%nat with true
      by (symmetry; apply Nat.ltb_lt; lia).
    simpl. rewrite land_notmask_testbit by apply mod_elem_bits_range.
    rewrite Z.eqb_refl. reflexivity.
  - intros y Hy Hne. unfold bitval; simpl. rewrite nth_list_set.
    assert (0 <= elem_idx y) by (unfold elem_idx, ELEM_BITS; apply Z.div_pos; lia).
    destruct (Z.to_nat (elem_idx y) =? Z.to_nat (elem_idx x))%nat eqn:E; simpl.
    + apply Nat.eqb_eq in E.
      replace (Z.to_nat (elem_idx x) <? length (bits b))%nat with true
        by (symmetry; apply Nat.ltb_lt; lia).
      rewrite land_notmask_testbit by apply mod_elem_bits_range.
      destruct (y mod ELEM_BITS =? x mod ELEM_BITS) eqn:E2.
      * apply Z.eqb_eq in E2. exfalso. apply Hne.
        rewrite (elem_idx_split x), (elem_idx_split y) by lia.
        assert (elem_idx y = elem_idx x) by lia. congruence.
      * rewrite <- Hn. f_equal. f_equal. lia.
    + reflexivity.
Qed.

Lemma lowest_in_elem_spec n w value : forall j r,
  0 <= j -> j + Z.of_nat n <= 32 ->
  lowest_in_elem n w j value = Some r ->
  j <= r < j + Z.of_nat n /\ Z.testbit w r = value /\
  (forall y, j <= y < r -> Z.testbit w y = negb value).
Proof.
  induction n as [|n IH]; intros j r Hj Hn H; simpl in H; [discriminate|].
  rewrite land_mask_testbit in H.
  replace (j mod ELEM_BITS) with j in H
    by (symmetry; apply Z.mod_small; unfold ELEM_BITS; lia).
  destruct (Bool.eqb (Z.testbit w j) value) eqn:E.
  - inversion H; subst. apply eqb_prop in E.
    repeat split; try lia. exact E.
  - apply IH in H; try lia. destruct H as [Hr [Hv Hlow]].
    repeat split; try lia; [exact Hv|].
    intros y Hy. destruct (Z.eq_dec y j) as [->|Hne].
    + apply eqb_false_iff in E. destruct (Z.testbit w j), value; simpl; congruence.
    + apply Hlow. lia.
Qed.

Lemma lowest_in_elem_none n w value : forall j,
  0 <= j -> j + Z.of_nat n <= 32 ->
  lowest_in_elem n w j value = None ->
  forall y, j <= y < j + Z.of_nat n -> Z.testbit w y = negb value.
Proof.
  induction n as [|n IH]; intros j Hj Hn H y Hy; [lia|].
  simpl in H. rewrite land_mask_testbit in H.
  replace (j mod ELEM_BITS) with j in H
    by (symmetry; apply Z.mod_small; unfold ELEM_BITS; lia).
  destruct (Bool.eqb (Z.testbit w j) value) eqn:E; [discriminate|].
  destruct (Z.eq_dec y j) as [->|Hne].
  - apply eqb_false_iff in E. destruct (Z.testbit w j), value; simpl; congruence.
  - apply (IH (j + 1)); [lia | lia | exact H | lia].
Qed.

Lemma bitval_at b i j :
  0 <= i -> 0 <= j < 32 ->
  bitval b (i * ELEM_BITS + j) = Z.testbit (nth (Z.to_nat i) (bits b) 0) j.
Proof.
  intros Hi Hj. unfold bitval, elem_idx, ELEM_BITS.
  replace ((i * 32 + j) / 32) with i
    by (apply Z.div_unique with j; lia).
  replace ((i * 32 + j) mod 32) with j
    by (apply Z.mod_unique with i; lia).
  reflexivity.
Qed.

Lemma bitmap_lowest_loop_S n b i value :
  bitmap_lowest_loop (S n) b i value =
  (w <- cell_get (bits b) i ;;
   if negb (w =? (if value then 0 else ELEM_MAX)) then
     match lowest_in_elem (Z.to_nat ELEM_BITS) w 0 value with
     | Some j => Ok (i * ELEM_BITS + j)
     | None => bitmap_lowest_loop n b (i + 1) value
     end
   else bitmap_lowest_loop n b (i + 1) value).
Proof. reflexivity. Qed.

(** [bitmap_lowest_loop] returns the lowest index, counted over whole
    elements, whose bit has the value looked for. *)
Lemma bitmap_lowest_loop_spec n b value : forall i r,
  0 <= i -> (i + Z.of_nat n) * ELEM_BITS < BITMAP_ERROR ->
  bitmap_lowest_loop n b i value = Ok r ->
  (r = BITMAP_ERROR /\
   forall y, i * ELEM_BITS <= y < (i + Z.of_nat n) * ELEM_BITS ->
             bitval b y = negb value) \/
  (i * ELEM_BITS <= r < (i + Z.of_nat n) * ELEM_BITS /\
   elem_idx r < Z.of_nat (length (bits b)) /\
   bitval b r = value /\
   forall y, i * ELEM_BITS <= y < r -> bitval b y = negb value).
Proof.
  induction n as [|n IH]; intros i r Hi Hb H.
  - simpl in H. inversion H; subst. left. split; [reflexivity|]. intros y Hy. lia.
  - rewrite bitmap_lowest_loop_S in H. inv_ok. apply (cell_get_ok _ _ _ 0) in Ha. destruct Ha as [Hr Hn].
    unfold ELEM_BITS in *.
    assert (Hword : forall y, i * 32 <= y < (i + 1) * 32 ->
              bitval b y = Z.testbit a (y - i * 32)).
    { intros y Hy. replace y with (i * ELEM_BITS + (y - i * 32))
        by (unfold ELEM_BITS; lia).
      rewrite bitval_at by lia. rewrite Hn.
      unfold ELEM_BITS. f_equal. lia. }
    assert (Hrec : forall r',
      bitmap_lowest_loop n b (i + 1) value = Ok r' ->
      (forall y, i * 32 <= y < (i + 1) * 32 -> bitval b y = negb value) ->
      (r' = BITMAP_ERROR /\
       forall y, i * 32 <= y < (i + Z.of_nat (S n)) * 32 ->
                 bitval b y = negb value) \/
      (i * 32 <= r' < (i + Z.of_nat (S n)) * 32 /\
       elem_idx r' < Z.of_nat (length (bits b)) /\
       bitval b r' = value /\
       forall y, i * 32 <= y < r' -> bitval b y = negb value)).
    { intros r' Hr' Hw. apply IH in Hr'; try (unfold ELEM_BITS; lia).
      unfold ELEM_BITS in Hr'.
      destruct Hr' as [[-> Hall]|[Hrg [Hlen [Hv Hlow]]]].
      - left. split; [reflexivity|]. intros y Hy.
        destruct (Z_lt_dec y ((i + 1) * 32)); [apply Hw|apply Hall]; lia.
      - right. repeat split; try lia; try assumption.
        intros y Hy.
        destruct (Z_lt_dec y ((i + 1) * 32)); [apply Hw|apply Hlow]; lia. }
    destruct (negb (a =? (if value then 0 else ELEM_MAX))) eqn:Ene.
    + destruct (lowest_in_elem (Z.to_nat 32) a 0 value) as [j|] eqn:El.
      * injection H as <-.
        apply lowest_in_elem_spec in El; try lia.
        destruct El as [Hj [Hv Hlow]].
        right. repeat split; try lia.
        -- unfold elem_idx, ELEM_BITS.
           replace ((i * 32 + j) / 32) with i
             by (apply Z.div_unique with j; lia). lia.
        -- rewrite Hword by lia. rewrite <- Hv. f_equal. lia.
        -- intros y Hy. rewrite Hword by lia. apply Hlow. lia.
      * apply Hrec; [exact H|].
        intros y Hy. rewrite Hword by lia.
        apply (lowest_in_elem_none (Z.to_nat 32) a value 0); [lia | lia | exact El | lia].
    + apply Hrec; [exact H|].
      apply negb_false_iff in Ene. apply Z.eqb_eq in Ene.
      intros y Hy. rewrite Hword by lia. rewrite Ene.
      destruct value; simpl.
      * apply Z.bits_0.
      * unfold ELEM_MAX. replace (2 ^ 32 - 1) with (Z.ones 32) by reflexivity.
        apply Z.ones_spec_low. lia.
Qed.

Lemma elem_cnt_bound n : 0 <= n -> n <= elem_cnt n * ELEM_BITS < n + 32.
Proof.
  intros. unfold elem_cnt, DIV_ROUND_UP, ELEM_BITS.
  pose proof (Z.div_mod (n + 32 - 1) 32).
  pose proof (Z.mod_pos_bound (n + 32 - 1) 32). lia.
Qed.

(** What [free_map_get] does to the free map: it either finds every bit of
    every element set and changes nothing, or it takes the lowest index
    whose bit is clear and sets that bit. *)
Lemma free_map_get_spec st st' r :
  0 <= bit_cnt (free_map st) < 2 ^ 31 ->
  free_map_get st = Ok (st', r) ->
  match r with
  | None => st' = st
  | Some sec =>
      exists b', st' = set_free_map st b' /\
      bit_cnt b' = bit_cnt (free_map st) /\
      length (bits b') = length (bits (free_map st)) /\
      0 <= sec < bit_cnt (free_map st) + 32 /\
      bitval (free_map st) sec = false /\
      bitval b' sec = true /\
      (forall y, 0 <= y -> y <> sec -> bitval b' y = bitval (free_map st) y) /\
      (forall y, 0 <= y < sec -> bitval (free_map st) y = true)
  end.
Proof.
  intros Hcnt H. unfold free_map_get in H. inv_ok.
  unfold bitmap_lowest, bitmap_size in Ha.
  pose proof (elem_cnt_bound _ (proj1 Hcnt)) as Hec.
  assert (Hec0 : 0 <= elem_cnt (bit_cnt (free_map st))).
  { unfold elem_cnt, DIV_ROUND_UP, ELEM_BITS. apply Z.div_pos; lia. }
  apply bitmap_lowest_loop_spec in Ha;
    try (rewrite ?Z2Nat.id by lia; unfold BITMAP_ERROR; lia).
  rewrite Z2Nat.id in Ha by lia.
  destruct Ha as [[-> Hall]|[Hrg [Hlen [Hv Hlow]]]].
  - simpl in H. inversion H; subst. reflexivity.
  - replace (negb (a =? BITMAP_ERROR)) with true in H
      by (symmetry; apply negb_true_iff; apply Z.eqb_neq; unfold BITMAP_ERROR; lia).
    inv_ok.
    apply bitmap_mark_spec in Ha; [|lia].
    destruct Ha as [Hc [Hl [_ [Ht Ho]]]].
    exists a0. repeat split; try assumption; try lia.
Qed.

Lemma u32_small x : 0 <= x < 2 ^ 32 -> u32 x = x.
Proof. intros. unfold u32. apply Z.mod_small. assumption. Qed.

(** [free_map_release] of one sector whose bit is set, inside the map. *)
Lemma free_map_release_one st sector :
  0 <= sector < bit_cnt (free_map st) -> bit_cnt (free_map st) < 2 ^ 32 ->
  elem_idx sector < Z.of_nat (length (bits (free_map st))) ->
  bitval (free_map st) sector = true ->
  exists b', free_map_release st sector 1 = Ok (set_free_map st b') /\
    bit_cnt b' = bit_cnt (free_map st) /\
    length (bits b') = length (bits (free_map st)) /\
    bitval b' sector = false /\
    (forall y, 0 <= y -> y <> sector -> bitval b' y = bitval (free_map st) y).
Proof.
  intros Hs Hc Hl Hv.
  assert (Hidx : 0 <= elem_idx sector)
    by (unfold elem_idx, ELEM_BITS; apply Z.div_pos; lia).
  destruct (bitmap_reset (free_map st) sector) as [b'|f] eqn:Er.
  2:{ unfold bitmap_reset in Er.
      rewrite (cell_get_total _ _ 0) in Er by lia. simpl in Er.
      unfold cell_set in Er.
      replace ((0 <=? elem_idx sector) &&
               (elem_idx sector <? Z.of_nat (length (bits (free_map st)))))
        with true in Er
        by (symmetry; apply andb_true_iff; split;
            [apply Z.leb_le|apply Z.ltb_lt]; lia).
      discriminate. }
  exists b'.
  pose proof (bitmap_reset_spec _ _ _ Er (proj1 Hs)) as [H1 [H2 [H3 H4]]].
  split; [|repeat split; assumption].
  unfold free_map_release, bitmap_all, bitmap_contains, bitmap_set_multiple.
  replace (sector <=? bit_cnt (free_map st)) with true
    by (symmetry; apply Z.leb_le; lia).
  rewrite u32_small by lia.
  replace (sector + 1 <=? bit_cnt (free_map st)) with true
    by (symmetry; apply Z.leb_le; lia).
  change (Z.to_nat 1) with 1%nat. cbn [assert rbind bitmap_contains_loop bitmap_set_loop].
  rewrite Z.add_0_r.
  rewrite bitmap_test_total by lia. rewrite Hv.
  cbn [rbind Bool.eqb negb assert]. unfold bitmap_set.
  replace (sector <? bit_cnt (free_map st)) with true
    by (symmetry; apply Z.ltb_lt; lia).
  cbn [assert rbind]. rewrite Er. reflexivity.
Qed.

(** A successful [free_map_release] of one sector found its bit set. *)
Lemma free_map_release_one_inv st sector st' :
  0 <= sector ->
  free_map_release st sector 1 = Ok st' ->
  sector < bit_cnt (free_map st) /\ bitval (free_map st) sector = true /\
  exists b', st' = set_free_map st b' /\
    bitval b' sector = false /\
    (forall y, 0 <= y -> y <> sector -> bitval b' y = bitval (free_map st) y).
Proof.
  intros Hs H. unfold free_map_release, bitmap_all, bitmap_contains in H.
  inv_ok.
  match goal with
  | Hc : bitmap_contains_loop _ _ _ _ _ = Ok ?t |- _ =>
      change (Z.to_nat 1) with 1%nat in Hc;
      cbn [bitmap_contains_loop] in Hc; rewrite Z.add_0_r in Hc;
      apply rbind_ok in Hc; destruct Hc as [t0 [Ht Hc]];
      apply bitmap_test_spec in Ht; destruct Ht as [Hlt Hbv];
      assert (Ht0 : t0 = true)
        by (destruct t0; [reflexivity|]; simpl in Hc; inv_ok; discriminate)
  end.
  subst t0.
  match goal with
  | Hm : bitmap_set_multiple _ _ _ _ = Ok ?b |- _ =>
      unfold bitmap_set_multiple in Hm; inv_ok;
      match goal with
      | Hl : bitmap_set_loop _ _ _ _ _ = Ok _ |- _ =>
          change (Z.to_nat 1) with 1%nat in Hl;
          cbn [bitmap_set_loop] in Hl; rewrite Z.add_0_r in Hl;
          apply rbind_ok in Hl; destruct Hl as [b1 [Hb1 Hl]];
          injection Hl as <-;
          unfold bitmap_set in Hb1; apply rbind_ok in Hb1;
          destruct Hb1 as [u [_ Hb1]];
          apply bitmap_reset_spec in Hb1; [|assumption];
          destruct Hb1 as [_ [_ [H3 H4]]]
      end
  end.
  repeat split; auto. eexists. repeat split; eauto.
Qed.

(* ===================================================================== *)
(** ** The on-disk inode *)
(* ===================================================================== *)

(** Replaces the named constants of the layout by their values. *)
Ltac nums :=
  change NUM_DIRECT with 186 in *;
  change NUM_INDIRECT with 64 in *;
  change INDIRECT_NUM_DIRECT with 256 in *;
  change OFS_DIRECT with 12 in *;
  change OFS_INDIRECT with 384 in *;
  change OFS_LENGTH with 0 in *;
  change OFS_MAGIC with 4 in *;
  change OFS_COUNTER with 8 in *;
  change SIZEOF_FS_SECTOR with 2 in *;
  change SIZEOF_HEADER with 12 in *;
  change BLOCK_SECTOR_SIZE with 512 in *;
  change NO_SECTOR with 65535 in *;
  change INVALID_SECTOR with 4294967295 in *;
  change MAX_SECTORS with 16570 in *;
  change MAX_LENGTH with 8483840 in *;
  change CACHE_WRITE with 1 in *;
  change CACHE_NOLOAD with 2 in *;
  change (Z.to_nat 512) with 512%nat in *.

Ltac btrue :=
  symmetry; repeat (apply andb_true_iff; split);
  first [apply Z.leb_le | apply Z.ltb_lt | apply Z.eqb_eq]; lia.

Lemma sint32_small x : 0 <= x < 2 ^ 31 -> sint32 x = x.
Proof.
  intros H. unfold sint32, u32. rewrite Z.mod_small by lia.
  replace (x <? 2 ^ 31) with true by btrue. reflexivity.
Qed.

Lemma sint32_range x : - 2 ^ 31 <= sint32 x < 2 ^ 31.
Proof.
  unfold sint32, u32.
  pose proof (Z.mod_pos_bound x (2 ^ 32) eq_refl).
  destruct (x mod 2 ^ 32 <? 2 ^ 31) eqn:E;
    [apply Z.ltb_lt in E | apply Z.ltb_ge in E]; lia.
Qed.

Lemma sint32_signed x : - 2 ^ 31 <= x < 2 ^ 31 -> sint32 x = x.
Proof.
  intros H. unfold sint32, u32.
  destruct (Z_lt_dec x 0).
  - replace (x mod 2 ^ 32) with (x + 2 ^ 32)
      by (apply Z.mod_unique with (-1); lia).
    replace (x + 2 ^ 32 <? 2 ^ 31) with false
      by (symmetry; apply Z.ltb_ge; lia).
    lia.
  - rewrite Z.mod_small by lia.
    replace (x <? 2 ^ 31) with true by btrue. reflexivity.
Qed.

(** Two-byte and four-byte fields at disjoint places do not interfere. *)
Lemma load_store_2 m d a v a' :
  0 <= a -> a + 2 <= Z.of_nat (length d) ->
  0 <= a' -> a' + Z.of_nat m <= Z.of_nat (length d) ->
  a' + Z.of_nat m <= a \/ a + 2 <= a' ->
  load m (store 2 d a v) a' = load m d a'.
Proof. intros. apply load_store_other; simpl; lia. Qed.

Lemma load_store_2_same d a v :
  0 <= a -> a + 2 <= Z.of_nat (length d) -> 0 <= v < 65536 ->
  load 2 (store 2 d a v) a = v.
Proof.
  intros. rewrite load_store_same by (simpl; lia).
  apply Z.mod_small. simpl. lia.
Qed.

Lemma load_store_4 m d a v a' :
  0 <= a -> a + 4 <= Z.of_nat (length d) ->
  0 <= a' -> a' + Z.of_nat m <= Z.of_nat (length d) ->
  a' + Z.of_nat m <= a \/ a + 4 <= a' ->
  load m (store 4 d a v) a' = load m d a'.
Proof. intros. apply load_store_other; simpl; lia. Qed.

Lemma direct_get_eq data i :
  0 <= i < NUM_DIRECT -> direct_get data i = Ok (dir_entry data i).
Proof.
  intros. unfold direct_get.
  replace ((0 <=? i) && (i <? NUM_DIRECT)) with true by btrue. reflexivity.
Qed.

Lemma indirect_get_eq data i :
  0 <= i < NUM_INDIRECT -> indirect_get data i = Ok (ind_entry data i).
Proof.
  intros. unfold indirect_get.
  replace ((0 <=? i) && (i <? NUM_INDIRECT)) with true by btrue. reflexivity.
Qed.

Lemma sub_get_eq node j :
  0 <= j < INDIRECT_NUM_DIRECT -> sub_get node j = Ok (sub_entry node j).
Proof.
  intros. unfold sub_get.
  replace ((0 <=? j) && (j <? INDIRECT_NUM_DIRECT)) with true by btrue.
  reflexivity.
Qed.

Lemma bounds_inv (lo hi i : Z) :
  (lo <=? i) && (i <? hi) = true -> lo <= i < hi.
Proof.
  intros H. apply andb_true_iff in H. destruct H as [H1 H2].
  apply Z.leb_le in H1. apply Z.ltb_lt in H2. lia.
Qed.

Lemma direct_get_inv data i v :
  direct_get data i = Ok v -> 0 <= i < NUM_DIRECT /\ v = dir_entry data i.
Proof.
  unfold direct_get.
  destruct ((0 <=? i) && (i <? NUM_DIRECT)) eqn:E; [|discriminate].
  intros H. injection H as <-. split; [apply bounds_inv; exact E|reflexivity].
Qed.

Lemma indirect_get_inv data i v :
  indirect_get data i = Ok v -> 0 <= i < NUM_INDIRECT /\ v = ind_entry data i.
Proof.
  unfold indirect_get.
  destruct ((0 <=? i) && (i <? NUM_INDIRECT)) eqn:E; [|discriminate].
  intros H. injection H as <-. split; [apply bounds_inv; exact E|reflexivity].
Qed.

Lemma sub_get_inv node j v :
  sub_get node j = Ok v -> 0 <= j < INDIRECT_NUM_DIRECT /\ v = sub_entry node j.
Proof.
  unfold sub_get.
  destruct ((0 <=? j) && (j <? INDIRECT_NUM_DIRECT)) eqn:E; [|discriminate].
  intros H. injection H as <-. split; [apply bounds_inv; exact E|reflexivity].
Qed.

Lemma direct_set_inv data i v data' :
  direct_set data i v = Ok data' ->
  0 <= i < NUM_DIRECT /\
  data' = store 2 data (OFS_DIRECT + SIZEOF_FS_SECTOR * i) v.
Proof.
  unfold direct_set.
  destruct ((0 <=? i) && (i <? NUM_DIRECT)) eqn:E; [|discriminate].
  intros H. injection H as <-. split; [apply bounds_inv; exact E|reflexivity].
Qed.

Lemma indirect_set_inv data i v data' :
  indirect_set data i v = Ok data' ->
  0 <= i < NUM_INDIRECT /\
  data' = store 2 data (OFS_INDIRECT + SIZEOF_FS_SECTOR * i) v.
Proof.
  unfold indirect_set.
  destruct ((0 <=? i) && (i <? NUM_INDIRECT)) eqn:E; [|discriminate].
  intros H. injection H as <-. split; [apply bounds_inv; exact E|reflexivity].
Qed.

Lemma sub_set_inv node j v node' :
  sub_set node j v = Ok node' ->
  0 <= j < INDIRECT_NUM_DIRECT /\
  node' = store 2 node (SIZEOF_FS_SECTOR * j) v.
Proof.
  unfold sub_set.
  destruct ((0 <=? j) && (j <? INDIRECT_NUM_DIRECT)) eqn:E; [|discriminate].
  intros H. injection H as <-. split; [apply bounds_inv; exact E|reflexivity].
Qed.

(** A filling loop over an array of two-byte cells at [base]: it succeeds
    within the array, sets the cells it visits and leaves the rest of the
    buffer as it was. *)
Lemma fill_loop_store base cnt (set : list byte -> Z -> Z -> res (list byte)) v :
  (forall data i, set data i v =
     if (0 <=? i) && (i <? cnt) then Ok (store 2 data (base + 2 * i) v)
     else Err OutOfBounds) ->
  0 <= base -> 0 <= v < 65536 ->
  forall n data i,
  0 <= i -> i + Z.of_nat n <= cnt ->
  base + 2 * cnt <= Z.of_nat (length data) ->
  exists data', fill_loop set n data i v = Ok data' /\
    length data' = length data /\
    (forall k, i <= k < i + Z.of_nat n -> load 2 data' (base + 2 * k) = v) /\
    (forall m a, 0 <= a -> a + Z.of_nat m <= Z.of_nat (length data) ->
       a + Z.of_nat m <= base + 2 * i \/ base + 2 * (i + Z.of_nat n) <= a ->
       load m data' a = load m data a).
Proof.
  intros Hset Hbase Hv. induction n as [|n IH]; intros data i Hi Hn Hlen.
  - exists data. simpl. repeat split; auto. intros; lia.
  - cbn [fill_loop]. rewrite Hset.
    replace ((0 <=? i) && (i <? cnt)) with true by btrue.
    cbn [rbind].
    assert (Hl : length (store 2 data (base + 2 * i) v) = length data)
      by (apply length_store; lia).
    destruct (IH (store 2 data (base + 2 * i) v) (i + 1)) as [d' [He [Hl' [Hin Hout]]]];
      try lia.
    exists d'. split; [exact He|]. split; [congruence|]. split.
    + intros k Hk. destruct (Z.eq_dec k i) as [->|Hne].
      * rewrite Hout by (rewrite ?Hl; lia).
        apply load_store_2_same; lia.
      * apply Hin. lia.
    + intros m a Ha Ham Hd.
      rewrite Hout by (rewrite ?Hl; lia).
      apply load_store_2; lia.
Qed.
Lemma cache_check_valid st x : valid_sector st x -> cache_check st x = Ok tt.
Proof.
  intros [Hr Hf]. unfold cache_check.
  replace (x <? fs_disk_size st) with true by btrue.
  cbn [assert rbind]. rewrite Hf. reflexivity.
Qed.

Lemma cache_check_inv st x u :
  cache_check st x = Ok u -> x < fs_disk_size st /\ is_free_map_sec st x = false.
Proof.
  unfold cache_check. intros H. inv_ok.
  match goal with H : (x <? _) = true |- _ => apply Z.ltb_lt in H end.
  match goal with H : negb _ = true |- _ => apply negb_true_iff in H end.
  split; assumption.
Qed.

Lemma direct_set_store (data : list byte) i : direct_set data i NO_SECTOR =
     if (0 <=? i) && (i <? 186) then Ok (store 2 data (12 + 2 * i) NO_SECTOR)
     else Err OutOfBounds.
Proof. reflexivity. Qed.

Lemma indirect_set_store (data : list byte) i : indirect_set data i NO_SECTOR =
     if (0 <=? i) && (i <? 64) then Ok (store 2 data (384 + 2 * i) NO_SECTOR)
     else Err OutOfBounds.
Proof. reflexivity. Qed.

Lemma sub_set_store (data : list byte) i : sub_set data i NO_SECTOR =
     if (0 <=? i) && (i <? 256) then Ok (store 2 data (0 + 2 * i) NO_SECTOR)
     else Err OutOfBounds.
Proof. reflexivity. Qed.

Lemma fs_cache_release_write st s d :
  fs_cache_release st s CACHE_WRITE d =
  set_sectors st (fun x => if x =? s then d else sectors st x).
Proof. reflexivity. Qed.

Lemma fs_cache_release_noload st s d :
  fs_cache_release st s CACHE_NOLOAD d =
  set_sectors st (fun x => if x =? s then d else sectors st x).
Proof. reflexivity. Qed.

Lemma fs_cache_release_read st s d : fs_cache_release st s 0 d = st.
Proof. reflexivity. Qed.

Lemma length_set_header_length d v :
  length d = 512%nat -> length (set_header_length d v) = 512%nat.
Proof. intros H. unfold set_header_length. nums. rewrite length_store; lia. Qed.

Lemma length_set_header_magic d v :
  length d = 512%nat -> length (set_header_magic d v) = 512%nat.
Proof. intros H. unfold set_header_magic. nums. rewrite length_store; lia. Qed.

Lemma length_set_header_counter d v :
  length d = 512%nat -> length (set_header_counter d v) = 512%nat.
Proof. intros H. unfold set_header_counter. nums. rewrite length_store; lia. Qed.

Lemma load_set_header_length m d v a :
  length d = 512%nat -> 0 <= a -> a + Z.of_nat m <= 512 ->
  a + Z.of_nat m <= 0 \/ 4 <= a ->
  load m (set_header_length d v) a = load m d a.
Proof.
  intros. unfold set_header_length. nums. apply load_store_4; lia.
Qed.

Lemma load_set_header_magic m d v a :
  length d = 512%nat -> 0 <= a -> a + Z.of_nat m <= 512 ->
  a + Z.of_nat m <= 4 \/ 8 <= a ->
  load m (set_header_magic d v) a = load m d a.
Proof.
  intros. unfold set_header_magic. nums. apply load_store_4; lia.
Qed.

Lemma load_set_header_counter m d v a :
  length d = 512%nat -> 0 <= a -> a + Z.of_nat m <= 512 ->
  a + Z.of_nat m <= 8 \/ 12 <= a ->
  load m (set_header_counter d v) a = load m d a.
Proof.
  intros. unfold set_header_counter. nums. apply load_store_4; lia.
Qed.

Lemma header_length_set d v :
  length d = 512%nat -> - 2 ^ 31 <= v < 2 ^ 31 ->
  header_length (set_header_length d v) = v.
Proof.
  intros Hl Hv. unfold header_length, set_header_length. nums.
  rewrite load_store_same by lia.
  change (2 ^ (Z.of_nat 4 * 8)) with (2 ^ 32).
  transitivity (sint32 v); [|apply sint32_signed; exact Hv].
  unfold sint32, u32. rewrite Z.mod_mod by lia. reflexivity.
Qed.

Lemma header_counter_set d v :
  length d = 512%nat -> - 2 ^ 31 <= v < 2 ^ 31 ->
  header_counter (set_header_counter d v) = v.
Proof.
  intros Hl Hv. unfold header_counter, set_header_counter. nums.
  rewrite load_store_same by lia.
  change (2 ^ (Z.of_nat 4 * 8)) with (2 ^ 32).
  transitivity (sint32 v); [|apply sint32_signed; exact Hv].
  unfold sint32, u32. rewrite Z.mod_mod by lia. reflexivity.
Qed.

Lemma header_magic_set d v :
  length d = 512%nat -> 0 <= v < 2 ^ 32 ->
  header_magic (set_header_magic d v) = v.
Proof.
  intros Hl Hv. unfold header_magic, set_header_magic. nums.
  rewrite load_store_same by lia.
  change (2 ^ (Z.of_nat 4 * 8)) with (2 ^ 32).
  apply Z.mod_small. exact Hv.
Qed.

(** [inode_create] on a sector that the cache serves: it succeeds, writes
    the inode sector and nothing else. *)
Lemma inode_create_spec st sector len :
  fs_ok st -> valid_sector st sector -> 0 <= len < 2 ^ 31 ->
  exists st',
    inode_create st sector len = Ok (st', true) /\
    free_map st' = free_map st /\
    open_inodes st' = open_inodes st /\
    (forall x, x <> sector -> sectors st' x = sectors st x) /\
    header_length (sectors st' sector) = len /\
    header_magic (sectors st' sector) = INODE_MAGIC /\
    header_counter (sectors st' sector) = 0 /\
    (forall i, 0 <= i < NUM_DIRECT ->
       direct_get (sectors st' sector) i = Ok NO_SECTOR) /\
    (forall i, 0 <= i < NUM_INDIRECT ->
       indirect_get (sectors st' sector) i = Ok NO_SECTOR) /\
    same_meta st st' /\
    length (sectors st' sector) = Z.to_nat BLOCK_SECTOR_SIZE.
Proof.
  intros Hok Hv Hlen. unfold inode_create.
  replace (0 <=? len) with true by btrue.
  change (SIZEOF_INODE_DISK =? BLOCK_SECTOR_SIZE) with true.
  cbn [assert rbind]. unfold fs_cache_get.
  replace ((sector =? INVALID_SECTOR) &&
           (Z.land CACHE_NOLOAD (Z.lor CACHE_WRITE CACHE_NOLOAD) =? 0))
    with false by (symmetry; apply andb_false_r).
  rewrite (cache_check_valid _ _ Hv). cbn [rbind].
  change (negb (Z.land CACHE_NOLOAD CACHE_NOLOAD =? 0)) with true. cbv iota.
  pose proof (ok_junk _ Hok) as Hj. nums.
  set (d0 := set_header_counter
               (set_header_magic (set_header_length (junk st) len) INODE_MAGIC) 0).
  assert (Hl1 : length (set_header_length (junk st) len) = 512%nat)
    by (apply length_set_header_length; exact Hj).
  assert (Hl2 : length (set_header_magic (set_header_length (junk st) len)
                          INODE_MAGIC) = 512%nat)
    by (apply length_set_header_magic; exact Hl1).
  assert (Hl0 : length d0 = 512%nat)
    by (apply length_set_header_counter; exact Hl2).
  destruct (fill_loop_store 12 186 direct_set NO_SECTOR direct_set_store
              ltac:(lia) ltac:(nums; lia) 186%nat d0 0)
    as [d1 [He1 [Hl1' [Hin1 Hout1]]]]; try lia.
  nums. change (Z.to_nat 186) with 186%nat. rewrite He1. cbn [rbind].
  destruct (fill_loop_store 384 64 indirect_set NO_SECTOR indirect_set_store
              ltac:(lia) ltac:(nums; lia) 64%nat d1 0)
    as [d2 [He2 [Hl2' [Hin2 Hout2]]]]; try lia.
  nums. change (Z.to_nat 64) with 64%nat. rewrite He2. cbn [rbind].
  eexists. split; [reflexivity|].
  change (fs_cache_release st sector 2 d2)
    with (set_sectors st (fun x => if x =? sector then d2 else sectors st x)).
  cbn [sectors free_map open_inodes set_sectors].
  split; [reflexivity|]. split; [reflexivity|]. split.
  { intros x Hx. replace (x =? sector) with false
      by (symmetry; apply Z.eqb_neq; exact Hx). reflexivity. }
  rewrite Z.eqb_refl.
  assert (Hhdr : forall m a, 0 <= a -> a + Z.of_nat m <= 12 ->
                   load m d2 a = load m d0 a).
  { intros m a Ha Ham. rewrite Hout2 by lia. apply Hout1; lia. }
  split.
  { unfold header_length. nums. rewrite Hhdr by lia. unfold d0.
    rewrite load_set_header_counter, load_set_header_magic by (auto; lia).
    apply header_length_set; [exact Hj | lia]. }
  split.
  { unfold header_magic. nums. rewrite Hhdr by lia. unfold d0.
    rewrite load_set_header_counter by (auto; lia).
    apply header_magic_set; [exact Hl1 | unfold INODE_MAGIC; lia]. }
  split.
  { unfold header_counter. nums. rewrite Hhdr by lia. unfold d0.
    apply header_counter_set; [exact Hl2 | lia]. }
  split.
  { intros i Hi. rewrite direct_get_eq by (nums; lia). f_equal.
    unfold dir_entry. nums. rewrite Hout2 by lia. apply Hin1. lia. }
  split.
  { intros i Hi. rewrite indirect_get_eq by (nums; lia). f_equal.
    unfold ind_entry. nums. apply Hin2. lia. }
  split; [repeat split|].
  rewrite Hl2', Hl1'. exact Hl0.
Qed.

(** C10.  On a sector that the cache serves and for every length (an
    [off_t], at least 0), [inode_create] returns true and allocates
    nothing: the free map is as before, only the inode sector is written,
    and that sector holds the given length, counter 0, the magic marker and
    [NO_SECTOR] in every direct and every indirect entry. *)
Theorem inode_create_allocates_nothing st sector len :
  fs_ok st -> valid_sector st sector -> 0 <= len < 2 ^ 31 ->
  exists st',
    inode_create st sector len = Ok (st', true) /\
    free_map st' = free_map st /\
    open_inodes st' = open_inodes st /\
    (forall x, x <> sector -> sectors st' x = sectors st x) /\
    header_length (sectors st' sector) = len /\
    header_magic (sectors st' sector) = INODE_MAGIC /\
    header_counter (sectors st' sector) = 0 /\
    (forall i, 0 <= i < NUM_DIRECT ->
       direct_get (sectors st' sector) i = Ok NO_SECTOR) /\
    (forall i, 0 <= i < NUM_INDIRECT ->
       indirect_get (sectors st' sector) i = Ok NO_SECTOR).
Proof.
  intros Hok Hv Hlen.
  destruct (inode_create_spec st sector len Hok Hv Hlen)
    as [st' [H1 [H2 [H3 [H4 [H5 [H6 [H7 [H8 [H9 _]]]]]]]]]].
  exists st'. repeat (split; [assumption|]). assumption.
Qed.

Lemma blank_ok n : 0 <= n <= 16384 -> fs_ok (Scenario.blank n).
Proof.
  intros Hn. constructor.
  - intros x. reflexivity.
  - reflexivity.
  - exact Hn.
  - simpl. lia.
Qed.

Lemma inode_create_allocates_nothing_witness :
  exists st',
    inode_create (Scenario.blank 64) 5 100 = Ok (st', true) /\
    free_map st' = free_map (Scenario.blank 64) /\
    open_inodes st' = open_inodes (Scenario.blank 64) /\
    (forall x, x <> 5 -> sectors st' x = sectors (Scenario.blank 64) x) /\
    header_length (sectors st' 5) = 100 /\
    header_magic (sectors st' 5) = INODE_MAGIC /\
    header_counter (sectors st' 5) = 0 /\
    (forall i, 0 <= i < NUM_DIRECT ->
       direct_get (sectors st' 5) i = Ok NO_SECTOR) /\
    (forall i, 0 <= i < NUM_INDIRECT ->
       indirect_get (sectors st' 5) i = Ok NO_SECTOR).
Proof.
  apply inode_create_allocates_nothing.
  - apply blank_ok. lia.
  - split; [vm_compute; split; congruence | reflexivity].
  - lia.
Defined.
(* ===================================================================== *)
(** ** Well-formed inodes and allocation *)
(* ===================================================================== *)

Lemma dir_entry_store_dir S k v k' :
  length S = 512%nat -> 0 <= k < 186 -> 0 <= k' < 186 -> 0 <= v < 65536 ->
  dir_entry (store 2 S (12 + 2 * k) v) k' =
  if k' =? k then v else dir_entry S k'.
Proof.
  intros Hl Hk Hk' Hv. unfold dir_entry. nums.
  destruct (k' =? k) eqn:E.
  - apply Z.eqb_eq in E. subst. apply load_store_2_same; lia.
  - apply Z.eqb_neq in E. apply load_store_2; lia.
Qed.

Lemma ind_entry_store_dir S k v i' :
  length S = 512%nat -> 0 <= k < 186 -> 0 <= i' < 64 ->
  ind_entry (store 2 S (12 + 2 * k) v) i' = ind_entry S i'.
Proof.
  intros Hl Hk Hi'. unfold ind_entry. nums. apply load_store_2; lia.
Qed.

Lemma dir_entry_store_ind S i v k' :
  length S = 512%nat -> 0 <= i < 64 -> 0 <= k' < 186 ->
  dir_entry (store 2 S (384 + 2 * i) v) k' = dir_entry S k'.
Proof.
  intros Hl Hi Hk'. unfold dir_entry. nums. apply load_store_2; lia.
Qed.

Lemma ind_entry_store_ind S i v i' :
  length S = 512%nat -> 0 <= i < 64 -> 0 <= i' < 64 -> 0 <= v < 65536 ->
  ind_entry (store 2 S (384 + 2 * i) v) i' =
  if i' =? i then v else ind_entry S i'.
Proof.
  intros Hl Hi Hi' Hv. unfold ind_entry. nums.
  destruct (i' =? i) eqn:E.
  - apply Z.eqb_eq in E. subst. apply load_store_2_same; lia.
  - apply Z.eqb_neq in E. apply load_store_2; lia.
Qed.

Lemma sub_entry_store N j v j' :
  length N = 512%nat -> 0 <= j < 256 -> 0 <= j' < 256 -> 0 <= v < 65536 ->
  sub_entry (store 2 N (2 * j) v) j' =
  if j' =? j then v else sub_entry N j'.
Proof.
  intros Hl Hj Hj' Hv. unfold sub_entry. nums.
  destruct (j' =? j) eqn:E.
  - apply Z.eqb_eq in E. subst. apply load_store_2_same; lia.
  - apply Z.eqb_neq in E. apply load_store_2; lia.
Qed.

Lemma slot_of_ok k : 0 <= k < MAX_SECTORS -> slot_ok (slot_of k).
Proof.
  intros Hk. unfold slot_of. nums.
  destruct (k <? 186) eqn:E; simpl.
  - apply Z.ltb_lt in E. nums. lia.
  - apply Z.ltb_ge in E. nums.
    pose proof (Z.mod_pos_bound (k - 186) 256).
    pose proof (Z.div_mod (k - 186) 256).
    split; [|lia]. split; [apply Z.div_pos; lia|].
    apply Z.div_lt_upper_bound; lia.
Qed.

Lemma slot_of_inj k k' :
  0 <= k < MAX_SECTORS -> 0 <= k' < MAX_SECTORS ->
  slot_of k = slot_of k' -> k = k'.
Proof.
  intros Hk Hk'. unfold slot_of. nums.
  destruct (k <? 186) eqn:E, (k' <? 186) eqn:E'; intros H; try discriminate.
  - congruence.
  - apply Z.ltb_ge in E, E'. injection H as H1 H2.
    pose proof (Z.div_mod (k - 186) 256).
    pose proof (Z.div_mod (k' - 186) 256). lia.
Qed.

Lemma slot_of_not_ind k i : slot_of k <> SInd i.
Proof. unfold slot_of. destruct (k <? NUM_DIRECT); discriminate. Qed.

Lemma slot_eq_dec (a b : slot) : {a = b} + {a <> b}.
Proof. decide equality; apply Z.eq_dec. Qed.

Lemma valid_sector_not_no st x :
  fs_ok st -> valid_sector st x -> 0 <= x < 65535.
Proof.
  intros Hok [Hr _]. pose proof (ok_size _ Hok) as Hs.
  change (MAX_DISK_SIZE / BLOCK_SECTOR_SIZE) with 16384 in Hs. lia.
Qed.

Lemma slot_val_range st s sl : 0 <= slot_val st s sl < 65536.
Proof.
  destruct sl; simpl; unfold dir_entry, ind_entry, sub_entry.
  - apply (load_range 2).
  - apply (load_range 2).
  - destruct (_ =? NO_SECTOR); [nums; lia | apply (load_range 2)].
Qed.
Lemma marked_not_fresh st x sec :
  marked st x -> bitval (free_map st) sec = false -> x <> sec.
Proof. unfold marked. intros H1 H2 ->. congruence. Qed.

(** The values of all slots after an allocation at the slot [sl]. *)
Lemma allocated_at_slots st st' s sl sec c :
  fs_ok st -> inode_wf st s -> slot_ok sl -> slot_present st s sl ->
  slot_val st s sl = 65535 ->
  valid_sector st sec -> bitval (free_map st) sec = false ->
  fresh_content sl c -> allocated_at st st' s sl sec c ->
  forall sl', slot_ok sl' ->
    slot_val st' s sl' = if slot_eq_dec sl' sl then sec else slot_val st s sl'.
Proof.
  intros Hok Hwf Hsl Hpres Hno Hvsec Hfresh Hc Hal sl' Hsl'.
  destruct Hal as [_ [_ [_ [_ [Hsec [Ho Hoth]]]]]].
  destruct Hwf as [[Hvs Hms] Hslots Hinj].
  pose proof (valid_sector_not_no _ _ Hok Hvsec) as Hsecr.
  pose proof (marked_not_fresh _ _ _ Hms Hfresh) as Hssec.
  pose proof (ok_sectors _ Hok) as Hlen. nums.
  assert (Hind : forall i, 0 <= i < 64 ->
            ind_entry (sectors st s) i <> 65535 ->
            ind_entry (sectors st s) i <> s /\
            ind_entry (sectors st s) i <> sec).
  { intros i Hi Hne. destruct (Hslots (SInd i)) as [_ [Hm Hns]];
      [cbn [slot_ok]; nums; lia | exact Hne |].
    split; [exact Hns | exact (marked_not_fresh _ _ _ Hm Hfresh)]. }
  destruct sl as [k | i | i j];
    cbn [slot_ok slot_loc slot_val slot_present fresh_content fst snd] in *; nums.
  - (* a direct entry *)
    assert (HS' : sectors st' s = store 2 (sectors st s) (12 + 2 * k) sec)
      by exact Ho.
    destruct sl' as [k' | i' | i' j']; cbn [slot_ok slot_val] in *; nums.
    + rewrite HS', dir_entry_store_dir by (auto; lia).
      destruct (slot_eq_dec (SDir k') (SDir k)) as [E|E].
      * injection E as ->. rewrite Z.eqb_refl. reflexivity.
      * replace (k' =? k) with false; [reflexivity|].
        symmetry. apply Z.eqb_neq. congruence.
    + rewrite HS', ind_entry_store_dir by (auto; lia).
      destruct (slot_eq_dec (SInd i') (SDir k)); [discriminate|reflexivity].
    + rewrite HS', ind_entry_store_dir by (auto; lia).
      destruct (slot_eq_dec (SChild i' j') (SDir k)); [discriminate|].
      destruct (ind_entry (sectors st s) i' =? 65535) eqn:E; [reflexivity|].
      apply Z.eqb_neq in E. nums.
      destruct (Hind i' ltac:(lia) E) as [H1 H2].
      rewrite Hoth by assumption. reflexivity.
  - (* an indirect entry *)
    assert (HS' : sectors st' s = store 2 (sectors st s) (384 + 2 * i) sec)
      by exact Ho.
    destruct Hc as [Hcl Hcno]. nums.
    destruct sl' as [k' | i' | i' j']; cbn [slot_ok slot_val] in *; nums.
    + rewrite HS', dir_entry_store_ind by (auto; lia).
      destruct (slot_eq_dec (SDir k') (SInd i)); [discriminate|reflexivity].
    + rewrite HS', ind_entry_store_ind by (auto; lia).
      destruct (slot_eq_dec (SInd i') (SInd i)) as [E|E].
      * injection E as ->. rewrite Z.eqb_refl. reflexivity.
      * replace (i' =? i) with false; [reflexivity|].
        symmetry. apply Z.eqb_neq. congruence.
    + rewrite HS', ind_entry_store_ind by (auto; lia).
      destruct (slot_eq_dec (SChild i' j') (SInd i)); [discriminate|].
      destruct (i' =? i) eqn:Ei.
      * apply Z.eqb_eq in Ei. subst i'.
        replace (sec =? 65535) with false
          by (symmetry; apply Z.eqb_neq; nums; lia).
        rewrite Hsec, Hcno by lia. rewrite Hno.
        rewrite Z.eqb_refl. reflexivity.
      * destruct (ind_entry (sectors st s) i' =? 65535) eqn:E; [reflexivity|].
        apply Z.eqb_neq in E. nums.
        destruct (Hind i' ltac:(lia) E) as [H1 H2].
        rewrite Hoth by assumption. reflexivity.
  - (* an entry of an indirect sector *)
    remember (ind_entry (sectors st s) i) as n eqn:Hn.
    destruct (Hind i ltac:(lia) ltac:(congruence)) as [Hns Hnsec].
    rewrite <- Hn in Hns, Hnsec.
    assert (HS' : sectors st' s = sectors st s)
      by (apply Hoth; [exact Hssec | congruence]).
    assert (Hn0 : (n =? 65535) = false) by (apply Z.eqb_neq; exact Hpres).
    rewrite Hn0 in Hno.
    destruct sl' as [k' | i' | i' j']; cbn [slot_ok slot_val] in *; nums.
    + rewrite HS'.
      destruct (slot_eq_dec (SDir k') (SChild i j)); [discriminate|reflexivity].
    + rewrite HS'.
      destruct (slot_eq_dec (SInd i') (SChild i j)); [discriminate|reflexivity].
    + rewrite HS'.
      destruct (ind_entry (sectors st s) i' =? 65535) eqn:E.
      * destruct (slot_eq_dec (SChild i' j') (SChild i j)) as [E2|E2];
          [|reflexivity].
        injection E2 as -> ->. rewrite <- Hn in E. congruence.
      * apply Z.eqb_neq in E. nums.
        destruct (Hind i' ltac:(lia) E) as [H1 H2].
        destruct (Z.eq_dec (ind_entry (sectors st s) i') n) as [En|En].
        -- assert (Hii : SInd i' = SInd i).
           { apply Hinj; cbn [slot_ok slot_val]; nums; first [lia | exact E | congruence]. }
           injection Hii as ->.
           rewrite <- Hn. rewrite Ho, sub_entry_store by (auto; lia).
           destruct (slot_eq_dec (SChild i j') (SChild i j)) as [E2|E2].
           ++ injection E2 as ->. rewrite Z.eqb_refl. reflexivity.
           ++ replace (j' =? j) with false; [reflexivity|].
              symmetry. apply Z.eqb_neq. congruence.
        -- rewrite Hoth by assumption.
           destruct (slot_eq_dec (SChild i' j') (SChild i j)) as [E2|E2];
             [|reflexivity].
           injection E2 as -> ->. congruence.
Qed.
Lemma valid_sector_meta st st' x :
  disk_size st' = disk_size st -> valid_sector st x -> valid_sector st' x.
Proof.
  intros Hd [Hr Hf]. unfold valid_sector, is_free_map_sec, free_map_sectors,
    fs_disk_size in *. rewrite Hd. split; assumption.
Qed.

Lemma length_ZERO_BUF : length ZERO_BUF = 512%nat.
Proof. reflexivity. Qed.

(** The place of a slot lies inside a sector-sized buffer of a sector that
    is in use. *)
Lemma slot_loc_facts st s sl :
  fs_ok st -> inode_wf st s -> slot_ok sl -> slot_present st s sl ->
  let o := fst (slot_loc st s sl) in
  let a := snd (slot_loc st s sl) in
  marked st o /\ 0 <= a /\ a + 2 <= 512 /\
  (o = s /\ 12 <= a \/
   o <> s /\ exists i j, sl = SChild i j /\ 0 <= i < 64 /\
                         o = slot_val st s (SInd i) /\ o <> NO_SECTOR).
Proof.
  intros Hok [[Hvs Hms] Hslots Hinj] Hsl Hpres.
  destruct sl as [k | i | i j];
    cbn [slot_ok slot_loc slot_present fst snd] in *; nums.
  - split; [exact Hms|]. split; [lia|]. split; [lia|].
    left. split; [reflexivity | lia].
  - split; [exact Hms|]. split; [lia|]. split; [lia|].
    left. split; [reflexivity | lia].
  - destruct (Hslots (SInd i)) as [_ [Hm Hns]];
      [cbn [slot_ok]; nums; lia | exact Hpres |].
    cbn [slot_val] in *.
    split; [exact Hm|]. split; [lia|]. split; [lia|].
    right. split; [exact Hns|]. exists i, j.
    split; [reflexivity|]. split; [lia|]. split; [reflexivity | exact Hpres].
Qed.

(** An allocation at a free slot keeps the inode well formed and changes
    neither its header nor the content of the file. *)
Lemma allocated_at_preserves st st' s sl sec c :
  fs_ok st -> inode_wf st s -> slot_ok sl -> slot_present st s sl ->
  slot_val st s sl = NO_SECTOR ->
  valid_sector st sec -> bitval (free_map st) sec = false ->
  fresh_content sl c -> allocated_at st st' s sl sec c ->
  preserves st st' s.
Proof.
  intros Hok Hwf Hsl Hpres Hno Hvsec Hfresh Hc Hal.
  pose proof (allocated_at_slots _ _ _ _ _ _ Hok Hwf Hsl Hpres Hno Hvsec
                Hfresh Hc Hal) as Hvals.
  pose proof (slot_loc_facts _ _ _ Hok Hwf Hsl Hpres) as Hloc.
  cbv zeta in Hloc. destruct Hloc as [Hmo [Ha0 [Ha2 Hkind]]].
  destruct Hal as [Hmeta [Hbc [Hbsec [Hboth [Hsec [Ho Hoth]]]]]].
  set (o := fst (slot_loc st s sl)) in *.
  set (a := snd (slot_loc st s sl)) in *.
  pose proof Hwf as [[Hvs Hms] Hslots Hinj].
  pose proof (valid_sector_not_no _ _ Hok Hvsec) as Hsecr.
  pose proof (marked_not_fresh _ _ _ Hms Hfresh) as Hssec.
  pose proof (marked_not_fresh _ _ _ Hmo Hfresh) as Hosec.
  pose proof (ok_sectors _ Hok) as Hlen. nums.
  destruct Hmeta as [Hd [Hoi [Hh Hj]]].
  assert (Hmark : forall x, 0 <= x -> marked st x -> marked st' x).
  { intros x Hx Hm. unfold marked in *.
    destruct (Z.eq_dec x sec) as [->|Hne]; [exact Hbsec|].
    rewrite Hboth by assumption. exact Hm. }
  assert (Hclen : length c = 512%nat).
  { destruct sl; cbn [fresh_content] in Hc;
      [subst c; reflexivity | destruct Hc as [Hc _]; exact Hc
       | subst c; reflexivity]. }
  unfold preserves. split; [repeat split; assumption|]. split.
  { (* fs_ok *)
    constructor.
    - intros x. nums.
      destruct (Z.eq_dec x sec) as [->|Hne]; [rewrite Hsec; exact Hclen|].
      destruct (Z.eq_dec x o) as [->|Hne2].
      + rewrite Ho, length_store by (rewrite ?Hlen; lia). apply Hlen.
      + rewrite Hoth by assumption. apply Hlen.
    - rewrite Hj. apply (ok_junk _ Hok).
    - unfold fs_disk_size. rewrite Hd. apply (ok_size _ Hok).
    - rewrite Hbc. apply (ok_bit_cnt _ Hok). }
  split.
  { (* inode_wf *)
    constructor.
    - split; [apply (valid_sector_meta st); assumption|].
      apply Hmark; [destruct Hvs; lia | exact Hms].
    - intros sl' Hsl'. rewrite Hvals by assumption.
      destruct (slot_eq_dec sl' sl) as [E|E].
      + intros _. split; [apply (valid_sector_meta st); assumption|].
        split; [exact Hbsec | congruence].
      + intros Hne. destruct (Hslots sl' Hsl' Hne) as [Hv [Hm Hns]].
        split; [apply (valid_sector_meta st); assumption|].
        split; [|exact Hns].
        apply Hmark; [destruct Hv; lia | exact Hm].
    - intros sl1 sl2 H1 H2. rewrite !Hvals by assumption.
      destruct (slot_eq_dec sl1 sl) as [E1|E1],
               (slot_eq_dec sl2 sl) as [E2|E2].
      + congruence.
      + intros _ Heq. exfalso.
        assert (Hne : slot_val st s sl2 <> 65535) by lia.
        destruct (Hslots sl2 H2 Hne) as [_ [Hm _]].
        apply (marked_not_fresh _ _ _ Hm Hfresh). congruence.
      + intros Hne Heq. exfalso.
        destruct (Hslots sl1 H1 Hne) as [_ [Hm _]].
        apply (marked_not_fresh _ _ _ Hm Hfresh). congruence.
      + apply Hinj; assumption. }
  split.
  { (* content *)
    intros k Hk. unfold fsec.
    rewrite Hvals by (apply slot_of_ok; exact Hk).
    destruct (slot_eq_dec (slot_of k) sl) as [E|E].
    - rewrite E, Hno.
      replace (sec =? NO_SECTOR) with false by (symmetry; apply Z.eqb_neq; nums; lia).
      change (65535 =? NO_SECTOR) with true. cbv iota. rewrite Hsec.
      destruct sl; cbn [fresh_content] in Hc; try exact Hc.
      exfalso. eapply slot_of_not_ind. exact E.
    - destruct (slot_val st s (slot_of k) =? NO_SECTOR) eqn:En; [reflexivity|].
      apply Z.eqb_neq in En.
      destruct (Hslots _ (slot_of_ok _ Hk) En) as [_ [Hm Hns]].
      apply Hoth; [exact (marked_not_fresh _ _ _ Hm Hfresh)|].
      destruct Hkind as [[Hos _]|[_ [i [j [Hsl' [Hi [Hoi' _]]]]]]].
      + congruence.
      + intros Heq. apply (slot_of_not_ind k i).
        apply Hinj; [apply slot_of_ok; exact Hk | cbn [slot_ok]; nums; lia
                    | exact En | congruence]. }
  split.
  { (* header *)
    intros m a' Ha' Ham. nums.
    destruct Hkind as [[Hos Ha12]|[Hos _]].
    - rewrite <- Hos, Ho. apply load_store_2; rewrite ?Hlen; lia.
    - rewrite Hoth by congruence. reflexivity. }
  { (* the other sectors *)
    split; [exact Hmark|].
    intros x Hx Hmx Hnx.
    assert (Hxs : x <> s) by (intros ->; apply Hnx; left; reflexivity).
    assert (Hxsec : x <> sec) by exact (marked_not_fresh _ _ _ Hmx Hfresh).
    split.
    - apply Hoth; [exact Hxsec|].
      destruct Hkind as [[Hos _]|[_ [i [j [Hsl' [Hi [Hoi' Hon]]]]]]].
      + congruence.
      + intros ->. apply Hnx. right. split; [exact Hon|].
        exists (SInd i). split; [cbn [slot_ok]; nums; lia | symmetry; exact Hoi'].
    - intros [Hx0|[Hx1 [sl' [Hsl' Hx2]]]]; [contradiction|].
      rewrite Hvals in Hx2 by exact Hsl'.
      destruct (slot_eq_dec sl' sl) as [E|E]; [congruence|].
      apply Hnx. right. split; [exact Hx1|]. exists sl'. split; assumption. }
Qed.
Lemma slot_val_ext st st' s :
  (forall x, sectors st' x = sectors st x) ->
  forall sl, slot_val st' s sl = slot_val st s sl.
Proof.
  intros H sl. destruct sl; cbn [slot_val]; rewrite ?H; reflexivity.
Qed.

(** A state with the same free map and the same content in every sector
    is as good as the original. *)
Lemma preserves_ext st st' s :
  fs_ok st -> inode_wf st s -> same_meta st st' ->
  free_map st' = free_map st ->
  (forall x, sectors st' x = sectors st x) ->
  preserves st st' s.
Proof.
  intros Hok [[Hvs Hms] Hslots Hinj] Hmeta Hfm Hsec.
  pose proof (slot_val_ext _ _ s Hsec) as Hv.
  pose proof Hmeta as [Hd [Hoi [Hh Hj]]].
  split; [exact Hmeta|]. split.
  { constructor.
    - intros x. rewrite Hsec. apply (ok_sectors _ Hok).
    - rewrite Hj. apply (ok_junk _ Hok).
    - unfold fs_disk_size. rewrite Hd. apply (ok_size _ Hok).
    - rewrite Hfm. apply (ok_bit_cnt _ Hok). }
  split.
  { constructor.
    - split; [apply (valid_sector_meta st); assumption|].
      unfold marked. rewrite Hfm. exact Hms.
    - intros sl Hsl. rewrite Hv. intros Hne.
      destruct (Hslots sl Hsl Hne) as [H1 [H2 H3]].
      split; [apply (valid_sector_meta st); assumption|].
      split; [unfold marked; rewrite Hfm; exact H2 | exact H3].
    - intros sl sl' H1 H2. rewrite !Hv. apply Hinj; assumption. }
  split.
  { intros k Hk. unfold fsec. rewrite Hv, Hsec. reflexivity. }
  split.
  { intros m a Ha Ham. rewrite Hsec. reflexivity. }
  split.
  { intros x _ Hm. unfold marked. rewrite Hfm. exact Hm. }
  intros x _ _ Hnx. split; [apply Hsec|].
  intros [Hc|[Hc1 [sl [Hsl Hc2]]]]; apply Hnx; [left; exact Hc|].
  right. split; [exact Hc1|]. exists sl. split; [exact Hsl|].
  rewrite <- Hv. exact Hc2.
Qed.

Lemma same_meta_refl st : same_meta st st.
Proof. repeat split. Qed.

Lemma same_meta_trans st1 st2 st3 :
  same_meta st1 st2 -> same_meta st2 st3 -> same_meta st1 st3.
Proof.
  intros [A1 [A2 [A3 A4]]] [B1 [B2 [B3 B4]]].
  repeat split; congruence.
Qed.

Lemma frame_refl st s : frame st st s.
Proof.
  split; [intros x _ Hm; exact Hm|].
  intros x _ _ Hn. split; [reflexivity | exact Hn].
Qed.

Lemma frame_trans st1 st2 st3 s :
  frame st1 st2 s -> frame st2 st3 s -> frame st1 st3 s.
Proof.
  intros [A1 A2] [B1 B2]. split.
  - intros x Hx Hm. apply B1; [exact Hx|]. apply A1; assumption.
  - intros x Hx Hm Hn. destruct (A2 x Hx Hm Hn) as [E1 N1].
    destruct (B2 x Hx (A1 x Hx Hm) N1) as [E2 N2].
    split; [congruence | exact N2].
Qed.

Lemma preserves_refl st s : fs_ok st -> inode_wf st s -> preserves st st s.
Proof.
  intros Hok Hwf. split; [apply same_meta_refl|].
  split; [exact Hok|]. split; [exact Hwf|]. split; [reflexivity|].
  split; [reflexivity | apply frame_refl].
Qed.

Lemma preserves_trans st1 st2 st3 s :
  preserves st1 st2 s -> preserves st2 st3 s -> preserves st1 st3 s.
Proof.
  intros [M1 [_ [_ [F1 [H1 R1]]]]] [M2 [O2 [W2 [F2 [H2 R2]]]]].
  split; [eapply same_meta_trans; eassumption|].
  split; [exact O2|]. split; [exact W2|]. split.
  - intros k Hk. rewrite F2, F1 by assumption. reflexivity.
  - split; [|eapply frame_trans; eassumption].
    intros m a Ha Ham. rewrite H2, H1 by assumption. reflexivity.
Qed.

Lemma find_inode_sector l p i : find_inode l p = Some i -> i_sector i = p.
Proof.
  unfold find_inode. intros H. apply find_some in H. destruct H as [_ H].
  apply Z.eqb_eq in H. exact H.
Qed.

Lemma deref_sector st p i : deref st p = Ok i -> i_sector i = p.
Proof.
  unfold deref. destruct (find_inode (open_inodes st) p) eqn:E; [|discriminate].
  intros H. injection H as <-. eapply find_inode_sector. exact E.
Qed.

Lemma deref_meta st st' p :
  same_meta st st' -> deref st' p = deref st p.
Proof. intros [_ [H _]]. unfold deref. rewrite H. reflexivity. Qed.

Lemma fs_cache_get_valid st x flags :
  fs_ok st -> valid_sector st x ->
  fs_cache_get st x flags =
  Ok (if negb (Z.land flags CACHE_NOLOAD =? 0) then junk st else sectors st x).
Proof.
  intros Hok Hv. unfold fs_cache_get.
  pose proof (valid_sector_not_no _ _ Hok Hv) as Hr.
  replace (x =? INVALID_SECTOR) with false
    by (symmetry; apply Z.eqb_neq; nums; lia).
  cbn [andb]. rewrite (cache_check_valid _ _ Hv). reflexivity.
Qed.

Lemma quot_sector pos :
  0 <= pos < 2 ^ 31 -> u32 (Z.quot pos BLOCK_SECTOR_SIZE) = pos / 512.
Proof.
  intros H. nums. rewrite Z.quot_div_nonneg by lia.
  apply u32_small.
  split; [apply Z.div_pos; lia|].
  apply Z.div_lt_upper_bound; lia.
Qed.

Lemma rem_sector pos : 0 <= pos -> Z.rem pos BLOCK_SECTOR_SIZE = pos mod 512.
Proof. intros H. nums. apply Z.rem_mod_nonneg; lia. Qed.

(** [byte_to_sector] without [create] on a well-formed inode: it succeeds,
    leaves the state untouched and returns the sector named at the slot of
    the position, [-1] if none is. *)
Lemma byte_to_sector_read st s ino pos :
  fs_ok st -> inode_wf st s -> deref st s = Ok ino ->
  0 <= pos < 2 ^ 31 -> pos / 512 < MAX_SECTORS ->
  byte_to_sector st s pos false =
  Ok (st, (if slot_val st s (slot_of (pos / 512)) =? NO_SECTOR
           then INVALID_SECTOR else slot_val st s (slot_of (pos / 512))),
      false).
Proof.
  intros Hok Hwf Hd Hpos Hmax.
  pose proof Hwf as [[Hvs Hms] Hslots Hinj].
  unfold byte_to_sector. rewrite Hd. cbn [rbind].
  rewrite (deref_sector _ _ _ Hd).
  change (CACHE_WRITE * 0) with 0.
  rewrite fs_cache_get_valid by assumption.
  change (negb (Z.land 0 CACHE_NOLOAD =? 0)) with false. cbv iota. cbn [rbind].
  rewrite quot_sector by assumption.
  set (k := pos / 512) in *.
  assert (Hk0 : 0 <= k) by (apply Z.div_pos; lia).
  assert (Hsok : slot_ok (slot_of k)) by (apply slot_of_ok; lia).
  unfold slot_of in *. nums.
  destruct (k <? 186) eqn:Ek.
  - apply Z.ltb_lt in Ek.
    rewrite direct_get_eq by (nums; lia). cbn [rbind andb].
    rewrite direct_get_eq by (nums; lia). cbn [rbind].
    cbn [slot_val]. nums. rewrite fs_cache_release_read.
    destruct (dir_entry (sectors st s) k =? 65535); reflexivity.
  - apply Z.ltb_ge in Ek. cbn [slot_ok] in Hsok. nums.
    set (i := (k - 186) / 256) in *.
    set (j := (k - 186) mod 256) in *.
    rewrite indirect_get_eq by (nums; lia). cbn [rbind].
    rewrite andb_false_r. cbn [slot_val]. nums.
    destruct (ind_entry (sectors st s) i =? 65535) eqn:En.
    + cbn [negb rbind]. reflexivity.
    + cbn [negb]. apply Z.eqb_neq in En.
      destruct (Hslots (SInd i)) as [Hvn [_ _]];
        [cbn [slot_ok]; nums; lia | exact En |]. cbn [slot_val] in Hvn.
      replace (ind_entry (sectors st s) i <? fs_disk_size st) with true
        by (destruct Hvn; btrue).
      cbn [assert rbind]. rewrite fs_cache_release_read.
      rewrite fs_cache_get_valid by assumption.
      change (negb (Z.land 0 CACHE_NOLOAD =? 0)) with false. cbv iota.
      cbn [rbind].
      rewrite sub_get_eq by (nums; lia). cbn [rbind andb].
      rewrite sub_get_eq by (nums; lia). cbn [rbind].
      destruct (sub_entry (sectors st (ind_entry (sectors st s) i)) j =? 65535)
        eqn:Ec.
      * cbn [negb rbind]. reflexivity.
      * cbn [negb]. apply Z.eqb_neq in Ec.
        destruct (Hslots (SChild i j)) as [Hvc [_ _]];
          [cbn [slot_ok]; nums; lia
          | cbn [slot_val]; nums;
            replace (ind_entry (sectors st s) i =? 65535) with false
              by (symmetry; apply Z.eqb_neq; exact En); exact Ec |].
        cbn [slot_val] in Hvc. nums.
        replace (ind_entry (sectors st s) i =? 65535) with false in Hvc
          by (symmetry; apply Z.eqb_neq; exact En).
        replace (sub_entry (sectors st (ind_entry (sectors st s) i)) j
                 <? fs_disk_size st) with true by (destruct Hvc; btrue).
        cbn [assert rbind]. reflexivity.
Qed.
Lemma alloc_entry_inv st data set i st' data' allocated :
  0 <= bit_cnt (free_map st) < 2 ^ 31 ->
  alloc_entry st data set i = Ok (st', data', allocated) ->
  (allocated = false /\ st' = st /\ data' = data) \/
  (allocated = true /\ exists sec b',
     st' = set_free_map st b' /\ set data i sec = Ok data' /\
     0 <= sec < fs_disk_size st /\
     bit_cnt b' = bit_cnt (free_map st) /\
     bitval (free_map st) sec = false /\
     bitval b' sec = true /\
     (forall y, 0 <= y -> y <> sec -> bitval b' y = bitval (free_map st) y)).
Proof.
  intros Hbc H. unfold alloc_entry in H.
  apply rbind_ok in H. destruct H as [[st1 r] [Hg H]].
  pose proof (free_map_get_spec _ _ _ Hbc Hg) as Hspec.
  destruct r as [sec|].
  - destruct Hspec as [b' [-> [Hc [_ [Hr [Hf [Ht [Ho _]]]]]]]].
    inv_ok. right. split; [reflexivity|]. exists sec, b'.
    match goal with H : (sec <? _) = true |- _ => apply Z.ltb_lt in H end.
    unfold fs_disk_size in *. cbn [disk_size set_free_map] in *.
    repeat split; try assumption; lia.
  - subst st1. inv_ok. left. repeat split.
Qed.

Lemma fs_cache_write_zero_inv st sec st' :
  fs_cache_write st sec None = Ok st' ->
  sec < fs_disk_size st /\ is_free_map_sec st sec = false /\
  st' = set_sectors st (fun x => if x =? sec then ZERO_BUF else sectors st x).
Proof.
  unfold fs_cache_write. intros H.
  apply rbind_ok in H. destruct H as [u [Hc H]].
  apply cache_check_inv in Hc. destruct Hc as [H1 H2].
  injection H as <-. repeat split; assumption.
Qed.

Lemma is_free_map_sec_meta st st' x :
  disk_size st' = disk_size st -> is_free_map_sec st' x = is_free_map_sec st x.
Proof.
  intros H. unfold is_free_map_sec, free_map_sectors, fs_disk_size.
  rewrite H. reflexivity.
Qed.

(** Simplification of the fields of an updated state. *)
Ltac simpl_st :=
  cbn [sectors free_map disk_size open_inodes heap junk
       set_sectors set_free_map set_open_inodes set_heap] in *.

Lemma fs_cache_release_sectors st o flags d x :
  Z.land flags (Z.lor CACHE_WRITE CACHE_NOLOAD) <> 0 ->
  sectors (fs_cache_release st o flags d) x =
  if x =? o then d else sectors st x.
Proof.
  intros H. unfold fs_cache_release.
  replace (Z.land flags (Z.lor CACHE_WRITE CACHE_NOLOAD) =? 0) with false
    by (symmetry; apply Z.eqb_neq; exact H).
  reflexivity.
Qed.

Lemma fs_cache_release_meta st o flags d :
  same_meta st (fs_cache_release st o flags d) /\
  free_map (fs_cache_release st o flags d) = free_map st.
Proof.
  unfold fs_cache_release.
  destruct (Z.land flags (Z.lor CACHE_WRITE CACHE_NOLOAD) =? 0);
    repeat split.
Qed.

(** Writing back the content that a sector already has. *)
Lemma release_same_preserves st s o flags :
  fs_ok st -> inode_wf st s ->
  preserves st (fs_cache_release st o flags (sectors st o)) s.
Proof.
  intros Hok Hwf.
  destruct (fs_cache_release_meta st o flags (sectors st o)) as [Hm Hf].
  apply preserves_ext; try assumption.
  intros x. unfold fs_cache_release.
  destruct (Z.land flags (Z.lor CACHE_WRITE CACHE_NOLOAD) =? 0);
    [reflexivity|]. simpl_st.
  destruct (x =? o) eqn:E; [apply Z.eqb_eq in E; subst; reflexivity|reflexivity].
Qed.

(** The data-sector allocation of [byte_to_sector]: the entry at the free
    slot [sl], stored at offset [a] of sector [o], is set to a sector taken
    from the free map, the buffer [buf] of sector [o] is released and the
    new sector zeroed.  [stp] is the state in which this happens; it agrees
    with the well-formed state [st] except perhaps on sector [o], whose
    content in [st] is [buf]. *)
Lemma alloc_data_preserves st stp s sl o a flags b' sec st' buf :
  fs_ok st -> inode_wf st s -> slot_ok sl -> slot_present st s sl ->
  slot_val st s sl = NO_SECTOR -> (forall i, sl <> SInd i) ->
  slot_loc st s sl = (o, a) ->
  same_meta st stp -> free_map stp = free_map st ->
  (forall x, x <> o -> sectors stp x = sectors st x) ->
  buf = sectors st o ->
  Z.land flags (Z.lor CACHE_WRITE CACHE_NOLOAD) <> 0 ->
  0 <= sec < fs_disk_size st ->
  bit_cnt b' = bit_cnt (free_map st) ->
  bitval (free_map st) sec = false ->
  bitval b' sec = true ->
  (forall y, 0 <= y -> y <> sec -> bitval b' y = bitval (free_map st) y) ->
  fs_cache_write
    (fs_cache_release (set_free_map stp b') o flags (store 2 buf a sec))
    sec None = Ok st' ->
  preserves st st' s /\ slot_val st' s sl = sec /\ sec <> NO_SECTOR.
Proof.
  intros Hok Hwf Hsl Hpres Hno Hdata Hloc Hmp Hfp Hsp Hbuf Hfl Hsec Hbc Hf Ht
    Hoth Hw.
  apply fs_cache_write_zero_inv in Hw. destruct Hw as [_ [Hfm ->]].
  destruct (fs_cache_release_meta (set_free_map stp b') o flags
              (store 2 buf a sec)) as [Hm Hfree].
  assert (Hmeta : same_meta st
            (fs_cache_release (set_free_map stp b') o flags (store 2 buf a sec))).
  { eapply same_meta_trans; [exact Hmp|].
    eapply same_meta_trans; [|exact Hm]. repeat split. }
  rewrite (is_free_map_sec_meta st) in Hfm by apply Hmeta.
  assert (Hv : valid_sector st sec) by (split; assumption).
  pose proof (valid_sector_not_no _ _ Hok Hv) as Hr.
  pose proof (slot_loc_facts _ _ _ Hok Hwf Hsl Hpres) as Hlf.
  cbv zeta in Hlf. rewrite Hloc in Hlf. cbn [fst snd] in Hlf.
  destruct Hlf as [Hmo _].
  pose proof (marked_not_fresh _ _ _ Hmo Hf) as Hosec.
  assert (Hal : allocated_at st
            (set_sectors
               (fs_cache_release (set_free_map stp b') o flags
                  (store 2 buf a sec))
               (fun x => if x =? sec then ZERO_BUF
                         else sectors
                                (fs_cache_release (set_free_map stp b') o flags
                                   (store 2 buf a sec)) x))
            s sl sec ZERO_BUF).
  { unfold allocated_at. rewrite Hloc. cbn [fst snd].
    split.
    { destruct Hmeta as [M1 [M2 [M3 M4]]]. repeat split; simpl_st; assumption. }
    simpl_st. rewrite Hfree. simpl_st.
    split; [exact Hbc|]. split; [exact Ht|]. split; [exact Hoth|].
    split; [rewrite Z.eqb_refl; reflexivity|].
    split.
    - replace (o =? sec) with false by (symmetry; apply Z.eqb_neq; exact Hosec).
      rewrite fs_cache_release_sectors by exact Hfl.
      rewrite Z.eqb_refl. rewrite Hbuf. reflexivity.
    - intros x Hx1 Hx2.
      replace (x =? sec) with false by (symmetry; apply Z.eqb_neq; exact Hx1).
      rewrite fs_cache_release_sectors by exact Hfl.
      replace (x =? o) with false by (symmetry; apply Z.eqb_neq; exact Hx2).
      simpl_st. apply Hsp. exact Hx2. }
  assert (Hfc : fresh_content sl ZERO_BUF).
  { destruct sl; cbn [fresh_content]; try reflexivity.
    exfalso. eapply Hdata. reflexivity. }
  split; [eapply allocated_at_preserves; eassumption|].
  split; [|nums; lia].
  rewrite (allocated_at_slots _ _ _ _ _ _ Hok Hwf Hsl Hpres Hno Hv Hf Hfc Hal)
    by exact Hsl.
  destruct (slot_eq_dec sl sl); [reflexivity|congruence].
Qed.
Lemma release_same_ext st o flags x :
  sectors (fs_cache_release st o flags (sectors st o)) x = sectors st x.
Proof.
  unfold fs_cache_release.
  destruct (Z.land flags (Z.lor CACHE_WRITE CACHE_NOLOAD) =? 0);
    [reflexivity|]. simpl_st.
  destruct (x =? o) eqn:E; [apply Z.eqb_eq in E; subst|]; reflexivity.
Qed.

Lemma release_same_slot_val st o flags s sl :
  slot_val (fs_cache_release st o flags (sectors st o)) s sl = slot_val st s sl.
Proof. apply slot_val_ext. intros x. apply release_same_ext. Qed.

Lemma valid_sector_lt st x :
  valid_sector st x -> (x <? fs_disk_size st) = true.
Proof. intros [H _]. apply Z.ltb_lt. lia. Qed.

(** The direct part of [byte_to_sector] with [create]. *)
Lemma byte_to_sector_create_direct st s k st' ret (h : bool) :
  fs_ok st -> inode_wf st s -> 0 <= k < NUM_DIRECT ->
  ('(st1, ret, allocated, held) <-
     (d <- direct_get (sectors st s) k ;;
      '(st, data, allocated) <-
        (if true && (d =? NO_SECTOR)
         then alloc_entry st (sectors st s) direct_set k
         else Ok (st, sectors st s, false)) ;;
      d <- direct_get data k ;;
      let ret := if negb (d =? NO_SECTOR) then d else INVALID_SECTOR in
      Ok (fs_cache_release st s CACHE_WRITE data, ret, allocated, false)) ;;
   if allocated : bool then
     st <- fs_cache_write st1 ret None ;; Ok (st, ret, held)
   else Ok (st1, ret, held)) = Ok (st', ret, h) ->
  h = false /\
  preserves st st' s /\
  (ret = INVALID_SECTOR \/
   ret <> NO_SECTOR /\ ret = slot_val st' s (SDir k)).
Proof.
  intros Hok Hwf Hk H.
  pose proof (ok_sectors _ Hok) as Hlen.
  rewrite direct_get_eq in H by exact Hk. cbn [rbind andb] in H.
  destruct (dir_entry (sectors st s) k =? NO_SECTOR) eqn:Ed.
  - (* no sector yet *)
    apply Z.eqb_eq in Ed.
    apply rbind_ok in H. destruct H as [[[[st1 r1] al] hd] [H1 H]].
    apply rbind_ok in H1. destruct H1 as [[[st2 data2] al2] [Ha H1]].
    apply rbind_ok in H1. destruct H1 as [d [Hd H1]].
    apply Ok_inj in H1. apply pair_inj in H1. destruct H1 as [H1 <-].
    apply pair_inj in H1. destruct H1 as [H1 <-].
    apply pair_inj in H1. destruct H1 as [<- <-].
    apply alloc_entry_inv in Ha; [|apply (ok_bit_cnt _ Hok)].
    destruct Ha as [[-> [-> ->]] | [-> [sec [b' [-> [Hset [Hsec [Hbc [Hf [Ht Ho]]]]]]]]]].
    + (* the free map is exhausted *)
      rewrite direct_get_eq in Hd by exact Hk. apply Ok_inj in Hd. subst d.
      apply Ok_inj in H. apply pair_inj in H. destruct H as [H <-].
      apply pair_inj in H. destruct H as [<- <-].
      split; [reflexivity|].
      split; [apply release_same_preserves; assumption|].
      left. rewrite Ed. reflexivity.
    + apply direct_set_inv in Hset. destruct Hset as [_ ->].
      rewrite direct_get_eq in Hd by exact Hk. apply Ok_inj in Hd.
      assert (Hsr : 0 <= sec < 65535).
      { pose proof (ok_size _ Hok) as Hs.
        change (MAX_DISK_SIZE / BLOCK_SECTOR_SIZE) with 16384 in Hs. lia. }
      assert (Hdv : d = sec).
      { subst d. nums. rewrite dir_entry_store_dir by (auto; lia).
        rewrite Z.eqb_refl. reflexivity. }
      subst d. rewrite Hdv in H.
      replace (negb (sec =? NO_SECTOR)) with true in H
        by (symmetry; apply negb_true_iff; apply Z.eqb_neq; nums; lia).
      apply rbind_ok in H. destruct H as [st3 [Hw H]].
      apply Ok_inj in H. apply pair_inj in H. destruct H as [H <-].
      apply pair_inj in H. destruct H as [<- <-].
      split; [reflexivity|].
      destruct (alloc_data_preserves st st s (SDir k) s
                  (OFS_DIRECT + SIZEOF_FS_SECTOR * k) CACHE_WRITE b' sec st3
                  (sectors st s)) as [Hp [Hv Hne]];
        try assumption; try reflexivity.
      * intros i; discriminate.
      * apply same_meta_refl.
      * discriminate.
      * split; [exact Hp|]. right. split; [exact Hne | symmetry; exact Hv].
  - (* the sector is there *)
    apply Z.eqb_neq in Ed. cbn [rbind] in H.
    rewrite direct_get_eq in H by exact Hk. cbn [rbind] in H.
    replace (negb (dir_entry (sectors st s) k =? NO_SECTOR)) with true in H
      by (symmetry; apply negb_true_iff; apply Z.eqb_neq; exact Ed).
    apply Ok_inj in H. apply pair_inj in H. destruct H as [H <-].
      apply pair_inj in H. destruct H as [<- <-].
      split; [reflexivity|].
    split; [apply release_same_preserves; assumption|].
    right. split; [exact Ed|].
    rewrite release_same_slot_val. reflexivity.
Qed.
Lemma sub_set_store_gen (data : list byte) i v : sub_set data i v =
     if (0 <=? i) && (i <? 256) then Ok (store 2 data (0 + 2 * i) v)
     else Err OutOfBounds.
Proof. reflexivity. Qed.

(** The content of a new indirect sector after the initialisation loop. *)
Lemma fill_node buf :
  length buf = 512%nat ->
  exists node0,
    fill_loop sub_set (Z.to_nat INDIRECT_NUM_DIRECT) buf 0 NO_SECTOR = Ok node0 /\
    fresh_content (SInd 0) node0.
Proof.
  intros Hl.
  destruct (fill_loop_store 0 256 sub_set NO_SECTOR
              (fun d i => sub_set_store_gen d i NO_SECTOR)
              ltac:(lia) ltac:(nums; lia) 256%nat buf 0)
    as [node0 [He [Hl' [Hin _]]]]; try lia.
  exists node0. split; [exact He|].
  cbn [fresh_content]. split; [nums; congruence|].
  intros j Hj. unfold sub_entry. nums.
  specialize (Hin j). rewrite Z.add_0_l in Hin. apply Hin. lia.
Qed.

(** The allocation of an indirect sector in [byte_to_sector]: [stA] is the
    state once the entry has been set and the inode buffer released. *)
Lemma alloc_ind_preserves st s i b' sec node0 :
  fs_ok st -> inode_wf st s -> 0 <= i < NUM_INDIRECT ->
  ind_entry (sectors st s) i = NO_SECTOR ->
  0 <= sec < fs_disk_size st ->
  bit_cnt b' = bit_cnt (free_map st) ->
  bitval (free_map st) sec = false ->
  bitval b' sec = true ->
  (forall y, 0 <= y -> y <> sec -> bitval b' y = bitval (free_map st) y) ->
  fresh_content (SInd i) node0 ->
  let stA := fs_cache_release (set_free_map st b') s CACHE_WRITE
               (store 2 (sectors st s) (OFS_INDIRECT + SIZEOF_FS_SECTOR * i) sec) in
  is_free_map_sec stA sec = false ->
  let st_mid := fs_cache_release stA sec CACHE_NOLOAD node0 in
  preserves st st_mid s /\
  slot_val st_mid s (SInd i) = sec /\
  (forall j, 0 <= j < INDIRECT_NUM_DIRECT ->
     slot_val st_mid s (SChild i j) = NO_SECTOR) /\
  sectors st_mid sec = node0 /\
  same_meta st_mid stA /\ free_map stA = free_map st_mid /\
  (forall x, x <> sec -> sectors stA x = sectors st_mid x).
Proof.
  intros Hok Hwf Hi Hno Hsec Hbc Hf Ht Ho Hfc stA Hfm st_mid.
  pose proof Hwf as [[Hvs Hms] Hslots Hinj].
  pose proof (marked_not_fresh _ _ _ Hms Hf) as Hssec.
  assert (Hv : valid_sector st sec).
  { split; [exact Hsec|]. rewrite <- Hfm. symmetry.
    apply is_free_map_sec_meta. reflexivity. }
  assert (Hal : allocated_at st st_mid s (SInd i) sec node0).
  { unfold allocated_at. cbn [slot_loc fst snd].
    split; [repeat split|].
    split; [exact Hbc|]. split; [exact Ht|]. split; [exact Ho|].
    unfold st_mid, stA.
    rewrite !fs_cache_release_noload, !fs_cache_release_write. simpl_st.
    split; [rewrite Z.eqb_refl; reflexivity|].
    split.
    - replace (s =? sec) with false by (symmetry; apply Z.eqb_neq; exact Hssec).
      rewrite Z.eqb_refl. reflexivity.
    - intros x Hx1 Hx2.
      replace (x =? sec) with false by (symmetry; apply Z.eqb_neq; exact Hx1).
      replace (x =? s) with false by (symmetry; apply Z.eqb_neq; exact Hx2).
      reflexivity. }
  assert (Hsl : slot_ok (SInd i)) by exact Hi.
  pose proof (allocated_at_slots _ _ _ _ _ _ Hok Hwf Hsl I Hno Hv Hf Hfc Hal)
    as Hvals.
  split; [eapply allocated_at_preserves; try eassumption; exact I|].
  split.
  { rewrite Hvals by exact Hsl.
    destruct (slot_eq_dec (SInd i) (SInd i)); [reflexivity|congruence]. }
  split.
  { intros j Hj. rewrite Hvals by (cbn [slot_ok]; lia).
    destruct (slot_eq_dec (SChild i j) (SInd i)); [discriminate|].
    cbn [slot_val]. rewrite Hno. reflexivity. }
  unfold st_mid, stA.
  rewrite !fs_cache_release_noload, !fs_cache_release_write. simpl_st.
  split; [rewrite Z.eqb_refl; reflexivity|].
  split; [repeat split|]. split; [reflexivity|].
  intros x Hx.
  replace (x =? sec) with false by (symmetry; apply Z.eqb_neq; exact Hx).
  reflexivity.
Qed.
(** The part of [byte_to_sector] with [create] that works on the indirect
    sector [nsec], whose buffer is [node]: [st] is a well-formed state in
    which sector [nsec], named at [indirect[i]], has content [node], and
    [stp], the state at that moment, agrees with it. *)
Lemma byte_to_sector_create_child st stp s i j nsec nflags node st' ret
  (hd h : bool) :
  fs_ok st -> inode_wf st s ->
  0 <= i < NUM_INDIRECT -> 0 <= j < INDIRECT_NUM_DIRECT ->
  ind_entry (sectors st s) i = nsec -> nsec <> NO_SECTOR ->
  node = sectors st nsec ->
  same_meta st stp -> free_map stp = free_map st ->
  (forall x, x <> nsec -> sectors stp x = sectors st x) ->
  Z.land nflags (Z.lor CACHE_WRITE CACHE_NOLOAD) <> 0 ->
  ('(st1, ret, allocated, held) <-
     (c <- sub_get node j ;;
      '(st, node, allocated) <-
        (if true && (c =? NO_SECTOR)
         then alloc_entry stp node sub_set j
         else Ok (stp, node, false)) ;;
      c <- sub_get node j ;;
      ret <- (if negb (c =? NO_SECTOR)
              then _ <- assert (c <? fs_disk_size st) ;; Ok c
              else Ok INVALID_SECTOR) ;;
      Ok (fs_cache_release st nsec nflags node, ret, allocated, hd)) ;;
   if allocated : bool then
     st <- fs_cache_write st1 ret None ;; Ok (st, ret, held)
   else Ok (st1, ret, held)) = Ok (st', ret, h) ->
  preserves st st' s /\
  (ret = INVALID_SECTOR \/
   ret <> NO_SECTOR /\ ret = slot_val st' s (SChild i j)).
Proof.
  intros Hok Hwf Hi Hj Hn Hnn Hnode Hmp Hfp Hsp Hfl H.
  pose proof (ok_sectors _ Hok) as Hlen.
  assert (Hstp : forall x, sectors (fs_cache_release stp nsec nflags node) x
                           = sectors st x).
  { intros x. rewrite fs_cache_release_sectors by exact Hfl.
    destruct (x =? nsec) eqn:E.
    - apply Z.eqb_eq in E. subst x. exact Hnode.
    - apply Z.eqb_neq in E. apply Hsp. exact E. }
  assert (Hpres_same : preserves st (fs_cache_release stp nsec nflags node) s).
  { destruct (fs_cache_release_meta stp nsec nflags node) as [Hm Hf].
    apply preserves_ext; try assumption.
    - eapply same_meta_trans; eassumption.
    - congruence. }
  rewrite sub_get_eq in H by exact Hj. cbn [rbind andb] in H.
  destruct (sub_entry node j =? NO_SECTOR) eqn:Ec.
  - apply Z.eqb_eq in Ec.
    apply rbind_ok in H. destruct H as [[[[st1 r1] al] hd1] [H1 H]].
    apply rbind_ok in H1. destruct H1 as [[[st2 node2] al2] [Ha H1]].
    apply rbind_ok in H1. destruct H1 as [c [Hc H1]].
    apply rbind_ok in H1. destruct H1 as [r [Hr H1]].
    apply Ok_inj in H1. apply pair_inj in H1. destruct H1 as [H1 <-].
    apply pair_inj in H1. destruct H1 as [H1 <-].
    apply pair_inj in H1. destruct H1 as [<- <-].
    apply alloc_entry_inv in Ha; [|rewrite Hfp; apply (ok_bit_cnt _ Hok)].
    destruct Ha as [[-> [-> ->]] | [-> [sec [b' [-> [Hset [Hsec [Hbc [Hf [Ht Ho]]]]]]]]]].
    + rewrite sub_get_eq in Hc by exact Hj. apply Ok_inj in Hc. subst c.
      rewrite Ec in Hr. cbn [negb Z.eqb] in Hr.
      change (NO_SECTOR =? NO_SECTOR) with true in Hr. cbn [negb] in Hr.
      apply Ok_inj in Hr. subst r.
      apply Ok_inj in H. apply pair_inj in H. destruct H as [H _].
      apply pair_inj in H. destruct H as [<- <-].
      split; [exact Hpres_same | left; reflexivity].
    + apply sub_set_inv in Hset. destruct Hset as [_ ->].
      rewrite sub_get_eq in Hc by exact Hj. apply Ok_inj in Hc.
      rewrite Hfp in Hbc, Hf, Ho.
      assert (Hds : fs_disk_size stp = fs_disk_size st)
        by (unfold fs_disk_size; apply Hmp).
      rewrite Hds in Hsec.
      assert (Hsr : 0 <= sec < 65535).
      { pose proof (ok_size _ Hok) as Hs.
        change (MAX_DISK_SIZE / BLOCK_SECTOR_SIZE) with 16384 in Hs. lia. }
      assert (Hcv : c = sec).
      { subst c. nums. rewrite Hnode.
        rewrite sub_entry_store by (auto; lia).
        rewrite Z.eqb_refl. reflexivity. }
      rewrite Hcv in Hr.
      replace (negb (sec =? NO_SECTOR)) with true in Hr
        by (symmetry; apply negb_true_iff; apply Z.eqb_neq; nums; lia).
      apply rbind_ok in Hr. destruct Hr as [u [_ Hr]].
      apply Ok_inj in Hr. subst r.
      apply rbind_ok in H. destruct H as [st3 [Hw H]].
      apply Ok_inj in H. apply pair_inj in H. destruct H as [H _].
      apply pair_inj in H. destruct H as [<- <-].
      destruct (alloc_data_preserves st stp s (SChild i j) nsec
                  (SIZEOF_FS_SECTOR * j) nflags b' sec st3 node)
        as [Hp [Hv Hne]]; try assumption.
      * cbn [slot_ok]. lia.
      * cbn [slot_present]. congruence.
      * cbn [slot_val]. rewrite Hn.
        replace (nsec =? NO_SECTOR) with false
          by (symmetry; apply Z.eqb_neq; exact Hnn).
        rewrite <- Hnode. exact Ec.
      * intros i0; discriminate.
      * cbn [slot_loc]. rewrite Hn. reflexivity.
      * split; [exact Hp|]. right. split; [exact Hne | symmetry; exact Hv].
  - apply Z.eqb_neq in Ec. cbn [rbind] in H.
    rewrite sub_get_eq in H by exact Hj. cbn [rbind] in H.
    replace (negb (sub_entry node j =? NO_SECTOR)) with true in H
      by (symmetry; apply negb_true_iff; apply Z.eqb_neq; exact Ec).
    apply rbind_ok in H. destruct H as [[[[st1 r1] al] hd1] [H1 H]].
    apply rbind_ok in H1. destruct H1 as [r [Hr H1]].
    apply rbind_ok in Hr. destruct Hr as [u [_ Hr]].
    apply Ok_inj in Hr. subst r.
    apply Ok_inj in H1. apply pair_inj in H1. destruct H1 as [H1 <-].
    apply pair_inj in H1. destruct H1 as [H1 <-].
    apply pair_inj in H1. destruct H1 as [<- <-].
    apply Ok_inj in H. apply pair_inj in H. destruct H as [H _].
      apply pair_inj in H. destruct H as [<- <-].
    split; [exact Hpres_same|].
    right. split; [exact Ec|].
    rewrite (slot_val_ext _ _ s Hstp). cbn [slot_val]. rewrite Hn.
    replace (nsec =? NO_SECTOR) with false
      by (symmetry; apply Z.eqb_neq; exact Hnn).
    rewrite Hnode. reflexivity.
Qed.
(** [byte_to_sector] with [create] on a well-formed inode: whatever it
    allocates, the inode stays well formed, its header and the content of
    the file are unchanged, and the sector returned is the one now named at
    the slot of the position. *)
Lemma byte_to_sector_create st s ino pos st' ret h :
  fs_ok st -> inode_wf st s -> deref st s = Ok ino ->
  0 <= pos < 2 ^ 31 ->
  byte_to_sector st s pos true = Ok (st', ret, h) ->
  preserves st st' s /\ pos / 512 < MAX_SECTORS /\
  (ret = INVALID_SECTOR \/
   ret <> NO_SECTOR /\ ret = slot_val st' s (slot_of (pos / 512))).
Proof.
  intros Hok Hwf Hd Hpos H.
  pose proof Hwf as [[Hvs Hms] Hslots Hinj].
  pose proof (ok_sectors _ Hok) as Hlen.
  unfold byte_to_sector in H. rewrite Hd in H. cbn [rbind] in H.
  rewrite (deref_sector _ _ _ Hd) in H.
  change (CACHE_WRITE * 1) with CACHE_WRITE in H.
  rewrite fs_cache_get_valid in H by assumption.
  change (negb (Z.land CACHE_WRITE CACHE_NOLOAD =? 0)) with false in H.
  cbv iota in H. cbn [rbind] in H.
  rewrite quot_sector in H by assumption.
  set (k := pos / 512) in *.
  assert (Hk0 : 0 <= k) by (apply Z.div_pos; lia).
  unfold slot_of.
  destruct (k <? NUM_DIRECT) eqn:Ek.
  - apply Z.ltb_lt in Ek.
    apply byte_to_sector_create_direct in H; try assumption; [|lia].
    destruct H as [_ [Hp Hr]]. split; [exact Hp|].
    split; [nums; lia | exact Hr].
  - apply Z.ltb_ge in Ek.
    set (i := (k - NUM_DIRECT) / INDIRECT_NUM_DIRECT) in *.
    set (j := (k - NUM_DIRECT) mod INDIRECT_NUM_DIRECT) in *.
    assert (Hj : 0 <= j < INDIRECT_NUM_DIRECT)
      by (apply Z.mod_pos_bound; nums; lia).
    assert (Hi0 : 0 <= i) by (apply Z.div_pos; nums; lia).
    apply rbind_ok in H. destruct H as [[[[st1 r1] al] hd] [H1 H]].
    apply rbind_ok in H1. destruct H1 as [n [Hn H1]].
    apply indirect_get_inv in Hn. destruct Hn as [Hi Hn].
    assert (Hkmax : k < MAX_SECTORS).
    { pose proof (Z.div_mod (k - NUM_DIRECT) INDIRECT_NUM_DIRECT).
      fold i j in H0. nums. lia. }
    apply rbind_ok in H1. destruct H1 as [[[st2 subnode] hd2] [Hs H1]].
    cbn [andb] in Hs. rewrite andb_true_r in Hs.
    destruct (n =? NO_SECTOR) eqn:En.
    + (* no indirect sector yet *)
      apply Z.eqb_eq in En.
      apply rbind_ok in Hs. destruct Hs as [[st3 r] [Hg Hs]].
      pose proof (free_map_get_spec _ _ _ (ok_bit_cnt _ Hok) Hg) as Hspec.
      destruct r as [sec|].
      * destruct Hspec as [b' [-> [Hbc [_ [Hr [Hf [Ht [Ho _]]]]]]]].
        apply rbind_ok in Hs. destruct Hs as [u [Hlt Hs]].
        apply assert_ok in Hlt. apply Z.ltb_lt in Hlt.
        unfold fs_disk_size in Hlt. simpl_st.
        apply rbind_ok in Hs. destruct Hs as [data1 [Hset Hs]].
        apply indirect_set_inv in Hset. destruct Hset as [_ ->].
        apply rbind_ok in Hs. destruct Hs as [buf [Hget Hs]].
        unfold fs_cache_get in Hget.
        assert (Hsr : 0 <= sec < 65535).
        { pose proof (ok_size _ Hok) as Hsz. unfold fs_disk_size in Hsz.
          change (MAX_DISK_SIZE / BLOCK_SECTOR_SIZE) with 16384 in Hsz. lia. }
        replace (sec =? INVALID_SECTOR) with false in Hget
          by (symmetry; apply Z.eqb_neq; nums; lia).
        cbn [andb] in Hget.
        apply rbind_ok in Hget. destruct Hget as [u2 [Hcc Hget]].
        apply cache_check_inv in Hcc. destruct Hcc as [_ Hfm].
        change (negb (Z.land CACHE_NOLOAD CACHE_NOLOAD =? 0)) with true in Hget.
        cbv iota in Hget. apply Ok_inj in Hget. subst buf.
        rewrite fs_cache_release_write in Hs, Hfm. simpl_st.
        destruct (fill_node (junk st) (ok_junk _ Hok)) as [node0 [Hfill Hfc]].
        rewrite Hfill in Hs. cbn [rbind] in Hs.
        apply Ok_inj in Hs. apply pair_inj in Hs. destruct Hs as [Hs <-].
        apply pair_inj in Hs. destruct Hs as [<- <-].
        destruct (alloc_ind_preserves st s i b' sec node0)
          as [Hp [Hvi [Hvc [Hsn [Hm [Hfm' Hx]]]]]]; try assumption.
        { subst n. exact En. }
        { unfold fs_disk_size. lia. }
        pose proof Hp as [Hm0 [Hok' [Hwf' [Hfs Hh]]]].
        match type of Hm with
        | same_meta ?a ?b =>
            destruct (byte_to_sector_create_child a b s i j sec CACHE_NOLOAD
                        node0 st' ret false h) as [Hp2 Hr2]
        end;
          [ exact Hok' | exact Hwf' | exact Hi | exact Hj | exact Hvi
          | nums; lia | symmetry; exact Hsn | exact Hm | exact Hfm'
          | exact Hx | discriminate
          | match goal with
            | |- rbind _ ?F = _ =>
                exact (eq_trans (f_equal (fun x => rbind x F) H1) H)
            end
          | ].
        split; [|split; [exact Hkmax | exact Hr2]].
        eapply preserves_trans; [exact Hp | exact Hp2].
      * subst st3. apply Ok_inj in Hs. apply pair_inj in Hs.
        destruct Hs as [Hs <-]. apply pair_inj in Hs. destruct Hs as [<- <-].
        apply Ok_inj in H1. apply pair_inj in H1. destruct H1 as [H1 <-].
        apply pair_inj in H1. destruct H1 as [H1 <-].
        apply pair_inj in H1. destruct H1 as [<- <-].
        apply Ok_inj in H. apply pair_inj in H. destruct H as [H _].
        apply pair_inj in H. destruct H as [<- <-].
        split; [apply preserves_refl; assumption|].
        split; [exact Hkmax | left; reflexivity].
    + (* the indirect sector is there *)
      apply Z.eqb_neq in En. cbn [negb] in Hs.
      apply rbind_ok in Hs. destruct Hs as [u [_ Hs]].
      apply rbind_ok in Hs. destruct Hs as [node [Hget Hs]].
      apply Ok_inj in Hs. apply pair_inj in Hs. destruct Hs as [Hs <-].
      apply pair_inj in Hs. destruct Hs as [<- <-].
      destruct (Hslots (SInd i)) as [Hvn [Hmn Hns]];
        [exact Hi | cbn [slot_val]; congruence |].
      cbn [slot_val] in Hvn, Hmn, Hns. rewrite <- Hn in Hvn, Hmn, Hns.
      pose proof (release_same_preserves st s s CACHE_WRITE Hok Hwf)
        as [Hm0 [Hok' [Hwf' _]]].
      rewrite fs_cache_get_valid in Hget;
        [ | exact Hok' | apply (valid_sector_meta st); [apply Hm0 | exact Hvn] ].
      change (negb (Z.land CACHE_WRITE CACHE_NOLOAD =? 0)) with false in Hget.
      cbv iota in Hget. apply Ok_inj in Hget.
      rewrite release_same_ext in Hget. subst node.
      destruct (byte_to_sector_create_child st
                  (fs_cache_release st s CACHE_WRITE (sectors st s))
                  s i j n CACHE_WRITE (sectors st n) st' ret false h)
        as [Hp Hr];
        [ exact Hok | exact Hwf | exact Hi | exact Hj | symmetry; exact Hn
        | exact En | reflexivity | exact Hm0
        | apply fs_cache_release_meta
        | intros x _; apply release_same_ext | discriminate
        | match goal with
          | |- rbind _ ?F = _ =>
              exact (eq_trans (f_equal (fun x => rbind x F) H1) H)
          end
        | ].
      split; [exact Hp|]. split; [exact Hkmax | exact Hr].
Qed.
(** ** Writing into a data sector of a file *)

(** A step that changes sectors of the inode only, keeps its index and
    frees nothing. *)
Lemma frame_local st st' s :
  (forall x, 0 <= x -> marked st x -> marked st' x) ->
  (forall x, ~ owned st s x -> sectors st' x = sectors st x) ->
  (forall sl, slot_ok sl -> slot_val st' s sl = slot_val st s sl) ->
  frame st st' s.
Proof.
  intros Hm Hsec Hsv. split; [exact Hm|].
  intros x _ _ Hnx. split; [apply Hsec; exact Hnx|].
  intros [Hc|[Hc1 [sl [Hsl Hc2]]]]; apply Hnx; [left; exact Hc|].
  right. split; [exact Hc1|]. exists sl. split; [exact Hsl|].
  rewrite <- (Hsv sl Hsl). exact Hc2.
Qed.

(** Replacing the content of a data sector of a file leaves the index of
    the inode as it is. *)
Lemma write_data_sector_slots st s k content :
  inode_wf st s -> 0 <= k < MAX_SECTORS ->
  slot_val st s (slot_of k) <> NO_SECTOR ->
  let st' := set_sectors st
               (fun x => if x =? slot_val st s (slot_of k)
                         then content else sectors st x) in
  forall sl, slot_ok sl -> slot_val st' s sl = slot_val st s sl.
Proof.
  intros Hwf Hk Hne st'.
  pose proof Hwf as [[Hvs Hms] Hslots Hinj].
  pose proof (slot_of_ok k Hk) as Hsk.
  set (r := slot_val st s (slot_of k)) in *.
  destruct (Hslots _ Hsk Hne) as [Hvr [Hmr Hrs]]. fold r in Hvr, Hmr, Hrs.
  assert (Hsec : forall x, x <> r -> sectors st' x = sectors st x).
  { intros x Hx. unfold st'. simpl_st.
    replace (x =? r) with false by (symmetry; apply Z.eqb_neq; exact Hx).
    reflexivity. }
  assert (Hs : sectors st' s = sectors st s) by (apply Hsec; congruence).
  intros sl Hsl. destruct sl as [i | i | i j]; cbn [slot_val].
  - rewrite Hs. reflexivity.
  - rewrite Hs. reflexivity.
  - rewrite Hs. destruct (ind_entry (sectors st s) i =? NO_SECTOR) eqn:E;
      [reflexivity|].
    apply Z.eqb_neq in E. rewrite Hsec; [reflexivity|].
    intros Heq. destruct Hsl as [Hi Hj].
    assert (Hx : slot_of k = SInd i).
    { apply Hinj; [exact Hsk | exact Hi | exact Hne |].
      cbn [slot_val]. fold r. congruence. }
    exact (slot_of_not_ind _ _ Hx).
Qed.

Lemma write_data_sector_frame st s k content :
  inode_wf st s -> 0 <= k < MAX_SECTORS ->
  slot_val st s (slot_of k) <> NO_SECTOR ->
  frame st (set_sectors st
              (fun x => if x =? slot_val st s (slot_of k)
                        then content else sectors st x)) s.
Proof.
  intros Hwf Hk Hne. apply frame_local.
  - intros x _ Hm. exact Hm.
  - intros x Hnx. simpl_st.
    replace (x =? slot_val st s (slot_of k)) with false; [reflexivity|].
    symmetry. apply Z.eqb_neq. intros ->. apply Hnx. right.
    split; [exact Hne|]. exists (slot_of k).
    split; [apply slot_of_ok; exact Hk | reflexivity].
  - apply write_data_sector_slots; assumption.
Qed.

(** Replacing the content of the data sector number [k] of a file changes
    that sector of the file and nothing else of it. *)
Lemma write_data_sector st s k content :
  fs_ok st -> inode_wf st s -> 0 <= k < MAX_SECTORS ->
  slot_val st s (slot_of k) <> NO_SECTOR ->
  length content = Z.to_nat BLOCK_SECTOR_SIZE ->
  let st' := set_sectors st
               (fun x => if x =? slot_val st s (slot_of k)
                         then content else sectors st x) in
  fs_ok st' /\ inode_wf st' s /\ sectors st' s = sectors st s /\
  fsec st' s k = content /\
  (forall k', 0 <= k' < MAX_SECTORS -> k' <> k -> fsec st' s k' = fsec st s k').
Proof.
  intros Hok Hwf Hk Hne Hlen st'.
  pose proof Hwf as [[Hvs Hms] Hslots Hinj].
  pose proof (slot_of_ok k Hk) as Hsk.
  set (r := slot_val st s (slot_of k)) in *.
  destruct (Hslots _ Hsk Hne) as [Hvr [Hmr Hrs]]. fold r in Hvr, Hmr, Hrs.
  assert (Hsec : forall x, x <> r -> sectors st' x = sectors st x).
  { intros x Hx. unfold st'. simpl_st.
    replace (x =? r) with false by (symmetry; apply Z.eqb_neq; exact Hx).
    reflexivity. }
  assert (Hsr : sectors st' r = content).
  { unfold st'. simpl_st. rewrite Z.eqb_refl. reflexivity. }
  assert (Hs : sectors st' s = sectors st s) by (apply Hsec; congruence).
  assert (Hsv : forall sl, slot_ok sl -> slot_val st' s sl = slot_val st s sl).
  { intros sl Hsl. destruct sl as [i | i | i j]; cbn [slot_val].
    - rewrite Hs. reflexivity.
    - rewrite Hs. reflexivity.
    - rewrite Hs. destruct (ind_entry (sectors st s) i =? NO_SECTOR) eqn:E;
        [reflexivity|].
      apply Z.eqb_neq in E. rewrite Hsec; [reflexivity|].
      intros Heq. destruct Hsl as [Hi Hj].
      assert (Hx : slot_of k = SInd i).
      { apply Hinj; [exact Hsk | exact Hi | exact Hne |].
        cbn [slot_val]. fold r. congruence. }
      exact (slot_of_not_ind _ _ Hx). }
  assert (Hok' : fs_ok st').
  { destruct Hok as [H1 H2 H3 H4]. split; try assumption.
    intros x. destruct (Z.eq_dec x r) as [->|Hx].
    - rewrite Hsr. exact Hlen.
    - rewrite Hsec by exact Hx. apply H1. }
  split; [exact Hok'|].
  split.
  { split.
    - exact (conj Hvs Hms).
    - intros sl Hsl. rewrite (Hsv sl Hsl). intros Hn.
      exact (Hslots sl Hsl Hn).
    - intros sl sl' Hsl Hsl'. rewrite (Hsv sl Hsl), (Hsv sl' Hsl').
      apply Hinj; assumption. }
  split; [exact Hs|].
  split.
  - unfold fsec. rewrite (Hsv _ Hsk). fold r.
    replace (r =? NO_SECTOR) with false
      by (symmetry; apply Z.eqb_neq; exact Hne).
    exact Hsr.
  - intros k' Hk' Hkk. unfold fsec.
    pose proof (slot_of_ok k' Hk') as Hsk'.
    rewrite (Hsv _ Hsk').
    destruct (slot_val st s (slot_of k') =? NO_SECTOR) eqn:E; [reflexivity|].
    apply Z.eqb_neq in E. apply Hsec. intros Heq.
    apply Hkk. apply slot_of_inj; [exact Hk' | exact Hk |].
    apply Hinj; [exact Hsk' | exact Hsk | exact E | fold r; exact Heq].
Qed.
Lemma fbyte_split p k q :
  0 <= q < 512 -> p = 512 * k + q ->
  p / BLOCK_SECTOR_SIZE = k /\ p mod BLOCK_SECTOR_SIZE = q.
Proof.
  intros Hq ->. nums. split.
  - symmetry. apply (Z.div_unique _ _ k q); lia.
  - symmetry. apply (Z.mod_unique _ _ k q); lia.
Qed.

(** One chunk of [inode_write_at]: [chunk] bytes of the buffer from
    [bw] go to offset [ofs] of the data sector number [k]. *)
Lemma write_chunk st s k ofs chunk buf bw st2 :
  fs_ok st -> inode_wf st s -> 0 <= k < MAX_SECTORS ->
  slot_val st s (slot_of k) <> NO_SECTOR ->
  0 <= ofs -> 0 < chunk -> ofs + chunk <= 512 ->
  0 <= bw -> bw + chunk <= Z.of_nat (length buf) ->
  (if (ofs =? 0) && (chunk =? BLOCK_SECTOR_SIZE)
   then fs_cache_write st (slot_val st s (slot_of k))
          (Some (sub buf bw BLOCK_SECTOR_SIZE))
   else sec <- fs_cache_get st (slot_val st s (slot_of k)) CACHE_WRITE ;;
        Ok (fs_cache_release st (slot_val st s (slot_of k)) CACHE_WRITE
              (splice sec ofs (sub buf bw chunk)))) = Ok st2 ->
  same_meta st st2 /\ free_map st2 = free_map st /\
  fs_ok st2 /\ inode_wf st2 s /\ sectors st2 s = sectors st s /\
  (forall p, 0 <= p < MAX_LENGTH ->
     fbyte st2 s p =
     if (512 * k + ofs <=? p) && (p <? 512 * k + ofs + chunk)
     then byte_at buf (bw + (p - (512 * k + ofs)))
     else fbyte st s p) /\
  frame st st2 s.
Proof.
  intros Hok Hwf Hk Hne Hofs Hch Hoc Hbw Hbuf H.
  pose proof (ok_sectors _ Hok) as Hlen.
  pose proof (slot_of_ok k Hk) as Hsk.
  destruct (wf_slots _ _ Hwf _ Hsk Hne) as [Hvr [Hmr Hrs]].
  set (r := slot_val st s (slot_of k)) in *.
  assert (Hgen : forall content,
    length content = Z.to_nat BLOCK_SECTOR_SIZE ->
    (forall q, 0 <= q < 512 ->
       byte_at content q =
       if (ofs <=? q) && (q <? ofs + chunk)
       then byte_at buf (bw + (q - ofs)) else byte_at (sectors st r) q) ->
    st2 = set_sectors st (fun x => if x =? r then content else sectors st x) ->
    same_meta st st2 /\ free_map st2 = free_map st /\
    fs_ok st2 /\ inode_wf st2 s /\ sectors st2 s = sectors st s /\
    (forall p, 0 <= p < MAX_LENGTH ->
       fbyte st2 s p =
       if (512 * k + ofs <=? p) && (p <? 512 * k + ofs + chunk)
       then byte_at buf (bw + (p - (512 * k + ofs)))
       else fbyte st s p) /\
    frame st st2 s).
  { intros content Hlc Hc ->.
    destruct (write_data_sector st s k content Hok Hwf Hk Hne Hlc)
      as [Hok2 [Hwf2 [Hs2 [Hk2 Ho2]]]].
    pose proof (write_data_sector_frame st s k content Hwf Hk Hne) as Hfr.
    fold r in Hok2, Hwf2, Hs2, Hk2, Ho2, Hfr.
    split; [repeat split|]. split; [reflexivity|].
    split; [exact Hok2|]. split; [exact Hwf2|]. split; [exact Hs2|].
    split; [|exact Hfr].
    intros p Hp. unfold fbyte.
    assert (Hq : 0 <= p mod 512 < 512) by (apply Z.mod_pos_bound; lia).
    assert (Hpk : 0 <= p / 512 < MAX_SECTORS).
    { nums. split; [apply Z.div_pos; lia | apply Z.div_lt_upper_bound; lia]. }
    pose proof (Z.div_mod p 512 ltac:(lia)) as Hdm.
    change BLOCK_SECTOR_SIZE with 512.
    destruct (Z.eq_dec (p / 512) k) as [Ek|Ek].
    - rewrite Ek, Hk2, Hc by exact Hq.
      replace ((512 * k + ofs <=? p) && (p <? 512 * k + ofs + chunk))
        with ((ofs <=? p mod 512) && (p mod 512 <? ofs + chunk)).
      2: { f_equal.
           - destruct (Z.leb_spec ofs (p mod 512));
               destruct (Z.leb_spec (512 * k + ofs) p); try reflexivity; lia.
           - destruct (Z.ltb_spec (p mod 512) (ofs + chunk));
               destruct (Z.ltb_spec p (512 * k + ofs + chunk));
               try reflexivity; lia. }
      destruct ((ofs <=? p mod 512) && (p mod 512 <? ofs + chunk)) eqn:E.
      + f_equal. lia.
      + unfold fsec. fold r.
        replace (r =? NO_SECTOR) with false
          by (symmetry; apply Z.eqb_neq; exact Hne).
        reflexivity.
    - rewrite Ho2 by assumption.
      replace ((512 * k + ofs <=? p) && (p <? 512 * k + ofs + chunk))
        with false; [reflexivity|].
      symmetry. apply andb_false_iff.
      destruct (Z.lt_ge_cases (p / 512) k).
      + left. apply Z.leb_gt. lia.
      + right. apply Z.ltb_ge. lia. }
  destruct ((ofs =? 0) && (chunk =? BLOCK_SECTOR_SIZE)) eqn:Efull.
  - apply andb_true_iff in Efull. destruct Efull as [E1 E2].
    apply Z.eqb_eq in E1. apply Z.eqb_eq in E2. subst ofs.
    change BLOCK_SECTOR_SIZE with 512 in E2. subst chunk.
    unfold fs_cache_write in H. rewrite cache_check_valid in H by exact Hvr.
    cbn [rbind] in H. apply Ok_inj in H. symmetry in H.
    change BLOCK_SECTOR_SIZE with 512 in H.
    apply (Hgen _) in H; [exact H | |].
    + rewrite length_sub; [reflexivity | lia | lia | rewrite length_sub; lia].
    + intros q Hq.
      replace ((0 <=? q) && (q <? 0 + 512)) with true by btrue.
      rewrite !byte_at_sub by lia. f_equal. lia.
  - rewrite fs_cache_get_valid in H by assumption.
    change (negb (Z.land CACHE_WRITE CACHE_NOLOAD =? 0)) with false in H.
    cbv iota in H. cbn [rbind] in H. rewrite fs_cache_release_write in H.
    apply Ok_inj in H. symmetry in H.
    assert (Hls : length (sub buf bw chunk) = Z.to_nat chunk)
      by (apply length_sub; lia).
    specialize (Hlen r). change (Z.to_nat BLOCK_SECTOR_SIZE) with 512%nat in Hlen.
    apply (Hgen _) in H; [exact H | |].
    + rewrite length_splice; [exact (ok_sectors _ Hok r) | lia | lia].
    + intros q Hq. rewrite byte_at_splice by lia.
      rewrite Hls. rewrite Z2Nat.id by lia.
      destruct ((ofs <=? q) && (q <? ofs + chunk)) eqn:E; [|reflexivity].
      apply andb_true_iff in E. destruct E as [E1 E2].
      apply Z.leb_le in E1. apply Z.ltb_lt in E2.
      rewrite byte_at_sub by lia. reflexivity.
Qed.
Lemma preserves_fbyte st st' s p :
  preserves st st' s -> 0 <= p < MAX_LENGTH -> fbyte st' s p = fbyte st s p.
Proof.
  intros [_ [_ [_ [Hf _]]]] Hp. unfold fbyte. rewrite Hf; [reflexivity|].
  nums. split; [apply Z.div_pos; lia | apply Z.div_lt_upper_bound; lia].
Qed.

Lemma inode_write_loop_S fuel st ino buffer size offset bytes_written :
  inode_write_loop (S fuel) st ino buffer size offset bytes_written =
  if 0 <? size then
    '(st, sector_idx, held) <- byte_to_sector st ino offset true ;;
    if sector_idx =? INVALID_SECTOR then Ok (st, offset, bytes_written, held)
    else
      let sector_ofs := Z.rem offset BLOCK_SECTOR_SIZE in
      let sector_left := BLOCK_SECTOR_SIZE - sector_ofs in
      let min_left := sector_left in
      let chunk_size := if size <? min_left then size else min_left in
      if chunk_size <=? 0 then Ok (st, offset, bytes_written, held)
      else
        st <-
          (if (sector_ofs =? 0) && (chunk_size =? BLOCK_SECTOR_SIZE) then
             fs_cache_write st sector_idx
               (Some (sub buffer bytes_written BLOCK_SECTOR_SIZE))
           else
             sec <- fs_cache_get st sector_idx CACHE_WRITE ;;
             let sec := splice sec sector_ofs
                          (sub buffer bytes_written chunk_size) in
             Ok (fs_cache_release st sector_idx CACHE_WRITE sec)) ;;
        if held : bool then Err Deadlock
        else
          inode_write_loop fuel st ino buffer (size - chunk_size)
            (sint32 (offset + chunk_size)) (bytes_written + chunk_size)
  else Ok (st, offset, bytes_written, false).
Proof. reflexivity. Qed.

(** What the loop of [inode_write_at] has done when it ends: [w] bytes of
    the buffer are in the file from [off] on, everything else of the file
    and the header of the inode are as before. *)
Lemma inode_write_loop_spec fuel :
  forall st s ino buf size off bw st' off' bw' held,
  fs_ok st -> inode_wf st s -> deref st s = Ok ino ->
  0 <= off < 2 ^ 31 -> 0 <= bw -> 0 <= size ->
  bw + size <= Z.of_nat (length buf) ->
  inode_write_loop fuel st s buf size off bw = Ok (st', off', bw', held) ->
  exists w, bw' = bw + w /\ off' = off + w /\ 0 <= w <= size /\
    same_meta st st' /\ fs_ok st' /\ inode_wf st' s /\
    (forall m a, 0 <= a -> a + Z.of_nat m <= SIZEOF_HEADER ->
       load m (sectors st' s) a = load m (sectors st s) a) /\
    (0 < w -> off + w <= MAX_LENGTH) /\
    (forall p, 0 <= p < MAX_LENGTH ->
       fbyte st' s p =
       if (off <=? p) && (p <? off + w)
       then byte_at buf (bw + (p - off)) else fbyte st s p) /\
    frame st st' s.
Proof.
  induction fuel as [|fuel IH];
    intros st s ino buf size off bw st' off' bw' held
           Hok Hwf Hd Hoff Hbw Hsz Hbuf H.
  - cbn [inode_write_loop] in H.
    destruct (0 <? size) eqn:E; [discriminate|].
    apply Ok_inj in H. apply pair_inj in H. destruct H as [H _].
    apply pair_inj in H. destruct H as [H <-].
    apply pair_inj in H. destruct H as [<- <-].
    exists 0. split; [lia|]. split; [lia|]. split; [lia|].
    split; [apply same_meta_refl|]. split; [exact Hok|]. split; [exact Hwf|].
    split; [reflexivity|]. split; [lia|]. split; [|apply frame_refl].
    intros p Hp.
    replace ((off <=? p) && (p <? off + 0)) with false; [reflexivity|].
    symmetry. apply andb_false_iff.
    destruct (Z.leb_spec off p); [right; apply Z.ltb_ge; lia | left; reflexivity].
  - rewrite inode_write_loop_S in H.
    destruct (0 <? size) eqn:E.
    2: { apply Ok_inj in H. apply pair_inj in H. destruct H as [H _].
         apply pair_inj in H. destruct H as [H <-].
         apply pair_inj in H. destruct H as [<- <-].
         exists 0. split; [lia|]. split; [lia|]. split; [lia|].
         split; [apply same_meta_refl|]. split; [exact Hok|].
         split; [exact Hwf|].
         split; [reflexivity|]. split; [lia|]. split; [|apply frame_refl].
         intros p Hp.
         replace ((off <=? p) && (p <? off + 0)) with false; [reflexivity|].
         symmetry. apply andb_false_iff.
         destruct (Z.leb_spec off p);
           [right; apply Z.ltb_ge; lia | left; reflexivity]. }
    apply Z.ltb_lt in E.
    apply rbind_ok in H. destruct H as [[[st1 ret] hd1] [Hb H]].
    apply byte_to_sector_create with (ino := ino) in Hb;
      [ | exact Hok | exact Hwf | exact Hd | lia ].
    destruct Hb as [Hp [Hk Hr]].
    pose proof Hp as [Hm1 [Hok1 [Hwf1 [Hf1 [Hh1 Hfr1]]]]].
    assert (Hk0 : 0 <= off / 512) by (apply Z.div_pos; lia).
    assert (Hmax : off < 8483840).
    { pose proof (Z.div_mod off 512 ltac:(lia)).
      pose proof (Z.mod_pos_bound off 512 ltac:(lia)). nums. lia. }
    destruct (ret =? INVALID_SECTOR) eqn:Einv.
    + apply Ok_inj in H. apply pair_inj in H. destruct H as [H _].
      apply pair_inj in H. destruct H as [H <-].
      apply pair_inj in H. destruct H as [<- <-].
      exists 0. split; [lia|]. split; [lia|]. split; [lia|].
      split; [exact Hm1|]. split; [exact Hok1|]. split; [exact Hwf1|].
      split; [exact Hh1|]. split; [lia|]. split; [|exact Hfr1].
      intros p Hpp.
      replace ((off <=? p) && (p <? off + 0)) with false;
        [apply preserves_fbyte; assumption|].
      symmetry. apply andb_false_iff.
      destruct (Z.leb_spec off p);
        [right; apply Z.ltb_ge; lia | left; reflexivity].
    + apply Z.eqb_neq in Einv.
      destruct Hr as [Hr|[Hrn Hr]]; [contradiction|].
      rewrite rem_sector in H by lia.
      cbv zeta in H. change BLOCK_SECTOR_SIZE with 512 in H.
      assert (Hq : 0 <= off mod 512 < 512) by (apply Z.mod_pos_bound; lia).
      pose proof (Z.div_mod off 512 ltac:(lia)) as Hdm.
      remember (if size <? 512 - off mod 512 then size else 512 - off mod 512)
        as chunk eqn:Hchunk.
      assert (Hc : 0 < chunk <= size /\ off mod 512 + chunk <= 512).
      { subst chunk. destruct (Z.ltb_spec size (512 - off mod 512)); lia. }
      replace (chunk <=? 0) with false in H
        by (symmetry; apply Z.leb_gt; lia).
      apply rbind_ok in H. destruct H as [st2 [Hw H]].
      subst ret.
      apply write_chunk in Hw;
        [ | exact Hok1 | exact Hwf1 | lia | exact Hrn | lia | lia | lia
          | lia | lia ].
      destruct Hw as [Hm2 [Hfm2 [Hok2 [Hwf2 [Hs2 [Hb2 Hfr2]]]]]].
      destruct hd1; [discriminate|].
      rewrite sint32_small in H by lia.
      apply IH with (ino := ino) in H;
        [ | exact Hok2 | exact Hwf2
          | rewrite (deref_meta st st2);
            [exact Hd | eapply same_meta_trans; eassumption]
          | lia | lia | lia | lia ].
      destruct H as [w [-> [-> [Hw [Hm3 [Hok3 [Hwf3 [Hh3 [Hmx [Hb3 Hfr3]]]]]]]]]].
      exists (chunk + w). split; [lia|]. split; [lia|]. split; [lia|].
      split; [eapply same_meta_trans; [|exact Hm3];
              eapply same_meta_trans; eassumption|].
      split; [exact Hok3|]. split; [exact Hwf3|].
      split.
      { intros m a Ha Hma. rewrite Hh3 by assumption. rewrite Hs2.
        apply Hh1; assumption. }
      split.
      { intros _. destruct (Z.eq_dec w 0) as [->|Hw0]; [|lia].
        nums. lia. }
      split.
      2: { eapply frame_trans; [exact Hfr1|].
           eapply frame_trans; [exact Hfr2 | exact Hfr3]. }
      intros p Hpp. rewrite Hb3 by exact Hpp. rewrite Hb2 by exact Hpp.
      rewrite (preserves_fbyte st st1 s p Hp Hpp).
      replace (512 * (off / 512) + off mod 512) with off by lia.
      destruct (Z.leb_spec (off + chunk) p);
        destruct (Z.ltb_spec p (off + chunk + w));
        destruct (Z.leb_spec off p);
        destruct (Z.ltb_spec p (off + chunk));
        destruct (Z.ltb_spec p (off + (chunk + w)));
        cbn [andb]; try lia; try reflexivity; f_equal; lia.
Qed.
(** Rewriting the header of an inode leaves its index as it is. *)
Lemma header_update_slots st s data' :
  inode_wf st s ->
  (forall a, SIZEOF_HEADER <= a -> a + 2 <= 512 ->
     load 2 data' a = load 2 (sectors st s) a) ->
  let st' := set_sectors st (fun x => if x =? s then data' else sectors st x) in
  forall sl, slot_ok sl -> slot_val st' s sl = slot_val st s sl.
Proof.
  intros Hwf Hload st'.
  pose proof Hwf as [[Hvs Hms] Hslots Hinj].
  assert (Hsec : forall x, x <> s -> sectors st' x = sectors st x).
  { intros x Hx. unfold st'. simpl_st.
    replace (x =? s) with false by (symmetry; apply Z.eqb_neq; exact Hx).
    reflexivity. }
  assert (Hs : sectors st' s = data').
  { unfold st'. simpl_st. rewrite Z.eqb_refl. reflexivity. }
  assert (Hde : forall i, 0 <= i < NUM_DIRECT ->
            dir_entry data' i = dir_entry (sectors st s) i).
  { intros i Hi. unfold dir_entry. nums. apply Hload; lia. }
  assert (Hie : forall i, 0 <= i < NUM_INDIRECT ->
            ind_entry data' i = ind_entry (sectors st s) i).
  { intros i Hi. unfold ind_entry. nums. apply Hload; lia. }
  intros sl Hsl. destruct sl as [i | i | i j]; cbn [slot_val]; rewrite Hs.
  - apply Hde. exact Hsl.
  - apply Hie. exact Hsl.
  - destruct Hsl as [Hi Hj]. rewrite (Hie i Hi).
    destruct (ind_entry (sectors st s) i =? NO_SECTOR) eqn:E;
      [reflexivity|].
    apply Z.eqb_neq in E. rewrite Hsec; [reflexivity|].
    apply (Hslots (SInd i)); [exact Hi | exact E].
Qed.

Lemma header_update_frame st s data' :
  inode_wf st s ->
  (forall a, SIZEOF_HEADER <= a -> a + 2 <= 512 ->
     load 2 data' a = load 2 (sectors st s) a) ->
  frame st (set_sectors st (fun x => if x =? s then data' else sectors st x)) s.
Proof.
  intros Hwf Hload. apply frame_local.
  - intros x _ Hm. exact Hm.
  - intros x Hnx. simpl_st.
    replace (x =? s) with false; [reflexivity|].
    symmetry. apply Z.eqb_neq. intros ->. apply Hnx. left. reflexivity.
  - apply header_update_slots; assumption.
Qed.

(** Rewriting the header of an inode keeps its index and its file. *)
Lemma header_update st s data' :
  fs_ok st -> inode_wf st s ->
  length data' = Z.to_nat BLOCK_SECTOR_SIZE ->
  (forall a, SIZEOF_HEADER <= a -> a + 2 <= 512 ->
     load 2 data' a = load 2 (sectors st s) a) ->
  let st' := set_sectors st (fun x => if x =? s then data' else sectors st x) in
  fs_ok st' /\ inode_wf st' s /\
  (forall k, 0 <= k < MAX_SECTORS -> fsec st' s k = fsec st s k).
Proof.
  intros Hok Hwf Hlen Hload st'.
  pose proof Hwf as [[Hvs Hms] Hslots Hinj].
  assert (Hsec : forall x, x <> s -> sectors st' x = sectors st x).
  { intros x Hx. unfold st'. simpl_st.
    replace (x =? s) with false by (symmetry; apply Z.eqb_neq; exact Hx).
    reflexivity. }
  assert (Hs : sectors st' s = data').
  { unfold st'. simpl_st. rewrite Z.eqb_refl. reflexivity. }
  assert (Hde : forall i, 0 <= i < NUM_DIRECT ->
            dir_entry data' i = dir_entry (sectors st s) i).
  { intros i Hi. unfold dir_entry. nums. apply Hload; lia. }
  assert (Hie : forall i, 0 <= i < NUM_INDIRECT ->
            ind_entry data' i = ind_entry (sectors st s) i).
  { intros i Hi. unfold ind_entry. nums. apply Hload; lia. }
  assert (Hsv : forall sl, slot_ok sl -> slot_val st' s sl = slot_val st s sl).
  { intros sl Hsl. destruct sl as [i | i | i j]; cbn [slot_val]; rewrite Hs.
    - apply Hde. exact Hsl.
    - apply Hie. exact Hsl.
    - destruct Hsl as [Hi Hj]. rewrite (Hie i Hi).
      destruct (ind_entry (sectors st s) i =? NO_SECTOR) eqn:E;
        [reflexivity|].
      apply Z.eqb_neq in E. rewrite Hsec; [reflexivity|].
      apply (Hslots (SInd i)); [exact Hi | exact E]. }
  split.
  { destruct Hok as [H1 H2 H3 H4]. split; try assumption.
    intros x. destruct (Z.eq_dec x s) as [->|Hx].
    - rewrite Hs. exact Hlen.
    - rewrite Hsec by exact Hx. apply H1. }
  split.
  { split.
    - exact (conj Hvs Hms).
    - intros sl Hsl. rewrite (Hsv sl Hsl). intros Hn.
      exact (Hslots sl Hsl Hn).
    - intros sl sl' Hsl Hsl'. rewrite (Hsv sl Hsl), (Hsv sl' Hsl').
      apply Hinj; assumption. }
  intros k Hk. unfold fsec.
  pose proof (slot_of_ok k Hk) as Hsk. rewrite (Hsv _ Hsk).
  destruct (slot_val st s (slot_of k) =? NO_SECTOR) eqn:E; [reflexivity|].
  apply Z.eqb_neq in E. apply Hsec.
  apply (Hslots _ Hsk E).
Qed.

(** [inode_write_at]: a denied write does nothing; otherwise [w] bytes of
    the buffer are in the file from [off] on, the rest of the file is as
    before, and the stored length is the larger of the previous length and
    the final offset. *)
Lemma inode_write_at_spec st s ino buf size off st' w :
  fs_ok st -> inode_wf st s -> deref st s = Ok ino ->
  0 <= off < 2 ^ 31 -> 0 <= size ->
  size <= Z.of_nat (length buf) ->
  inode_write_at st s buf size off = Ok (st', w) ->
  if negb (deny_write_cnt ino =? 0) then st' = st /\ w = 0
  else
    0 <= w <= size /\ same_meta st st' /\ fs_ok st' /\ inode_wf st' s /\
    header_length (sectors st' s) =
      Z.max (header_length (sectors st s)) (off + w) /\
    header_counter (sectors st' s) = header_counter (sectors st s) /\
    (0 < w -> off + w <= MAX_LENGTH) /\
    (forall p, 0 <= p < MAX_LENGTH ->
       fbyte st' s p =
       if (off <=? p) && (p <? off + w)
       then byte_at buf (p - off) else fbyte st s p).
Proof.
  intros Hok Hwf Hd Hoff Hsz Hbuf H.
  unfold inode_write_at in H. rewrite Hd in H. cbn [rbind] in H.
  destruct (negb (deny_write_cnt ino =? 0)).
  { apply Ok_inj in H. apply pair_inj in H. destruct H as [<- <-].
    split; reflexivity. }
  apply rbind_ok in H. destruct H as [[[[st2 off2] bw2] hd2] [Hl H]].
  apply inode_write_loop_spec with (ino := ino) in Hl;
    [ | assumption | assumption | assumption | lia | lia | lia | lia ].
  destruct Hl as [w' [-> [-> [Hw [Hm [Hok2 [Hwf2 [Hh [Hmx [Hb _]]]]]]]]]].
  destruct hd2; [discriminate|]. cbn [rbind] in H.
  rewrite (deref_sector _ _ _ Hd) in H.
  rewrite fs_cache_get_valid in H by (try assumption; apply Hwf2).
  change (negb (Z.land CACHE_WRITE CACHE_NOLOAD =? 0)) with false in H.
  cbv iota in H. cbn [rbind] in H. rewrite fs_cache_release_write in H.
  apply Ok_inj in H. apply pair_inj in H. destruct H as [<- <-].
  pose proof (ok_sectors _ Hok2 s) as Hlen.
  change (Z.to_nat BLOCK_SECTOR_SIZE) with 512%nat in Hlen.
  assert (Hhl : header_length (sectors st2 s) = header_length (sectors st s)).
  { unfold header_length. f_equal. apply Hh; nums; simpl; lia. }
  assert (Hhc : header_counter (sectors st2 s) = header_counter (sectors st s)).
  { unfold header_counter. f_equal. apply Hh; nums; simpl; lia. }
  set (data' := if header_length (sectors st2 s) <? off + w'
                then set_header_length (sectors st2 s) (off + w')
                else sectors st2 s).
  assert (Hld : length data' = 512%nat).
  { unfold data'. destruct (header_length (sectors st2 s) <? off + w');
      [apply length_set_header_length|]; exact Hlen. }
  destruct (header_update st2 s data' Hok2 Hwf2 Hld) as [Hok3 [Hwf3 Hf3]].
  { intros a Ha Ha2. unfold data'.
    destruct (header_length (sectors st2 s) <? off + w'); [|reflexivity].
    nums. apply load_set_header_length; simpl; first [lia | exact Hlen]. }
  replace (0 + w') with w' by lia.
  split; [lia|]. split; [exact Hm|]. split; [exact Hok3|].
  split; [exact Hwf3|].
  simpl_st. rewrite Z.eqb_refl.
  assert (Hlt : off + w' < 2 ^ 31).
  { destruct (Z.eq_dec w' 0) as [->|Hw0]; [lia|].
    assert (off + w' <= MAX_LENGTH) by (apply Hmx; lia).
    change MAX_LENGTH with 8483840 in *. lia. }
  split.
  { unfold data'. rewrite <- Hhl.
    destruct (Z.ltb_spec (header_length (sectors st2 s)) (off + w')).
    - rewrite header_length_set; [lia | exact Hlen | lia].
    - lia. }
  split.
  { rewrite <- Hhc. unfold data'.
    destruct (header_length (sectors st2 s) <? off + w'); [|reflexivity].
    unfold header_counter. f_equal. nums.
    apply load_set_header_length; simpl; first [lia | exact Hlen]. }
  split; [exact Hmx|].
  intros p Hp. replace (p - off) with (0 + (p - off)) by lia.
  rewrite <- (Hb p Hp).
  unfold fbyte. rewrite Hf3; [reflexivity|].
  nums. split; [apply Z.div_pos; lia | apply Z.div_lt_upper_bound; lia].
Qed.

(** [inode_write_at] frees no sector and changes no sector in use other
    than those of the inode it writes to. *)
Lemma inode_write_at_frame st s ino buf size off st' w :
  fs_ok st -> inode_wf st s -> deref st s = Ok ino ->
  0 <= off < 2 ^ 31 -> 0 <= size ->
  size <= Z.of_nat (length buf) ->
  inode_write_at st s buf size off = Ok (st', w) ->
  frame st st' s.
Proof.
  intros Hok Hwf Hd Hoff Hsz Hbuf H.
  unfold inode_write_at in H. rewrite Hd in H. rewrite rbind_ret in H.
  destruct (negb (deny_write_cnt ino =? 0)).
  { apply Ok_inj in H. apply pair_inj in H. destruct H as [<- _].
    apply frame_refl. }
  apply rbind_ok in H. destruct H as [[[[st2 off2] bw2] hd2] [Hl H]].
  apply inode_write_loop_spec with (ino := ino) in Hl;
    [ | assumption | assumption | assumption | lia | lia | lia | lia ].
  destruct Hl as [w' [-> [-> [Hw [Hm [Hok2 [Hwf2 [Hh [Hmx [Hb Hfr]]]]]]]]]].
  destruct hd2; [discriminate|]. rewrite rbind_ret in H.
  rewrite (deref_sector _ _ _ Hd) in H.
  rewrite fs_cache_get_valid in H by (try assumption; apply Hwf2).
  change (negb (Z.land CACHE_WRITE CACHE_NOLOAD =? 0)) with false in H.
  cbv iota in H. rewrite rbind_ret in H. rewrite fs_cache_release_write in H.
  apply Ok_inj in H. apply pair_inj in H. destruct H as [<- _].
  pose proof (ok_sectors _ Hok2 s) as Hlen.
  change (Z.to_nat BLOCK_SECTOR_SIZE) with 512%nat in Hlen.
  eapply frame_trans; [exact Hfr|].
  apply header_update_frame; [exact Hwf2|].
  intros a Ha Ha2.
  destruct (header_length (sectors st2 s) <? off + w'); [|reflexivity].
  nums. apply load_set_header_length; simpl; first [lia | exact Hlen].
Qed.

(** ** Reading a file *)

Lemma length_fbytes st s off n : length (fbytes st s off n) = Z.to_nat n.
Proof. unfold fbytes. rewrite length_map, length_seq. reflexivity. Qed.

Lemma byte_at_fbytes st s off n i :
  0 <= i < n -> byte_at (fbytes st s off n) i = fbyte st s (off + i).
Proof.
  intros Hi. unfold byte_at, fbytes.
  rewrite (nth_indep _ zero_byte (fbyte st s (off + Z.of_nat 0)))
    by (rewrite length_map, length_seq; lia).
  rewrite (map_nth (fun i => fbyte st s (off + Z.of_nat i))).
  rewrite seq_nth by lia. f_equal. lia.
Qed.

Lemma byte_at_app (a b : list byte) i :
  0 <= i ->
  byte_at (a ++ b) i =
  if i <? Z.of_nat (length a) then byte_at a i
  else byte_at b (i - Z.of_nat (length a)).
Proof.
  intros Hi. unfold byte_at.
  destruct (Z.ltb_spec i (Z.of_nat (length a))).
  - apply app_nth1. lia.
  - rewrite app_nth2 by lia. f_equal. lia.
Qed.

Lemma fbytes_app st s off a b :
  0 <= a -> 0 <= b ->
  fbytes st s off (a + b) = fbytes st s off a ++ fbytes st s (off + a) b.
Proof.
  intros Ha Hb. apply list_eq_byte_at.
  - rewrite length_app, !length_fbytes. lia.
  - rewrite length_fbytes. intros i Hi.
    rewrite byte_at_fbytes by lia.
    rewrite byte_at_app by lia. rewrite length_fbytes.
    destruct (Z.ltb_spec i (Z.of_nat (Z.to_nat a))).
    + rewrite byte_at_fbytes by lia. reflexivity.
    + rewrite byte_at_fbytes by lia. f_equal. lia.
Qed.

Lemma length_fsec st s k :
  fs_ok st -> length (fsec st s k) = Z.to_nat BLOCK_SECTOR_SIZE.
Proof.
  intros Hok. unfold fsec.
  destruct (slot_val st s (slot_of k) =? NO_SECTOR);
    [apply length_ZERO_BUF | apply (ok_sectors _ Hok)].
Qed.

(** A piece of one sector of the file. *)
Lemma sub_fsec st s off chunk :
  fs_ok st -> 0 <= off -> 0 <= chunk -> off mod 512 + chunk <= 512 ->
  sub (fsec st s (off / 512)) (off mod 512) chunk = fbytes st s off chunk.
Proof.
  intros Hok Hoff Hc Hle.
  pose proof (length_fsec st s (off / 512) Hok) as Hl.
  change (Z.to_nat BLOCK_SECTOR_SIZE) with 512%nat in Hl.
  assert (Hq : 0 <= off mod 512 < 512) by (apply Z.mod_pos_bound; lia).
  apply list_eq_byte_at.
  - rewrite length_sub, length_fbytes; lia.
  - rewrite length_sub by lia. intros i Hi.
    rewrite byte_at_sub by lia. rewrite byte_at_fbytes by lia.
    unfold fbyte.
    destruct (fbyte_split (off + i) (off / 512) (off mod 512 + i))
      as [-> ->]; [lia | | reflexivity].
    pose proof (Z.div_mod off 512 ltac:(lia)). lia.
Qed.
Lemma inode_length_eq st s ino :
  fs_ok st -> inode_wf st s -> deref st s = Ok ino ->
  inode_length st s = Ok (header_length (sectors st s)).
Proof.
  intros Hok Hwf Hd. unfold inode_length. rewrite Hd. cbn [rbind].
  rewrite (deref_sector _ _ _ Hd).
  rewrite fs_cache_get_valid by (try assumption; apply Hwf).
  reflexivity.
Qed.

(** What the cache serves for the sector that [byte_to_sector] yields for
    the data sector number [k]. *)
Lemma read_sector_fsec st s k :
  fs_ok st -> inode_wf st s -> 0 <= k < MAX_SECTORS ->
  let idx := if slot_val st s (slot_of k) =? NO_SECTOR
             then INVALID_SECTOR else slot_val st s (slot_of k) in
  fs_cache_read st idx = Ok (fsec st s k) /\
  fs_cache_get st idx 0 = Ok (fsec st s k).
Proof.
  intros Hok Hwf Hk idx. unfold idx, fsec.
  pose proof (slot_of_ok k Hk) as Hsk.
  destruct (slot_val st s (slot_of k) =? NO_SECTOR) eqn:E.
  - split; reflexivity.
  - apply Z.eqb_neq in E.
    destruct (wf_slots _ _ Hwf _ Hsk E) as [Hv _].
    pose proof (slot_val_range st s (slot_of k)) as Hr.
    split.
    + unfold fs_cache_read.
      replace (slot_val st s (slot_of k) =? INVALID_SECTOR) with false
        by (symmetry; apply Z.eqb_neq; nums; lia).
      rewrite cache_check_valid by exact Hv. reflexivity.
    + rewrite fs_cache_get_valid by assumption. reflexivity.
Qed.

Lemma inode_read_loop_S fuel st ino size offset bytes_read out :
  inode_read_loop (S fuel) st ino size offset bytes_read out =
  if 0 <? size then
    len <- inode_length st ino ;;
    let inode_left := sint32 (len - offset) in
    '(_, sector_idx, _) <- byte_to_sector st ino offset false ;;
    let sector_ofs := Z.rem offset BLOCK_SECTOR_SIZE in
    _ <- (if BLOCK_SECTOR_SIZE <? inode_left then
            '(_, next_sector_idx, _) <-
              byte_to_sector st ino (sint32 (offset + BLOCK_SECTOR_SIZE)) false ;;
            Ok tt
          else Ok tt) ;;
    let sector_left := BLOCK_SECTOR_SIZE - sector_ofs in
    let min_left := if inode_left <? sector_left then inode_left
                    else sector_left in
    let chunk_size := if size <? min_left then size else min_left in
    if chunk_size <=? 0 then Ok (bytes_read, out)
    else
      chunk <-
        (if (sector_ofs =? 0) && (chunk_size =? BLOCK_SECTOR_SIZE) then
           fs_cache_read st sector_idx
         else
           sec <- fs_cache_get st sector_idx 0 ;;
           Ok (sub sec sector_ofs chunk_size)) ;;
      inode_read_loop fuel st ino (size - chunk_size)
        (sint32 (offset + chunk_size)) (bytes_read + chunk_size)
        (out ++ chunk)
  else Ok (bytes_read, out).
Proof. reflexivity. Qed.

(** A read that lies within the stored length of a well-formed inode
    returns all the bytes asked for, and they are the bytes of the file.
    Neither the positions read nor the position of the read-ahead, one
    sector further, are past what the index addresses: the stored length
    is within it, or the read ends a sector before its end. *)
Lemma inode_read_loop_spec fuel :
  forall st s ino size off br out,
  fs_ok st -> inode_wf st s -> deref st s = Ok ino ->
  header_length (sectors st s) <= MAX_LENGTH \/
    off + size + 512 <= MAX_LENGTH ->
  0 <= off -> 0 <= size -> off + size <= header_length (sectors st s) ->
  (Z.to_nat size <= fuel)%nat ->
  inode_read_loop fuel st s size off br out =
  Ok (br + size, out ++ fbytes st s off size).
Proof.
  induction fuel as [|fuel IH];
    intros st s ino size off br out Hok Hwf Hd HL Hoff Hsz Hin Hfuel.
  - assert (size = 0) by lia. subst size. cbn [inode_read_loop].
    change (0 <? 0) with false. cbv iota.
    rewrite Z.add_0_r. unfold fbytes. cbn. rewrite app_nil_r. reflexivity.
  - rewrite inode_read_loop_S.
    destruct (0 <? size) eqn:E.
    2: { apply Z.ltb_ge in E. assert (size = 0) by lia. subst size.
         rewrite Z.add_0_r. unfold fbytes. cbn. rewrite app_nil_r.
         reflexivity. }
    apply Z.ltb_lt in E.
    pose proof (sint32_range (load 4 (sectors st s) OFS_LENGTH)) as HLr.
    fold (header_length (sectors st s)) in HLr.
    set (L := header_length (sectors st s)) in *.
    rewrite (inode_length_eq st s ino) by assumption. cbn [rbind]. fold L.
    assert (Hk : 0 <= off / 512 < MAX_SECTORS).
    { nums. split; [apply Z.div_pos; lia | apply Z.div_lt_upper_bound; lia]. }
    rewrite (byte_to_sector_read st s ino off) by (try assumption; nums; lia).
    cbn [rbind]. cbv zeta.
    rewrite rem_sector by exact Hoff.
    rewrite sint32_small by (nums; lia).
    change BLOCK_SECTOR_SIZE with 512.
    assert (Hra : (if 512 <? L - off
                   then '(_, _, _) <- byte_to_sector st s (sint32 (off + 512)) false ;;
                        Ok tt
                   else Ok tt) = Ok tt).
    { destruct (Z.ltb_spec 512 (L - off)); [|reflexivity].
      rewrite sint32_small by (nums; lia).
      rewrite (byte_to_sector_read st s ino (off + 512));
        [reflexivity | assumption | assumption | assumption | nums; lia |].
      nums. apply Z.div_lt_upper_bound; lia. }
    rewrite Hra. cbn [rbind].
    assert (Hq : 0 <= off mod 512 < 512) by (apply Z.mod_pos_bound; lia).
    set (ml := if L - off <? 512 - off mod 512 then L - off
               else 512 - off mod 512).
    remember (if size <? ml then size else ml) as chunk eqn:Hchunk.
    assert (Hc : 0 < chunk <= size /\ off mod 512 + chunk <= 512).
    { subst chunk. unfold ml.
      destruct (Z.ltb_spec (L - off) (512 - off mod 512));
        match goal with
        | |- context [size <? ?m] => destruct (Z.ltb_spec size m)
        end; lia. }
    replace (chunk <=? 0) with false by (symmetry; apply Z.leb_gt; lia).
    destruct (read_sector_fsec st s (off / 512) Hok Hwf Hk) as [Hr1 Hr2].
    cbv zeta in Hr1, Hr2.
    assert (Hchunkbytes :
      (if (off mod 512 =? 0) && (chunk =? 512)
       then fs_cache_read st
              (if slot_val st s (slot_of (off / 512)) =? NO_SECTOR
               then INVALID_SECTOR else slot_val st s (slot_of (off / 512)))
       else sec <- fs_cache_get st
                     (if slot_val st s (slot_of (off / 512)) =? NO_SECTOR
                      then INVALID_SECTOR
                      else slot_val st s (slot_of (off / 512))) 0 ;;
            Ok (sub sec (off mod 512) chunk)) =
      Ok (fbytes st s off chunk)).
    { destruct ((off mod 512 =? 0) && (chunk =? 512)) eqn:Ef.
      - apply andb_true_iff in Ef. destruct Ef as [E1 E2].
        apply Z.eqb_eq in E1. apply Z.eqb_eq in E2.
        rewrite Hr1. f_equal.
        rewrite <- (sub_fsec st s off chunk) by (try assumption; lia).
        rewrite E1, E2.
        pose proof (length_fsec st s (off / 512) Hok) as Hl.
        unfold sub. cbn [skipn Z.to_nat].
        rewrite firstn_all2; [reflexivity|].
        rewrite Hl. nums. lia.
      - rewrite Hr2. cbn [rbind]. f_equal.
        apply sub_fsec; try assumption; lia. }
    rewrite Hchunkbytes. cbn [rbind].
    rewrite sint32_small by (nums; lia).
    rewrite (IH st s ino) by (try assumption; fold L; unfold MAX_LENGTH in *; lia).
    f_equal. f_equal; [lia|].
    rewrite <- app_assoc. f_equal.
    replace size with (chunk + (size - chunk)) at 2 by lia.
    apply eq_sym, fbytes_app; lia.
Qed.
(** A read within the stored length of a well-formed inode. *)
Lemma inode_read_at_in_index st s ino size off :
  fs_ok st -> inode_wf st s -> deref st s = Ok ino ->
  header_length (sectors st s) <= MAX_LENGTH \/
    off + size + 512 <= MAX_LENGTH ->
  0 <= off -> 0 <= size -> off + size <= header_length (sectors st s) ->
  inode_read_at st s size off = Ok (size, fbytes st s off size).
Proof.
  intros Hok Hwf Hd HL Hoff Hsz Hin. unfold inode_read_at.
  rewrite (inode_read_loop_spec (Z.to_nat size) st s ino size off 0 [])
    by (try assumption; lia).
  reflexivity.
Qed.

Lemma inode_read_at_within st s ino size off :
  fs_ok st -> inode_wf st s -> deref st s = Ok ino ->
  header_length (sectors st s) <= MAX_LENGTH ->
  0 <= off -> 0 <= size -> off + size <= header_length (sectors st s) ->
  inode_read_at st s size off = Ok (size, fbytes st s off size).
Proof.
  intros Hok Hwf Hd HL Hoff Hsz Hin.
  apply (inode_read_at_in_index st s ino); try assumption. left. exact HL.
Qed.

Lemma inode_read_at_nothing st s off : inode_read_at st s 0 off = Ok (0, []).
Proof. reflexivity. Qed.

(** Round trip.  On a well-formed inode, when [inode_write_at] of the [n]
    bytes of [buf] at [off] returns [n] and the range written ends within
    the 8,483,840 bytes that the index addresses, the [inode_read_at] of
    [n] bytes at [off] that follows returns [n] and yields [buf], provided
    that the read-ahead of the read stays within the index as well: the
    stored length is within it, or the range ends a sector before its
    end. *)
Theorem write_then_read_roundtrip st s ino buf n off st' :
  fs_ok st -> inode_wf st s -> deref st s = Ok ino ->
  0 <= off -> Z.of_nat (length buf) = n ->
  off + n <= MAX_LENGTH ->
  header_length (sectors st s) <= MAX_LENGTH \/ off + n + 512 <= MAX_LENGTH ->
  inode_write_at st s buf n off = Ok (st', n) ->
  inode_read_at st' s n off = Ok (n, buf).
Proof.
  intros Hok Hwf Hd Hoff Hlen Hmax HL H.
  destruct (Z.eq_dec n 0) as [Hn|Hn].
  { subst n. rewrite Hn. destruct buf; [|discriminate].
    apply inode_read_at_nothing. }
  assert (Hoff' : 0 <= off < 2 ^ 31) by (unfold MAX_LENGTH in Hmax; nums; lia).
  apply inode_write_at_spec with (ino := ino) in H;
    [ | assumption | assumption | assumption | lia | lia | lia ].
  destruct (negb (deny_write_cnt ino =? 0)); [lia|].
  destruct H as [Hw [Hm [Hok' [Hwf' [Hl' [_ [_ Hb]]]]]]].
  rewrite (inode_read_at_in_index st' s ino);
    [ | assumption | assumption
      | rewrite (deref_meta st st' s Hm); exact Hd
      | lia | lia | lia | lia ].
  f_equal. f_equal. apply list_eq_byte_at.
  - rewrite length_fbytes. lia.
  - rewrite length_fbytes. intros i Hi.
    rewrite byte_at_fbytes by lia.
    rewrite Hb by (nums; lia).
    replace ((off <=? off + i) && (off + i <? off + n)) with true by btrue.
    f_equal. lia.
Qed.
Lemma byte_at_zeros n i : byte_at (zeros n) i = zero_byte.
Proof. unfold byte_at, zeros. apply nth_repeat. Qed.

(** Holes.  On a well-formed inode, a range below the stored length whose
    data sectors have no index entry reads as zeros, when neither the
    range nor the read-ahead, one sector further, is past what the index
    addresses: at every position of the range [byte_to_sector] yields the
    invalid sector, which the cache serves as zeros, and [inode_read_at]
    returns the whole range as bytes 0x00. *)
Theorem holes_read_as_zeros st s ino n off :
  fs_ok st -> inode_wf st s -> deref st s = Ok ino ->
  header_length (sectors st s) <= MAX_LENGTH \/ off + n + 512 <= MAX_LENGTH ->
  0 <= off -> 0 <= n -> off + n <= header_length (sectors st s) ->
  (forall k, off / 512 <= k <= (off + n - 1) / 512 ->
     slot_val st s (slot_of k) = NO_SECTOR) ->
  (forall p, off <= p < off + n ->
     byte_to_sector st s p false = Ok (st, INVALID_SECTOR, false)) /\
  fs_cache_read st INVALID_SECTOR = Ok (zeros BLOCK_SECTOR_SIZE) /\
  fs_cache_get st INVALID_SECTOR 0 = Ok (zeros BLOCK_SECTOR_SIZE) /\
  inode_read_at st s n off = Ok (n, zeros n).
Proof.
  intros Hok Hwf Hd HL Hoff Hn Hin Hhole.
  assert (Hk : forall p, off <= p < off + n ->
            off / 512 <= p / 512 <= (off + n - 1) / 512).
  { intros p Hp. split; apply Z.div_le_mono; lia. }
  split.
  { intros p Hp.
    rewrite (byte_to_sector_read st s ino p);
      [ | assumption | assumption | assumption | nums; lia
        | nums; apply Z.div_lt_upper_bound; lia ].
    rewrite (Hhole (p / 512) (Hk p Hp)). reflexivity. }
  split; [reflexivity|]. split; [reflexivity|].
  rewrite (inode_read_at_in_index st s ino) by assumption.
  f_equal. f_equal. apply list_eq_byte_at.
  - rewrite length_fbytes. unfold zeros. rewrite repeat_length. reflexivity.
  - rewrite length_fbytes. intros i Hi.
    rewrite byte_at_fbytes by lia. rewrite byte_at_zeros.
    unfold fbyte, fsec. change BLOCK_SECTOR_SIZE with 512.
    rewrite (Hhole ((off + i) / 512)) by (apply Hk; lia).
    change (NO_SECTOR =? NO_SECTOR) with true. cbv iota.
    apply byte_at_zeros.
Qed.
(** ** Creating and opening an inode *)

(** Well-formedness depends on the device, the sectors and the free map. *)
Lemma wf_transfer st st' s :
  disk_size st' = disk_size st -> sectors st' = sectors st ->
  free_map st' = free_map st -> junk st' = junk st ->
  fs_ok st -> inode_wf st s -> fs_ok st' /\ inode_wf st' s.
Proof.
  intros Hd Hs Hf Hj Hok Hwf.
  assert (Hv : forall x, valid_sector st x -> valid_sector st' x).
  { intros x. apply valid_sector_meta. exact Hd. }
  assert (Hsv : forall sl, slot_val st' s sl = slot_val st s sl).
  { intros sl. apply slot_val_ext. intros x. rewrite Hs. reflexivity. }
  split.
  - destruct Hok as [H1 H2 H3 H4]. constructor.
    + intros x. rewrite Hs. apply H1.
    + rewrite Hj. exact H2.
    + unfold fs_disk_size in *. rewrite Hd. exact H3.
    + rewrite Hf. exact H4.
  - destruct Hwf as [[Hvs Hms] Hslots Hinj]. constructor.
    + split; [apply Hv; exact Hvs | unfold marked; rewrite Hf; exact Hms].
    + intros sl Hsl. rewrite Hsv. intros Hn.
      destruct (Hslots sl Hsl Hn) as [Ha [Hb Hc]].
      split; [apply Hv; exact Ha|].
      split; [unfold marked; rewrite Hf; exact Hb | exact Hc].
    + intros sl sl' Hsl Hsl'. rewrite !Hsv. apply Hinj; assumption.
Qed.

(** A newly created inode is well formed; it has the given length and no
    sector. *)
Lemma inode_create_wf st sec len st' b :
  fs_ok st -> valid_sector st sec -> marked st sec -> 0 <= len < 2 ^ 31 ->
  inode_create st sec len = Ok (st', b) ->
  b = true /\ fs_ok st' /\ inode_wf st' sec /\ same_meta st st' /\
  free_map st' = free_map st /\
  header_length (sectors st' sec) = len /\
  (forall sl, slot_ok sl -> slot_val st' sec sl = NO_SECTOR).
Proof.
  intros Hok Hv Hm Hlen H.
  destruct (inode_create_spec st sec len Hok Hv Hlen)
    as [st1 [H1 [Hf [Ho [Hx [Hl [_ [_ [Hdi [Hin [Hmeta Hls]]]]]]]]]]].
  rewrite H1 in H. apply Ok_inj in H. apply pair_inj in H.
  destruct H as [<- <-].
  assert (Hsv : forall sl, slot_ok sl -> slot_val st1 sec sl = NO_SECTOR).
  { intros sl Hsl. destruct sl as [i | i | i j]; cbn [slot_val].
    - specialize (Hdi i Hsl). rewrite direct_get_eq in Hdi by exact Hsl.
      apply Ok_inj in Hdi. exact Hdi.
    - specialize (Hin i Hsl). rewrite indirect_get_eq in Hin by exact Hsl.
      apply Ok_inj in Hin. exact Hin.
    - destruct Hsl as [Hi Hj]. specialize (Hin i Hi).
      rewrite indirect_get_eq in Hin by exact Hi.
      apply Ok_inj in Hin. rewrite Hin. reflexivity. }
  assert (Hok1 : fs_ok st1).
  { destruct Hok as [A1 A2 A3 A4]. destruct Hmeta as [Hd [_ [_ Hj]]].
    constructor.
    - intros x. destruct (Z.eq_dec x sec) as [->|Hne];
        [exact Hls | rewrite Hx by exact Hne; apply A1].
    - rewrite Hj. exact A2.
    - unfold fs_disk_size in *. rewrite Hd. exact A3.
    - rewrite Hf. exact A4. }
  split; [reflexivity|]. split; [exact Hok1|].
  split.
  { constructor.
    - split; [apply (valid_sector_meta st); [apply Hmeta | exact Hv]|].
      unfold marked. rewrite Hf. exact Hm.
    - intros sl Hsl Hn. elim Hn. apply Hsv. exact Hsl.
    - intros sl sl' Hsl Hsl' Hn. elim Hn. apply Hsv. exact Hsl. }
  split; [exact Hmeta|]. split; [exact Hf|]. split; [exact Hl | exact Hsv].
Qed.

Lemma find_update_inode l p f i :
  (forall x, i_sector (f x) = i_sector x) ->
  find_inode l p = Some i -> find_inode (update_inode l p f) p = Some (f i).
Proof.
  intros Hf. unfold find_inode. induction l as [|a l IH]; [discriminate|].
  cbn [find update_inode].
  destruct (i_sector a =? p) eqn:E.
  - intros H. injection H as <-. cbn [find]. rewrite Hf, E. reflexivity.
  - intros H. cbn [find]. rewrite E. apply IH. exact H.
Qed.

(** [inode_open] leaves the disk and the free map as they are, and the
    inode it returns can be dereferenced. *)
Lemma inode_open_facts st sec st' :
  inode_open st sec = Ok (st', Some sec) ->
  disk_size st' = disk_size st /\ sectors st' = sectors st /\
  free_map st' = free_map st /\ junk st' = junk st /\
  exists i, deref st' sec = Ok i.
Proof.
  unfold inode_open. destruct (find_inode (open_inodes st) sec) as [i|] eqn:E.
  - unfold inode_reopen, deref. rewrite E. cbn [rbind]. intros H.
    apply Ok_inj in H. apply pair_inj in H. destruct H as [<- _].
    repeat (split; [reflexivity|]).
    exists (add_open_cnt 1 i). unfold deref. simpl_st.
    rewrite (find_update_inode _ _ _ i); [reflexivity | reflexivity | exact E].
  - unfold malloc. destruct (heap st) as [|[|] h]; intros H;
      apply Ok_inj in H; apply pair_inj in H; destruct H as [H1 H2];
      try discriminate; subst st'; repeat (split; [reflexivity|]);
      exists (mkInode sec 1 false 0); unfold deref, find_inode; simpl_st;
      cbn [find i_sector]; rewrite Z.eqb_refl; reflexivity.
Qed.

Lemma six_used_ok : fs_ok Scenario.six_used.
Proof.
  constructor.
  - intros x. reflexivity.
  - reflexivity.
  - vm_compute. split; discriminate.
  - vm_compute. split; [discriminate | reflexivity].
Qed.

(** The scenario of a newly created, open inode. *)
Lemma file_open_wf len :
  0 <= len < 2 ^ 31 ->
  fs_ok (Scenario.file_open len) /\ inode_wf (Scenario.file_open len) 5 /\
  (exists i, deref (Scenario.file_open len) 5 = Ok i) /\
  header_length (sectors (Scenario.file_open len) 5) = len /\
  (forall sl, slot_ok sl -> slot_val (Scenario.file_open len) 5 sl = NO_SECTOR).
Proof.
  intros Hlen.
  assert (Hv : valid_sector Scenario.six_used 5)
    by (split; [vm_compute; split; congruence | reflexivity]).
  assert (Hm : marked Scenario.six_used 5) by reflexivity.
  destruct (inode_create_spec _ 5 len six_used_ok Hv Hlen) as [st1 [H1 _]].
  destruct (inode_create_wf _ 5 len st1 true six_used_ok Hv Hm Hlen H1)
    as [_ [Hok1 [Hwf1 [Hmeta [Hf [Hl Hsv]]]]]].
  assert (Hc : Scenario.file_created len = st1).
  { unfold Scenario.file_created. rewrite H1. reflexivity. }
  assert (Ho : inode_open st1 5 =
               Ok (Scenario.file_open len, Some 5)).
  { unfold Scenario.file_open. rewrite Hc. unfold inode_open.
    destruct Hmeta as [_ [Hoi [Hh _]]].
    unfold find_inode, malloc. rewrite Hoi, Hh. reflexivity. }
  destruct (inode_open_facts _ _ _ Ho) as [Hd [Hs [Hfm [Hj Hi]]]].
  destruct (wf_transfer st1 (Scenario.file_open len) 5 Hd Hs Hfm Hj Hok1 Hwf1)
    as [Hok2 Hwf2].
  split; [exact Hok2|]. split; [exact Hwf2|]. split; [exact Hi|].
  split.
  - rewrite Hs. exact Hl.
  - intros sl Hsl. rewrite (slot_val_ext st1) by (intros x; rewrite Hs; reflexivity).
    apply Hsv. exact Hsl.
Qed.
Lemma write_then_read_roundtrip_witness :
  let buf := [Byte.x68; Byte.x65; Byte.x79] in
  let st := Scenario.file_open 0 in
  let st' := Scenario.state_of (inode_write_at st 5 buf 3 1000) in
  inode_write_at st 5 buf 3 1000 = Ok (st', 3) /\
  inode_read_at st' 5 3 1000 = Ok (3, buf).
Proof.
  intros buf st st'.
  assert (Hw : inode_write_at st 5 buf 3 1000 = Ok (st', 3))
    by (vm_compute; reflexivity).
  split; [exact Hw|].
  destruct (file_open_wf 0) as [Hok [Hwf [[i Hi] [Hl _]]]]; [lia|].
  apply (write_then_read_roundtrip st 5 i buf 3 1000 st').
  - exact Hok.
  - exact Hwf.
  - exact Hi.
  - lia.
  - reflexivity.
  - vm_compute. discriminate.
  - right. vm_compute. discriminate.
  - exact Hw.
Defined.
Lemma holes_read_as_zeros_witness :
  let st := Scenario.file_open 5000 in
  (forall p, 1000 <= p < 1000 + 2000 ->
     byte_to_sector st 5 p false = Ok (st, INVALID_SECTOR, false)) /\
  fs_cache_read st INVALID_SECTOR = Ok (zeros BLOCK_SECTOR_SIZE) /\
  fs_cache_get st INVALID_SECTOR 0 = Ok (zeros BLOCK_SECTOR_SIZE) /\
  inode_read_at st 5 2000 1000 = Ok (2000, zeros 2000).
Proof.
  intros st.
  destruct (file_open_wf 5000) as [Hok [Hwf [[i Hi] [Hl Hsv]]]]; [lia|].
  apply (holes_read_as_zeros st 5 i 2000 1000).
  - exact Hok.
  - exact Hwf.
  - exact Hi.
  - right. vm_compute. discriminate.
  - lia.
  - lia.
  - unfold st. rewrite Hl. lia.
  - intros k Hk. apply Hsv. apply slot_of_ok.
    change (1000 / 512) with 1 in Hk.
    change ((1000 + 2000 - 1) / 512) with 5 in Hk.
    change MAX_SECTORS with 16570. lia.
Defined.

(** C2 (write then read).  The claim: when [inode_write_at] of [n] bytes at
    [off] returns [n], the [inode_read_at] of [n] bytes at [off] that
    follows returns [n] and yields the bytes written.  [byte_to_sector] is
    documented to return -1 when the inode has no data at the position, but
    it indexes [data->indirect] with [(pos / 512 - 186) / 256] without
    comparing that index with the 64 entries of the array.  In the file of
    [Scenario.huge_file], created with a length of 2^30, one byte written
    at offset 8483328, in the last sector that the index addresses, is
    written and the call returns 1.  The read of that byte at once
    afterwards asks [byte_to_sector] for the position one sector further,
    for its read-ahead, and that call indexes [data->indirect[64]], past
    the array and past the sector buffer: the read ends in the fault
    [OutOfBounds] instead of yielding the byte.  A write at offset 8483840
    indexes the same entry. *)
Theorem roundtrip_fails_at_the_end_of_the_index :
  let st := Scenario.state_of Scenario.huge_file in
  let st' := Scenario.state_of (inode_write_at st 3 [Byte.x01] 1 8483328) in
  Scenario.huge_file = Ok (st, 3) /\
  inode_length st 3 = Ok (2 ^ 30) /\
  inode_write_at st 3 [Byte.x01] 1 8483328 = Ok (st', 1) /\
  byte_to_sector st' 3 (8483328 + BLOCK_SECTOR_SIZE) false = Err OutOfBounds /\
  inode_read_at st' 3 1 8483328 = Err OutOfBounds /\
  inode_write_at st 3 [Byte.x01] 1 8483840 = Err OutOfBounds.
Proof.
  split; [vm_compute; reflexivity|].
  split; [vm_compute; reflexivity|].
  split; [vm_compute; reflexivity|].
  split; [vm_compute; reflexivity|].
  split; vm_compute; reflexivity.
Qed.

(** C9 (holes).  The claim: a range below the stored length whose data
    sectors have no index entry is read by [inode_read_at] as zeros.  In
    the file of [Scenario.huge_file], created with a length of 2^30 and
    never written, the byte at offset 8483328 lies below the stored length
    and its sector has no index entry, yet reading it ends in the fault
    [OutOfBounds] instead of yielding a zero: more than a sector is left
    below the stored length, so [inode_read_at] asks [byte_to_sector] for
    the position one sector further, and [byte_to_sector], which is
    documented to return -1 where the inode has no data, indexes
    [data->indirect[64]], past the array.  A hole of the same file away
    from the end of the index, the 2000 bytes from offset 1000 on, reads
    as zeros. *)
Theorem hole_read_fails_at_the_end_of_the_index :
  let st := Scenario.state_of Scenario.huge_file in
  Scenario.huge_file = Ok (st, 3) /\
  inode_length st 3 = Ok (2 ^ 30) /\
  slot_val st 3 (slot_of (8483328 / 512)) = NO_SECTOR /\
  byte_to_sector st 3 (8483328 + BLOCK_SECTOR_SIZE) false = Err OutOfBounds /\
  inode_read_at st 3 1 8483328 = Err OutOfBounds /\
  inode_read_at st 3 2000 1000 = Ok (2000, zeros 2000).
Proof.
  split; [vm_compute; reflexivity|].
  split; [vm_compute; reflexivity|].
  split; [vm_compute; reflexivity|].
  split; [vm_compute; reflexivity|].
  split; vm_compute; reflexivity.
Qed.
(** ** The stored length over a sequence of calls *)

(** ** Several inodes *)

Lemma owned_marked st u x :
  inode_wf st u -> owned st u x -> 0 <= x /\ marked st x.
Proof.
  intros [[[Hv _] Hm] Hslots _] [->|[Hn [sl [Hsl <-]]]].
  - split; [lia | exact Hm].
  - destruct (Hslots sl Hsl Hn) as [[Hv' _] [Hm' _]].
    split; [lia | exact Hm'].
Qed.

Lemma owned_ext st st' u x :
  (forall sl, slot_ok sl -> slot_val st' u sl = slot_val st u sl) ->
  owned st' u x <-> owned st u x.
Proof.
  intros Hsv. unfold owned. split.
  - intros [H|[Hn [sl [Hsl H]]]]; [left; exact H|].
    right. split; [exact Hn|]. exists sl. split; [exact Hsl|].
    rewrite <- (Hsv sl Hsl). exact H.
  - intros [H|[Hn [sl [Hsl H]]]]; [left; exact H|].
    right. split; [exact Hn|]. exists sl. split; [exact Hsl|].
    rewrite (Hsv sl Hsl). exact H.
Qed.

(** An inode whose sectors keep their content, on a device on which no
    sector in use becomes free, keeps its index and stays well formed. *)
Lemma other_kept st st' u :
  inode_wf st u -> disk_size st' = disk_size st ->
  (forall x, 0 <= x -> marked st x -> marked st' x) ->
  (forall x, owned st u x -> sectors st' x = sectors st x) ->
  (forall sl, slot_ok sl -> slot_val st' u sl = slot_val st u sl) /\
  inode_wf st' u.
Proof.
  intros Hwf Hd Hmk Hsec.
  pose proof Hwf as [[Hvs Hms] Hslots Hinj].
  assert (Hu : sectors st' u = sectors st u)
    by (apply Hsec; left; reflexivity).
  assert (Hsv : forall sl, slot_ok sl -> slot_val st' u sl = slot_val st u sl).
  { intros sl Hsl. destruct sl as [i | i | i j]; cbn [slot_val]; rewrite Hu;
      try reflexivity.
    destruct (ind_entry (sectors st u) i =? NO_SECTOR) eqn:E; [reflexivity|].
    apply Z.eqb_neq in E. rewrite Hsec; [reflexivity|].
    right. split; [exact E|]. exists (SInd i).
    split; [exact (proj1 Hsl) | reflexivity]. }
  split; [exact Hsv|].
  constructor.
  - split; [apply (valid_sector_meta st); assumption|].
    apply Hmk; [destruct Hvs; lia | exact Hms].
  - intros sl Hsl. rewrite (Hsv sl Hsl). intros Hn.
    destruct (Hslots sl Hsl Hn) as [Hv [Hm Hns]].
    split; [apply (valid_sector_meta st); assumption|].
    split; [|exact Hns]. apply Hmk; [destruct Hv; lia | exact Hm].
  - intros sl sl' Hsl Hsl'. rewrite (Hsv sl Hsl), (Hsv sl' Hsl').
    apply Hinj; assumption.
Qed.

(** What a step on the inode [t] leaves of an inode [u] that shares no
    sector with it. *)
Lemma frame_other st st' t u x :
  inode_wf st u -> disjoint st u t -> frame st st' t ->
  owned st u x -> sectors st' x = sectors st x /\ ~ owned st' t x.
Proof.
  intros Hwf Hdis [_ F2] Hx.
  destruct (owned_marked _ _ _ Hwf Hx) as [H0 Hm].
  apply F2; [exact H0 | exact Hm | apply Hdis; exact Hx].
Qed.

(** A step on the inode [t] that keeps [t] well formed keeps all the
    inodes well formed and apart, and changes no sector of the others. *)
Lemma files_ok_step st st' inos t :
  files_ok st inos -> In t inos ->
  same_meta st st' -> fs_ok st' -> inode_wf st' t -> frame st st' t ->
  files_ok st' inos /\
  (forall u, In u inos -> u <> t -> sectors st' u = sectors st u).
Proof.
  intros [Hok Hwf Hdis Hlive] Ht Hmeta Hok' Hwft Hfr.
  pose proof Hmeta as [Hd [Hoi _]].
  assert (Hoth : forall u, In u inos -> u <> t ->
            (forall x, owned st u x -> sectors st' x = sectors st x) /\
            (forall sl, slot_ok sl -> slot_val st' u sl = slot_val st u sl) /\
            inode_wf st' u).
  { intros u Hu Hut.
    assert (Hs : forall x, owned st u x -> sectors st' x = sectors st x).
    { intros x Hx.
      apply (frame_other st st' t u x (Hwf u Hu) (Hdis u t Hu Ht Hut) Hfr Hx). }
    split; [exact Hs|].
    apply other_kept; [apply Hwf; exact Hu | exact Hd | apply Hfr | exact Hs]. }
  split.
  - constructor.
    + exact Hok'.
    + intros u Hu. destruct (Z.eq_dec u t) as [->|Hut]; [exact Hwft|].
      apply Hoth; assumption.
    + intros a b Ha Hb Hab x Hxa Hxb.
      destruct (Z.eq_dec a t) as [Eat|Eat], (Z.eq_dec b t) as [Ebt|Ebt].
      * congruence.
      * subst a. destruct (Hoth b Hb Ebt) as [_ [Hsvb _]].
        apply (owned_ext st st' b x Hsvb) in Hxb.
        destruct (frame_other st st' t b x (Hwf b Hb) (Hdis b t Hb Ht Ebt)
                    Hfr Hxb) as [_ Hn].
        exact (Hn Hxa).
      * subst b. destruct (Hoth a Ha Eat) as [_ [Hsva _]].
        apply (owned_ext st st' a x Hsva) in Hxa.
        destruct (frame_other st st' t a x (Hwf a Ha) (Hdis a t Ha Ht Eat)
                    Hfr Hxa) as [_ Hn].
        exact (Hn Hxb).
      * destruct (Hoth a Ha Eat) as [_ [Hsva _]].
        destruct (Hoth b Hb Ebt) as [_ [Hsvb _]].
        apply (owned_ext st st' a x Hsva) in Hxa.
        apply (owned_ext st st' b x Hsvb) in Hxb.
        exact (Hdis a b Ha Hb Hab x Hxa Hxb).
    + intros i Hi. rewrite Hoi in Hi. apply Hlive. exact Hi.
  - intros u Hu Hut. apply (Hoth u Hu Hut). left. reflexivity.
Qed.

Lemma fs_ok_transfer st st' :
  disk_size st' = disk_size st -> sectors st' = sectors st ->
  free_map st' = free_map st -> junk st' = junk st ->
  fs_ok st -> fs_ok st'.
Proof.
  intros Hd Hs Hf Hj [H1 H2 H3 H4]. constructor.
  - intros x. rewrite Hs. apply H1.
  - rewrite Hj. exact H2.
  - unfold fs_disk_size in *. rewrite Hd. exact H3.
  - rewrite Hf. exact H4.
Qed.

(** A step that changes neither the disk nor the free map. *)
Lemma files_ok_meta st st' inos :
  files_ok st inos ->
  disk_size st' = disk_size st -> sectors st' = sectors st ->
  free_map st' = free_map st -> junk st' = junk st ->
  (forall i, In i (open_inodes st') -> removed i = false) ->
  files_ok st' inos.
Proof.
  intros [Hok Hwf Hdis Hlive] Hd Hs Hf Hj Hl.
  assert (Hsv : forall u sl, slot_val st' u sl = slot_val st u sl).
  { intros u sl. apply slot_val_ext. intros x. rewrite Hs. reflexivity. }
  constructor.
  - exact (fs_ok_transfer st st' Hd Hs Hf Hj Hok).
  - intros u Hu.
    exact (proj2 (wf_transfer st st' u Hd Hs Hf Hj Hok (Hwf u Hu))).
  - intros a b Ha Hb Hab x Hxa Hxb.
    apply (owned_ext st st' a x (fun sl _ => Hsv a sl)) in Hxa.
    apply (owned_ext st st' b x (fun sl _ => Hsv b sl)) in Hxb.
    exact (Hdis a b Ha Hb Hab x Hxa Hxb).
  - exact Hl.
Qed.
Lemma find_inode_In l p i : find_inode l p = Some i -> In i l.
Proof. unfold find_inode. intros H. apply find_some in H. apply H. Qed.

Lemma live_update l p f :
  (forall i, removed (f i) = removed i) ->
  (forall i, In i l -> removed i = false) ->
  forall j, In j (update_inode l p f) -> removed j = false.
Proof.
  intros Hf. induction l as [|a l IH]; intros Hl j Hj; [destruct Hj|].
  cbn [update_inode] in Hj. destruct (i_sector a =? p).
  - destruct Hj as [<-|Hj].
    + rewrite Hf. apply Hl. left. reflexivity.
    + apply Hl. right. exact Hj.
  - destruct Hj as [<-|Hj].
    + apply Hl. left. reflexivity.
    + apply IH; [|exact Hj]. intros i Hi. apply Hl. right. exact Hi.
Qed.

Lemma live_remove l p :
  (forall i, In i l -> removed i = false) ->
  forall j, In j (remove_inode l p) -> removed j = false.
Proof.
  induction l as [|a l IH]; intros Hl j Hj; [destruct Hj|].
  cbn [remove_inode] in Hj. destruct (i_sector a =? p).
  - apply Hl. right. exact Hj.
  - destruct Hj as [<-|Hj].
    + apply Hl. left. reflexivity.
    + apply IH; [|exact Hj]. intros i Hi. apply Hl. right. exact Hi.
Qed.

Lemma deref_In st p i : deref st p = Ok i -> In i (open_inodes st).
Proof.
  unfold deref. destruct (find_inode (open_inodes st) p) as [j|] eqn:E;
    [|discriminate].
  intros H. apply Ok_inj in H. subst j. exact (find_inode_In _ _ _ E).
Qed.

(** A step that changes the list of open inodes only. *)
Lemma files_ok_open_list st inos l :
  files_ok st inos ->
  (forall i, In i l -> removed i = false) ->
  files_ok (set_open_inodes st l) inos.
Proof.
  intros H Hl. apply (files_ok_meta st); try reflexivity; assumption.
Qed.

(** One call on an inode of a set of inodes: the inodes stay well formed
    and apart, the sectors of the other inodes are not touched, and the
    stored length of the inode changes as [inode_write_at] says. *)
Lemma run_op_step st inos t op st' r :
  files_ok st inos -> In t inos -> op_ok op ->
  run_op st t op = Ok (st', r) ->
  files_ok st' inos /\
  (forall u, In u inos -> u <> t -> sectors st' u = sectors st u) /\
  header_length (sectors st' t) =
    match r with
    | Some x => Z.max (header_length (sectors st t)) x
    | None => header_length (sectors st t)
    end.
Proof.
  intros Hfo Ht Hop H.
  pose proof (fo_fs _ _ Hfo) as Hok.
  pose proof (fo_wf _ _ Hfo t Ht) as Hwf.
  assert (Hsame : forall st1 : fs,
            files_ok st1 inos -> sectors st1 = sectors st ->
            files_ok st1 inos /\
            (forall u, In u inos -> u <> t -> sectors st1 u = sectors st u) /\
            header_length (sectors st1 t) = header_length (sectors st t)).
  { intros st1 H1 Hs. split; [exact H1|]. rewrite Hs.
    split; [intros; reflexivity | reflexivity]. }
  destruct op as [buf n off | n off | | | x | | | | | ]; cbn [run_op] in H.
  - (* inode_write_at *)
    apply rbind_ok in H. destruct H as [ino [Hd H]].
    apply rbind_ok in H. destruct H as [[st1 w] [Hw H]].
    apply Ok_inj in H. apply pair_inj in H. destruct H as [<- <-].
    destruct Hop as [Hoff [Hn _]].
    pose proof (inode_write_at_frame st t ino buf n off st1 w Hok Hwf Hd Hoff
                  (proj1 Hn) (proj2 Hn) Hw) as Hfr.
    apply inode_write_at_spec with (ino := ino) in Hw;
      [ | assumption | assumption | assumption | lia | lia | lia ].
    destruct (deny_write_cnt ino =? 0); cbn [negb] in Hw.
    + destruct Hw as [_ [Hm [Hok1 [Hwf1 [Hl _]]]]].
      destruct (files_ok_step st st1 inos t Hfo Ht Hm Hok1 Hwf1 Hfr)
        as [Hfo1 Hoth].
      split; [exact Hfo1|]. split; [exact Hoth | exact Hl].
    + destruct Hw as [-> _]. apply Hsame; [exact Hfo | reflexivity].
  - (* inode_read_at *)
    apply rbind_ok in H. destruct H as [u [_ H]].
    apply Ok_inj in H. apply pair_inj in H. destruct H as [<- <-].
    apply Hsame; [exact Hfo | reflexivity].
  - (* inode_length *)
    apply rbind_ok in H. destruct H as [u [_ H]].
    apply Ok_inj in H. apply pair_inj in H. destruct H as [<- <-].
    apply Hsame; [exact Hfo | reflexivity].
  - (* inode_counter_get *)
    apply rbind_ok in H. destruct H as [u [_ H]].
    apply Ok_inj in H. apply pair_inj in H. destruct H as [<- <-].
    apply Hsame; [exact Hfo | reflexivity].
  - (* inode_counter_add *)
    apply rbind_ok in H. destruct H as [[st1 c] [Hc H]].
    apply Ok_inj in H. apply pair_inj in H. destruct H as [<- <-].
    unfold inode_counter_add in Hc.
    apply rbind_ok in Hc. destruct Hc as [ino [Hd Hc]].
    rewrite (deref_sector _ _ _ Hd) in Hc.
    rewrite fs_cache_get_valid in Hc by (try assumption; apply Hwf).
    change (negb (Z.land CACHE_WRITE CACHE_NOLOAD =? 0)) with false in Hc.
    cbv iota in Hc. rewrite rbind_ret in Hc. rewrite fs_cache_release_write in Hc.
    apply Ok_inj in Hc. apply pair_inj in Hc. destruct Hc as [<- _].
    pose proof (ok_sectors _ Hok t) as Hlen.
    change (Z.to_nat BLOCK_SECTOR_SIZE) with 512%nat in Hlen.
    remember (set_header_counter (sectors st t)
                (sint32 (header_counter (sectors st t) + x))) as data' eqn:Hdata.
    assert (Hload : forall a, SIZEOF_HEADER <= a -> a + 2 <= 512 ->
              load 2 data' a = load 2 (sectors st t) a).
    { intros a Ha Ha2. subst data'. nums.
      apply load_set_header_counter; simpl; first [lia | exact Hlen]. }
    destruct (header_update st t data' Hok Hwf) as [Hok1 [Hwf1 _]].
    { subst data'. apply length_set_header_counter. exact Hlen. }
    { exact Hload. }
    pose proof (header_update_frame st t data' Hwf Hload) as Hfr.
    match type of Hok1 with
    | fs_ok ?s1 =>
        destruct (files_ok_step st s1 inos t Hfo Ht
                    (conj eq_refl (conj eq_refl (conj eq_refl eq_refl)))
                    Hok1 Hwf1 Hfr) as [Hfo1 Hoth]
    end.
    split; [exact Hfo1|]. split; [exact Hoth|].
    simpl_st. rewrite Z.eqb_refl. subst data'. unfold header_length. f_equal.
    nums. apply load_set_header_counter; simpl; first [lia | exact Hlen].
  - (* inode_deny_write *)
    apply rbind_ok in H. destruct H as [st1 [Hc H]].
    apply Ok_inj in H. apply pair_inj in H. destruct H as [<- <-].
    unfold inode_deny_write in Hc.
    apply rbind_ok in Hc. destruct Hc as [ino [Hd Hc]].
    apply rbind_ok in Hc. destruct Hc as [u [_ Hc]].
    apply Ok_inj in Hc. subst st1.
    apply Hsame; [|reflexivity].
    apply files_ok_open_list; [exact Hfo|].
    apply live_update; [reflexivity | apply (fo_live _ _ Hfo)].
  - (* inode_allow_write *)
    apply rbind_ok in H. destruct H as [st1 [Hc H]].
    apply Ok_inj in H. apply pair_inj in H. destruct H as [<- <-].
    unfold inode_allow_write in Hc.
    apply rbind_ok in Hc. destruct Hc as [ino [Hd Hc]].
    apply rbind_ok in Hc. destruct Hc as [u [_ Hc]].
    apply rbind_ok in Hc. destruct Hc as [u2 [_ Hc]].
    apply Ok_inj in Hc. subst st1.
    apply Hsame; [|reflexivity].
    apply files_ok_open_list; [exact Hfo|].
    apply live_update; [reflexivity | apply (fo_live _ _ Hfo)].
  - (* inode_open *)
    apply rbind_ok in H. destruct H as [[st1 p] [Hc H]].
    apply Ok_inj in H. apply pair_inj in H. destruct H as [<- <-].
    unfold inode_open in Hc.
    destruct (find_inode (open_inodes st) t) as [i|] eqn:E.
    + unfold inode_reopen in Hc.
      apply rbind_ok in Hc. destruct Hc as [u [_ Hc]].
      apply Ok_inj in Hc. apply pair_inj in Hc. destruct Hc as [<- _].
      apply Hsame; [|reflexivity].
      apply files_ok_open_list; [exact Hfo|].
      apply live_update; [reflexivity | apply (fo_live _ _ Hfo)].
    + unfold malloc in Hc. destruct (heap st) as [|[|] h] eqn:Eh;
        apply Ok_inj in Hc; apply pair_inj in Hc; destruct Hc as [<- _].
      * apply Hsame; [|reflexivity].
        apply files_ok_open_list; [exact Hfo|].
        intros j [<-|Hj]; [reflexivity | apply (fo_live _ _ Hfo); exact Hj].
      * apply Hsame; [|reflexivity].
        apply (files_ok_meta st); try reflexivity; try assumption.
        intros j [<-|Hj]; [reflexivity | apply (fo_live _ _ Hfo); exact Hj].
      * apply Hsame; [|reflexivity].
        apply (files_ok_meta st); try reflexivity; try assumption.
        apply (fo_live _ _ Hfo).
  - (* inode_reopen *)
    apply rbind_ok in H. destruct H as [[st1 p] [Hc H]].
    apply Ok_inj in H. apply pair_inj in H. destruct H as [<- <-].
    unfold inode_reopen in Hc.
    apply rbind_ok in Hc. destruct Hc as [u [_ Hc]].
    apply Ok_inj in Hc. apply pair_inj in Hc. destruct Hc as [<- _].
    apply Hsame; [|reflexivity].
    apply files_ok_open_list; [exact Hfo|].
    apply live_update; [reflexivity | apply (fo_live _ _ Hfo)].
  - (* inode_close *)
    apply rbind_ok in H. destruct H as [st1 [Hc H]].
    apply Ok_inj in H. apply pair_inj in H. destruct H as [<- <-].
    unfold inode_close in Hc.
    apply rbind_ok in Hc. destruct Hc as [ino [Hd Hc]].
    rewrite (fo_live _ _ Hfo ino (deref_In _ _ _ Hd)) in Hc.
    assert (Hl1 : forall j,
              In j (update_inode (open_inodes st) t (add_open_cnt (-1))) ->
              removed j = false).
    { apply live_update; [reflexivity | apply (fo_live _ _ Hfo)]. }
    destruct (sint32 (open_cnt ino + -1) =? 0);
      apply Ok_inj in Hc; subst st1.
    + apply Hsame; [|reflexivity].
      apply (files_ok_meta st); try reflexivity; try assumption.
      simpl_st. apply live_remove. exact Hl1.
    + apply Hsame; [|reflexivity].
      apply files_ok_open_list; [exact Hfo | exact Hl1].
Qed.
Lemma run_ops_length ops : forall st inos s st' hi,
  files_ok st inos -> In s inos -> ops_ok inos ops ->
  run_ops st s ops (header_length (sectors st s)) = Ok (st', hi) ->
  files_ok st' inos /\
  header_length (sectors st' s) = hi /\ header_length (sectors st s) <= hi.
Proof.
  induction ops as [|[t op] ops IH]; intros st inos s st' hi Hfo Hs Hops H.
  - cbn [run_ops] in H. apply Ok_inj in H. apply pair_inj in H.
    destruct H as [<- <-].
    split; [exact Hfo|]. split; [reflexivity | lia].
  - cbn [run_ops] in H. apply rbind_ok in H. destruct H as [[st1 r] [Hr H]].
    inversion Hops as [|? ? [Ht Hop] Hrest]; subst. cbn [fst snd] in Ht, Hop.
    destruct (run_op_step st inos t op st1 r Hfo Ht Hop Hr)
      as [Hfo1 [Hoth Hl1]].
    assert (E : match r with
                | Some x => if t =? s
                            then Z.max (header_length (sectors st s)) x
                            else header_length (sectors st s)
                | None => header_length (sectors st s)
                end = header_length (sectors st1 s)).
    { destruct (Z.eqb_spec t s) as [->|Hts].
      - rewrite Hl1. destruct r; reflexivity.
      - rewrite (Hoth s Hs) by congruence. destruct r; reflexivity. }
    rewrite E in H.
    destruct (IH st1 inos s st' hi Hfo1 Hs Hrest H) as [Hfo' [He Hle]].
    split; [exact Hfo'|]. split; [exact He|].
    rewrite <- E in Hle. destruct r as [x|]; [|exact Hle].
    destruct (t =? s); lia.
Qed.

(** A new inode, created in a sector in use that belongs to none of the
    inodes [others] and opened, joins them. *)
Lemma create_open_files_ok st0 others s len st1 st2 :
  files_ok st0 others -> valid_sector st0 s -> marked st0 s ->
  (forall t, In t others -> ~ owned st0 t s) ->
  0 <= len < 2 ^ 31 ->
  inode_create st0 s len = Ok (st1, true) ->
  inode_open st1 s = Ok (st2, Some s) ->
  files_ok st2 (s :: others) /\ header_length (sectors st2 s) = len /\
  (forall sl, slot_ok sl -> slot_val st2 s sl = NO_SECTOR).
Proof.
  intros Hfo Hv Hm Hfree Hlen Hc Ho.
  pose proof (fo_fs _ _ Hfo) as Hok.
  destruct (inode_create_spec st0 s len Hok Hv Hlen)
    as [st1' [H1 [_ [_ [Hx _]]]]].
  rewrite Hc in H1. apply Ok_inj in H1. apply pair_inj in H1.
  destruct H1 as [<- _].
  destruct (inode_create_wf st0 s len st1 true Hok Hv Hm Hlen Hc)
    as [_ [Hok1 [Hwf1 [Hmeta [Hfm [Hl1 Hsv1]]]]]].
  assert (Hown : forall x, owned st1 s x -> x = s).
  { intros x [E|[Hn [sl [Hsl E]]]]; [exact E|].
    rewrite (Hsv1 sl Hsl) in E. congruence. }
  assert (Hoth : forall u, In u others ->
            (forall sl, slot_ok sl -> slot_val st1 u sl = slot_val st0 u sl) /\
            inode_wf st1 u).
  { intros u Hu. apply other_kept.
    - apply (fo_wf _ _ Hfo). exact Hu.
    - apply Hmeta.
    - intros x _ Hmx. unfold marked. rewrite Hfm. exact Hmx.
    - intros x Hxu. apply Hx. intros ->. exact (Hfree u Hu Hxu). }
  assert (Hnin : ~ In s others).
  { intros Hin. apply (Hfree s Hin). left. reflexivity. }
  assert (Hfo1 : files_ok st1 (s :: others)).
  { constructor.
    - exact Hok1.
    - intros u [<-|Hu]; [exact Hwf1 | apply Hoth; exact Hu].
    - intros a b [<-|Ha] [<-|Hb] Hab x Hxa Hxb.
      + congruence.
      + apply Hown in Hxa. subst x.
        apply (owned_ext st0 st1 b _ (proj1 (Hoth b Hb))) in Hxb.
        exact (Hfree b Hb Hxb).
      + apply Hown in Hxb. subst x.
        apply (owned_ext st0 st1 a _ (proj1 (Hoth a Ha))) in Hxa.
        exact (Hfree a Ha Hxa).
      + apply (owned_ext st0 st1 a _ (proj1 (Hoth a Ha))) in Hxa.
        apply (owned_ext st0 st1 b _ (proj1 (Hoth b Hb))) in Hxb.
        exact (fo_disjoint _ _ Hfo a b Ha Hb Hab x Hxa Hxb).
    - intros i Hi. destruct Hmeta as [_ [Hoi _]]. rewrite Hoi in Hi.
      apply (fo_live _ _ Hfo). exact Hi. }
  assert (Hr : run_op st1 s OpOpen = Ok (st2, None)).
  { cbn [run_op]. rewrite Ho. reflexivity. }
  destruct (run_op_step st1 (s :: others) s OpOpen st2 None Hfo1
              (or_introl eq_refl) I Hr) as [Hfo2 [_ Hl2]].
  destruct (inode_open_facts _ _ _ Ho) as [_ [Hs2 _]].
  split; [exact Hfo2|]. split; [rewrite Hl2; exact Hl1|].
  intros sl Hsl.
  rewrite (slot_val_ext st1) by (intros x; rewrite Hs2; reflexivity).
  apply Hsv1. exact Hsl.
Qed.

(** C4.  An inode is created with the length [len] in a sector in use that
    belongs to no other inode, and opened.  Then calls are made, in any
    order, on it and on other well-formed inodes that share no sector with
    it or with each other, no open inode being removed: [inode_write_at],
    [inode_read_at], [inode_length], [inode_counter_get],
    [inode_counter_add], [inode_deny_write], [inode_allow_write],
    [inode_open], [inode_reopen], [inode_close], with reads and writes
    inside the range that the index addresses.  When the calls have
    returned, the stored length of the inode is the largest of [len] and
    the final offsets (offset plus bytes written) of the calls of
    [inode_write_at] on it that were not denied, and it never decreases:
    whatever calls follow, the stored length is at least what it was.
    [inode_remove] at the end leaves it as it is. *)
Theorem stored_length_is_max_since_creation
  st0 others s len st1 st2 ops st' hi ops' st'' hi' :
  files_ok st0 others -> valid_sector st0 s -> marked st0 s ->
  (forall t, In t others -> ~ owned st0 t s) ->
  0 <= len < 2 ^ 31 ->
  inode_create st0 s len = Ok (st1, true) ->
  inode_open st1 s = Ok (st2, Some s) ->
  ops_ok (s :: others) ops -> ops_ok (s :: others) ops' ->
  run_ops st2 s ops len = Ok (st', hi) ->
  run_ops st' s ops' hi = Ok (st'', hi') ->
  header_length (sectors st' s) = hi /\
  header_length (sectors st'' s) = hi' /\
  len <= hi <= hi' /\
  (forall t st3, inode_remove st'' t = Ok st3 ->
     header_length (sectors st3 s) = hi').
Proof.
  intros Hfo Hv Hm Hfree Hlen Hc Ho Hops Hops' H H'.
  destruct (create_open_files_ok st0 others s len st1 st2 Hfo Hv Hm Hfree
              Hlen Hc Ho) as [Hfo2 [Hl2 _]].
  rewrite <- Hl2 in H.
  destruct (run_ops_length ops st2 (s :: others) s st' hi Hfo2
              (or_introl eq_refl) Hops H) as [Hfo' [He Hle]].
  rewrite <- He in H'.
  destruct (run_ops_length ops' st' (s :: others) s st'' hi' Hfo'
              (or_introl eq_refl) Hops' H') as [_ [He' Hle']].
  split; [exact He|]. split; [exact He'|]. split; [lia|].
  intros t st3 Hr. unfold inode_remove in Hr.
  apply rbind_ok in Hr. destruct Hr as [i [_ Hr]].
  apply Ok_inj in Hr. subst st3. exact He'.
Qed.

(** The device of [Scenario.other_open]: the inode in sector 4 is well
    formed and names no sector. *)
Lemma other_open_ok :
  files_ok Scenario.other_open [4] /\
  (forall sl, slot_ok sl -> slot_val Scenario.other_open 4 sl = NO_SECTOR).
Proof.
  assert (H0 : files_ok Scenario.six_used []).
  { constructor.
    - exact six_used_ok.
    - intros t [].
    - intros t u [].
    - intros i []. }
  assert (Hv : valid_sector Scenario.six_used 4)
    by (split; [vm_compute; split; congruence | reflexivity]).
  assert (Hm : marked Scenario.six_used 4) by reflexivity.
  destruct (create_open_files_ok Scenario.six_used [] 4 0
              (Scenario.state_of (inode_create Scenario.six_used 4 0))
              Scenario.other_open H0 Hv Hm)
    as [Hfo [_ Hsv]].
  - intros t [].
  - lia.
  - vm_compute. reflexivity.
  - vm_compute. reflexivity.
  - split; [exact Hfo | exact Hsv].
Qed.

Ltac op_args :=
  cbn [op_ok fst snd]; change MAX_LENGTH with 8483840;
  change BLOCK_SECTOR_SIZE with 512; simpl length;
  first [exact I | lia].

Lemma stored_length_is_max_since_creation_witness :
  let w := [Byte.x61; Byte.x62; Byte.x63] in
  let st0 := Scenario.other_open in
  let st1 := Scenario.state_of (inode_create st0 5 100) in
  let st2 := Scenario.state_of (inode_open st1 5) in
  let ops := [(5, OpWrite w 3 10); (4, OpWrite w 3 700); (5, OpCounterAdd 1);
              (5, OpRead 3 10); (5, OpWrite w 3 200); (5, OpClose);
              (5, OpOpen)] in
  let ops' := [(5, OpDenyWrite); (5, OpWrite w 3 500); (5, OpAllowWrite);
               (4, OpWrite w 3 100000); (5, OpWrite w 3 150);
               (5, OpWrite [] 0 300); (5, OpLength)] in
  let st' := Scenario.state_of (run_ops st2 5 ops 100) in
  let st'' := Scenario.state_of (run_ops st' 5 ops' 203) in
  inode_length st'' 5 = Ok 300 /\
  run_ops st2 5 ops 100 = Ok (st', 203) /\
  run_ops st' 5 ops' 203 = Ok (st'', 300) /\
  header_length (sectors st' 5) = 203 /\
  header_length (sectors st'' 5) = 300 /\
  100 <= 203 <= 300 /\
  (forall t st3, inode_remove st'' t = Ok st3 ->
     header_length (sectors st3 5) = 300).
Proof.
  intros w st0 st1 st2 ops ops' st' st''.
  assert (H1 : run_ops st2 5 ops 100 = Ok (st', 203))
    by (vm_compute; reflexivity).
  assert (H2 : run_ops st' 5 ops' 203 = Ok (st'', 300))
    by (vm_compute; reflexivity).
  split; [vm_compute; reflexivity|].
  split; [exact H1|]. split; [exact H2|].
  destruct other_open_ok as [Hfo Hsv].
  apply (stored_length_is_max_since_creation st0 [4] 5 100 st1 st2
           ops st' 203 ops' st'' 300).
  - exact Hfo.
  - split; [vm_compute; split; congruence | reflexivity].
  - reflexivity.
  - intros t [<-|[]] [E|[Hn [sl [Hsl E]]]]; [discriminate|].
    assert (E2 : NO_SECTOR = 5) by (rewrite <- (Hsv sl Hsl); exact E).
    discriminate.
  - lia.
  - vm_compute. reflexivity.
  - vm_compute. reflexivity.
  - unfold ops_ok.
    repeat (apply Forall_cons; [split; [simpl; tauto | op_args]|]).
    apply Forall_nil.
  - unfold ops_ok.
    repeat (apply Forall_cons; [split; [simpl; tauto | op_args]|]).
    apply Forall_nil.
  - exact H1.
  - exact H2.
Defined.

(** C4, as stated.  The stored length is not the largest byte offset
    written.  (1) A file created with a length of 100 to which three bytes
    are written at offset 10: the largest offset written is 13, the stored
    length stays 100.  (2) An empty file and a call of [inode_write_at]
    with a size of 0 at offset 1000: no byte is written, no sector is
    allocated, and the stored length becomes 1000.  (3) An empty file on a
    device without a free sector and a write of three bytes at offset 10:
    the call returns 0, and the stored length becomes 10. *)
Lemma stored_length_differs_from_offsets_written :
  let w := [Byte.x61; Byte.x62; Byte.x63] in
  let st1 := Scenario.file_open 100 in
  let st1' := Scenario.state_of (inode_write_at st1 5 w 3 10) in
  let st2 := Scenario.file_open 0 in
  let st2' := Scenario.state_of (inode_write_at st2 5 [] 0 1000) in
  let st3 := Scenario.full_file 0 in
  let st3' := Scenario.state_of (inode_write_at st3 5 w 3 10) in
  (inode_length st1 5 = Ok 100 /\
   inode_write_at st1 5 w 3 10 = Ok (st1', 3) /\
   inode_length st1' 5 = Ok 100) /\
  (inode_length st2 5 = Ok 0 /\
   inode_write_at st2 5 [] 0 1000 = Ok (st2', 0) /\
   free_map st2' = free_map st2 /\
   inode_length st2' 5 = Ok 1000) /\
  (inode_length st3 5 = Ok 0 /\
   inode_write_at st3 5 w 3 10 = Ok (st3', 0) /\
   inode_length st3' 5 = Ok 10).
Proof.
  split.
  { split; [vm_compute; reflexivity|].
    split; vm_compute; reflexivity. }
  split.
  { split; [vm_compute; reflexivity|].
    split; [vm_compute; reflexivity|].
    split; vm_compute; reflexivity. }
  split; [vm_compute; reflexivity|].
  split; vm_compute; reflexivity.
Qed.
(* ===================================================================== *)
(** ** vm/mappings.c and vm/swaptbl.c: eviction *)
(* ===================================================================== *)

Module VmFacts.
Import Vm.

Lemma bitmap_mark_total b x :
  0 <= x -> elem_idx x < Z.of_nat (length (bits b)) ->
  exists b', bitmap_mark b x = Ok b'.
Proof.
  intros Hx Hl. unfold bitmap_mark.
  assert (Hi : 0 <= elem_idx x < Z.of_nat (length (bits b))).
  { split; [|exact Hl]. unfold elem_idx, ELEM_BITS. apply Z.div_pos; lia. }
  rewrite (cell_get_total _ _ 0 Hi). cbn [rbind]. unfold cell_set.
  replace ((0 <=? elem_idx x) && (elem_idx x <? Z.of_nat (length (bits b))))
    with true
    by (symmetry; apply andb_true_iff; split;
        [apply Z.leb_le | apply Z.ltb_lt]; lia).
  cbn [rbind]. eexists. reflexivity.
Qed.

(** The loop of [swaptbl_store] writes the sectors it visits and touches
    nothing but the swap device. *)
Lemma store_loop_spec n : forall st pg slot sec,
  let st' := store_loop n st pg slot sec in
  pd st' = pd st /\ mem st' = mem st /\ occupied st' = occupied st /\
  file_writes st' = file_writes st /\ freed_pages st' = freed_pages st /\
  (forall x, swap_dev st' x =
     if (sec <=? x) && (x <? sec + Z.of_nat n)
     then sub (mem st pg) ((x - slot * SECTORS_PER_PAGE) * BLOCK_SECTOR_SIZE)
            BLOCK_SECTOR_SIZE
     else swap_dev st x).
Proof.
  induction n as [|n IH]; intros st pg slot sec st'.
  - subst st'. cbn [store_loop]. repeat (split; [reflexivity|]).
    intros x. replace ((sec <=? x) && (x <? sec + Z.of_nat 0)) with false;
      [reflexivity|].
    symmetry. apply andb_false_iff.
    destruct (Z.leb_spec sec x); [right; apply Z.ltb_ge; lia | left; reflexivity].
  - subst st'. cbn [store_loop].
    set (st1 := block_write st sec _).
    destruct (IH st1 pg slot (sec + 1)) as [H1 [H2 [H3 [H4 [H5 H6]]]]].
    split; [rewrite H1; reflexivity|]. split; [rewrite H2; reflexivity|].
    split; [rewrite H3; reflexivity|]. split; [rewrite H4; reflexivity|].
    split; [rewrite H5; reflexivity|].
    intros x. rewrite H6.
    change (mem st1 pg) with (mem st pg).
    destruct (Z.leb_spec (sec + 1) x); destruct (Z.leb_spec sec x);
      destruct (Z.ltb_spec x (sec + 1 + Z.of_nat n));
      destruct (Z.ltb_spec x (sec + Z.of_nat (S n)));
      cbn [andb]; try lia; try reflexivity;
      unfold st1, block_write; cbn [swap_dev set_swap_dev];
      destruct (Z.eqb_spec x sec); try lia; try reflexivity;
      subst x; reflexivity.
Qed.

(** [swaptbl_store] when the lowest free slot is a slot of the table. *)
Lemma swaptbl_store_spec st pg slot :
  pg_ofs pg = 0 -> PHYS_BASE < pg ->
  bit_cnt (occupied st) < 2 ^ 31 ->
  bitmap_lowest (occupied st) false = Ok slot ->
  0 <= slot < bit_cnt (occupied st) ->
  exists st',
    swaptbl_store st pg = Ok (st', slot) /\
    pd st' = pd st /\ mem st' = mem st /\
    file_writes st' = file_writes st /\ freed_pages st' = freed_pages st /\
    bitval (occupied st) slot = false /\
    bitval (occupied st') slot = true /\
    (forall y, 0 <= y -> y <> slot ->
       bitval (occupied st') y = bitval (occupied st) y) /\
    (forall i, 0 <= i < SECTORS_PER_PAGE ->
       swap_dev st' (slot * SECTORS_PER_PAGE + i) =
       sub (mem st pg) (i * BLOCK_SECTOR_SIZE) BLOCK_SECTOR_SIZE).
Proof.
  intros Hofs Hbase Hcnt Hlow Hslot.
  unfold swaptbl_store. rewrite Hofs. change (0 =? 0) with true.
  replace (PHYS_BASE <? pg) with true by (symmetry; apply Z.ltb_lt; exact Hbase).
  cbn [assert rbind]. rewrite Hlow. cbn [rbind].
  replace (slot =? BITMAP_ERROR) with false
    by (symmetry; apply Z.eqb_neq; unfold BITMAP_ERROR; lia).
  cbn [negb assert rbind].
  assert (Hc0 : 0 <= bit_cnt (occupied st)) by lia.
  pose proof (elem_cnt_bound _ Hc0) as Hec.
  assert (Hec0 : 0 <= elem_cnt (bit_cnt (occupied st))).
  { unfold elem_cnt, DIV_ROUND_UP, ELEM_BITS. apply Z.div_pos; lia. }
  unfold bitmap_lowest, bitmap_size in Hlow.
  apply bitmap_lowest_loop_spec in Hlow;
    try (rewrite ?Z2Nat.id by lia; unfold BITMAP_ERROR; lia).
  destruct Hlow as [[Hbad _]|[_ [Hlen [Hv _]]]];
    [unfold BITMAP_ERROR in Hbad; lia|].
  unfold bitmap_set.
  replace (slot <? bit_cnt (occupied st)) with true
    by (symmetry; apply Z.ltb_lt; lia).
  cbn [assert rbind].
  destruct (bitmap_mark_total (occupied st) slot) as [b' Hb']; [lia | exact Hlen |].
  rewrite Hb'. cbn [rbind].
  destruct (bitmap_mark_spec _ _ _ Hb') as [_ [_ [_ [Ht Ho]]]]; [lia|].
  destruct (store_loop_spec (Z.to_nat SECTORS_PER_PAGE) (set_occupied st b') pg
              slot (slot * SECTORS_PER_PAGE)) as [H1 [H2 [H3 [H4 [H5 H6]]]]].
  eexists. split; [reflexivity|].
  split; [rewrite H1; reflexivity|]. split; [rewrite H2; reflexivity|].
  split; [rewrite H4; reflexivity|]. split; [rewrite H5; reflexivity|].
  split; [exact Hv|]. rewrite H3. cbn [occupied set_occupied].
  split; [exact Ht|]. split; [exact Ho|].
  intros i Hi. rewrite H6.
  change (Z.of_nat (Z.to_nat SECTORS_PER_PAGE)) with SECTORS_PER_PAGE.
  replace ((slot * SECTORS_PER_PAGE <=? slot * SECTORS_PER_PAGE + i) &&
           (slot * SECTORS_PER_PAGE + i <?
            slot * SECTORS_PER_PAGE + SECTORS_PER_PAGE)) with true
    by (symmetry; apply andb_true_iff; split;
        [apply Z.leb_le | apply Z.ltb_lt]; lia).
  cbn [mem set_occupied]. f_equal. lia.
Qed.

Lemma swaptbl_store_file_writes st pg st' slot :
  swaptbl_store st pg = Ok (st', slot) -> file_writes st' = file_writes st.
Proof.
  unfold swaptbl_store. intros H.
  apply rbind_ok in H. destruct H as [u1 [_ H]].
  apply rbind_ok in H. destruct H as [u2 [_ H]].
  apply rbind_ok in H. destruct H as [sl [_ H]].
  apply rbind_ok in H. destruct H as [u3 [_ H]].
  apply rbind_ok in H. destruct H as [b [_ H]].
  apply Ok_inj in H. apply pair_inj in H. destruct H as [<- _].
  destruct (store_loop_spec (Z.to_nat SECTORS_PER_PAGE) (set_occupied st b) pg
              sl (sl * SECTORS_PER_PAGE)) as [_ [_ [_ [H4 _]]]].
  rewrite H4. reflexivity.
Qed.

Lemma swaptbl_load_file_writes st pg slot st' :
  swaptbl_load st pg slot = Ok st' -> file_writes st' = file_writes st.
Proof.
  unfold swaptbl_load. intros H.
  apply rbind_ok in H. destruct H as [st1 [H1 H]].
  apply rbind_ok in H. destruct H as [u1 [_ H]].
  apply rbind_ok in H. destruct H as [t [_ H]].
  apply rbind_ok in H. destruct H as [u2 [_ H]].
  apply rbind_ok in H. destruct H as [b [_ H]].
  apply Ok_inj in H. subst st'. cbn [file_writes set_occupied].
  destruct pg as [pg|].
  - apply rbind_ok in H1. destruct H1 as [u3 [_ H1]].
    apply rbind_ok in H1. destruct H1 as [u4 [_ H1]].
    apply Ok_inj in H1. subst st1. reflexivity.
  - apply Ok_inj in H1. subst st1. reflexivity.
Qed.

(** A mapping without a file that has been in swap stays so, and no step
    on it writes to a file. *)
Lemma mstep_swap_backed x y :
  mstep x y ->
  hasfile (snd x) = false -> fwrite (snd x) = false ->
  swapped (snd x) = true ->
  hasfile (snd y) = false /\ fwrite (snd y) = false /\
  swapped (snd y) = true /\ file_writes (fst y) = file_writes (fst x).
Proof.
  intros Hstep. destruct Hstep as [st m st' m' k H | st m st' m' H | st m d a];
    cbn [fst snd]; intros Hf Hw Hs.
  - unfold _load_page in H. rewrite Hf, Hs in H.
    apply rbind_ok in H. destruct H as [[st1 kp] [H1 H]].
    unfold palloc_get_page in H1.
    assert (Hfw : file_writes st1 = file_writes st).
    { destruct (page_supply st) as [|[p|] l].
      - apply Ok_inj in H1. apply pair_inj in H1. destruct H1 as [<- _].
        reflexivity.
      - apply rbind_ok in H1. destruct H1 as [st2 [H2 H1]].
        apply Ok_inj in H1. apply pair_inj in H1. destruct H1 as [<- _].
        apply swaptbl_load_file_writes in H2. rewrite H2. reflexivity.
      - apply Ok_inj in H1. apply pair_inj in H1. destruct H1 as [<- _].
        reflexivity. }
    destruct kp as [kk|]; apply Ok_inj in H; apply pair_inj in H;
      destruct H as [H <-]; apply pair_inj in H; destruct H as [<- <-];
      cbn [hasfile fwrite swapped set_frame set_present file_writes
           pagedir_set_page set_pd];
      repeat (split; [assumption|]); exact Hfw.
  - cbn [vm_evict_page] in H.
    apply rbind_ok in H. destruct H as [u [_ H]].
    destruct (orphaned m).
    { apply rbind_ok in H. destruct H as [st1 [_ H]]. discriminate. }
    cbv zeta in H.
    apply rbind_ok in H. destruct H as [[st1 m1] [H1 H]].
    apply Ok_inj in H. apply pair_inj in H. destruct H as [<- H].
    injection H as <-.
    cbn [swapped hasfile fwrite set_present] in H1.
    rewrite Hs, Hf in H1. cbn [negb andb] in H1.
    rewrite andb_false_r in H1. cbv iota in H1.
    apply rbind_ok in H1. destruct H1 as [[st2 slot] [H2 H1]].
    apply Ok_inj in H1. apply pair_inj in H1. destruct H1 as [<- <-].
    apply swaptbl_store_file_writes in H2.
    cbn [hasfile fwrite swapped set_swap_slot set_swapped set_present
         file_writes palloc_free_page set_freed_pages].
    split; [exact Hf|]. split; [exact Hw|]. split; [reflexivity|].
    rewrite H2. reflexivity.
  - repeat (split; [assumption|]). reflexivity.
Qed.

Lemma msteps_swap_backed x y :
  msteps x y ->
  hasfile (snd x) = false -> fwrite (snd x) = false ->
  swapped (snd x) = true ->
  hasfile (snd y) = false /\ fwrite (snd y) = false /\
  swapped (snd y) = true /\ file_writes (fst y) = file_writes (fst x).
Proof.
  induction 1 as [x | x y z Hxy Hyz IH]; intros Hf Hw Hs.
  - repeat (split; [assumption|]). reflexivity.
  - destruct (mstep_swap_backed x y Hxy Hf Hw Hs) as [Hf' [Hw' [Hs' He]]].
    destruct (IH Hf' Hw' Hs') as [Hf2 [Hw2 [Hs2 He2]]].
    repeat (split; [assumption|]). congruence.
Qed.

(** C8.  Eviction of a present mapping that is not orphaned, has a file
    that it may not write, and whose page is dirty, on a swap table with a
    free slot: [vm_evict_page] clears [hasfile] and [fwrite], sets
    [swapped], takes the lowest free swap slot and writes the frame to its
    sectors; the file is not written, neither by this eviction nor by any
    later load or eviction of the mapping, which stays without a file and
    in swap. *)
Theorem dirty_unwritable_file_page_goes_to_swap st m slot :
  present m = true -> orphaned m = false ->
  hasfile m = true -> fwrite m = false ->
  pagedir_is_dirty st (pt m) (page m) = true ->
  pg_ofs (frame m) = 0 -> PHYS_BASE < frame m ->
  bit_cnt (occupied st) < 2 ^ 31 ->
  bitmap_lowest (occupied st) false = Ok slot ->
  0 <= slot < bit_cnt (occupied st) ->
  exists st' m',
    vm_evict_page st (Some m) = Ok (st', Some m') /\
    present m' = false /\
    hasfile m' = false /\ fwrite m' = false /\ swapped m' = true /\
    swap_slot m' = slot /\
    bitval (occupied st) slot = false /\ bitval (occupied st') slot = true /\
    (forall i, 0 <= i < SECTORS_PER_PAGE ->
       swap_dev st' (slot * SECTORS_PER_PAGE + i) =
       sub (mem st (frame m)) (i * BLOCK_SECTOR_SIZE) BLOCK_SECTOR_SIZE) /\
    file_writes st' = file_writes st /\
    (forall st'' m'', msteps (st', m') (st'', m'') ->
       hasfile m'' = false /\ fwrite m'' = false /\ swapped m'' = true /\
       file_writes st'' = file_writes st).
Proof.
  intros Hp Ho Hf Hw Hd Hofs Hbase Hcnt Hlow Hslot.
  destruct (swaptbl_store_spec (pagedir_clear_page st (pt m) (page m))
              (frame m) slot Hofs Hbase Hcnt Hlow Hslot)
    as [st1 [Hst [_ [Hmem [Hfw [_ [Hv [Ht [_ Hsec]]]]]]]]].
  cbn [vm_evict_page]. rewrite Hp, Ho. cbn [assert rbind]. cbv zeta.
  cbn [pt page swapped hasfile fwrite set_present].
  rewrite Hd, Hf, Hw. cbn [negb andb]. cbv iota.
  cbn [pt page frame set_present] in Hst. rewrite Hst. cbn [rbind].
  eexists. eexists. split; [reflexivity|].
  cbn [present hasfile fwrite swapped swap_slot data_w0 set_swap_slot
       set_swapped set_hasfile set_fwrite set_present].
  assert (Hu : u32 slot = slot) by (apply u32_small; lia).
  split; [reflexivity|]. split; [reflexivity|]. split; [reflexivity|].
  split; [reflexivity|]. split; [exact Hu|].
  split; [exact Hv|].
  cbn [occupied swap_dev file_writes palloc_free_page set_freed_pages].
  split; [exact Ht|].
  split; [intros i Hi; rewrite (Hsec i Hi); reflexivity|].
  split; [exact Hfw|].
  intros st'' m'' Hsteps.
  apply msteps_swap_backed in Hsteps; [ | reflexivity | reflexivity | reflexivity].
  cbn [fst snd] in Hsteps.
  destruct Hsteps as [H1 [H2 [H3 H4]]].
  repeat (split; [assumption|]).
  rewrite H4. exact Hfw.
Qed.

Lemma dirty_unwritable_file_page_goes_to_swap_witness :
  exists st' m',
    vm_evict_page Scenario.a_vm (Some Scenario.a_mapping) = Ok (st', Some m') /\
    hasfile m' = false /\ fwrite m' = false /\ swapped m' = true /\
    swap_slot m' = 1 /\
    swap_dev st' 8 = repeat Byte.x41 512 /\
    file_writes st' = [].
Proof.
  destruct (dirty_unwritable_file_page_goes_to_swap
              Scenario.a_vm Scenario.a_mapping 1)
    as [st' [m' [He [_ [Hf [Hw [Hs [Hsl [_ [_ [Hsec [Hfw _]]]]]]]]]]]].
  - reflexivity.
  - reflexivity.
  - reflexivity.
  - reflexivity.
  - reflexivity.
  - reflexivity.
  - reflexivity.
  - reflexivity.
  - reflexivity.
  - vm_compute. split; [discriminate | reflexivity].
  - exists st', m'. repeat (split; [assumption|]).
    split; [|exact Hfw].
    change 8 with (1 * SECTORS_PER_PAGE + 0).
    rewrite (Hsec 0) by (vm_compute; split; congruence).
    reflexivity.
Defined.

End VmFacts.
(* ===================================================================== *)
(** ** filesys/filesys.c: removal *)
(* ===================================================================== *)

(** *** Calls that leave the sectors of the disk as they are *)

Lemma malloc_sectors st : sectors (fst (malloc st)) = sectors st.
Proof. unfold malloc. destruct (heap st) as [|b h]; reflexivity. Qed.

Lemma inode_reopen_sectors st p st' r :
  inode_reopen st p = Ok (st', r) -> sectors st' = sectors st.
Proof.
  unfold inode_reopen. destruct p as [s|]; intros H; inv_ok; reflexivity.
Qed.

Lemma inode_open_sectors st sec st' r :
  inode_open st sec = Ok (st', r) -> sectors st' = sectors st.
Proof.
  unfold inode_open. destruct (find_inode (open_inodes st) sec).
  - apply inode_reopen_sectors.
  - pose proof (malloc_sectors st) as Hm.
    destruct (malloc st) as [st1 ok]. cbn [fst] in Hm.
    destruct ok; intros H; inv_ok; exact Hm.
Qed.

Lemma free_map_release_sectors st sec cnt st' :
  free_map_release st sec cnt = Ok st' -> sectors st' = sectors st.
Proof. unfold free_map_release. intros H. inv_ok. reflexivity. Qed.

Lemma release_loop_sectors get n : forall st data i st',
  release_loop get n st data i = Ok st' -> sectors st' = sectors st.
Proof.
  induction n as [|n IH]; intros st data i st' H; cbn [release_loop] in H.
  - inv_ok. reflexivity.
  - apply rbind_ok in H. destruct H as [d [_ H]].
    apply rbind_ok in H. destruct H as [st1 [H1 H]].
    apply IH in H. rewrite H.
    destruct (negb (d =? NO_SECTOR)).
    + apply free_map_release_sectors in H1. exact H1.
    + inv_ok. reflexivity.
Qed.

Lemma release_indirect_loop_sectors n : forall st ind i st',
  release_indirect_loop n st ind i = Ok st' -> sectors st' = sectors st.
Proof.
  induction n as [|n IH]; intros st ind i st' H;
    cbn [release_indirect_loop] in H.
  - inv_ok. reflexivity.
  - apply rbind_ok in H. destruct H as [s [_ H]].
    apply rbind_ok in H. destruct H as [st1 [H1 H]].
    apply IH in H. rewrite H.
    destruct (negb (s =? NO_SECTOR)).
    + apply rbind_ok in H1. destruct H1 as [subnode [_ H1]].
      apply rbind_ok in H1. destruct H1 as [st2 [H2 H1]].
      apply rbind_ok in H1. destruct H1 as [st3 [H3 H1]].
      apply Ok_inj in H1. subst st1.
      apply release_loop_sectors in H2.
      apply free_map_release_sectors in H3.
      change (fs_cache_release st3 s 0 subnode) with st3. congruence.
    + inv_ok. reflexivity.
Qed.

Lemma inode_close_sectors st p st' :
  inode_close st p = Ok st' -> sectors st' = sectors st.
Proof.
  unfold inode_close. destruct p as [s|]; intros H; [|inv_ok; reflexivity].
  apply rbind_ok in H. destruct H as [ino [_ H]].
  destruct (sint32 (open_cnt ino + -1) =? 0); [|inv_ok; reflexivity].
  destruct (removed ino); [|inv_ok; reflexivity].
  apply rbind_ok in H. destruct H as [data [_ H]].
  apply rbind_ok in H. destruct H as [st1 [H1 H]].
  apply rbind_ok in H. destruct H as [st2 [H2 H]].
  apply release_loop_sectors in H1.
  change (fs_cache_release st1 (i_sector ino) 0 data) with st1 in H2.
  apply release_indirect_loop_sectors in H2.
  apply free_map_release_sectors in H.
  rewrite H, H2, H1. reflexivity.
Qed.

Lemma dir_open_sectors st p st' d :
  dir_open st p = Ok (st', d) -> sectors st' = sectors st.
Proof.
  unfold dir_open. destruct p as [p|]; [|intros H; inv_ok; reflexivity].
  pose proof (malloc_sectors st) as Hm.
  destruct (malloc st) as [st1 ok]. cbn [fst] in Hm.
  destruct ok; intros H.
  - inv_ok. exact Hm.
  - apply rbind_ok in H. destruct H as [st2 [H2 H]].
    apply inode_close_sectors in H2. inv_ok. congruence.
Qed.

Lemma dir_open_root_sectors st st' d :
  dir_open_root st = Ok (st', d) -> sectors st' = sectors st.
Proof.
  unfold dir_open_root. intros H.
  apply rbind_ok in H. destruct H as [[st1 p] [H1 H]].
  apply inode_open_sectors in H1. apply dir_open_sectors in H. congruence.
Qed.

Lemma dir_reopen_sectors st d st' d' :
  dir_reopen st d = Ok (st', d') -> sectors st' = sectors st.
Proof.
  unfold dir_reopen. destruct d as [d|]; intros H; [|inv_ok; reflexivity].
  apply rbind_ok in H. destruct H as [[st1 p] [H1 H]].
  apply inode_reopen_sectors in H1. apply dir_open_sectors in H. congruence.
Qed.

Lemma dir_close_sectors st d st' :
  dir_close st d = Ok st' -> sectors st' = sectors st.
Proof.
  unfold dir_close. destruct d as [d|]; intros H;
    [apply inode_close_sectors in H; exact H | inv_ok; reflexivity].
Qed.

Lemma dir_lookup_sectors st d name st' r :
  dir_lookup st d name = Ok (st', r) -> sectors st' = sectors st.
Proof.
  unfold dir_lookup. destruct d as [d|]; intros H; [|discriminate].
  apply rbind_ok in H. destruct H as [found [_ H]].
  destruct found as [[e ofs]|]; [|inv_ok; reflexivity].
  apply rbind_ok in H. destruct H as [[st1 p] [H1 H]].
  apply inode_open_sectors in H1.
  destruct p; inv_ok; exact H1.
Qed.
Module FilesysFacts.
Import Filesys.

Lemma locate_loop_sectors toks : forall st d st' d' ok,
  locate_loop st d toks = Ok (st', d', ok) -> sectors st' = sectors st.
Proof.
  induction toks as [|t toks IH]; intros st d st' d' ok H;
    cbn [locate_loop] in H.
  - inv_ok. reflexivity.
  - apply rbind_ok in H. destruct H as [[st1 r] [H1 H]].
    apply dir_lookup_sectors in H1.
    assert (Hfail : forall X,
              (st2 <- dir_close st1 d ;; Ok (st2, @None dir, false)) = Ok X ->
              sectors (fst (fst X)) = sectors st).
    { intros X HX. apply rbind_ok in HX. destruct HX as [st2 [H2 HX]].
      apply dir_close_sectors in H2. apply Ok_inj in HX. subst X.
      cbn [fst]. congruence. }
    destruct r as [[inode [|]]|].
    + apply rbind_ok in H. destruct H as [[st2 sub] [H2 H]].
      apply rbind_ok in H. destruct H as [st3 [H3 H]].
      apply dir_open_sectors in H2. apply dir_close_sectors in H3.
      apply IH in H. congruence.
    + apply (Hfail _ H).
    + apply (Hfail _ H).
Qed.

Lemma filesys_locate_dir_sectors st path wd len st' d :
  filesys_locate_dir st path wd len = Ok (st', d) -> sectors st' = sectors st.
Proof.
  unfold filesys_locate_dir.
  set (abs := Byte.eqb (hd zero_byte path) SLASH
              || match wd with None => true | Some _ => false end).
  intros H.
  apply rbind_ok in H. destruct H as [[st1 wd1] [H1 H]].
  assert (E1 : sectors st1 = sectors st).
  { destruct abs; [apply dir_open_root_sectors in H1; exact H1|].
    inv_ok. reflexivity. }
  pose proof (malloc_sectors st1) as Hm.
  destruct (malloc st1) as [st2 ok]. cbn [fst] in Hm.
  apply rbind_ok in H. destruct H as [u [_ H]].
  apply rbind_ok in H. destruct H as [[st3 d3] [H3 H]].
  apply dir_reopen_sectors in H3.
  apply rbind_ok in H. destruct H as [[[st4 d4] ok4] [H4 H]].
  apply locate_loop_sectors in H4.
  destruct ok4.
  - apply rbind_ok in H. destruct H as [st5 [H5 H]].
    assert (E5 : sectors st5 = sectors st4).
    { destruct abs; [apply dir_close_sectors in H5; exact H5|].
      inv_ok. reflexivity. }
    inv_ok. congruence.
  - inv_ok. congruence.
Qed.

Lemma filesys_locate_parent_sectors st path wd st' r :
  filesys_locate_parent st path wd = Ok (st', r) -> sectors st' = sectors st.
Proof.
  unfold filesys_locate_parent. destruct path as [[|c path]|];
    intros H; try (inv_ok; reflexivity).
  destruct (strrchr_slash (c :: path) 0 None) as [len|].
  - destruct (len =? Z.of_nat (length (c :: path)) - 1);
      [inv_ok; reflexivity|].
    apply rbind_ok in H. destruct H as [[st1 d] [H1 H]].
    apply filesys_locate_dir_sectors in H1.
    destruct d; inv_ok; exact H1.
  - apply rbind_ok in H. destruct H as [[st1 d] [H1 H]].
    assert (E : sectors st1 = sectors st).
    { destruct wd; [apply dir_reopen_sectors in H1
                   | apply dir_open_root_sectors in H1]; exact H1. }
    inv_ok. exact E.
Qed.

(** C6.  When the path names an existing directory ([filesys_locate_parent]
    finds its parent and [dir_lookup] finds it there, as a directory):
    [filesys_remove] returns true only if the open count of the directory
    is at most 1 and its counter is 0 at the check; otherwise it does not
    call [dir_remove], it closes the inode and the parent and returns
    false, and the sectors of the disk, the entry among them, are as
    before the call. *)
Theorem filesys_remove_directory_guard
  st path wd st1 name fdir st2 inode cnt counter :
  filesys_locate_parent st path wd = Ok (st1, Some (name, fdir)) ->
  dir_lookup st1 fdir name = Ok (st2, Some (inode, true)) ->
  inode_get_open_cnt st2 inode = Ok cnt ->
  inode_counter_get st2 inode = Ok counter ->
  (forall st' ok, filesys_remove st path wd = Ok (st', ok) ->
     ok = true -> cnt <= 1 /\ counter = 0) /\
  (~ (cnt <= 1 /\ counter = 0) ->
   filesys_remove st path wd =
     (st3 <- inode_close st2 (Some inode) ;;
      st4 <- dir_close st3 fdir ;; Ok (st4, false)) /\
   forall st' ok, filesys_remove st path wd = Ok (st', ok) ->
     ok = false /\ sectors st' = sectors st).
Proof.
  intros Hp Hl Hc Hn.
  assert (Hrem : removable st2 inode = Ok ((cnt <=? 1) && (counter =? 0))).
  { unfold removable. rewrite Hc. cbn [rbind].
    destruct (cnt <=? 1); [rewrite Hn; reflexivity | reflexivity]. }
  assert (Hun : filesys_remove st path wd =
            ('(st3, success) <-
               (if (cnt <=? 1) && (counter =? 0)
                then dir_remove st2 fdir name else Ok (st2, false)) ;;
             st4 <- inode_close st3 (Some inode) ;;
             st5 <- dir_close st4 fdir ;; Ok (st5, success))).
  { unfold filesys_remove. rewrite Hp. cbn [rbind]. rewrite Hl. cbn [rbind].
    rewrite Hrem. cbn [rbind]. reflexivity. }
  split.
  - intros st' ok H Hok. rewrite Hun in H.
    destruct ((cnt <=? 1) && (counter =? 0)) eqn:E.
    + apply andb_true_iff in E. destruct E as [E1 E2].
      apply Z.leb_le in E1. apply Z.eqb_eq in E2. split; assumption.
    + cbn [rbind] in H. inv_ok. discriminate.
  - intros Hno.
    assert (E : (cnt <=? 1) && (counter =? 0) = false).
    { destruct ((cnt <=? 1) && (counter =? 0)) eqn:E; [|reflexivity].
      apply andb_true_iff in E. destruct E as [E1 E2].
      apply Z.leb_le in E1. apply Z.eqb_eq in E2. elim Hno.
      split; assumption. }
    rewrite Hun, E. cbn [rbind]. split; [reflexivity|].
    intros st' ok H.
    apply rbind_ok in H. destruct H as [st3 [H3 H]].
    apply rbind_ok in H. destruct H as [st4 [H4 H]].
    apply Ok_inj in H. apply pair_inj in H. destruct H as [<- <-].
    split; [reflexivity|].
    apply inode_close_sectors in H3. apply dir_close_sectors in H4.
    apply dir_lookup_sectors in Hl.
    apply filesys_locate_parent_sectors in Hp. congruence.
Qed.

Lemma filesys_remove_directory_guard_witness :
  let path := Some [Byte.x2f; Byte.x61] in
  let st := Scenario.final Scenario.with_file_a_b in
  let st1 := Scenario.state_of (filesys_locate_parent st path None) in
  let fdir := Some (mkDir 0 0) in
  let st2 := Scenario.state_of (dir_lookup st1 fdir [Byte.x61]) in
  (forall st' ok, filesys_remove st path None = Ok (st', ok) ->
     ok = true -> 1 <= 1 /\ 1 = 0) /\
  (~ (1 <= 1 /\ 1 = 0) ->
   filesys_remove st path None =
     (st3 <- inode_close st2 (Some 3) ;;
      st4 <- dir_close st3 fdir ;; Ok (st4, false)) /\
   forall st' ok, filesys_remove st path None = Ok (st', ok) ->
     ok = false /\ sectors st' = sectors st).
Proof.
  intros path st st1 fdir st2.
  apply (filesys_remove_directory_guard st path None st1 [Byte.x61] fdir st2
           3 1 1).
  - vm_compute. reflexivity.
  - vm_compute. reflexivity.
  - vm_compute. reflexivity.
  - vm_compute. reflexivity.
Defined.

End FilesysFacts.
(* ===================================================================== *)
(** ** The loop bounds of the model suffice *)
(* ===================================================================== *)

Lemma term_ok {A} (a : A) : terminates (Ok a).
Proof. discriminate. Qed.

Lemma term_bind {A B} (m : res A) (k : A -> res B) :
  terminates m -> (forall a, terminates (k a)) -> terminates (rbind m k).
Proof.
  unfold terminates. intros Hm Hk. destruct m as [a|f]; cbn [rbind].
  - apply Hk.
  - intros E. apply Hm. injection E as ->. reflexivity.
Qed.

Lemma term_assert b : terminates (assert b).
Proof. destruct b; discriminate. Qed.

Create HintDb fuel.

Ltac term_step :=
  match goal with
  | |- terminates (rbind _ _) => apply term_bind; [ | intros ]
  | |- terminates (Ok _) => apply term_ok
  | |- terminates (Err _) => discriminate
  | |- terminates (assert _) => apply term_assert
  | |- terminates (if ?b then _ else _) => destruct b
  | |- terminates (match ?x with _ => _ end) => destruct x
  | |- terminates _ => solve [auto with fuel]
  end.

Ltac term := repeat term_step.

Lemma term_cell_get {A} (l : list A) i : terminates (cell_get l i).
Proof. unfold cell_get. term. Qed.

Lemma term_cell_set {A} (l : list A) i a : terminates (cell_set l i a).
Proof. unfold cell_set. term. Qed.

#[export] Hint Resolve term_cell_get term_cell_set : fuel.

Lemma term_bitmap_lowest_loop n : forall b i value,
  terminates (bitmap_lowest_loop n b i value).
Proof.
  induction n as [|n IH]; intros b i value; cbn [bitmap_lowest_loop].
  - term.
  - term; apply IH.
Qed.

Lemma term_free_map_get st : terminates (free_map_get st).
Proof.
  unfold free_map_get. apply term_bind.
  - apply term_bitmap_lowest_loop.
  - intros sector. unfold bitmap_mark. term.
Qed.

#[export] Hint Resolve term_free_map_get : fuel.

Lemma term_cache_check st x : terminates (cache_check st x).
Proof. unfold cache_check. term. Qed.

#[export] Hint Resolve term_cache_check : fuel.

Lemma term_fs_cache_get st x flags : terminates (fs_cache_get st x flags).
Proof. unfold fs_cache_get. term. Qed.

Lemma term_fs_cache_read st x : terminates (fs_cache_read st x).
Proof. unfold fs_cache_read. term. Qed.

Lemma term_fs_cache_write st x buf : terminates (fs_cache_write st x buf).
Proof. unfold fs_cache_write. term. Qed.

Lemma term_deref st p : terminates (deref st p).
Proof. unfold deref. term. Qed.

#[export] Hint Resolve term_fs_cache_get term_fs_cache_read
  term_fs_cache_write term_deref : fuel.

Lemma term_direct_get d i : terminates (direct_get d i).
Proof. unfold direct_get. term. Qed.
Lemma term_direct_set d i v : terminates (direct_set d i v).
Proof. unfold direct_set. term. Qed.
Lemma term_indirect_get d i : terminates (indirect_get d i).
Proof. unfold indirect_get. term. Qed.
Lemma term_indirect_set d i v : terminates (indirect_set d i v).
Proof. unfold indirect_set. term. Qed.
Lemma term_sub_get d i : terminates (sub_get d i).
Proof. unfold sub_get. term. Qed.
Lemma term_sub_set d i v : terminates (sub_set d i v).
Proof. unfold sub_set. term. Qed.

#[export] Hint Resolve term_direct_get term_direct_set term_indirect_get
  term_indirect_set term_sub_get term_sub_set : fuel.

Lemma term_fill_loop set n : forall data i v,
  (forall d j w, terminates (set d j w)) ->
  terminates (fill_loop set n data i v).
Proof.
  induction n as [|n IH]; intros data i v Hset; cbn [fill_loop].
  - term.
  - apply term_bind; [apply Hset | intros; apply IH; exact Hset].
Qed.

Lemma term_alloc_entry st data set i :
  (forall d j w, terminates (set d j w)) ->
  terminates (alloc_entry st data set i).
Proof. intros Hset. unfold alloc_entry. term; apply Hset. Qed.

Lemma term_byte_to_sector st ino pos create :
  terminates (byte_to_sector st ino pos create).
Proof.
  unfold byte_to_sector. term;
    try (apply term_alloc_entry; intros; auto with fuel);
    try (apply term_fill_loop; intros; auto with fuel).
Qed.

Lemma term_inode_length st ino : terminates (inode_length st ino).
Proof. unfold inode_length. term. Qed.

#[export] Hint Resolve term_byte_to_sector term_inode_length : fuel.

(** Every iteration of the loops of [inode_read_at] and [inode_write_at]
    that goes on consumes at least one byte of [size]. *)
Lemma term_inode_write_loop fuel : forall st ino buf size off bw,
  (Z.to_nat size <= fuel)%nat ->
  terminates (inode_write_loop fuel st ino buf size off bw).
Proof.
  induction fuel as [|fuel IH]; intros st ino buf size off bw Hf.
  - cbn [inode_write_loop].
    replace (0 <? size) with false by (symmetry; apply Z.ltb_ge; lia).
    term.
  - rewrite inode_write_loop_S. destruct (0 <? size); [|term].
    apply term_bind; [auto with fuel|]. intros [[st1 ret] held].
    destruct (ret =? INVALID_SECTOR); [term|].
    cbv zeta.
    match goal with
    | |- terminates (if ?c <=? 0 then _ else _) =>
        destruct (Z.leb_spec c 0) as [Hc|Hc]; [term|]
    end.
    apply term_bind; [term|]. intros st2.
    destruct held; [discriminate|]. apply IH. lia.
Qed.

Lemma term_inode_read_loop fuel : forall st ino size off br out,
  (Z.to_nat size <= fuel)%nat ->
  terminates (inode_read_loop fuel st ino size off br out).
Proof.
  induction fuel as [|fuel IH]; intros st ino size off br out Hf.
  - cbn [inode_read_loop].
    replace (0 <? size) with false by (symmetry; apply Z.ltb_ge; lia).
    term.
  - rewrite inode_read_loop_S. destruct (0 <? size); [|term].
    apply term_bind; [auto with fuel|]. intros len. cbv zeta.
    apply term_bind; [auto with fuel|]. intros [[st1 idx] held].
    apply term_bind; [term|]. intros u.
    match goal with
    | |- terminates (if ?c <=? 0 then _ else _) =>
        destruct (Z.leb_spec c 0) as [Hc|Hc]; [term|]
    end.
    apply term_bind; [term|]. intros chunk. apply IH. lia.
Qed.

(** [inode_write_at] and [inode_read_at] never exhaust the bound. *)
Lemma inode_write_at_terminates st ino buf size off :
  terminates (inode_write_at st ino buf size off).
Proof.
  unfold inode_write_at. apply term_bind; [auto with fuel|]. intros i.
  destruct (negb (deny_write_cnt i =? 0)); [term|].
  apply term_bind; [apply term_inode_write_loop; lia|].
  intros [[[st1 o] w] held]. term.
Qed.

Lemma inode_read_at_terminates st ino size off :
  terminates (inode_read_at st ino size off).
Proof. unfold inode_read_at. apply term_inode_read_loop. lia. Qed.
(* ===================================================================== *)
(** ** vm/swaptbl.c and vm/mappings.c: what eviction saves and restores *)
(* ===================================================================== *)

Module VmMore.
Import Vm.

Lemma bitmap_reset_total b x :
  0 <= x -> elem_idx x < Z.of_nat (length (bits b)) ->
  exists b', bitmap_reset b x = Ok b'.
Proof.
  intros Hx Hl. unfold bitmap_reset.
  assert (Hi : 0 <= elem_idx x < Z.of_nat (length (bits b))).
  { split; [|exact Hl]. unfold elem_idx, ELEM_BITS. apply Z.div_pos; lia. }
  rewrite (cell_get_total _ _ 0 Hi). cbn [rbind]. unfold cell_set.
  replace ((0 <=? elem_idx x) && (elem_idx x <? Z.of_nat (length (bits b))))
    with true
    by (symmetry; apply andb_true_iff; split;
        [apply Z.leb_le | apply Z.ltb_lt]; lia).
  cbn [rbind]. eexists. reflexivity.
Qed.

Lemma length_load_loop n : forall st sec,
  (forall x, sec <= x < sec + Z.of_nat n ->
     length (swap_dev st x) = 512%nat) ->
  length (load_loop n st sec) = (512 * n)%nat.
Proof.
  induction n as [|n IH]; intros st sec Hx; cbn [load_loop]; [reflexivity|].
  rewrite length_app, IH by (intros; apply Hx; lia).
  rewrite length_sub;
    [ change (Z.to_nat BLOCK_SECTOR_SIZE) with 512%nat; lia | lia
    | change BLOCK_SECTOR_SIZE with 512; lia | ].
  rewrite Hx by lia. change BLOCK_SECTOR_SIZE with 512. lia.
Qed.

(** The bytes that the loop of [swaptbl_load] reads: sector after sector. *)
Lemma byte_at_load_loop n : forall st sec i,
  (forall x, sec <= x < sec + Z.of_nat n ->
     length (swap_dev st x) = 512%nat) ->
  0 <= i < 512 * Z.of_nat n ->
  byte_at (load_loop n st sec) i =
  byte_at (swap_dev st (sec + i / 512)) (i mod 512).
Proof.
  induction n as [|n IH]; intros st sec i Hl Hi; [lia|].
  cbn [load_loop]. rewrite byte_at_app by lia.
  assert (Hs : length (sub (swap_dev st sec) 0 BLOCK_SECTOR_SIZE) = 512%nat).
  { rewrite length_sub; [reflexivity | lia | change BLOCK_SECTOR_SIZE with 512; lia |].
    rewrite Hl by lia. change BLOCK_SECTOR_SIZE with 512. lia. }
  rewrite Hs.
  destruct (Z.ltb_spec i (Z.of_nat 512)).
  - rewrite byte_at_sub by (change BLOCK_SECTOR_SIZE with 512; lia).
    rewrite Z.div_small, Z.mod_small by lia.
    rewrite Z.add_0_r. reflexivity.
  - rewrite IH; [ | intros x Hx; apply Hl; lia | lia ].
    assert (E1 : i / 512 = (i - 512) / 512 + 1).
    { rewrite <- Z.div_add by lia. f_equal. lia. }
    assert (E2 : i mod 512 = (i - 512) mod 512).
    { rewrite <- (Z.mod_add (i - 512) 1 512) by lia. f_equal. lia. }
    rewrite E1, E2. f_equal. f_equal. lia.
Qed.

Lemma swaptbl_round_trip st pg pg2 slot :
  pg_ofs pg = 0 -> PHYS_BASE < pg -> pg_ofs pg2 = 0 -> PHYS_BASE < pg2 ->
  length (mem st pg) = Z.to_nat PGSIZE ->
  bit_cnt (occupied st) < 2 ^ 31 ->
  bitmap_lowest (occupied st) false = Ok slot ->
  0 <= slot < bit_cnt (occupied st) ->
  exists st1 st2,
    swaptbl_store st pg = Ok (st1, slot) /\
    bitval (occupied st1) slot = true /\
    swaptbl_load st1 (Some pg2) slot = Ok st2 /\
    mem st2 pg2 = mem st pg /\
    (forall a, a <> pg2 -> mem st2 a = mem st a) /\
    (forall y, 0 <= y -> bitval (occupied st2) y = bitval (occupied st) y).
Proof.
  intros Hofs Hbase Hofs2 Hbase2 Hlen Hcnt Hlow Hslot.
  destruct (VmFacts.swaptbl_store_spec st pg slot Hofs Hbase Hcnt Hlow Hslot)
    as [st1 [Hst [_ [Hmem [_ [_ [Hv [Ht [Ho Hsec]]]]]]]]].
  exists st1.
  assert (Hcnt1 : bit_cnt (occupied st1) = bit_cnt (occupied st) /\
                  elem_idx slot < Z.of_nat (length (bits (occupied st1)))).
  { unfold swaptbl_store in Hst.
    apply rbind_ok in Hst. destruct Hst as [u1 [_ Hst]].
    apply rbind_ok in Hst. destruct Hst as [u2 [_ Hst]].
    apply rbind_ok in Hst. destruct Hst as [sl [Hsl Hst]].
    apply rbind_ok in Hst. destruct Hst as [u3 [_ Hst]].
    apply rbind_ok in Hst. destruct Hst as [b [Hb Hst]].
    apply Ok_inj in Hst. apply pair_inj in Hst. destruct Hst as [<- <-].
    destruct (VmFacts.store_loop_spec (Z.to_nat SECTORS_PER_PAGE)
                (set_occupied st b) pg sl (sl * SECTORS_PER_PAGE))
      as [_ [_ [H3 _]]].
    rewrite H3. cbn [occupied set_occupied].
    unfold bitmap_set in Hb.
    apply rbind_ok in Hb. destruct Hb as [u4 [_ Hb]].
    cbv iota in Hb. apply bitmap_mark_spec in Hb; [|lia].
    destruct Hb as [Hc [Hl [Hi _]]]. split; [exact Hc | lia]. }
  destruct Hcnt1 as [Hc1 Hl1].
  destruct (bitmap_reset_total (occupied st1) slot) as [b2 Hb2];
    [lia | exact Hl1 |].
  destruct (bitmap_reset_spec _ _ _ Hb2) as [_ [_ [Hf2 Ho2]]]; [lia|].
  set (content := load_loop (Z.to_nat SECTORS_PER_PAGE) st1
                    (slot * SECTORS_PER_PAGE)).
  exists (set_occupied
            (set_mem st1 (fun a => if a =? pg2 then content else mem st1 a)) b2).
  split; [exact Hst|]. split; [exact Ht|].
  split.
  { unfold swaptbl_load. rewrite Hofs2. change (0 =? 0) with true.
    replace (PHYS_BASE <? pg2) with true
      by (symmetry; apply Z.ltb_lt; exact Hbase2).
    cbn [assert rbind]. fold content.
    cbn [occupied set_mem]. unfold bitmap_size. rewrite Hc1.
    replace (slot <? bit_cnt (occupied st)) with true
      by (symmetry; apply Z.ltb_lt; lia).
    cbn [assert rbind].
    rewrite bitmap_test_total by (try exact Hl1; lia).
    cbn [rbind]. rewrite Ht. cbn [assert rbind].
    unfold bitmap_set. rewrite Hc1.
    replace (slot <? bit_cnt (occupied st)) with true
      by (symmetry; apply Z.ltb_lt; lia).
    cbn [assert rbind]. rewrite Hb2. reflexivity. }
  cbn [mem occupied set_occupied set_mem].
  split.
  { rewrite Z.eqb_refl.
    assert (Hsl : forall x, slot * 8 <= x < slot * 8 + 8 ->
              swap_dev st1 x = sub (mem st pg) ((x - slot * 8) * 512) 512).
    { intros x Hx. replace x with (slot * SECTORS_PER_PAGE + (x - slot * 8))
        at 1 by (change SECTORS_PER_PAGE with 8; lia).
      rewrite Hsec by (change SECTORS_PER_PAGE with 8; lia). reflexivity. }
    change (Z.to_nat PGSIZE) with 4096%nat in Hlen.
    assert (Hls : forall x, slot * 8 <= x < slot * 8 + Z.of_nat 8 ->
              length (swap_dev st1 x) = 512%nat).
    { intros x Hx. rewrite Hsl by lia. rewrite length_sub; lia. }
    assert (Hlc : length content = 4096%nat).
    { unfold content. change (Z.to_nat SECTORS_PER_PAGE) with 8%nat.
      change (slot * SECTORS_PER_PAGE) with (slot * 8).
      rewrite length_load_loop by exact Hls. reflexivity. }
    apply list_eq_byte_at.
    - rewrite Hlc, Hlen. reflexivity.
    - intros i Hi. rewrite Hlc in Hi.
      unfold content. change (Z.to_nat SECTORS_PER_PAGE) with 8%nat.
      change (slot * SECTORS_PER_PAGE) with (slot * 8).
      rewrite byte_at_load_loop by (try exact Hls; lia).
      assert (Hq : 0 <= i mod 512 < 512) by (apply Z.mod_pos_bound; lia).
      assert (Hd : 0 <= i / 512 < 8).
      { split; [apply Z.div_pos; lia | apply Z.div_lt_upper_bound; lia]. }
      rewrite Hsl by lia. rewrite byte_at_sub by lia. f_equal.
      pose proof (Z.div_mod i 512 ltac:(lia)). lia. }
  split.
  { intros a Ha. replace (a =? pg2) with false
      by (symmetry; apply Z.eqb_neq; exact Ha).
    rewrite Hmem. reflexivity. }
  intros y Hy. destruct (Z.eq_dec y slot) as [->|Hne].
  - rewrite Hf2, Hv. reflexivity.
  - rewrite Ho2 by assumption. apply Ho; assumption.
Qed.

(** [swaptbl_store] followed by [swaptbl_load] of the slot it returned: the
    page read back is the page stored, and the bitmap of occupied slots is
    as it was. *)
Theorem swap_store_load_round_trip st pg pg2 slot :
  pg_ofs pg = 0 -> PHYS_BASE < pg -> pg_ofs pg2 = 0 -> PHYS_BASE < pg2 ->
  length (mem st pg) = Z.to_nat PGSIZE ->
  bit_cnt (occupied st) < 2 ^ 31 ->
  bitmap_lowest (occupied st) false = Ok slot ->
  0 <= slot < bit_cnt (occupied st) ->
  exists st1 st2,
    swaptbl_store st pg = Ok (st1, slot) /\
    bitval (occupied st1) slot = true /\
    swaptbl_load st1 (Some pg2) slot = Ok st2 /\
    mem st2 pg2 = mem st pg /\
    (forall a, a <> pg2 -> mem st2 a = mem st a) /\
    (forall y, 0 <= y -> bitval (occupied st2) y = bitval (occupied st) y).
Proof. exact (swaptbl_round_trip st pg pg2 slot). Qed.

Lemma swap_store_load_round_trip_witness :
  exists st1 st2,
    swaptbl_store Scenario.a_vm Scenario.a_frame = Ok (st1, 1) /\
    swaptbl_load st1 (Some (Scenario.a_frame + 4096)) 1 = Ok st2 /\
    mem st2 (Scenario.a_frame + 4096) = mem Scenario.a_vm Scenario.a_frame.
Proof.
  destruct (swap_store_load_round_trip Scenario.a_vm Scenario.a_frame
              (Scenario.a_frame + 4096) 1)
    as [st1 [st2 [H1 [_ [H2 [H3 _]]]]]].
  - reflexivity.
  - reflexivity.
  - reflexivity.
  - reflexivity.
  - reflexivity.
  - reflexivity.
  - reflexivity.
  - vm_compute. split; [discriminate | reflexivity].
  - exists st1, st2. split; [exact H1|]. split; [exact H2 | exact H3].
Defined.





(** What [vm_evict_page] never does: it writes to no file for a mapping
    that has no file or may not write it, and it takes no swap slot and
    writes nothing to the swap device for a mapping with a file that it may
    write. *)
Theorem eviction_respects_file_permission st m st' r :
  vm_evict_page st (Some m) = Ok (st', r) ->
  (hasfile m && fwrite m = false -> file_writes st' = file_writes st) /\
  (hasfile m && fwrite m = true ->
   occupied st' = occupied st /\ swap_dev st' = swap_dev st).
Proof.
  intros H. cbn [vm_evict_page] in H.
  apply rbind_ok in H. destruct H as [u [Hp H]].
  apply assert_ok in Hp.
  destruct (orphaned m).
  - apply rbind_ok in H. destruct H as [st1 [H1 H]].
    apply Ok_inj in H. apply pair_inj in H. destruct H as [<- _].
    unfold mapping_free in H1. rewrite Hp in H1.
    rewrite andb_false_r in H1. cbn [rbind] in H1.
    apply Ok_inj in H1. subst st1.
    split; intros _; destruct (fwrite m); try split; reflexivity.
  - cbv zeta in H.
    apply rbind_ok in H. destruct H as [[st1 m1] [H1 H]].
    apply Ok_inj in H. apply pair_inj in H. destruct H as [<- _].
    cbn [swapped hasfile fwrite set_present pt page frame] in H1.
    destruct (negb (pagedir_is_dirty st (pt m) (page m)) && negb (swapped m)).
    + apply Ok_inj in H1. apply pair_inj in H1. destruct H1 as [<- _].
      split; intros _; try split; reflexivity.
    + destruct (hasfile m && fwrite m) eqn:E.
      * apply Ok_inj in H1. apply pair_inj in H1. destruct H1 as [<- _].
        split; [discriminate|]. intros _. split; reflexivity.
      * split; [|discriminate]. intros _.
        apply rbind_ok in H1. destruct H1 as [[st2 slot] [H2 H1]].
        apply Ok_inj in H1. apply pair_inj in H1. destruct H1 as [<- _].
        apply VmFacts.swaptbl_store_file_writes in H2.
        cbn [file_writes palloc_free_page set_freed_pages]. rewrite H2.
        reflexivity.
Qed.

Lemma eviction_respects_file_permission_witness :
  let r := vm_evict_page Scenario.a_vm (Some Scenario.a_mapping) in
  match r with
  | Ok (st', _) => file_writes st' = file_writes Scenario.a_vm
  | Err _ => False
  end.
Proof.
  cbv zeta.
  destruct (vm_evict_page Scenario.a_vm (Some Scenario.a_mapping))
    as [[st' r]|f] eqn:E.
  - apply (eviction_respects_file_permission _ _ _ _ E). reflexivity.
  - vm_compute in E. discriminate.
Defined.

(** The end of a mapping whose page is in a frame: [mapping_destroy] only
    marks it orphaned, after writing a dirty page back to a file that the
    mapping may write; the eviction that follows frees the mapping: the
    frame goes back to the page allocator, a file that the mapping may
    write is closed, nothing is written any more, and the swap table is
    not touched. *)
Theorem destroyed_mapping_is_freed_at_eviction st m :
  present m = true ->
  exists st1 m1 st2,
    mapping_destroy st (Some m) = Ok (st1, Some m1) /\
    orphaned m1 = true /\ frame m1 = frame m /\
    file_writes st1 =
      (if fwrite m && pagedir_is_dirty st (pt m) (page m)
       then (file_info_file m, sint32 (file_info_offset m * PGSIZE),
             sub (mem st (frame m)) 0 (file_info_size m + 1))
            :: file_writes st
       else file_writes st) /\
    freed_pages st1 = freed_pages st /\ closed_files st1 = closed_files st /\
    vm_evict_page st1 (Some m1) = Ok (st2, None) /\
    freed_pages st2 = frame m :: freed_pages st /\
    closed_files st2 =
      (if fwrite m then file_info_file m :: closed_files st
       else closed_files st) /\
    file_writes st2 = file_writes st1 /\
    occupied st2 = occupied st /\ swap_dev st2 = swap_dev st.
Proof.
  intros Hp.
  set (m1 := set_orphaned m true).
  set (st1 := if fwrite m && pagedir_is_dirty st (pt m) (page m)
              then evict_to_file st m1 else st).
  set (st2 := palloc_free_page
                (if fwrite m then file_close st1 (file_info_file m) else st1)
                (frame m)).
  exists st1, m1, st2.
  split; [cbn [mapping_destroy]; rewrite Hp; reflexivity|].
  split; [reflexivity|]. split; [reflexivity|].
  split; [unfold st1; destruct (fwrite m && pagedir_is_dirty st (pt m) (page m));
          reflexivity|].
  split; [unfold st1; destruct (fwrite m && pagedir_is_dirty st (pt m) (page m));
          reflexivity|].
  split; [unfold st1; destruct (fwrite m && pagedir_is_dirty st (pt m) (page m));
          reflexivity|].
  split.
  { cbn [vm_evict_page]. unfold m1 at 1 2.
    cbn [present orphaned set_orphaned]. rewrite Hp. cbn [assert rbind].
    unfold mapping_free. cbn [fwrite swapped present frame set_orphaned m1].
    rewrite Hp, andb_false_r. cbn [rbind]. reflexivity. }
  unfold st2, st1.
  destruct (fwrite m); destruct (pagedir_is_dirty st (pt m) (page m));
    repeat split; reflexivity.
Qed.

Lemma destroyed_mapping_is_freed_at_eviction_witness :
  exists st1 m1 st2,
    mapping_destroy Scenario.a_vm (Some Scenario.a_mapping) = Ok (st1, Some m1) /\
    vm_evict_page st1 (Some m1) = Ok (st2, None) /\
    freed_pages st2 = [Scenario.a_frame] /\
    file_writes st2 = [] /\ closed_files st2 = [].
Proof.
  destruct (destroyed_mapping_is_freed_at_eviction Scenario.a_vm
              Scenario.a_mapping)
    as [st1 [m1 [st2 [H1 [_ [_ [Hw [_ [_ [H2 [Hf [Hc [Hw2 _]]]]]]]]]]]]].
  - reflexivity.
  - exists st1, m1, st2. split; [exact H1|]. split; [exact H2|].
    split; [exact Hf|]. split; [rewrite Hw2; exact Hw | exact Hc].
Defined.

End VmMore.
(* ===================================================================== *)
(** ** filesys/inode.c: more on reading and writing *)
(* ===================================================================== *)

(** The bytes that one iteration of the loop of [inode_read_at] copies. *)
Lemma read_chunk_bytes st s off chunk :
  fs_ok st -> inode_wf st s -> 0 <= off -> off / 512 < MAX_SECTORS ->
  0 < chunk -> off mod 512 + chunk <= 512 ->
  (if (off mod 512 =? 0) && (chunk =? 512)
   then fs_cache_read st
          (if slot_val st s (slot_of (off / 512)) =? NO_SECTOR
           then INVALID_SECTOR else slot_val st s (slot_of (off / 512)))
   else sec <- fs_cache_get st
                 (if slot_val st s (slot_of (off / 512)) =? NO_SECTOR
                  then INVALID_SECTOR
                  else slot_val st s (slot_of (off / 512))) 0 ;;
        Ok (sub sec (off mod 512) chunk)) =
  Ok (fbytes st s off chunk).
Proof.
  intros Hok Hwf Hoff Hk Hc Hle.
  assert (Hk' : 0 <= off / 512 < MAX_SECTORS)
    by (split; [apply Z.div_pos; lia | exact Hk]).
  destruct (read_sector_fsec st s (off / 512) Hok Hwf Hk') as [Hr1 Hr2].
  cbv zeta in Hr1, Hr2.
  destruct ((off mod 512 =? 0) && (chunk =? 512)) eqn:Ef.
  - apply andb_true_iff in Ef. destruct Ef as [E1 E2].
    apply Z.eqb_eq in E1. apply Z.eqb_eq in E2.
    rewrite Hr1. f_equal.
    rewrite <- (sub_fsec st s off chunk) by (try assumption; lia).
    rewrite E1, E2.
    pose proof (length_fsec st s (off / 512) Hok) as Hl.
    unfold sub. cbn [skipn Z.to_nat].
    rewrite firstn_all2; [reflexivity|].
    rewrite Hl. nums. lia.
  - rewrite Hr2. cbn [rbind]. f_equal.
    apply sub_fsec; try assumption; lia.
Qed.

(** The loop of [inode_read_at] stops at the stored length. *)
Lemma inode_read_loop_clip fuel :
  forall st s ino size off br out,
  fs_ok st -> inode_wf st s -> deref st s = Ok ino ->
  0 <= header_length (sectors st s) <= MAX_LENGTH ->
  0 <= off < 2 ^ 31 -> 0 <= size ->
  (off + size <= header_length (sectors st s) \/
   header_length (sectors st s) < MAX_LENGTH /\ off < MAX_LENGTH) ->
  (Z.to_nat size <= fuel)%nat ->
  inode_read_loop fuel st s size off br out =
  let m := Z.max 0 (Z.min size (header_length (sectors st s) - off)) in
  Ok (br + m, out ++ fbytes st s off m).
Proof.
  induction fuel as [|fuel IH];
    intros st s ino size off br out Hok Hwf Hd HL Hoff Hsz Hin Hfuel.
  - assert (size = 0) by lia. subst size. cbn [inode_read_loop].
    change (0 <? 0) with false. cbv iota zeta.
    replace (Z.max 0 (Z.min 0 (header_length (sectors st s) - off)))
      with 0 by lia.
    rewrite Z.add_0_r. unfold fbytes. cbn. rewrite app_nil_r. reflexivity.
  - rewrite inode_read_loop_S. cbv zeta.
    destruct (0 <? size) eqn:E.
    2: { apply Z.ltb_ge in E. assert (size = 0) by lia. subst size.
         replace (Z.max 0 (Z.min 0 (header_length (sectors st s) - off)))
           with 0 by lia.
         rewrite Z.add_0_r. unfold fbytes. cbn. rewrite app_nil_r.
         reflexivity. }
    apply Z.ltb_lt in E.
    set (L := header_length (sectors st s)) in *.
    rewrite (inode_length_eq st s ino) by assumption. cbn [rbind]. fold L.
    assert (Hlt : off < 8483840) by (nums; lia).
    assert (Hk : off / 512 < MAX_SECTORS).
    { nums. apply Z.div_lt_upper_bound; lia. }
    rewrite (byte_to_sector_read st s ino off) by (try assumption; lia).
    cbn [rbind].
    rewrite rem_sector by lia.
    rewrite sint32_signed by (nums; lia).
    change BLOCK_SECTOR_SIZE with 512.
    assert (Hra : (if 512 <? L - off
                   then '(_, _, _) <- byte_to_sector st s (sint32 (off + 512)) false ;;
                        Ok tt
                   else Ok tt) = Ok tt).
    { destruct (Z.ltb_spec 512 (L - off)); [|reflexivity].
      rewrite sint32_small by (nums; lia).
      rewrite (byte_to_sector_read st s ino (off + 512));
        [reflexivity | assumption | assumption | assumption | nums; lia |].
      nums. apply Z.div_lt_upper_bound; lia. }
    rewrite Hra. cbn [rbind].
    assert (Hq : 0 <= off mod 512 < 512) by (apply Z.mod_pos_bound; lia).
    set (ml := if L - off <? 512 - off mod 512 then L - off
               else 512 - off mod 512).
    remember (if size <? ml then size else ml) as chunk eqn:Hchunk.
    assert (Hc : chunk <= size /\ chunk <= L - off /\
                 off mod 512 + chunk <= 512 /\ (0 < L - off -> 0 < chunk)).
    { subst chunk. unfold ml.
      destruct (Z.ltb_spec (L - off) (512 - off mod 512));
        match goal with
        | |- context [size <? ?m] => destruct (Z.ltb_spec size m)
        end; lia. }
    destruct (Z.leb_spec chunk 0) as [Hc0|Hc0].
    + assert (L - off <= 0) by lia.
      replace (Z.max 0 (Z.min size (L - off))) with 0 by lia.
      rewrite Z.add_0_r. unfold fbytes. cbn. rewrite app_nil_r. reflexivity.
    + rewrite read_chunk_bytes by (try assumption; lia).
      cbn [rbind]. rewrite sint32_small by (nums; lia).
      rewrite (IH st s ino) by (try assumption; fold L; nums; lia).
      cbv zeta. fold L.
      replace (Z.max 0 (Z.min size (L - off)))
        with (chunk + Z.max 0 (Z.min (size - chunk) (L - (off + chunk))))
        by lia.
      f_equal. f_equal; [lia|].
      rewrite <- app_assoc. f_equal.
      apply eq_sym, fbytes_app; lia.
Qed.

Lemma inode_read_at_clip st s ino size off :
  fs_ok st -> inode_wf st s -> deref st s = Ok ino ->
  0 <= header_length (sectors st s) < MAX_LENGTH ->
  0 <= off < MAX_LENGTH -> 0 <= size ->
  inode_read_at st s size off =
  let m := Z.max 0 (Z.min size (header_length (sectors st s) - off)) in
  Ok (m, fbytes st s off m).
Proof.
  intros Hok Hwf Hd HL Hoff Hsz. unfold inode_read_at.
  rewrite (inode_read_loop_clip (Z.to_nat size) st s ino size off 0 [])
    by (try assumption; nums; lia).
  reflexivity.
Qed.


Lemma fbytes_ext st st' s a k :
  (forall p, a <= p < a + k -> fbyte st' s p = fbyte st s p) ->
  fbytes st' s a k = fbytes st s a k.
Proof.
  intros H. unfold fbytes. apply map_ext_in. intros i Hi.
  apply in_seq in Hi. apply H. lia.
Qed.

(** A write inside the range that the index addresses, short or not: the
    [w] bytes that [inode_write_at] reports are the first [w] bytes of the
    buffer, stored from [off] on, and every range below the previous length
    that the write does not overlap reads as before. *)
Theorem write_stores_prefix_and_nothing_else st s ino buf n off st' w :
  fs_ok st -> inode_wf st s -> deref st s = Ok ino ->
  header_length (sectors st s) <= MAX_LENGTH ->
  0 <= off -> 0 <= n <= Z.of_nat (length buf) -> off + n <= MAX_LENGTH ->
  inode_write_at st s buf n off = Ok (st', w) ->
  0 <= w <= n /\
  inode_read_at st' s w off = Ok (w, sub buf 0 w) /\
  (forall a k, 0 <= a -> 0 <= k ->
     a + k <= header_length (sectors st s) ->
     a + k <= off \/ off + w <= a ->
     exists bytes,
       inode_read_at st s k a = Ok (k, bytes) /\
       inode_read_at st' s k a = Ok (k, bytes)).
Proof.
  intros Hok Hwf Hd HL Hoff0 Hn Hrange H.
  assert (Hoff : 0 <= off <= MAX_LENGTH) by lia.
  clear Hoff0 Hrange.
  apply inode_write_at_spec with (ino := ino) in H;
    [ | assumption | assumption | assumption | nums; lia | lia | lia ].
  destruct (negb (deny_write_cnt ino =? 0)).
  { destruct H as [-> ->]. split; [lia|].
    split; [apply inode_read_at_nothing|].
    intros a k Ha Hk Hin _. exists (fbytes st s a k).
    split; apply (inode_read_at_within st s ino); assumption. }
  destruct H as [Hw [Hm [Hok' [Hwf' [Hl' [_ [Hmx Hb]]]]]]].
  assert (Hd' : deref st' s = Ok ino)
    by (rewrite (deref_meta st st' s Hm); exact Hd).
  assert (HL' : header_length (sectors st' s) <= MAX_LENGTH).
  { rewrite Hl'. destruct (Z.eq_dec w 0) as [->|Hw0]; [lia|].
    assert (off + w <= MAX_LENGTH) by (apply Hmx; lia). lia. }
  split; [exact Hw|].
  split.
  { destruct (Z.eq_dec w 0) as [->|Hw0]; [apply inode_read_at_nothing|].
    assert (Hmax : off + w <= MAX_LENGTH) by (apply Hmx; lia).
    rewrite (inode_read_at_within st' s ino) by (try assumption; lia).
    f_equal. f_equal. apply list_eq_byte_at.
    - rewrite length_fbytes, length_sub; lia.
    - rewrite length_fbytes. intros i Hi.
      rewrite byte_at_fbytes by lia.
      rewrite Hb by (nums; lia).
      replace ((off <=? off + i) && (off + i <? off + w)) with true by btrue.
      rewrite byte_at_sub by lia. f_equal. lia. }
  intros a k Ha Hk Hin Hdis. exists (fbytes st s a k).
  split; [apply (inode_read_at_within st s ino); assumption|].
  rewrite (inode_read_at_within st' s ino) by (try assumption; lia).
  f_equal. f_equal. apply fbytes_ext. intros p Hp.
  rewrite Hb by (nums; lia).
  replace ((off <=? p) && (p <? off + w)) with false; [reflexivity|].
  symmetry. apply andb_false_iff.
  destruct Hdis; [left; apply Z.leb_gt; lia | right; apply Z.ltb_ge; lia].
Qed.

Lemma write_stores_prefix_and_nothing_else_witness :
  let buf := [Byte.x68; Byte.x65; Byte.x79] in
  let st := Scenario.file_open 100 in
  let st' := Scenario.state_of (inode_write_at st 5 buf 3 40) in
  inode_read_at st' 5 3 40 = Ok (3, buf) /\
  exists bytes,
    inode_read_at st 5 40 0 = Ok (40, bytes) /\
    inode_read_at st' 5 40 0 = Ok (40, bytes).
Proof.
  intros buf st st'.
  destruct (file_open_wf 100) as [Hok [Hwf [[i Hi] [Hl _]]]]; [lia|].
  destruct (write_stores_prefix_and_nothing_else st 5 i buf 3 40 st' 3)
    as [_ [H1 H2]]; try assumption.
  - unfold st. rewrite Hl. nums. lia.
  - lia.
  - cbn. lia.
  - nums. lia.
  - vm_compute. reflexivity.
  - split; [exact H1|]. apply H2; try lia. unfold st. rewrite Hl. lia.
Defined.

(** A write past the end of a new file leaves a hole that reads as zeros:
    after [inode_create] with length 0 and [inode_open], when
    [inode_write_at] of the [n] bytes of [buf] at [off], inside the range
    that the index addresses, returns [n], the file is [off] zero bytes
    followed by [buf]. *)
Theorem write_past_end_leaves_zeros st0 s st1 st2 buf n off st3 :
  fs_ok st0 -> valid_sector st0 s -> marked st0 s ->
  inode_create st0 s 0 = Ok (st1, true) ->
  inode_open st1 s = Ok (st2, Some s) ->
  0 <= off -> 0 < n -> Z.of_nat (length buf) = n ->
  off + n <= MAX_LENGTH ->
  inode_write_at st2 s buf n off = Ok (st3, n) ->
  inode_length st3 s = Ok (off + n) /\
  inode_read_at st3 s (off + n) 0 = Ok (off + n, zeros off ++ buf).
Proof.
  intros Hok Hv Hm Hc Ho Hoff0 Hn Hlen Hin H.
  assert (Hoff : 0 <= off < 2 ^ 31) by (nums; lia).
  clear Hin.
  destruct (inode_create_wf st0 s 0 st1 true Hok Hv Hm ltac:(lia) Hc)
    as [_ [Hok1 [Hwf1 [_ [_ [Hl1 Hsv1]]]]]].
  destruct (inode_open_facts _ _ _ Ho) as [Hd [Hs [Hfm [Hj [i Hi]]]]].
  destruct (wf_transfer st1 st2 s Hd Hs Hfm Hj Hok1 Hwf1) as [Hok2 Hwf2].
  assert (Hl2 : header_length (sectors st2 s) = 0) by (rewrite Hs; exact Hl1).
  assert (Hz : forall p, 0 <= p < MAX_LENGTH -> fbyte st2 s p = zero_byte).
  { intros p Hp. unfold fbyte, fsec.
    rewrite (slot_val_ext st1) by (intros x; rewrite Hs; reflexivity).
    rewrite Hsv1.
    - change (NO_SECTOR =? NO_SECTOR) with true. cbv iota.
      apply byte_at_zeros.
    - apply slot_of_ok. nums.
      split; [apply Z.div_pos; lia | apply Z.div_lt_upper_bound; lia]. }
  apply inode_write_at_spec with (ino := i) in H;
    [ | assumption | assumption | assumption | lia | lia | lia ].
  destruct (negb (deny_write_cnt i =? 0)); [lia|].
  destruct H as [Hw [Hmeta [Hok3 [Hwf3 [Hl3 [_ [Hmx Hb]]]]]]].
  assert (Hmax : off + n <= MAX_LENGTH) by (apply Hmx; lia).
  assert (Hd3 : deref st3 s = Ok i)
    by (rewrite (deref_meta st2 st3 s Hmeta); exact Hi).
  assert (HL3 : header_length (sectors st3 s) = off + n)
    by (rewrite Hl3, Hl2; lia).
  split.
  { rewrite (inode_length_eq st3 s i) by assumption. rewrite HL3.
    reflexivity. }
  rewrite (inode_read_at_within st3 s i) by (try assumption; lia).
  f_equal. f_equal. apply list_eq_byte_at.
  - rewrite length_fbytes, length_app. unfold zeros.
    rewrite repeat_length. lia.
  - rewrite length_fbytes. intros p Hp.
    rewrite byte_at_fbytes by lia. rewrite Z.add_0_l.
    rewrite Hb by (nums; lia).
    rewrite byte_at_app by lia.
    replace (Z.of_nat (length (zeros off))) with off
      by (unfold zeros; rewrite repeat_length; lia).
    destruct (Z.ltb_spec p off).
    + replace ((off <=? p) && (p <? off + n)) with false
        by (symmetry; apply andb_false_iff; left; apply Z.leb_gt; lia).
      rewrite byte_at_zeros. apply Hz. nums. lia.
    + replace ((off <=? p) && (p <? off + n)) with true by btrue.
      reflexivity.
Qed.

Lemma write_past_end_leaves_zeros_witness :
  let buf := [Byte.x68; Byte.x65; Byte.x79] in
  let st2 := Scenario.file_open 0 in
  let st3 := Scenario.state_of (inode_write_at st2 5 buf 3 1000) in
  inode_length st3 5 = Ok (1000 + 3) /\
  inode_read_at st3 5 (1000 + 3) 0 = Ok (1000 + 3, zeros 1000 ++ buf).
Proof.
  intros buf st2 st3.
  apply (write_past_end_leaves_zeros Scenario.six_used 5
           (Scenario.file_created 0) st2 buf 3 1000 st3).
  - exact six_used_ok.
  - split; [vm_compute; split; congruence | reflexivity].
  - reflexivity.
  - vm_compute. reflexivity.
  - vm_compute. reflexivity.
  - lia.
  - lia.
  - reflexivity.
  - nums. lia.
  - vm_compute. reflexivity.
Defined.
Lemma update_inode_fix l p f i :
  find_inode l p = Some i -> f i = i -> update_inode l p f = l.
Proof.
  unfold find_inode. induction l as [|a l IH]; [reflexivity|].
  cbn [find update_inode]. destruct (i_sector a =? p).
  - intros H. injection H as <-. intros ->. reflexivity.
  - intros H Hf. rewrite IH by assumption. reflexivity.
Qed.

Lemma update_inode_twice l p f g :
  (forall x, i_sector (f x) = i_sector x) ->
  update_inode (update_inode l p f) p g = update_inode l p (fun x => g (f x)).
Proof.
  intros Hf. induction l as [|a l IH]; [reflexivity|].
  cbn [update_inode]. destruct (i_sector a =? p) eqn:E.
  - cbn [update_inode]. rewrite Hf, E. reflexivity.
  - cbn [update_inode]. rewrite E, IH. reflexivity.
Qed.

Lemma sint32_succ_pred d : - 2 ^ 31 <= d < 2 ^ 31 -> sint32 (sint32 (d + 1) + -1) = d.
Proof.
  intros Hd. destruct (Z.eq_dec d (2 ^ 31 - 1)) as [->|Hn].
  - vm_compute. reflexivity.
  - rewrite (sint32_signed (d + 1)) by lia.
    replace (d + 1 + -1) with d by lia. apply sint32_signed. lia.
Qed.

Lemma sint32_succ_nonzero d : 0 <= d < 2 ^ 31 -> sint32 (d + 1) <> 0.
Proof.
  intros Hd. destruct (Z.eq_dec d (2 ^ 31 - 1)) as [->|Hn].
  - vm_compute. discriminate.
  - rewrite sint32_signed by lia. lia.
Qed.

Lemma set_open_inodes_same st l :
  l = open_inodes st -> set_open_inodes (set_open_inodes st l) l = st.
Proof. intros ->. destruct st. reflexivity. Qed.

(** While writes are denied every [inode_write_at] returns 0 and leaves the
    state as it is, and [inode_allow_write] undoes [inode_deny_write]
    exactly. *)
Theorem deny_write_blocks_writes_until_allowed st s ino st1 :
  deref st s = Ok ino ->
  0 <= deny_write_cnt ino < 2 ^ 31 ->
  inode_deny_write st s = Ok st1 ->
  (forall buf n off, inode_write_at st1 s buf n off = Ok (st1, 0)) /\
  sectors st1 = sectors st /\ free_map st1 = free_map st /\
  inode_allow_write st1 s = Ok st.
Proof.
  intros Hd Hrange H. unfold inode_deny_write in H. rewrite Hd in H.
  cbn [rbind] in H. apply rbind_ok in H. destruct H as [u [Ha H]].
  apply assert_ok in Ha. apply Ok_inj in H. subst st1.
  assert (E : find_inode (open_inodes st) s = Some ino).
  { unfold deref in Hd. destruct (find_inode (open_inodes st) s);
      [apply Ok_inj in Hd; subst; reflexivity | discriminate]. }
  set (st1 := set_open_inodes st
                (update_inode (open_inodes st) s (add_deny_write_cnt 1))).
  assert (Hd1 : deref st1 s = Ok (add_deny_write_cnt 1 ino)).
  { unfold deref, st1. simpl_st.
    rewrite (find_update_inode _ _ _ ino); [reflexivity | reflexivity | exact E]. }
  split.
  { intros buf n off. unfold inode_write_at. rewrite Hd1. cbn [rbind].
    cbn [add_deny_write_cnt deny_write_cnt].
    replace (sint32 (deny_write_cnt ino + 1) =? 0) with false; [reflexivity|].
    symmetry. apply Z.eqb_neq. apply sint32_succ_nonzero. exact Hrange. }
  split; [reflexivity|]. split; [reflexivity|].
  unfold inode_allow_write. rewrite Hd1. cbn [rbind].
  cbn [add_deny_write_cnt deny_write_cnt open_cnt].
  rewrite Ha. cbn [assert rbind].
  rewrite sint32_succ_pred by lia.
  replace (0 <=? deny_write_cnt ino) with true
    by (symmetry; apply Z.leb_le; lia).
  cbn [assert rbind]. f_equal.
  unfold st1. simpl_st. rewrite update_inode_twice by reflexivity.
  rewrite (update_inode_fix _ _
             (fun x => add_deny_write_cnt (-1) (add_deny_write_cnt 1 x)) ino E).
  - destruct st. reflexivity.
  - destruct ino as [a b c d]. unfold add_deny_write_cnt.
    cbn [i_sector open_cnt removed deny_write_cnt] in *.
    rewrite sint32_succ_pred by lia. reflexivity.
Qed.

Lemma deny_write_blocks_writes_until_allowed_witness :
  let st := Scenario.file_open 100 in
  let st1 := Scenario.final (inode_deny_write st 5) in
  inode_write_at st1 5 [Byte.x68; Byte.x65] 2 0 = Ok (st1, 0) /\
  inode_allow_write st1 5 = Ok st.
Proof.
  intros st st1.
  destruct (deny_write_blocks_writes_until_allowed st 5 (mkInode 5 1 false 0) st1)
    as [H1 [_ [_ H2]]].
  - vm_compute. reflexivity.
  - cbn. lia.
  - vm_compute. reflexivity.
  - split; [apply H1 | exact H2].
Defined.

(** [inode_open] followed by [inode_close] of the inode it returned leaves
    the table of open inodes, the disk and the free map as they were,
    whether the inode was open before or not. *)
Theorem open_then_close_restores st s st1 :
  (forall i, find_inode (open_inodes st) s = Some i ->
             0 < open_cnt i < 2 ^ 31 - 1) ->
  inode_open st s = Ok (st1, Some s) ->
  exists st2,
    inode_close st1 (Some s) = Ok st2 /\
    open_inodes st2 = open_inodes st /\
    sectors st2 = sectors st /\ free_map st2 = free_map st /\
    disk_size st2 = disk_size st.
Proof.
  intros Hcnt H. unfold inode_open in H.
  destruct (find_inode (open_inodes st) s) as [i|] eqn:E.
  - specialize (Hcnt i eq_refl).
    unfold inode_reopen, deref in H. rewrite E in H. cbn [rbind] in H.
    apply Ok_inj in H. apply pair_inj in H. destruct H as [<- _].
    unfold inode_close, deref. simpl_st.
    rewrite (find_update_inode _ _ _ i); [ | reflexivity | exact E].
    cbn [rbind]. cbn [add_open_cnt open_cnt].
    rewrite (sint32_signed (open_cnt i + 1)) by lia.
    replace (open_cnt i + 1 + -1) with (open_cnt i) by lia.
    rewrite (sint32_signed (open_cnt i)) by lia.
    replace (open_cnt i =? 0) with false by (symmetry; apply Z.eqb_neq; lia).
    eexists. split; [reflexivity|]. simpl_st.
    split; [|repeat split].
    rewrite update_inode_twice by reflexivity.
    apply (update_inode_fix _ _ _ i E).
    destruct i as [a b c d]. unfold add_open_cnt.
    cbn [i_sector open_cnt removed deny_write_cnt] in *.
    rewrite (sint32_signed (b + 1)) by lia.
    replace (b + 1 + -1) with b by lia.
    rewrite sint32_signed by lia. reflexivity.
  - unfold malloc in H. destruct (heap st) as [|[|] h];
      apply Ok_inj in H; apply pair_inj in H; destruct H as [H1 H2];
      try discriminate; subst st1;
      unfold inode_close, deref, find_inode; simpl_st;
      cbn [find i_sector]; rewrite Z.eqb_refl; cbn [rbind open_cnt removed];
      change (sint32 (1 + -1) =? 0) with true; cbv iota;
      (eexists; split; [reflexivity|]); simpl_st;
      cbn [update_inode remove_inode i_sector add_open_cnt];
      rewrite Z.eqb_refl; cbn [remove_inode i_sector]; rewrite Z.eqb_refl;
      repeat split.
Qed.

Lemma open_then_close_restores_witness :
  let st := Scenario.file_open 100 in
  let st1 := Scenario.state_of (inode_open st 5) in
  exists st2,
    inode_close st1 (Some 5) = Ok st2 /\
    open_inodes st2 = open_inodes st /\
    sectors st2 = sectors st /\ free_map st2 = free_map st /\
    disk_size st2 = disk_size st.
Proof.
  intros st st1. apply (open_then_close_restores st 5 st1).
  - intros i Hi. vm_compute in Hi. injection Hi as <-. cbn. lia.
  - vm_compute. reflexivity.
Defined.

(** [inode_counter_add] returns the counter plus [x], wrapped to 32 bits,
    [inode_counter_get] then returns the same value, and the length and the
    content of the file are as before. *)
Theorem counter_add_keeps_the_file st s ino x :
  fs_ok st -> inode_wf st s -> deref st s = Ok ino ->
  0 <= header_length (sectors st s) < MAX_LENGTH ->
  exists st',
    inode_counter_add st s x =
      Ok (st', sint32 (header_counter (sectors st s) + x)) /\
    inode_counter_get st' s = Ok (sint32 (header_counter (sectors st s) + x)) /\
    inode_length st' s = inode_length st s /\
    forall size off, 0 <= size -> 0 <= off < MAX_LENGTH ->
      inode_read_at st' s size off = inode_read_at st s size off.
Proof.
  intros Hok Hwf Hd HL.
  unfold inode_counter_add. rewrite Hd. cbn [rbind].
  rewrite (deref_sector _ _ _ Hd).
  rewrite fs_cache_get_valid by (try assumption; apply Hwf).
  change (negb (Z.land CACHE_WRITE CACHE_NOLOAD =? 0)) with false.
  cbv iota. cbn [rbind]. rewrite fs_cache_release_write.
  pose proof (ok_sectors _ Hok s) as Hlen.
  change (Z.to_nat BLOCK_SECTOR_SIZE) with 512%nat in Hlen.
  set (c := sint32 (header_counter (sectors st s) + x)).
  set (data' := set_header_counter (sectors st s) c).
  destruct (header_update st s data' Hok Hwf) as [Hok1 [Hwf1 Hfs]].
  { apply length_set_header_counter. exact Hlen. }
  { intros a Ha Ha2. unfold data'. nums.
    apply load_set_header_counter; simpl; first [lia | exact Hlen]. }
  set (st' := set_sectors st (fun x0 => if x0 =? s then data' else sectors st x0))
    in *.
  assert (Hs : sectors st' s = data')
    by (unfold st'; simpl_st; rewrite Z.eqb_refl; reflexivity).
  assert (Hd' : deref st' s = Ok ino) by exact Hd.
  assert (Hl' : header_length (sectors st' s) = header_length (sectors st s)).
  { rewrite Hs. unfold header_length, data'. f_equal. nums.
    apply load_set_header_counter; simpl; first [lia | exact Hlen]. }
  exists st'. split; [reflexivity|].
  split.
  { unfold inode_counter_get. rewrite Hd'. cbn [rbind].
    rewrite (deref_sector _ _ _ Hd).
    rewrite fs_cache_get_valid by (try assumption; apply Hwf1).
    change (negb (Z.land 0 CACHE_NOLOAD =? 0)) with false. cbv iota.
    rewrite Hs. unfold data'. cbn [rbind]. rewrite header_counter_set.
    - reflexivity.
    - exact Hlen.
    - apply sint32_range. }
  split.
  { rewrite (inode_length_eq st' s ino), (inode_length_eq st s ino)
      by assumption. rewrite Hl'. reflexivity. }
  intros size off Hsz Hoff.
  rewrite (inode_read_at_clip st' s ino), (inode_read_at_clip st s ino)
    by (try assumption; rewrite ?Hl'; lia).
  rewrite Hl'. cbv zeta. f_equal. f_equal.
  apply fbytes_ext. intros p Hp. unfold fbyte. rewrite Hfs; [reflexivity|].
  nums. split; [apply Z.div_pos; lia | apply Z.div_lt_upper_bound; lia].
Qed.

Lemma counter_add_keeps_the_file_witness :
  let st := Scenario.file_open 100 in
  exists st',
    inode_counter_add st 5 3 =
      Ok (st', sint32 (header_counter (sectors st 5) + 3)) /\
    inode_counter_get st' 5 = Ok (sint32 (header_counter (sectors st 5) + 3)) /\
    inode_length st' 5 = inode_length st 5 /\
    forall size off, 0 <= size -> 0 <= off < MAX_LENGTH ->
      inode_read_at st' 5 size off = inode_read_at st 5 size off.
Proof.
  intros st.
  destruct (file_open_wf 100) as [Hok [Hwf [[i Hi] [Hl _]]]]; [lia|].
  apply (counter_add_keeps_the_file st 5 i 3); try assumption.
  unfold st. rewrite Hl. nums. lia.
Defined.

(** ** A write that needs an indirect sector when no sector is free *)




(** ** The sectors that a write touches *)


(** ** More of lib/kernel/bitmap.c and filesys/free-map.c *)

Lemma bitmap_wf_idx b y :
  bitmap_wf b -> 0 <= y < bit_cnt b ->
  elem_idx y < Z.of_nat (length (bits b)).
Proof.
  intros [Hc Hl] Hy.
  pose proof (elem_cnt_bound (bit_cnt b) (proj1 Hc)) as Hb.
  unfold ELEM_BITS in Hb. unfold elem_idx, ELEM_BITS.
  assert (y / 32 < elem_cnt (bit_cnt b))
    by (apply Z.div_lt_upper_bound; lia).
  lia.
Qed.

Lemma bitmap_set_total b x v :
  bitmap_wf b -> 0 <= x < bit_cnt b ->
  exists b', bitmap_set b x v = Ok b' /\
    bit_cnt b' = bit_cnt b /\ length (bits b') = length (bits b) /\
    bitval b' x = v /\
    (forall y, 0 <= y -> y <> x -> bitval b' y = bitval b y).
Proof.
  intros Hwf Hx. pose proof (bitmap_wf_idx b x Hwf Hx) as Hi.
  unfold bitmap_set.
  replace (x <? bit_cnt b) with true by (symmetry; apply Z.ltb_lt; lia).
  cbn [assert rbind]. destruct v.
  - destruct (VmFacts.bitmap_mark_total b x) as [b' Hb]; [lia | exact Hi |].
    exists b'. split; [exact Hb|].
    destruct (bitmap_mark_spec _ _ _ Hb) as [H1 [H2 [_ [H3 H4]]]]; [lia|].
    repeat split; assumption.
  - destruct (VmMore.bitmap_reset_total b x) as [b' Hb]; [lia | exact Hi |].
    exists b'. split; [exact Hb|].
    destruct (bitmap_reset_spec _ _ _ Hb) as [H1 [H2 [H3 H4]]]; [lia|].
    repeat split; assumption.
Qed.

Lemma bitmap_wf_same b b' :
  bitmap_wf b -> bit_cnt b' = bit_cnt b ->
  length (bits b') = length (bits b) -> bitmap_wf b'.
Proof. intros [H1 H2] Hc Hl. unfold bitmap_wf. rewrite Hc, Hl. tauto. Qed.

Lemma bitmap_set_loop_spec v start n : forall b i,
  bitmap_wf b -> 0 <= start + i ->
  start + i + Z.of_nat n <= bit_cnt b ->
  exists b', bitmap_set_loop n b start i v = Ok b' /\
    bit_cnt b' = bit_cnt b /\ length (bits b') = length (bits b) /\
    (forall y, 0 <= y ->
       bitval b' y =
       if (start + i <=? y) && (y <? start + i + Z.of_nat n) then v
       else bitval b y).
Proof.
  induction n as [|n IH]; intros b i Hwf Hi Hn.
  - exists b. cbn [bitmap_set_loop]. repeat split.
    intros y Hy.
    replace ((start + i <=? y) && (y <? start + i + Z.of_nat 0)) with false;
      [reflexivity|].
    symmetry. destruct (Z.leb_spec (start + i) y); [|reflexivity].
    apply Z.ltb_ge. lia.
  - cbn [bitmap_set_loop].
    destruct (bitmap_set_total b (start + i) v Hwf) as [b1 [E [Hc [Hl [Hx Ho]]]]];
      [lia|].
    rewrite E. cbn [rbind].
    destruct (IH b1 (i + 1)) as [b2 [E2 [Hc2 [Hl2 Hv2]]]].
    + exact (bitmap_wf_same _ _ Hwf Hc Hl).
    + lia.
    + rewrite Hc. lia.
    + exists b2. split; [exact E2|]. split; [congruence|]. split; [congruence|].
      intros y Hy. rewrite (Hv2 y Hy).
      destruct (Z.eq_dec y (start + i)) as [->|Hne].
      * replace ((start + (i + 1) <=? start + i) &&
                 (start + i <? start + (i + 1) + Z.of_nat n)) with false
          by (symmetry; apply andb_false_iff; left; apply Z.leb_gt; lia).
        replace ((start + i <=? start + i) &&
                 (start + i <? start + i + Z.of_nat (S n))) with true
          by (symmetry; apply andb_true_iff; split;
              [apply Z.leb_le | apply Z.ltb_lt]; lia).
        exact Hx.
      * rewrite (Ho y Hy Hne).
        destruct (Z.leb_spec (start + (i + 1)) y);
          destruct (Z.ltb_spec y (start + (i + 1) + Z.of_nat n));
          destruct (Z.leb_spec (start + i) y);
          destruct (Z.ltb_spec y (start + i + Z.of_nat (S n)));
          cbn [andb]; try reflexivity; lia.
Qed.

Lemma bitmap_set_multiple_spec b start cnt v :
  bitmap_wf b -> 0 <= start -> 0 <= cnt -> start + cnt <= bit_cnt b ->
  exists b', bitmap_set_multiple b start cnt v = Ok b' /\
    bit_cnt b' = bit_cnt b /\ length (bits b') = length (bits b) /\
    (forall y, 0 <= y ->
       bitval b' y =
       if (start <=? y) && (y <? start + cnt) then v else bitval b y).
Proof.
  intros Hwf Hs Hc Hle. unfold bitmap_set_multiple.
  pose proof Hwf as [Hbc _].
  replace (start <=? bit_cnt b) with true by (symmetry; apply Z.leb_le; lia).
  rewrite u32_small by lia.
  replace (start + cnt <=? bit_cnt b) with true
    by (symmetry; apply Z.leb_le; lia).
  cbn [assert rbind].
  destruct (bitmap_set_loop_spec v start (Z.to_nat cnt) b 0 Hwf)
    as [b' [E [H1 [H2 H3]]]]; [lia | lia |].
  exists b'. split; [exact E|]. split; [exact H1|]. split; [exact H2|].
  intros y Hy. rewrite (H3 y Hy).
  rewrite Z.add_0_r, Z2Nat.id by lia. reflexivity.
Qed.

(** [bitmap_set_multiple] on a range inside the bitmap succeeds, and
    [bitmap_test] then finds exactly the bits of the range at the new
    value and every other bit as it was. *)
Theorem set_multiple_then_test b start cnt v :
  bitmap_wf b -> 0 <= start -> 0 <= cnt -> start + cnt <= bit_cnt b ->
  exists b',
    bitmap_set_multiple b start cnt v = Ok b' /\
    bitmap_size b' = bitmap_size b /\
    forall y, 0 <= y < bit_cnt b ->
      bitmap_test b y = Ok (bitval b y) /\
      bitmap_test b' y =
        Ok (if (start <=? y) && (y <? start + cnt) then v else bitval b y).
Proof.
  intros Hwf Hs Hc Hle.
  destruct (bitmap_set_multiple_spec b start cnt v Hwf Hs Hc Hle)
    as [b' [E [H1 [H2 H3]]]].
  exists b'. split; [exact E|]. split; [exact H1|].
  intros y Hy. split.
  - apply bitmap_test_total; [lia | apply bitmap_wf_idx; assumption].
  - rewrite <- H3 by lia. apply bitmap_test_total; [lia|].
    apply bitmap_wf_idx; [exact (bitmap_wf_same _ _ Hwf H1 H2) | lia].
Qed.

Lemma set_multiple_then_test_witness :
  let b := mkBitmap 40 [5; 0] in
  exists b',
    bitmap_set_multiple b 30 4 true = Ok b' /\
    bitmap_size b' = bitmap_size b /\
    forall y, 0 <= y < bit_cnt b ->
      bitmap_test b y = Ok (bitval b y) /\
      bitmap_test b' y =
        Ok (if (30 <=? y) && (y <? 30 + 4) then true else bitval b y).
Proof.
  intros b. apply (set_multiple_then_test b 30 4 true).
  - split; [cbn; lia | vm_compute; discriminate].
  - lia.
  - lia.
  - cbn. lia.
Defined.

Lemma bitmap_contains_loop_spec b v start n : forall i,
  bitmap_wf b -> 0 <= start + i ->
  start + i + Z.of_nat n <= bit_cnt b ->
  exists r, bitmap_contains_loop n b start i v = Ok r /\
    (r = true <->
     exists y, start + i <= y < start + i + Z.of_nat n /\ bitval b y = v).
Proof.
  induction n as [|n IH]; intros i Hwf Hi Hn.
  - exists false. split; [reflexivity|]. split; [discriminate|].
    intros [y [Hy _]]. lia.
  - cbn [bitmap_contains_loop].
    rewrite bitmap_test_total by (try apply bitmap_wf_idx; try assumption; lia).
    cbn [rbind].
    destruct (Bool.eqb (bitval b (start + i)) v) eqn:E.
    + exists true. split; [reflexivity|]. split; [|reflexivity].
      intros _. exists (start + i). split; [lia|].
      apply eqb_prop. exact E.
    + destruct (IH (i + 1) Hwf) as [r [Er Hr]]; [lia | lia |].
      exists r. split; [exact Er|].
      rewrite Hr. split.
      * intros [y [Hy Hv]]. exists y. split; [lia | exact Hv].
      * intros [y [Hy Hv]]. exists y. split; [|exact Hv].
        destruct (Z.eq_dec y (start + i)) as [->|Hne]; [|lia].
        rewrite Hv in E. rewrite eqb_reflx in E. discriminate.
Qed.

Lemma bitmap_contains_spec b start cnt v :
  bitmap_wf b -> 0 <= start -> 0 <= cnt -> start + cnt <= bit_cnt b ->
  exists r, bitmap_contains b start cnt v = Ok r /\
    (r = true <-> exists y, start <= y < start + cnt /\ bitval b y = v).
Proof.
  intros Hwf Hs Hc Hle. unfold bitmap_contains.
  pose proof Hwf as [Hbc _].
  replace (start <=? bit_cnt b) with true by (symmetry; apply Z.leb_le; lia).
  rewrite u32_small by lia.
  replace (start + cnt <=? bit_cnt b) with true
    by (symmetry; apply Z.leb_le; lia).
  cbn [assert rbind].
  destruct (bitmap_contains_loop_spec b v start (Z.to_nat cnt) 0 Hwf)
    as [r [E Hr]]; [lia | lia |].
  exists r. split; [exact E|].
  rewrite Z.add_0_r, Z2Nat.id in Hr by lia. exact Hr.
Qed.

(** A window of [cnt] bits from [k] on that holds a bit other than [v]. *)
Lemma not_contains_all b k cnt v :
  ~ (exists y, k <= y < k + cnt /\ bitval b y = negb v) ->
  forall y, k <= y < k + cnt -> bitval b y = v.
Proof.
  intros H y Hy. destruct (bitval b y) eqn:E, v; try reflexivity;
    exfalso; apply H; exists y; (split; [lia | exact E]).
Qed.

Lemma bitmap_scan_loop_spec b cnt v n : forall i,
  bitmap_wf b -> 0 <= i -> 0 <= cnt ->
  i + Z.of_nat n + cnt <= bit_cnt b + 1 ->
  exists r, bitmap_scan_loop n b i cnt v = Ok r /\
    ((r = BITMAP_ERROR /\
      forall k, i <= k < i + Z.of_nat n ->
        exists y, k <= y < k + cnt /\ bitval b y = negb v) \/
     (i <= r < i + Z.of_nat n /\
      (forall y, r <= y < r + cnt -> bitval b y = v) /\
      forall k, i <= k < r ->
        exists y, k <= y < k + cnt /\ bitval b y = negb v)).
Proof.
  induction n as [|n IH]; intros i Hwf Hi Hc Hn.
  - exists BITMAP_ERROR. split; [reflexivity|]. left.
    split; [reflexivity|]. intros k Hk. lia.
  - cbn [bitmap_scan_loop].
    destruct (bitmap_contains_spec b i cnt (negb v) Hwf) as [r [E Hr]];
      [lia | lia | lia |].
    rewrite E. cbn [rbind]. destruct r; cbn [negb].
    + destruct (IH (i + 1) Hwf) as [r [Er Hs]]; [lia | lia | lia |].
      exists r. split; [exact Er|].
      assert (Hcur : exists y, i <= y < i + cnt /\ bitval b y = negb v)
        by (apply Hr; reflexivity).
      destruct Hs as [[-> Hall]|[Hrg [Hfit Hbelow]]].
      * left. split; [reflexivity|]. intros k Hk.
        destruct (Z.eq_dec k i) as [->|Hne]; [exact Hcur|].
        apply Hall. lia.
      * right. split; [lia|]. split; [exact Hfit|]. intros k Hk.
        destruct (Z.eq_dec k i) as [->|Hne]; [exact Hcur|].
        apply Hbelow. lia.
    + exists i. split; [reflexivity|]. right. split; [lia|]. split.
      * apply not_contains_all. intros Hex. apply Hr in Hex. discriminate.
      * intros k Hk. lia.
Qed.

Lemma bitmap_scan_spec b start cnt v :
  bitmap_wf b -> 0 <= start <= bit_cnt b -> 0 <= cnt ->
  exists r, bitmap_scan b start cnt v = Ok r /\
    ((r = BITMAP_ERROR /\
      forall k, start <= k -> k + cnt <= bit_cnt b ->
        exists y, k <= y < k + cnt /\ bitval b y = negb v) \/
     (start <= r /\ r + cnt <= bit_cnt b /\
      (forall y, r <= y < r + cnt -> bitval b y = v) /\
      forall k, start <= k < r ->
        exists y, k <= y < k + cnt /\ bitval b y = negb v)).
Proof.
  intros Hwf Hs Hc. unfold bitmap_scan.
  replace (start <=? bit_cnt b) with true by (symmetry; apply Z.leb_le; lia).
  cbn [assert rbind].
  destruct (Z.leb_spec cnt (bit_cnt b)).
  - destruct (Z_le_gt_dec start (bit_cnt b - cnt + 1)) as [Hle|Hgt].
    2:{ replace (Z.to_nat (bit_cnt b - cnt + 1 - start)) with 0%nat by lia.
        exists BITMAP_ERROR. split; [reflexivity|]. left.
        split; [reflexivity|]. intros k Hk Hk2. lia. }
    destruct (bitmap_scan_loop_spec b cnt v
                (Z.to_nat (bit_cnt b - cnt + 1 - start)) start Hwf)
      as [r [E Hr]]; [lia | lia | lia |].
    exists r. split; [exact E|].
    destruct Hr as [[-> Hall]|[Hrg [Hfit Hbelow]]].
    + left. split; [reflexivity|]. intros k Hk Hk2. apply Hall. lia.
    + right. split; [lia|]. split; [lia|]. split; assumption.
  - exists BITMAP_ERROR. split; [reflexivity|]. left.
    split; [reflexivity|]. intros k Hk Hk2. lia.
Qed.

(** [bitmap_scan] is first fit: it returns the first position at or after
    [start] from which [cnt] bits inside the bitmap all have the value
    [v], and [BITMAP_ERROR] exactly when no position fits. *)
Theorem bitmap_scan_first_fit b start cnt v :
  bitmap_wf b -> 0 <= start <= bit_cnt b -> 0 <= cnt ->
  exists r, bitmap_scan b start cnt v = Ok r /\
    ((r = BITMAP_ERROR /\
      forall k, start <= k -> k + cnt <= bit_cnt b ->
        exists y, k <= y < k + cnt /\ bitval b y = negb v) \/
     (start <= r /\ r + cnt <= bit_cnt b /\
      (forall y, r <= y < r + cnt -> bitval b y = v) /\
      forall k, start <= k < r ->
        exists y, k <= y < k + cnt /\ bitval b y = negb v)).
Proof. exact (bitmap_scan_spec b start cnt v). Qed.

Lemma bitmap_scan_first_fit_witness :
  let b := mkBitmap 40 [5; 0] in
  exists r, bitmap_scan b 0 2 false = Ok r /\
    ((r = BITMAP_ERROR /\
      forall k, 0 <= k -> k + 2 <= bit_cnt b ->
        exists y, k <= y < k + 2 /\ bitval b y = negb false) \/
     (0 <= r /\ r + 2 <= bit_cnt b /\
      (forall y, r <= y < r + 2 -> bitval b y = false) /\
      forall k, 0 <= k < r ->
        exists y, k <= y < k + 2 /\ bitval b y = negb false)).
Proof.
  intros b. apply (bitmap_scan_first_fit b 0 2 false).
  - split; [cbn; lia | vm_compute; discriminate].
  - cbn. lia.
  - lia.
Defined.
Lemma set_free_map_same st : set_free_map st (free_map st) = st.
Proof. destruct st. reflexivity. Qed.

(** [free_map_allocate] is first fit over the free map: the [cnt] sectors
    it returns were all free and are now all in use, no earlier run of
    [cnt] free sectors exists, and no other bit changes; it fails, without
    changing the map, exactly when no run of [cnt] free sectors exists. *)
Theorem free_map_allocate_first_fit st cnt :
  bitmap_wf (free_map st) -> 0 <= cnt ->
  exists st' r,
    free_map_allocate st cnt = Ok (st', r) /\
    sectors st' = sectors st /\
    match r with
    | Some sec =>
        0 <= sec /\ sec + cnt <= bit_cnt (free_map st) /\
        (forall y, sec <= y < sec + cnt ->
           bitval (free_map st) y = false /\ bitval (free_map st') y = true) /\
        (forall y, 0 <= y -> ~ sec <= y < sec + cnt ->
           bitval (free_map st') y = bitval (free_map st) y) /\
        (forall k, 0 <= k < sec ->
           exists y, k <= y < k + cnt /\ bitval (free_map st) y = true)
    | None =>
        st' = st /\
        forall k, 0 <= k -> k + cnt <= bit_cnt (free_map st) ->
          exists y, k <= y < k + cnt /\ bitval (free_map st) y = true
    end.
Proof.
  intros Hwf Hc. pose proof Hwf as [Hbc _].
  unfold free_map_allocate, bitmap_scan_and_flip.
  destruct (bitmap_scan_spec (free_map st) 0 cnt false Hwf) as [r [E Hr]];
    [lia | lia |].
  rewrite E. cbn [rbind].
  destruct Hr as [[-> Hall]|[Hr0 [Hr1 [Hfit Hbelow]]]].
  - change (negb (BITMAP_ERROR =? BITMAP_ERROR)) with false. cbv iota.
    cbn [rbind]. change (negb (BITMAP_ERROR =? BITMAP_ERROR)) with false.
    cbv iota. exists (set_free_map st (free_map st)), None.
    split; [reflexivity|]. split; [reflexivity|].
    split; [apply set_free_map_same|]. exact Hall.
  - assert (Hne : negb (r =? BITMAP_ERROR) = true).
    { apply negb_true_iff, Z.eqb_neq. unfold BITMAP_ERROR. lia. }
    rewrite Hne.
    destruct (bitmap_set_multiple_spec (free_map st) r cnt (negb false) Hwf)
      as [b' [Es [H1 [H2 H3]]]]; [lia | lia | lia |].
    rewrite Es. cbn [rbind]. rewrite Hne.
    exists (set_free_map st b'), (Some r).
    split; [reflexivity|]. split; [reflexivity|].
    simpl_st. split; [lia|]. split; [lia|].
    split; [|split].
    + intros y Hy. split; [apply Hfit; exact Hy|].
      rewrite H3 by lia.
      replace ((r <=? y) && (y <? r + cnt)) with true; [reflexivity|].
      symmetry. apply andb_true_iff.
      split; [apply Z.leb_le | apply Z.ltb_lt]; lia.
    + intros y Hy Hout. rewrite H3 by lia.
      replace ((r <=? y) && (y <? r + cnt)) with false; [reflexivity|].
      symmetry. apply andb_false_iff.
      destruct (Z.leb_spec r y); [right; apply Z.ltb_ge; lia | left; reflexivity].
    + exact Hbelow.
Qed.

Lemma free_map_allocate_first_fit_witness :
  exists st' r,
    free_map_allocate Scenario.six_used 3 = Ok (st', r) /\
    sectors st' = sectors Scenario.six_used.
Proof.
  destruct (free_map_allocate_first_fit Scenario.six_used 3)
    as [st' [r [H1 [H2 _]]]].
  - split; [cbn; lia | vm_compute; discriminate].
  - lia.
  - exists st', r. split; [exact H1 | exact H2].
Defined.

Lemma bitmap_lowest_loop_total v n : forall b i,
  0 <= i -> i + Z.of_nat n <= Z.of_nat (length (bits b)) ->
  exists r, bitmap_lowest_loop n b i v = Ok r.
Proof.
  induction n as [|n IH]; intros b i Hi Hn.
  - exists BITMAP_ERROR. reflexivity.
  - rewrite bitmap_lowest_loop_S.
    rewrite (cell_get_total _ _ 0) by lia. cbn [rbind].
    destruct (negb _).
    + destruct (lowest_in_elem _ _ _ _) as [j|].
      * eexists. reflexivity.
      * apply IH; lia.
    + apply IH; lia.
Qed.

(** When a sector inside the free map is free, [free_map_get] succeeds with
    the lowest free sector, marks that sector and no other, and
    [free_map_release] of the sector then puts every bit back. *)
Theorem free_map_get_then_release st x :
  bitmap_wf (free_map st) ->
  0 <= x < bit_cnt (free_map st) -> bitval (free_map st) x = false ->
  exists st1 sec st2,
    free_map_get st = Ok (st1, Some sec) /\
    0 <= sec <= x /\
    bitval (free_map st) sec = false /\
    (forall y, 0 <= y < sec -> bitval (free_map st) y = true) /\
    bitval (free_map st1) sec = true /\
    (forall y, 0 <= y -> y <> sec ->
       bitval (free_map st1) y = bitval (free_map st) y) /\
    free_map_release st1 sec 1 = Ok st2 /\
    sectors st2 = sectors st /\
    forall y, 0 <= y -> bitval (free_map st2) y = bitval (free_map st) y.
Proof.
  intros Hwf Hx Hfree. pose proof Hwf as [Hbc Hlen].
  assert (Hec0 : 0 <= elem_cnt (bit_cnt (free_map st))).
  { unfold elem_cnt, DIV_ROUND_UP, ELEM_BITS. apply Z.div_pos; lia. }
  destruct (bitmap_lowest_loop_total false
              (Z.to_nat (elem_cnt (bit_cnt (free_map st)))) (free_map st) 0)
    as [r Er]; [lia | lia |].
  destruct (free_map_get st) as [[st1 o]|f] eqn:Eg.
  2:{ exfalso. unfold free_map_get, bitmap_lowest, bitmap_size in Eg.
      rewrite Er in Eg. cbn [rbind] in Eg.
      destruct (negb (r =? BITMAP_ERROR)) eqn:En; [|discriminate].
      pose proof Er as Er2.
      apply bitmap_lowest_loop_spec in Er2;
        try (rewrite ?Z2Nat.id by lia; unfold BITMAP_ERROR;
             pose proof (elem_cnt_bound _ (proj1 Hbc)); unfold ELEM_BITS in *;
             lia).
      rewrite Z2Nat.id in Er2 by lia.
      destruct Er2 as [[-> _]|[Hrg [Hl _]]]; [discriminate|].
      destruct (VmFacts.bitmap_mark_total (free_map st) r) as [b' Eb];
        [lia | | rewrite Eb in Eg; discriminate].
      unfold elem_idx. unfold ELEM_BITS in *.
      apply Z.div_lt_upper_bound; lia. }
  pose proof (free_map_get_spec st st1 o Hbc Eg) as Hspec.
  destruct o as [sec|].
  2:{ exfalso. subst st1.
      unfold free_map_get, bitmap_lowest, bitmap_size in Eg.
      rewrite Er in Eg. cbn [rbind] in Eg.
      destruct (negb (r =? BITMAP_ERROR)) eqn:En.
      - destruct (bitmap_mark (free_map st) r); discriminate.
      - apply negb_false_iff, Z.eqb_eq in En. subst r.
        apply bitmap_lowest_loop_spec in Er;
          try (rewrite ?Z2Nat.id by lia; unfold BITMAP_ERROR;
               pose proof (elem_cnt_bound _ (proj1 Hbc)); unfold ELEM_BITS in *;
               lia).
        rewrite Z2Nat.id in Er by lia.
        pose proof (elem_cnt_bound _ (proj1 Hbc)) as Hb.
        destruct Er as [[_ Hall]|[Hrg _]].
        + rewrite Hall in Hfree by lia. discriminate.
        + unfold BITMAP_ERROR, ELEM_BITS in *. lia. }
  destruct Hspec as [b' [-> [Hc' [Hl' [Hrg [Hv0 [Hv1 [Hoth Hlow]]]]]]]].
  assert (Hsx : sec <= x).
  { destruct (Z_le_gt_dec sec x) as [H|H]; [exact H|].
    rewrite Hlow in Hfree by lia. discriminate. }
  destruct (free_map_release_one (set_free_map st b') sec)
    as [b2 [Erel [_ [_ [Hz Hoth2]]]]]; simpl_st.
  - lia.
  - lia.
  - rewrite Hl'. apply bitmap_wf_idx; [exact Hwf | lia].
  - exact Hv1.
  - exists (set_free_map st b'), sec, (set_free_map (set_free_map st b') b2).
    simpl_st.
    split; [reflexivity|]. split; [lia|]. split; [exact Hv0|].
    split; [exact Hlow|]. split; [exact Hv1|]. split; [exact Hoth|].
    split; [exact Erel|]. split; [reflexivity|].
    intros y Hy. destruct (Z.eq_dec y sec) as [->|Hne].
    + rewrite Hz, Hv0. reflexivity.
    + rewrite Hoth2, Hoth by assumption. reflexivity.
Qed.

Lemma free_map_get_then_release_witness :
  exists st1 sec st2,
    free_map_get Scenario.six_used = Ok (st1, Some sec) /\
    0 <= sec <= 10 /\
    free_map_release st1 sec 1 = Ok st2 /\
    sectors st2 = sectors Scenario.six_used.
Proof.
  destruct (free_map_get_then_release Scenario.six_used 10)
    as [st1 [sec [st2 [H1 [H2 [_ [_ [_ [_ [H3 [H4 _]]]]]]]]]]].
  - split; [cbn; lia | vm_compute; discriminate].
  - cbn. lia.
  - vm_compute. reflexivity.
  - exists st1, sec, st2. repeat (split; [assumption|]). exact H4.
Defined.
(** [free_map_create] on a device large enough to hold its own free map
    marks the root directory sector and the sectors of the free map, and
    leaves every other sector of the device free, whatever the buffer held
    before. *)
Theorem free_map_create_marks_reserved_sectors st block :
  0 <= disk_size st <= MAX_DISK_SIZE / BLOCK_SECTOR_SIZE ->
  elem_cnt (disk_size st) <= Z.of_nat (length block) ->
  FREE_MAP_START + free_map_sectors st <= disk_size st ->
  exists st',
    free_map_create st block = Ok st' /\
    sectors st' = sectors st /\
    bitmap_size (free_map st') = disk_size st /\
    forall y, 0 <= y < disk_size st ->
      bitval (free_map st') y = (y =? ROOT_DIR_SECTOR) || is_free_map_sec st y.
Proof.
  intros Hd Hlen Hfit.
  change (MAX_DISK_SIZE / BLOCK_SECTOR_SIZE) with 16384 in Hd.
  assert (Hfms : 0 <= free_map_sectors st).
  { unfold free_map_sectors, DIV_ROUND_UP, bitmap_buf_size, elem_cnt,
      DIV_ROUND_UP, fs_disk_size, ELEM_BITS, BLOCK_SECTOR_SIZE.
    apply Z.div_pos; [|lia].
    assert (0 <= (disk_size st + 32 - 1) / 32) by (apply Z.div_pos; lia).
    lia. }
  unfold FREE_MAP_START in Hfit.
  set (b0 := mkBitmap (disk_size st) block).
  assert (Hwf0 : bitmap_wf b0) by (split; [cbn; lia | exact Hlen]).
  unfold free_map_create, bitmap_create_in_buf, bitmap_set_all, bitmap_size,
    fs_disk_size.
  replace (bitmap_buf_size (disk_size st) <=? FREE_MAP_BUF_SIZE) with true.
  2:{ symmetry. apply Z.leb_le.
      change FREE_MAP_BUF_SIZE with 2560.
      unfold bitmap_buf_size, elem_cnt, DIV_ROUND_UP, ELEM_BITS.
      assert ((disk_size st + 32 - 1) / 32 <= (16384 + 32 - 1) / 32)
        by (apply Z.div_le_mono; lia).
      change ((16384 + 32 - 1) / 32) with 512 in *. lia. }
  cbn [assert rbind]. fold b0.
  destruct (bitmap_set_multiple_spec b0 0 (bit_cnt b0) false Hwf0)
    as [b1 [E1 [Hc1 [Hl1 Hv1]]]];
    [lia | unfold b0; cbn [bit_cnt]; lia | lia |].
  rewrite E1. cbn [rbind].
  pose proof (bitmap_wf_same _ _ Hwf0 Hc1 Hl1) as Hwf1.
  destruct (VmFacts.bitmap_mark_total b1 ROOT_DIR_SECTOR) as [b2 E2].
  { unfold ROOT_DIR_SECTOR. lia. }
  { apply bitmap_wf_idx; [exact Hwf1|]. rewrite Hc1. unfold ROOT_DIR_SECTOR, b0.
    cbn [bit_cnt]. lia. }
  rewrite E2. cbn [rbind].
  destruct (bitmap_mark_spec _ _ _ E2) as [Hc2 [Hl2 [_ [Hv2 Ho2]]]];
    [unfold ROOT_DIR_SECTOR; lia|].
  pose proof (bitmap_wf_same _ _ Hwf1 Hc2 Hl2) as Hwf2.
  fold (fs_disk_size st). fold (free_map_sectors st).
  destruct (bitmap_set_multiple_spec b2 FREE_MAP_START (free_map_sectors st)
              true Hwf2) as [b3 [E3 [Hc3 [Hl3 Hv3]]]].
  { unfold FREE_MAP_START. lia. }
  { exact Hfms. }
  { rewrite Hc2, Hc1. unfold FREE_MAP_START, b0. cbn [bit_cnt]. lia. }
  rewrite E3. cbn [rbind].
  exists (set_free_map st b3). split; [reflexivity|]. split; [reflexivity|].
  simpl_st. split; [rewrite Hc3, Hc2, Hc1; reflexivity|].
  intros y Hy. unfold fs_disk_size in Hy. rewrite Hv3 by lia.
  unfold is_free_map_sec.
  change FREE_MAP_START with 1.
  destruct ((1 <=? y) && (y <? 1 + free_map_sectors st)) eqn:E.
  { rewrite orb_true_r. reflexivity. }
  rewrite orb_false_r. unfold ROOT_DIR_SECTOR in *.
  destruct (Z.eqb_spec y 0) as [->|Hne]; [exact Hv2|].
  rewrite Ho2 by lia. rewrite Hv1 by lia.
  replace ((0 <=? y) && (y <? 0 + bit_cnt b0)) with true; [reflexivity|].
  symmetry. apply andb_true_iff.
  split; [apply Z.leb_le | apply Z.ltb_lt]; unfold b0; cbn [bit_cnt]; lia.
Qed.

Lemma free_map_create_marks_reserved_sectors_witness :
  let st := Scenario.blank 64 in
  exists st',
    free_map_create st [4294967295; 4294967295] = Ok st' /\
    sectors st' = sectors st /\
    bitmap_size (free_map st') = disk_size st /\
    forall y, 0 <= y < disk_size st ->
      bitval (free_map st') y = (y =? ROOT_DIR_SECTOR) || is_free_map_sec st y.
Proof.
  intros st.
  apply (free_map_create_marks_reserved_sectors st [4294967295; 4294967295]).
  - vm_compute. split; discriminate.
  - vm_compute. discriminate.
  - vm_compute. discriminate.
Defined.
(** ** More of filesys/directory.c *)

(** *** The bit fields of a directory entry *)

Lemma load_store_bits b v n :
  length b = 16%nat -> 0 <= n < 16 ->
  Z.testbit (load 2 (store 2 b OFS_BITS v) OFS_BITS) n = Z.testbit v n.
Proof.
  intros Hl Hn. unfold OFS_BITS.
  rewrite load_store_same by (rewrite ?Hl; simpl; lia).
  change (2 ^ (Z.of_nat 2 * 8)) with (2 ^ 16).
  apply Z.mod_pow2_bits_low. lia.
Qed.

Lemma length_set_e_in_use e v : length e = 16%nat -> length (set_e_in_use e v) = 16%nat.
Proof.
  intros Hl. unfold set_e_in_use, OFS_BITS.
  rewrite length_store by (rewrite ?Hl; simpl; lia). exact Hl.
Qed.

Lemma length_set_e_inode_sector e v :
  length e = 16%nat -> length (set_e_inode_sector e v) = 16%nat.
Proof.
  intros Hl. unfold set_e_inode_sector, OFS_BITS.
  rewrite length_store by (rewrite ?Hl; simpl; lia). exact Hl.
Qed.

Lemma length_set_e_is_dir e v : length e = 16%nat -> length (set_e_is_dir e v) = 16%nat.
Proof.
  intros Hl. unfold set_e_is_dir, OFS_BITS.
  rewrite length_store by (rewrite ?Hl; simpl; lia). exact Hl.
Qed.

Lemma e_name_store e v :
  length e = 16%nat -> e_name (store 2 e OFS_BITS v) = e_name e.
Proof.
  intros Hl. unfold e_name, store, OFS_BITS, OFS_NAME, NAME_MAX.
  apply sub_splice_other; rewrite ?Hl, ?length_le_split; simpl; lia.
Qed.

Ltac bit_consts :=
  repeat match goal with
  | |- context [Z.testbit (Zpos ?p) (Zpos ?q)] =>
      let r := eval vm_compute in (Z.testbit (Zpos p) (Zpos q)) in
      change (Z.testbit (Zpos p) (Zpos q)) with r
  | |- context [Z.testbit 0 (Zpos ?q)] =>
      change (Z.testbit 0 (Zpos q)) with false
  end.

Lemma e_in_use_set e v : length e = 16%nat -> e_in_use (set_e_in_use e v) = v.
Proof.
  intros Hl. unfold e_in_use, set_e_in_use.
  rewrite load_store_bits by (try assumption; lia).
  rewrite Z.lor_spec, Z.land_spec. destruct v; bit_consts;
    rewrite ?andb_false_r; reflexivity.
Qed.

Lemma e_is_dir_set e v : length e = 16%nat -> e_is_dir (set_e_is_dir e v) = v.
Proof.
  intros Hl. unfold e_is_dir, set_e_is_dir.
  rewrite load_store_bits by (try assumption; lia).
  rewrite Z.lor_spec, Z.land_spec. destruct v; bit_consts;
    rewrite ?andb_false_r; reflexivity.
Qed.

Lemma e_in_use_set_e_is_dir e v :
  length e = 16%nat -> e_in_use (set_e_is_dir e v) = e_in_use e.
Proof.
  intros Hl. unfold e_in_use, set_e_is_dir.
  rewrite load_store_bits by (try assumption; lia).
  rewrite Z.lor_spec, Z.land_spec. destruct v; bit_consts;
    rewrite ?andb_true_r, ?orb_false_r; reflexivity.
Qed.

Lemma e_in_use_set_e_inode_sector e v :
  length e = 16%nat -> e_in_use (set_e_inode_sector e v) = e_in_use e.
Proof.
  intros Hl. unfold e_in_use, set_e_inode_sector.
  rewrite load_store_bits by (try assumption; lia).
  rewrite Z.lor_spec, !Z.land_spec. bit_consts.
  rewrite ?andb_true_r, ?andb_false_r, ?orb_false_r. reflexivity.
Qed.

Lemma e_is_dir_set_e_in_use e v :
  length e = 16%nat -> e_is_dir (set_e_in_use e v) = e_is_dir e.
Proof.
  intros Hl. unfold e_is_dir, set_e_in_use.
  rewrite load_store_bits by (try assumption; lia).
  rewrite Z.lor_spec, Z.land_spec. destruct v; bit_consts;
    rewrite ?andb_true_r, ?orb_false_r; reflexivity.
Qed.

Lemma low_bits_eq a b :
  (forall n, 0 <= n < 14 -> Z.testbit a n = Z.testbit b n) ->
  Z.land a 16383 = Z.land b 16383.
Proof.
  intros H. apply Z.bits_inj'. intros n Hn. rewrite !Z.land_spec.
  change 16383 with (Z.ones 14).
  destruct (Z_lt_ge_dec n 14) as [Hlt|Hge].
  - rewrite H by lia. reflexivity.
  - rewrite Z.ones_spec_high by lia. rewrite !andb_false_r. reflexivity.
Qed.

Lemma e_inode_sector_set e v :
  length e = 16%nat -> e_inode_sector (set_e_inode_sector e v) = Z.land v 16383.
Proof.
  intros Hl. unfold e_inode_sector, set_e_inode_sector.
  apply low_bits_eq. intros n Hn.
  rewrite load_store_bits by (try assumption; lia).
  rewrite Z.lor_spec, !Z.land_spec.
  change 49152 with (Z.shiftl 3 14). rewrite Z.shiftl_spec_low by lia.
  change 16383 with (Z.ones 14). rewrite Z.ones_spec_low by lia.
  rewrite andb_false_r, andb_true_r. reflexivity.
Qed.

Lemma e_inode_sector_set_e_is_dir e v :
  length e = 16%nat -> e_inode_sector (set_e_is_dir e v) = e_inode_sector e.
Proof.
  intros Hl. unfold e_inode_sector, set_e_is_dir.
  apply low_bits_eq. intros n Hn.
  rewrite load_store_bits by (try assumption; lia).
  rewrite Z.lor_spec, !Z.land_spec.
  change 32767 with (Z.ones 15). rewrite Z.ones_spec_low by lia.
  rewrite andb_true_r.
  destruct v.
  - change 32768 with (2 ^ 15). rewrite Z.pow2_bits_false by lia.
    apply orb_false_r.
  - rewrite Z.bits_0. apply orb_false_r.
Qed.

Lemma e_inode_sector_set_e_in_use e v :
  length e = 16%nat -> e_inode_sector (set_e_in_use e v) = e_inode_sector e.
Proof.
  intros Hl. unfold e_inode_sector, set_e_in_use.
  apply low_bits_eq. intros n Hn.
  rewrite load_store_bits by (try assumption; lia).
  rewrite Z.lor_spec, !Z.land_spec.
  assert (H49151 : Z.testbit 49151 n = true).
  { change 49151 with (Z.lor (Z.ones 14) (2 ^ 15)).
    rewrite Z.lor_spec, Z.ones_spec_low by lia. reflexivity. }
  rewrite H49151, andb_true_r.
  destruct v.
  - change 16384 with (2 ^ 14). rewrite Z.pow2_bits_false by lia.
    apply orb_false_r.
  - rewrite Z.bits_0. apply orb_false_r.
Qed.

(** *** The name of a directory entry *)

Lemma strncmp_eq_terminated n : forall a r,
  strncmp_eq n a (a ++ zero_byte :: r) = true.
Proof.
  induction n as [|n IH]; intros a r; [reflexivity|].
  destruct a as [|c t]; cbn [strncmp_eq hd tl app].
  - reflexivity.
  - rewrite (Byte.byte_dec_lb (eq_refl c)). destruct (Byte.eqb c zero_byte); [reflexivity|].
    apply IH.
Qed.

Lemma strncmp_eq_full n : forall a r,
  (n <= length a)%nat -> strncmp_eq n a (a ++ r) = true.
Proof.
  induction n as [|n IH]; intros a r Hn; [reflexivity|].
  destruct a as [|c t]; [cbn in Hn; lia|].
  cbn [strncmp_eq hd tl app]. rewrite (Byte.byte_dec_lb (eq_refl c)).
  destruct (Byte.eqb c zero_byte); [reflexivity|].
  apply IH. cbn in Hn. lia.
Qed.

Lemma cstr_of_terminated a r :
  (forall c, In c a -> c <> zero_byte) -> cstr_of (a ++ zero_byte :: r) = a.
Proof.
  induction a as [|c t IH]; intros H.
  - reflexivity.
  - cbn [app cstr_of].
    destruct (Byte.eqb c zero_byte) eqn:E.
    + exfalso. apply (H c); [left; reflexivity|].
      apply Byte.byte_dec_bl. exact E.
    + rewrite IH; [reflexivity|]. intros x Hx. apply H. right. exact Hx.
Qed.

Lemma cstr_of_full a :
  (forall c, In c a -> c <> zero_byte) -> cstr_of a = a.
Proof.
  induction a as [|c t IH]; intros H.
  - reflexivity.
  - cbn [cstr_of].
    destruct (Byte.eqb c zero_byte) eqn:E.
    + exfalso. apply (H c); [left; reflexivity|].
      apply Byte.byte_dec_bl. exact E.
    + rewrite IH; [reflexivity|]. intros x Hx. apply H. right. exact Hx.
Qed.

Lemma strncmp_eq_inv n : forall a b r,
  (forall c, In c a -> c <> zero_byte) ->
  (forall c, In c b -> c <> zero_byte) ->
  (length a <= n)%nat -> (length b <= n)%nat ->
  (r = [] /\ length b = n \/ exists r', r = zero_byte :: r') ->
  strncmp_eq n a (b ++ r) = true -> a = b.
Proof.
  induction n as [|n IH]; intros a b r Ha Hb Hla Hlb Hr H.
  - destruct a; [|cbn in Hla; lia]. destruct b; [|cbn in Hlb; lia].
    reflexivity.
  - cbn [strncmp_eq] in H.
    destruct a as [|x ta], b as [|c tb]; cbn [hd tl app] in H.
    + reflexivity.
    + exfalso.
      destruct (Byte.eqb zero_byte c) eqn:E; [|discriminate].
      apply Byte.byte_dec_bl in E. apply (Hb c); [left; reflexivity|].
      symmetry. exact E.
    + exfalso. destruct Hr as [[_ Hl]|[r' ->]]; [cbn in Hl; lia|].
      cbn [hd] in H.
      destruct (Byte.eqb x zero_byte) eqn:E; [|discriminate].
      apply Byte.byte_dec_bl in E. apply (Ha x); [left; reflexivity|].
      exact E.
    + destruct (Byte.eqb x c) eqn:E; [|discriminate].
      apply Byte.byte_dec_bl in E. subst c.
      destruct (Byte.eqb x zero_byte) eqn:E0.
      * exfalso. apply Byte.byte_dec_bl in E0.
        apply (Ha x); [left; reflexivity | exact E0].
      * f_equal. apply (IH ta tb r).
        -- intros y Hy. apply Ha. right. exact Hy.
        -- intros y Hy. apply Hb. right. exact Hy.
        -- cbn in Hla. lia.
        -- cbn in Hlb. lia.
        -- destruct Hr as [[-> Hl]|Hr]; [left | right; exact Hr].
           split; [reflexivity|]. cbn in Hl. lia.
        -- exact H.
Qed.

(** The name field after [dir_entry_set_name]: the name, and a terminator
    after it if there is room. *)
Lemma dir_entry_set_name_spec e name e' :
  length e = 16%nat ->
  dir_entry_set_name e name = Ok e' ->
  length e' = 16%nat /\
  load 2 e' OFS_BITS = load 2 e OFS_BITS /\
  (exists r, e_name e' = name ++ r /\
     (r = [] /\ length name = 14%nat \/ exists r', r = zero_byte :: r')).
Proof.
  intros Hl H. unfold dir_entry_set_name in H.
  apply rbind_ok in H. destruct H as [u [Ha H]]. apply assert_ok in Ha.
  apply Z.leb_le in Ha. unfold NAME_MAX in *. apply Ok_inj in H.
  unfold OFS_NAME, OFS_BITS in *.
  set (e1 := splice e 0 name) in *.
  assert (Hl1 : length e1 = 16%nat)
    by (unfold e1; rewrite length_splice; rewrite ?Hl; lia).
  assert (He1 : e1 = name ++ skipn (length name) e).
  { unfold e1, splice. reflexivity. }
  assert (Hb1 : load 2 e1 14 = load 2 e 14).
  { unfold load, e1. f_equal. apply sub_splice_other; rewrite ?Hl; simpl; lia. }
  clearbody e1.
  destruct (Z.ltb_spec (Z.of_nat (length name)) 14) as [Hlt|Hge].
  - subst e'. split.
    { rewrite length_splice; rewrite ?Hl1; simpl; lia. }
    split.
    { rewrite <- Hb1. unfold load. f_equal.
      apply sub_splice_other; rewrite ?Hl1; simpl; lia. }
    assert (Hsk : (length name < length e)%nat) by lia.
    unfold e_name, OFS_NAME, NAME_MAX, sub, splice. cbn [skipn Z.to_nat].
    rewrite Z.add_0_l, Nat2Z.id.
    assert (Hf : firstn (length name) e1 = name).
    { rewrite He1, firstn_app, firstn_all, Nat.sub_diag. cbn [firstn].
      apply app_nil_r. }
    change (Pos.to_nat 14) with 14%nat.
    eexists. split.
    { rewrite Hf, firstn_app, firstn_all2 by lia. reflexivity. }
    right.
    destruct (14 - length name)%nat as [|m] eqn:Em; [lia|].
    cbn [app firstn]. eexists. reflexivity.
  - subst e'. split; [exact Hl1|]. split; [exact Hb1|].
    assert (Hn : length name = 14%nat) by lia.
    exists []. split; [|left; split; [reflexivity | exact Hn]].
    unfold e_name, OFS_NAME, NAME_MAX, sub. cbn [skipn Z.to_nat].
    rewrite He1, app_nil_r, firstn_app, firstn_all2 by lia.
    rewrite Hn. change (Z.to_nat 14 - 14)%nat with 0%nat. cbn [firstn].
    apply app_nil_r.
Qed.

(** The entry that [dir_add] builds from the slot content [e]. *)
Lemma new_entry_fields e name sec isdir e2 :
  length e = 16%nat ->
  dir_entry_set_name (set_e_in_use e true) name = Ok e2 ->
  let e4 := set_e_is_dir (set_e_inode_sector e2 sec) isdir in
  length e4 = 16%nat /\
  e_in_use e4 = true /\ e_is_dir e4 = isdir /\
  e_inode_sector e4 = Z.land sec 16383 /\
  entry_matches name e4 = true /\
  ((forall c, In c name -> c <> zero_byte) -> cstr_of (e_name e4) = name) /\
  (forall name',
     (forall c, In c name -> c <> zero_byte) ->
     (forall c, In c name' -> c <> zero_byte) ->
     Z.of_nat (length name') <= NAME_MAX ->
     entry_matches name' e4 = true -> name' = name).
Proof.
  intros Hl H e4.
  assert (Hlen : Z.of_nat (length name) <= NAME_MAX).
  { unfold dir_entry_set_name in H. apply rbind_ok in H.
    destruct H as [u [Ha _]]. apply assert_ok in Ha. apply Z.leb_le. exact Ha. }
  pose proof (length_set_e_in_use e true Hl) as Hl1.
  destruct (dir_entry_set_name_spec _ _ _ Hl1 H) as [Hl2 [Hb2 [r [Hn Hr]]]].
  pose proof (length_set_e_inode_sector e2 sec Hl2) as Hl3.
  assert (Hu : e_in_use e4 = true).
  { unfold e4. rewrite e_in_use_set_e_is_dir by exact Hl3.
    rewrite e_in_use_set_e_inode_sector by exact Hl2.
    unfold e_in_use. rewrite Hb2. apply (e_in_use_set e true Hl). }
  assert (Hname : e_name e4 = name ++ r).
  { unfold e4, set_e_is_dir, set_e_inode_sector.
    rewrite e_name_store by exact Hl3. fold (set_e_inode_sector e2 sec).
    unfold set_e_inode_sector. rewrite e_name_store by exact Hl2. exact Hn. }
  split; [apply length_set_e_is_dir; exact Hl3|].
  split; [exact Hu|].
  split; [apply e_is_dir_set; exact Hl3|].
  split.
  { unfold e4. rewrite e_inode_sector_set_e_is_dir by exact Hl3.
    apply e_inode_sector_set. exact Hl2. }
  split.
  { unfold entry_matches. rewrite Hu, Hname. cbn [andb].
    destruct Hr as [[-> Hlen']|[r' ->]].
    - apply strncmp_eq_full. rewrite Hlen'. unfold NAME_MAX. lia.
    - apply strncmp_eq_terminated. }
  split.
  { intros Hnz. rewrite Hname.
    destruct Hr as [[-> Hlen']|[r' ->]].
    - rewrite app_nil_r. apply cstr_of_full. exact Hnz.
    - apply cstr_of_terminated. exact Hnz. }
  intros name' Hnz Hnz' Hlen' Hm. unfold entry_matches in Hm.
  apply andb_true_iff in Hm. destruct Hm as [_ Hm]. rewrite Hname in Hm.
  unfold NAME_MAX in *.
  apply (strncmp_eq_inv (Z.to_nat 14) name' name r); try assumption; lia.
Qed.
(** *** Scanning the entries *)

Section DirScan.

Variables (st : fs) (s : Z) (ino : inode).
Hypothesis Hok : fs_ok st.
Hypothesis Hwf : inode_wf st s.
Hypothesis Hd : deref st s = Ok ino.
Hypothesis HL : 0 <= header_length (sectors st s) < MAX_LENGTH.

Let L := header_length (sectors st s).

(** Reading the [k]-th entry: the entry if it lies below the stored
    length, a short read otherwise. *)
Lemma read_entry k :
  0 <= k -> SIZEOF_DIR_ENTRY * k <= L ->
  inode_read_at st s SIZEOF_DIR_ENTRY (SIZEOF_DIR_ENTRY * k) =
  if k <? L / SIZEOF_DIR_ENTRY then Ok (SIZEOF_DIR_ENTRY, entry_at st s k)
  else Ok (L - SIZEOF_DIR_ENTRY * k,
           fbytes st s (SIZEOF_DIR_ENTRY * k) (L - SIZEOF_DIR_ENTRY * k)).
Proof.
  intros Hk Hle. unfold SIZEOF_DIR_ENTRY in *. fold L in HL.
  rewrite (inode_read_at_clip st s ino) by (try assumption; fold L; lia).
  fold L. cbv zeta.
  pose proof (Z.div_mod L 16 ltac:(lia)) as Hdm.
  pose proof (Z.mod_pos_bound L 16 ltac:(lia)) as Hmb.
  destruct (Z.ltb_spec k (L / 16)).
  - replace (Z.max 0 (Z.min 16 (L - 16 * k))) with 16 by lia. reflexivity.
  - replace (Z.max 0 (Z.min 16 (L - 16 * k))) with (L - 16 * k) by lia.
    reflexivity.
Qed.

Lemma entry_count_step k :
  0 <= k < L / SIZEOF_DIR_ENTRY ->
  Z.to_nat (L / SIZEOF_DIR_ENTRY - k) =
  S (Z.to_nat (L / SIZEOF_DIR_ENTRY - (k + 1))).
Proof. intros. lia. Qed.

Lemma short_read_differs k :
  0 <= k -> SIZEOF_DIR_ENTRY * k <= L -> L / SIZEOF_DIR_ENTRY <= k ->
  (L - SIZEOF_DIR_ENTRY * k =? SIZEOF_DIR_ENTRY) = false.
Proof.
  unfold SIZEOF_DIR_ENTRY. intros Hk Hle Hge. apply Z.eqb_neq.
  pose proof (Z.div_mod L 16 ltac:(lia)) as Hdm.
  pose proof (Z.mod_pos_bound L 16 ltac:(lia)) as Hmb. lia.
Qed.

Lemma next_entry_below k :
  0 <= k < L / SIZEOF_DIR_ENTRY -> SIZEOF_DIR_ENTRY * (k + 1) <= L.
Proof.
  unfold SIZEOF_DIR_ENTRY. intros Hk.
  pose proof (Z.div_mod L 16 ltac:(lia)) as Hdm.
  pose proof (Z.mod_pos_bound L 16 ltac:(lia)) as Hmb. lia.
Qed.

(** [lookup] returns the first entry below the stored length that is in
    use and whose name compares equal. *)
Lemma lookup_loop_spec name fuel : forall k,
  0 <= k -> SIZEOF_DIR_ENTRY * k <= L ->
  L / SIZEOF_DIR_ENTRY - k < Z.of_nat fuel ->
  lookup_loop fuel st s name (SIZEOF_DIR_ENTRY * k) =
  Ok (first_match name st s (Z.to_nat (L / SIZEOF_DIR_ENTRY - k)) k).
Proof.
  induction fuel as [|fuel IH]; intros k Hk Hle Hf.
  - exfalso.
    assert (0 <= L / SIZEOF_DIR_ENTRY - k); [|lia].
    unfold SIZEOF_DIR_ENTRY in *.
    pose proof (Z.div_mod L 16 ltac:(lia)) as Hdm.
    pose proof (Z.mod_pos_bound L 16 ltac:(lia)) as Hmb. lia.
  - cbn [lookup_loop]. rewrite (read_entry k Hk Hle).
    destruct (Z.ltb_spec k (L / SIZEOF_DIR_ENTRY)) as [Hlt|Hge].
    + cbn [rbind]. rewrite Z.eqb_refl.
      rewrite entry_count_step by lia. cbn [first_match].
      fold (entry_matches name (entry_at st s k)).
      destruct (entry_matches name (entry_at st s k)); [reflexivity|].
      replace (SIZEOF_DIR_ENTRY * k + SIZEOF_DIR_ENTRY)
        with (SIZEOF_DIR_ENTRY * (k + 1)) by (unfold SIZEOF_DIR_ENTRY; lia).
      apply IH; [lia | apply next_entry_below; lia | lia].
    + cbn [rbind]. rewrite short_read_differs by assumption.
      replace (Z.to_nat (L / SIZEOF_DIR_ENTRY - k)) with 0%nat by lia.
      reflexivity.
Qed.

Lemma entry_fuel_eq :
  entry_fuel st s = Ok (S (Z.to_nat (L / SIZEOF_DIR_ENTRY))).
Proof.
  unfold entry_fuel. rewrite (inode_length_eq st s ino) by assumption.
  reflexivity.
Qed.

Lemma entries_nonneg : 0 <= L / SIZEOF_DIR_ENTRY.
Proof. apply Z.div_pos; [fold L in HL; lia | unfold SIZEOF_DIR_ENTRY; lia]. Qed.

Lemma lookup_spec d name :
  d_inode d = s ->
  lookup st d name =
  Ok (first_match name st s (Z.to_nat (L / SIZEOF_DIR_ENTRY)) 0).
Proof.
  intros Hdi. unfold lookup. rewrite Hdi, entry_fuel_eq. cbn [rbind].
  pose proof entries_nonneg as Hn.
  change 0 with (SIZEOF_DIR_ENTRY * 0) at 1.
  rewrite lookup_loop_spec; [ | lia | fold L in HL; unfold SIZEOF_DIR_ENTRY; lia | lia].
  rewrite Z.sub_0_r. reflexivity.
Qed.

Lemma splice_whole (e out : list byte) :
  length e = length out -> splice e 0 out = out.
Proof.
  intros Hl. unfold splice. cbn [Z.to_nat firstn app Nat.add].
  rewrite <- Hl, skipn_all. apply app_nil_r.
Qed.

(** The loop of [dir_add] stops at the first entry that is not in use, or
    at the end of the entries. *)
Lemma free_slot_loop_spec fuel : forall k e,
  length e = 16%nat ->
  0 <= k -> SIZEOF_DIR_ENTRY * k <= L ->
  L / SIZEOF_DIR_ENTRY - k < Z.of_nat fuel ->
  exists e' k',
    free_slot_loop fuel st s e (SIZEOF_DIR_ENTRY * k) =
      Ok (e', SIZEOF_DIR_ENTRY * k') /\
    k <= k' <= L / SIZEOF_DIR_ENTRY /\ length e' = 16%nat /\
    (forall j, k <= j < k' -> e_in_use (entry_at st s j) = true) /\
    (k' < L / SIZEOF_DIR_ENTRY -> e_in_use (entry_at st s k') = false).
Proof.
  induction fuel as [|fuel IH]; intros k e Hl Hk Hle Hf.
  - exfalso.
    assert (0 <= L / SIZEOF_DIR_ENTRY - k); [|lia].
    unfold SIZEOF_DIR_ENTRY in *.
    pose proof (Z.div_mod L 16 ltac:(lia)) as Hdm.
    pose proof (Z.mod_pos_bound L 16 ltac:(lia)) as Hmb. lia.
  - cbn [free_slot_loop]. rewrite (read_entry k Hk Hle).
    destruct (Z.ltb_spec k (L / SIZEOF_DIR_ENTRY)) as [Hlt|Hge].
    + cbn [rbind]. rewrite Z.eqb_refl.
      assert (Hle16 : length (entry_at st s k) = 16%nat)
        by (unfold entry_at; rewrite length_fbytes; reflexivity).
      rewrite splice_whole by congruence.
      destruct (e_in_use (entry_at st s k)) eqn:Eu; cbn [negb].
      * replace (SIZEOF_DIR_ENTRY * k + SIZEOF_DIR_ENTRY)
          with (SIZEOF_DIR_ENTRY * (k + 1)) by (unfold SIZEOF_DIR_ENTRY; lia).
        destruct (IH (k + 1) (entry_at st s k) Hle16)
          as [e' [k' [E [Hk' [Hl' [Hin Hfree]]]]]];
          [lia | apply next_entry_below; lia | lia |].
        exists e', k'. split; [exact E|]. split; [lia|]. split; [exact Hl'|].
        split; [|exact Hfree].
        intros j Hj. destruct (Z.eq_dec j k) as [->|Hne]; [exact Eu|].
        apply Hin. lia.
      * exists (entry_at st s k), k. split; [reflexivity|]. split; [lia|].
        split; [exact Hle16|]. split; [intros j Hj; lia|].
        intros _. exact Eu.
    + cbn [rbind]. rewrite short_read_differs by assumption.
      assert (Hkl : k <= L / SIZEOF_DIR_ENTRY).
      { apply Z.div_le_lower_bound; [unfold SIZEOF_DIR_ENTRY; lia | exact Hle]. }
      eexists _, k. split; [reflexivity|]. split; [lia|]. split.
      * rewrite length_splice; [exact Hl | lia |].
        rewrite length_fbytes, Hl.
        unfold SIZEOF_DIR_ENTRY in *.
        pose proof (Z.div_mod L 16 ltac:(lia)) as Hdm.
        pose proof (Z.mod_pos_bound L 16 ltac:(lia)) as Hmb. lia.
      * split; [intros j Hj; lia | intros Hc; lia].
Qed.

End DirScan.

Lemma first_match_none name st s n : forall k,
  first_match name st s n k = None ->
  forall j, k <= j < k + Z.of_nat n ->
    entry_matches name (entry_at st s j) = false.
Proof.
  induction n as [|n IH]; intros k H j Hj; [lia|].
  cbn [first_match] in H.
  destruct (entry_matches name (entry_at st s k)) eqn:E; [discriminate|].
  destruct (Z.eq_dec j k) as [->|Hne]; [exact E|].
  apply (IH (k + 1) H). lia.
Qed.

Lemma first_match_found name st s n : forall k j,
  k <= j < k + Z.of_nat n ->
  (forall i, k <= i < j -> entry_matches name (entry_at st s i) = false) ->
  entry_matches name (entry_at st s j) = true ->
  first_match name st s n k = Some (entry_at st s j, SIZEOF_DIR_ENTRY * j).
Proof.
  induction n as [|n IH]; intros k j Hj Hbelow Hm; [lia|].
  cbn [first_match].
  destruct (Z.eq_dec j k) as [->|Hne].
  - rewrite Hm. reflexivity.
  - rewrite (Hbelow k) by lia. apply IH; [lia | | exact Hm].
    intros i Hi. apply Hbelow. lia.
Qed.

Lemma first_match_some name st s n : forall k e ofs,
  first_match name st s n k = Some (e, ofs) ->
  exists j, k <= j < k + Z.of_nat n /\ e = entry_at st s j /\
    ofs = SIZEOF_DIR_ENTRY * j /\
    entry_matches name (entry_at st s j) = true /\
    forall i, k <= i < j -> entry_matches name (entry_at st s i) = false.
Proof.
  induction n as [|n IH]; intros k e ofs H; [discriminate|].
  cbn [first_match] in H.
  destruct (entry_matches name (entry_at st s k)) eqn:E.
  - injection H as <- <-. exists k. split; [lia|]. split; [reflexivity|].
    split; [reflexivity|]. split; [exact E|]. intros i Hi. lia.
  - destruct (IH _ _ _ H) as [j [Hj [He [Ho [Hm Hb]]]]].
    exists j. split; [lia|]. split; [exact He|]. split; [exact Ho|].
    split; [exact Hm|]. intros i Hi.
    destruct (Z.eq_dec i k) as [->|Hne]; [exact E|]. apply Hb. lia.
Qed.
(** *** Adding an entry *)

Lemma inode_counter_add_spec st s ino x st' c :
  fs_ok st -> inode_wf st s -> deref st s = Ok ino ->
  inode_counter_add st s x = Ok (st', c) ->
  c = sint32 (header_counter (sectors st s) + x) /\
  same_meta st st' /\ free_map st' = free_map st /\
  fs_ok st' /\ inode_wf st' s /\
  header_length (sectors st' s) = header_length (sectors st s) /\
  header_counter (sectors st' s) = c /\
  (forall k, 0 <= k < MAX_SECTORS -> fsec st' s k = fsec st s k).
Proof.
  intros Hok Hwf Hd H.
  unfold inode_counter_add in H. rewrite Hd in H. cbn [rbind] in H.
  rewrite (deref_sector _ _ _ Hd) in H.
  rewrite fs_cache_get_valid in H by (try assumption; apply Hwf).
  change (negb (Z.land CACHE_WRITE CACHE_NOLOAD =? 0)) with false in H.
  cbv iota in H. cbn [rbind] in H. rewrite fs_cache_release_write in H.
  apply Ok_inj in H. apply pair_inj in H. destruct H as [<- <-].
  pose proof (ok_sectors _ Hok s) as Hlen.
  change (Z.to_nat BLOCK_SECTOR_SIZE) with 512%nat in Hlen.
  set (c := sint32 (header_counter (sectors st s) + x)).
  set (data' := set_header_counter (sectors st s) c).
  destruct (header_update st s data' Hok Hwf) as [Hok1 [Hwf1 Hfs]].
  { apply length_set_header_counter. exact Hlen. }
  { intros a Ha Ha2. unfold data'. nums.
    apply load_set_header_counter; simpl; first [lia | exact Hlen]. }
  split; [reflexivity|].
  split; [repeat split|]. split; [reflexivity|].
  split; [exact Hok1|]. split; [exact Hwf1|].
  simpl_st. rewrite Z.eqb_refl.
  split.
  { unfold header_length, data'. f_equal. nums.
    apply load_set_header_counter; simpl; first [lia | exact Hlen]. }
  split.
  { unfold data'. apply header_counter_set; [exact Hlen | apply sint32_range]. }
  exact Hfs.
Qed.

Lemma fsec_fbyte st st' s p :
  (forall k, 0 <= k < MAX_SECTORS -> fsec st' s k = fsec st s k) ->
  0 <= p < MAX_LENGTH -> fbyte st' s p = fbyte st s p.
Proof.
  intros H Hp. unfold fbyte. rewrite H; [reflexivity|]. nums.
  split; [apply Z.div_pos; lia | apply Z.div_lt_upper_bound; lia].
Qed.

Lemma entry_at_ext st st' s j :
  0 <= j -> SIZEOF_DIR_ENTRY * j + SIZEOF_DIR_ENTRY <= MAX_LENGTH ->
  (forall p, SIZEOF_DIR_ENTRY * j <= p < SIZEOF_DIR_ENTRY * j + SIZEOF_DIR_ENTRY ->
     fbyte st' s p = fbyte st s p) ->
  entry_at st' s j = entry_at st s j.
Proof. intros Hj Hm H. unfold entry_at. apply fbytes_ext. exact H. Qed.

(** A successful [dir_add]: the name was not in the directory; the new
    entry is written over the first entry that was not in use, or after the
    last entry; every other entry is as before and the counter is one
    more. *)
Lemma dir_add_spec st d ino name sec isdir st' :
  fs_ok st -> inode_wf st (d_inode d) -> deref st (d_inode d) = Ok ino ->
  0 <= header_length (sectors st (d_inode d)) ->
  header_length (sectors st (d_inode d)) + SIZEOF_DIR_ENTRY < MAX_LENGTH ->
  dir_add st (Some d) name sec isdir = Ok (st', true) ->
  exists k0 e,
    first_match name st (d_inode d)
      (Z.to_nat (header_length (sectors st (d_inode d)) / SIZEOF_DIR_ENTRY)) 0
      = None /\
    0 <= k0 <= header_length (sectors st (d_inode d)) / SIZEOF_DIR_ENTRY /\
    (forall j, 0 <= j < k0 -> e_in_use (entry_at st (d_inode d) j) = true) /\
    (k0 < header_length (sectors st (d_inode d)) / SIZEOF_DIR_ENTRY ->
     e_in_use (entry_at st (d_inode d) k0) = false) /\
    (length e = 16%nat /\ e_in_use e = true /\ e_is_dir e = isdir /\
     e_inode_sector e = Z.land sec 16383 /\ entry_matches name e = true /\
     ((forall c, In c name -> c <> zero_byte) -> cstr_of (e_name e) = name) /\
     (forall name',
        (forall c, In c name -> c <> zero_byte) ->
        (forall c, In c name' -> c <> zero_byte) ->
        Z.of_nat (length name') <= NAME_MAX ->
        entry_matches name' e = true -> name' = name)) /\
    fs_ok st' /\ inode_wf st' (d_inode d) /\ deref st' (d_inode d) = Ok ino /\
    header_length (sectors st' (d_inode d)) =
      Z.max (header_length (sectors st (d_inode d)))
            (SIZEOF_DIR_ENTRY * k0 + SIZEOF_DIR_ENTRY) /\
    header_counter (sectors st' (d_inode d)) =
      sint32 (header_counter (sectors st (d_inode d)) + 1) /\
    entry_at st' (d_inode d) k0 = e /\
    (forall j, 0 <= j -> j <> k0 ->
       SIZEOF_DIR_ENTRY * j + SIZEOF_DIR_ENTRY <= MAX_LENGTH ->
       entry_at st' (d_inode d) j = entry_at st (d_inode d) j).
Proof.
  remember (d_inode d) as s eqn:Hs.
  remember (header_length (sectors st s)) as L eqn:HeqL.
  intros Hok Hwf Hd HL0 HLm H.
  assert (HL : 0 <= header_length (sectors st s) < MAX_LENGTH)
    by (rewrite <- HeqL; unfold SIZEOF_DIR_ENTRY in HLm; lia).
  unfold dir_add in H.
  destruct ((Z.of_nat (length name) =? 0) || (NAME_MAX <? Z.of_nat (length name)));
    [discriminate|].
  apply rbind_ok in H. destruct H as [found [Hlk H]].
  rewrite (lookup_spec st s ino Hok Hwf Hd HL d name (eq_sym Hs)) in Hlk.
  apply Ok_inj in Hlk. rewrite <- HeqL in Hlk. subst found.
  destruct (first_match name st s (Z.to_nat (L / SIZEOF_DIR_ENTRY)) 0)
    as [[e0 o0]|] eqn:Efm; [discriminate|].
  apply rbind_ok in H. destruct H as [fuel [Hfuel H]].
  rewrite <- Hs in Hfuel, H.
  rewrite (entry_fuel_eq st s ino Hok Hwf Hd) in Hfuel.
  apply Ok_inj in Hfuel. rewrite <- HeqL in Hfuel. subst fuel.
  pose proof (entries_nonneg st s HL) as Hn. rewrite <- HeqL in Hn.
  destruct (free_slot_loop_spec st s ino Hok Hwf Hd HL
              (S (Z.to_nat (L / SIZEOF_DIR_ENTRY))) 0
              (sub (junk st) 0 SIZEOF_DIR_ENTRY))
    as [e1 [k0 [Efs [Hk0 [Hl1 [Hused Hfree]]]]]].
  { rewrite length_sub; unfold SIZEOF_DIR_ENTRY; try lia.
    rewrite (ok_junk _ Hok). change (Z.of_nat (Z.to_nat BLOCK_SECTOR_SIZE)) with 512. lia. }
  { lia. }
  { unfold SIZEOF_DIR_ENTRY. rewrite <- HeqL. lia. }
  { rewrite <- HeqL. lia. }
  rewrite <- HeqL in Hk0, Hfree.
  change (SIZEOF_DIR_ENTRY * 0) with 0 in Efs.
  apply rbind_ok in H. destruct H as [[e1' ofs] [Efs' H]].
  rewrite Efs in Efs'. apply Ok_inj in Efs'. apply pair_inj in Efs'.
  destruct Efs' as [<- <-].
  apply rbind_ok in H. destruct H as [e2 [Ename H]].
  destruct (new_entry_fields e1 name sec isdir e2 Hl1 Ename)
    as [Hl4 Hfields].
  remember (set_e_is_dir (set_e_inode_sector e2 sec) isdir) as e4 eqn:He4.
  apply rbind_ok in H. destruct H as [[stw n] [Hw H]].
  apply rbind_ok in H. destruct H as [[st2 c] [Hc H]].
  apply Ok_inj in H. apply pair_inj in H. destruct H as [-> Hn16].
  apply Z.eqb_eq in Hn16. subst n.
  assert (Hk0L : SIZEOF_DIR_ENTRY * k0 <= L).
  { unfold SIZEOF_DIR_ENTRY.
    pose proof (Z.div_mod L 16 ltac:(lia)) as Hdm.
    pose proof (Z.mod_pos_bound L 16 ltac:(lia)) as Hmb.
    unfold SIZEOF_DIR_ENTRY in Hk0. lia. }
  assert (HML : MAX_LENGTH < 2 ^ 31) by (nums; lia).
  apply inode_write_at_spec with (ino := ino) in Hw;
    [ | assumption | assumption | assumption
      | unfold SIZEOF_DIR_ENTRY in *; lia
      | unfold SIZEOF_DIR_ENTRY; lia
      | rewrite Hl4; unfold SIZEOF_DIR_ENTRY; lia ].
  destruct (negb (deny_write_cnt ino =? 0)).
  { destruct Hw as [_ Hw]. discriminate. }
  destruct Hw as [_ [Hm [Hokw [Hwfw [Hlw [Hcw [_ Hb]]]]]]].
  assert (Hdw : deref stw s = Ok ino)
    by (rewrite (deref_meta st stw s Hm); exact Hd).
  destruct (inode_counter_add_spec stw s ino 1 st' c Hokw Hwfw Hdw Hc)
    as [Hcv [Hm2 [_ [Hok2 [Hwf2 [Hl2 [Hc2 Hfs2]]]]]]].
  assert (Hbyte : forall p, 0 <= p < MAX_LENGTH ->
            fbyte st' s p =
            if (SIZEOF_DIR_ENTRY * k0 <=? p) &&
               (p <? SIZEOF_DIR_ENTRY * k0 + SIZEOF_DIR_ENTRY)
            then byte_at e4 (p - SIZEOF_DIR_ENTRY * k0) else fbyte st s p).
  { intros p Hp. rewrite (fsec_fbyte stw st' s p Hfs2 Hp). apply Hb. exact Hp. }
  exists k0, e4.
  split; [reflexivity|]. split; [lia|].
  split; [intros j Hj; apply Hused; lia|]. split; [exact Hfree|].
  split; [split; [exact Hl4 | exact Hfields]|].
  split; [exact Hok2|]. split; [exact Hwf2|].
  split; [rewrite (deref_meta stw st' s Hm2); exact Hdw|].
  split; [rewrite Hl2, Hlw, <- HeqL; reflexivity|].
  split; [rewrite Hc2, Hcv, Hcw; reflexivity|].
  split.
  - unfold entry_at. apply list_eq_byte_at.
    + rewrite length_fbytes, Hl4. reflexivity.
    + rewrite length_fbytes. intros i Hi.
      assert (Hi16 : 0 <= i < 16) by (unfold SIZEOF_DIR_ENTRY in Hi; lia).
      rewrite byte_at_fbytes by (unfold SIZEOF_DIR_ENTRY; lia).
      rewrite Hbyte by (unfold SIZEOF_DIR_ENTRY in *; lia).
      replace ((SIZEOF_DIR_ENTRY * k0 <=? SIZEOF_DIR_ENTRY * k0 + i) &&
               (SIZEOF_DIR_ENTRY * k0 + i <?
                SIZEOF_DIR_ENTRY * k0 + SIZEOF_DIR_ENTRY))
        with true
        by (symmetry; apply andb_true_iff; split;
            [apply Z.leb_le | apply Z.ltb_lt]; unfold SIZEOF_DIR_ENTRY; lia).
      f_equal. lia.
  - intros j Hj Hne Hmax. apply entry_at_ext; [lia | exact Hmax |].
    intros p Hp. rewrite Hbyte by (unfold SIZEOF_DIR_ENTRY in *; lia).
    replace ((SIZEOF_DIR_ENTRY * k0 <=? p) &&
             (p <? SIZEOF_DIR_ENTRY * k0 + SIZEOF_DIR_ENTRY))
      with false; [reflexivity|].
    symmetry. apply andb_false_iff. unfold SIZEOF_DIR_ENTRY in *.
    destruct (Z_lt_ge_dec j k0);
      [left; apply Z.leb_gt; lia | right; apply Z.ltb_ge; lia].
Qed.


Lemma div16_mono a b : 0 <= a <= b -> a / 16 <= b / 16.
Proof. intros. apply Z.div_le_mono; lia. Qed.

(** After a successful [dir_add] the name, absent before, is found by
    [lookup] and [dir_lookup]: the entry found is in use, carries the
    directory flag given and names the sector given, truncated to 14 bits;
    the counter of the directory is one more. *)
Theorem dir_add_then_lookup st d ino name sec isdir st' :
  fs_ok st -> inode_wf st (d_inode d) -> deref st (d_inode d) = Ok ino ->
  0 <= header_length (sectors st (d_inode d)) ->
  header_length (sectors st (d_inode d)) + SIZEOF_DIR_ENTRY < MAX_LENGTH ->
  dir_add st (Some d) name sec isdir = Ok (st', true) ->
  lookup st d name = Ok None /\
  (exists e ofs,
     lookup st' d name = Ok (Some (e, ofs)) /\
     e_in_use e = true /\ e_is_dir e = isdir /\
     e_inode_sector e = Z.land sec 16383 /\
     ((forall c, In c name -> c <> zero_byte) -> cstr_of (e_name e) = name)) /\
  dir_lookup st' (Some d) name =
    ('(st2, p) <- inode_open st' (Z.land sec 16383) ;;
     match p with
     | Some p => Ok (st2, Some (p, isdir))
     | None => Ok (st2, None)
     end) /\
  inode_counter_get st' (d_inode d) =
    Ok (sint32 (header_counter (sectors st (d_inode d)) + 1)).
Proof.
  intros Hok Hwf Hd HL0 HLm H.
  assert (HL : 0 <= header_length (sectors st (d_inode d)) < MAX_LENGTH)
    by (unfold SIZEOF_DIR_ENTRY in HLm; lia).
  destruct (dir_add_spec st d ino name sec isdir st' Hok Hwf Hd HL0 HLm H)
    as [k0 [e [Hnone [Hk0 [Hused [Hfree [[Hle [Hu [Hdir [Hsec [Hmatch [Hcstr _]]]]]]
        [Hok' [Hwf' [Hd' [HL' [Hcnt [He Hother]]]]]]]]]]]]].
  clear H.
  remember (d_inode d) as s eqn:Hs.
  remember (header_length (sectors st s)) as L eqn:HeqL.
  assert (HLs : 0 <= header_length (sectors st s) < MAX_LENGTH)
    by (rewrite <- HeqL; exact HL).
  assert (Hk0L : 16 * k0 <= L).
  { unfold SIZEOF_DIR_ENTRY in *.
    pose proof (Z.div_mod L 16 ltac:(lia)) as Hdm.
    pose proof (Z.mod_pos_bound L 16 ltac:(lia)) as Hmb. lia. }
  assert (HLr' : 0 <= header_length (sectors st' s) < MAX_LENGTH)
    by (rewrite HL'; unfold SIZEOF_DIR_ENTRY in *; lia).
  assert (Hlook : lookup st' d name = Ok (Some (e, SIZEOF_DIR_ENTRY * k0))).
  { rewrite (lookup_spec st' s ino Hok' Hwf' Hd' HLr' d name (eq_sym Hs)).
    f_equal. rewrite <- He.
    apply (first_match_found name st' s _ 0 k0).
    - assert (k0 + 1 <= header_length (sectors st' s) / SIZEOF_DIR_ENTRY).
      { unfold SIZEOF_DIR_ENTRY in *. apply Z.div_le_lower_bound; [lia|].
        rewrite HL'. lia. }
      lia.
    - intros i Hi. rewrite Hother by (unfold SIZEOF_DIR_ENTRY in *; lia).
      apply (first_match_none name st s _ 0 Hnone).
      unfold SIZEOF_DIR_ENTRY in *. lia.
    - rewrite He. exact Hmatch. }
  split.
  { rewrite (lookup_spec st s ino Hok Hwf Hd HLs d name (eq_sym Hs)).
    rewrite <- HeqL. f_equal. exact Hnone. }
  split.
  { exists e, (SIZEOF_DIR_ENTRY * k0). repeat (split; [assumption|]).
    exact Hcstr. }
  split.
  { unfold dir_lookup. rewrite Hlook. rewrite rbind_ret. rewrite Hsec, Hdir.
    reflexivity. }
  unfold inode_counter_get. rewrite Hd'. rewrite rbind_ret.
  rewrite (deref_sector _ _ _ Hd').
  rewrite fs_cache_get_valid by (try assumption; apply Hwf').
  change (negb (Z.land 0 CACHE_NOLOAD =? 0)) with false. cbv iota.
  rewrite rbind_ret. rewrite Hcnt. reflexivity.
Qed.

Lemma dir_add_then_lookup_witness :
  let st := Scenario.file_open 256 in
  let d := mkDir 5 0 in
  let name := [Byte.x63] in
  let st' := Scenario.state_of (dir_add st (Some d) name 9 false) in
  lookup st d name = Ok None /\
  (exists e ofs,
     lookup st' d name = Ok (Some (e, ofs)) /\
     e_inode_sector e = Z.land 9 16383) /\
  inode_counter_get st' 5 = Ok (sint32 (header_counter (sectors st 5) + 1)).
Proof.
  intros st d name st'.
  destruct (file_open_wf 256) as [Hok [Hwf [[i Hi] [Hl _]]]]; [lia|].
  destruct (dir_add_then_lookup st d i name 9 false st')
    as [H1 [[e [ofs [H2 [_ [_ [H3 _]]]]]] [_ H4]]]; try assumption.
  - cbn [d_inode d]. unfold st. rewrite Hl. lia.
  - cbn [d_inode d]. unfold st. rewrite Hl. vm_compute. reflexivity.
  - vm_compute. reflexivity.
  - split; [exact H1|]. split; [|exact H4].
    exists e, ofs. split; [exact H2 | exact H3].
Defined.

Lemma first_match_none_intro name st s n : forall k,
  (forall j, k <= j < k + Z.of_nat n ->
     entry_matches name (entry_at st s j) = false) ->
  first_match name st s n k = None.
Proof.
  induction n as [|n IH]; intros k H; [reflexivity|].
  cbn [first_match]. rewrite (H k) by lia. apply IH.
  intros j Hj. apply H. lia.
Qed.

(** Two directories in which the entries that match [name] are the same
    give the same result of [lookup]. *)
Lemma first_match_same name st st' s n n' :
  (n <= n')%nat ->
  (forall j, 0 <= j < Z.of_nat n ->
     entry_matches name (entry_at st s j) = true ->
     entry_at st' s j = entry_at st s j) ->
  (forall j, 0 <= j < Z.of_nat n' ->
     entry_matches name (entry_at st' s j) = true ->
     j < Z.of_nat n /\ entry_at st' s j = entry_at st s j) ->
  first_match name st' s n' 0 = first_match name st s n 0.
Proof.
  intros Hnn H1 H2.
  assert (Hno : forall j, 0 <= j < Z.of_nat n' ->
            entry_matches name (entry_at st s j) = false \/ Z.of_nat n <= j ->
            entry_matches name (entry_at st' s j) = false).
  { intros j Hj Hc.
    destruct (entry_matches name (entry_at st' s j)) eqn:E; [|reflexivity].
    destruct (H2 j Hj E) as [Hjn Heq]. rewrite Heq in E.
    destruct Hc as [Hc|Hc]; [congruence | lia]. }
  destruct (first_match name st s n 0) as [[e o]|] eqn:E.
  - destruct (first_match_some _ _ _ _ _ _ _ E) as [j0 [Hj0 [-> [-> [Hm Hb]]]]].
    assert (Heq : entry_at st' s j0 = entry_at st s j0) by (apply H1; [lia | exact Hm]).
    rewrite <- Heq.
    apply first_match_found; [lia | | rewrite Heq; exact Hm].
    intros i Hi. apply Hno; [lia|]. left. apply Hb. lia.
  - apply first_match_none_intro. intros j Hj. apply Hno; [lia|].
    destruct (Z_lt_ge_dec j (Z.of_nat n)) as [Hlt|Hge]; [left | right; lia].
    apply (first_match_none name st s n 0 E). lia.
Qed.

(** A successful [dir_add] of [name] leaves the result of [lookup] for
    every other name as it was: names that were found are found at the
    same entry, names that were absent stay absent. *)
Theorem dir_add_keeps_other_names st d ino name sec isdir st' name' :
  fs_ok st -> inode_wf st (d_inode d) -> deref st (d_inode d) = Ok ino ->
  0 <= header_length (sectors st (d_inode d)) ->
  header_length (sectors st (d_inode d)) + SIZEOF_DIR_ENTRY < MAX_LENGTH ->
  dir_add st (Some d) name sec isdir = Ok (st', true) ->
  (forall c, In c name -> c <> zero_byte) ->
  (forall c, In c name' -> c <> zero_byte) ->
  Z.of_nat (length name') <= NAME_MAX ->
  name' <> name ->
  lookup st' d name' = lookup st d name'.
Proof.
  intros Hok Hwf Hd HL0 HLm H Hnz Hnz' Hlen' Hne.
  assert (HL : 0 <= header_length (sectors st (d_inode d)) < MAX_LENGTH)
    by (unfold SIZEOF_DIR_ENTRY in HLm; lia).
  destruct (dir_add_spec st d ino name sec isdir st' Hok Hwf Hd HL0 HLm H)
    as [k0 [e [_ [Hk0 [_ [Hfree [[_ [_ [_ [_ [_ [_ Huniq]]]]]]
        [Hok' [Hwf' [Hd' [HL' [_ [He Hother]]]]]]]]]]]]].
  clear H.
  remember (d_inode d) as s eqn:Hs.
  remember (header_length (sectors st s)) as L eqn:HeqL.
  assert (HLs : 0 <= header_length (sectors st s) < MAX_LENGTH)
    by (rewrite <- HeqL; exact HL).
  unfold SIZEOF_DIR_ENTRY in *.
  pose proof (Z.div_mod L 16 ltac:(lia)) as Hdm.
  pose proof (Z.mod_pos_bound L 16 ltac:(lia)) as Hmb.
  assert (HLr' : 0 <= header_length (sectors st' s) < MAX_LENGTH)
    by (rewrite HL'; lia).
  rewrite (lookup_spec st' s ino Hok' Hwf' Hd' HLr' d name' (eq_sym Hs)).
  rewrite (lookup_spec st s ino Hok Hwf Hd HLs d name' (eq_sym Hs)).
  rewrite <- HeqL. f_equal. unfold SIZEOF_DIR_ENTRY.
  set (L' := header_length (sectors st' s)) in *.
  assert (Hn : 0 <= L / 16) by (apply Z.div_pos; lia).
  assert (Hmono : L / 16 <= L' / 16) by (apply Z.div_le_mono; lia).
  assert (Hup : L' / 16 <= Z.max (L / 16) (k0 + 1)).
  { destruct (Z.max_spec L (16 * k0 + 16)) as [[Hc Hm]|[Hc Hm]]; rewrite Hm in HL'.
    - rewrite HL'. replace (16 * k0 + 16) with ((k0 + 1) * 16) by lia.
      rewrite Z.div_mul by lia. lia.
    - rewrite HL'. lia. }
  apply first_match_same.
  - lia.
  - intros j Hj Hm. apply Hother; [lia | | lia].
    intros ->. unfold entry_matches in Hm. apply andb_true_iff in Hm.
    destruct Hm as [Hu _]. rewrite Hfree in Hu by lia. discriminate.
  - intros j Hj Hm.
    destruct (Z.eq_dec j k0) as [->|Hjk].
    + exfalso. rewrite He in Hm. apply Hne.
      apply (Huniq name' Hnz Hnz'); [unfold NAME_MAX in *; lia | exact Hm].
    + split; [lia|]. apply Hother; lia.
Qed.

Lemma dir_add_keeps_other_names_witness :
  let st := Scenario.file_open 256 in
  let d := mkDir 5 0 in
  let st' := Scenario.state_of (dir_add st (Some d) [Byte.x63] 9 false) in
  lookup st' d [Byte.x64] = lookup st d [Byte.x64].
Proof.
  intros st d st'.
  destruct (file_open_wf 256) as [Hok [Hwf [[i Hi] [Hl _]]]]; [lia|].
  apply (dir_add_keeps_other_names st d i [Byte.x63] 9 false st' [Byte.x64]);
    try assumption.
  - cbn [d_inode d]. unfold st. rewrite Hl. lia.
  - cbn [d_inode d]. unfold st. rewrite Hl. vm_compute. reflexivity.
  - vm_compute. reflexivity.
  - intros c [<-|[]]. discriminate.
  - intros c [<-|[]]. discriminate.
  - vm_compute. discriminate.
  - discriminate.
Defined.
(** ** Accesses stay inside the arrays *)

Lemma wd_ok {A} (a : A) : well_defined (Ok a).
Proof. exact I. Qed.

Lemma wd_assert b : well_defined (assert b).
Proof. destruct b; exact I. Qed.

Lemma wd_bind {A B} (m : res A) (k : A -> res B) :
  well_defined m -> (forall a, m = Ok a -> well_defined (k a)) ->
  well_defined (rbind m k).
Proof.
  destruct m as [a|f]; cbn [rbind]; intros Hm Hk; [apply Hk; reflexivity|].
  exact Hm.
Qed.

Lemma wdp_intro {A} (r : res A) (P : A -> Prop) :
  well_defined r -> (forall a, r = Ok a -> P a) -> wd_post r P.
Proof. intros H1 H2. split; assumption. Qed.

Lemma wdp_ok {A} (a : A) (P : A -> Prop) : P a -> wd_post (Ok a) P.
Proof.
  intros H. split; [exact I|]. intros b E. apply Ok_inj in E. subst b. exact H.
Qed.

Lemma wdp_err {A} (f : fault) (P : A -> Prop) :
  well_defined (@Err A f) -> wd_post (Err f) P.
Proof. intros H. split; [exact H|]. intros a E. discriminate. Qed.

Lemma wdp_bind {A B} (m : res A) (k : A -> res B) (P : A -> Prop)
  (Q : B -> Prop) :
  wd_post m P -> (forall a, P a -> wd_post (k a) Q) ->
  wd_post (rbind m k) Q.
Proof.
  intros [Hm HP] Hk. destruct m as [a|f]; cbn [rbind].
  - apply Hk. apply HP. reflexivity.
  - apply wdp_err. exact Hm.
Qed.

Lemma wdp_weaken {A} (r : res A) (P Q : A -> Prop) :
  wd_post r P -> (forall a, P a -> Q a) -> wd_post r Q.
Proof.
  intros [H1 H2] H. split; [exact H1|]. intros a E. apply H. apply H2. exact E.
Qed.

Lemma wd_pure {A} (r : res A) : well_defined r -> wd_post r (fun _ => True).
Proof. intros H. split; [exact H | intros; exact I]. Qed.

Lemma wd_cache_check st x : well_defined (cache_check st x).
Proof.
  unfold cache_check. apply wd_bind; [apply wd_assert|].
  intros u _. apply wd_assert.
Qed.

Lemma wd_fs_cache_get st x flags : well_defined (fs_cache_get st x flags).
Proof.
  unfold fs_cache_get. destruct (_ && _); [exact I|].
  apply wd_bind; [apply wd_cache_check | intros; exact I].
Qed.

Lemma wd_fs_cache_read st x : well_defined (fs_cache_read st x).
Proof.
  unfold fs_cache_read. destruct (_ =? _); [exact I|].
  apply wd_bind; [apply wd_cache_check | intros; exact I].
Qed.

Lemma wd_fs_cache_write st x buf : well_defined (fs_cache_write st x buf).
Proof.
  unfold fs_cache_write.
  apply wd_bind; [apply wd_cache_check | intros; exact I].
Qed.

Lemma fs_cache_write_free_map st x buf st' :
  fs_cache_write st x buf = Ok st' -> free_map st' = free_map st.
Proof.
  unfold fs_cache_write. intros H. apply rbind_ok in H.
  destruct H as [u [_ H]]. apply Ok_inj in H. subst st'. reflexivity.
Qed.

Lemma fs_cache_release_free_map st x flags d :
  free_map (fs_cache_release st x flags d) = free_map st.
Proof. unfold fs_cache_release. destruct (_ =? 0); reflexivity. Qed.

Lemma in_range_true lo hi i : lo <= i < hi -> (lo <=? i) && (i <? hi) = true.
Proof.
  intros H. apply andb_true_iff. split; [apply Z.leb_le | apply Z.ltb_lt]; lia.
Qed.

Lemma wd_direct_get d i : 0 <= i < NUM_DIRECT -> well_defined (direct_get d i).
Proof. intros H. unfold direct_get. rewrite in_range_true by exact H. exact I. Qed.
Lemma wd_direct_set d i v :
  0 <= i < NUM_DIRECT -> well_defined (direct_set d i v).
Proof. intros H. unfold direct_set. rewrite in_range_true by exact H. exact I. Qed.
Lemma wd_indirect_get d i :
  0 <= i < NUM_INDIRECT -> well_defined (indirect_get d i).
Proof. intros H. unfold indirect_get. rewrite in_range_true by exact H. exact I. Qed.
Lemma wd_indirect_set d i v :
  0 <= i < NUM_INDIRECT -> well_defined (indirect_set d i v).
Proof. intros H. unfold indirect_set. rewrite in_range_true by exact H. exact I. Qed.
Lemma wd_sub_get d j :
  0 <= j < INDIRECT_NUM_DIRECT -> well_defined (sub_get d j).
Proof. intros H. unfold sub_get. rewrite in_range_true by exact H. exact I. Qed.
Lemma wd_sub_set d j v :
  0 <= j < INDIRECT_NUM_DIRECT -> well_defined (sub_set d j v).
Proof. intros H. unfold sub_set. rewrite in_range_true by exact H. exact I. Qed.

Lemma wd_fill_sub n : forall node i v,
  0 <= i -> i + Z.of_nat n <= INDIRECT_NUM_DIRECT ->
  well_defined (fill_loop sub_set n node i v).
Proof.
  induction n as [|n IH]; intros node i v Hi Hn; cbn [fill_loop]; [exact I|].
  apply wd_bind; [apply wd_sub_set; lia|].
  intros d _. apply IH; lia.
Qed.

(** [free_map_get] on a free map whose elements are all there: it stays
    inside the array of elements and leaves the shape of the map. *)
Lemma wdp_free_map_get st :
  bitmap_wf (free_map st) ->
  wd_post (free_map_get st)
    (fun r => bitmap_wf (free_map (fst r)) /\
              sectors (fst r) = sectors st /\ same_meta st (fst r)).
Proof.
  intros Hwf. pose proof Hwf as [Hc Hl].
  assert (Hec0 : 0 <= elem_cnt (bit_cnt (free_map st))).
  { unfold elem_cnt, DIV_ROUND_UP, ELEM_BITS. apply Z.div_pos; lia. }
  split.
  - unfold free_map_get, bitmap_lowest, bitmap_size.
    destruct (bitmap_lowest_loop_total false
                (Z.to_nat (elem_cnt (bit_cnt (free_map st)))) (free_map st) 0)
      as [r Hr]; [lia | lia |].
    rewrite Hr. cbn [rbind]. cbv zeta.
    destruct (negb (r =? BITMAP_ERROR)) eqn:E; [|exact I].
    pose proof (elem_cnt_bound _ (proj1 Hc)) as Hec.
    apply bitmap_lowest_loop_spec in Hr;
      try (rewrite ?Z2Nat.id by lia; unfold BITMAP_ERROR, ELEM_BITS in *; lia).
    destruct Hr as [[-> _]|[Hrg [Hlen _]]].
    + rewrite Z.eqb_refl in E. discriminate.
    + destruct (VmFacts.bitmap_mark_total (free_map st) r) as [b' Hb];
        [unfold ELEM_BITS in Hrg; lia | exact Hlen |].
      rewrite Hb. exact I.
  - intros [st' r] H. cbn [fst].
    apply free_map_get_spec in H; [|exact Hc].
    destruct r as [sec|].
    + destruct H as [b' [-> [Hbc [Hbl _]]]]. simpl_st.
      split; [apply (bitmap_wf_same (free_map st)); assumption|].
      split; [reflexivity | repeat split].
    + subst st'. split; [exact Hwf|]. split; [reflexivity | repeat split].
Qed.
Lemma wdp_alloc_entry st data set i :
  bitmap_wf (free_map st) ->
  (forall d v, well_defined (set d i v)) ->
  wd_post (alloc_entry st data set i)
    (fun r => bitmap_wf (free_map (fst (fst r)))).
Proof.
  intros Hb Hset. unfold alloc_entry.
  apply wdp_bind with (P := fun r => bitmap_wf (free_map (fst r))).
  { eapply wdp_weaken; [apply wdp_free_map_get; exact Hb|].
    intros a H. apply H. }
  intros [st1 [sec|]] H1; cbn [fst] in H1.
  - apply wdp_bind with (P := fun _ => True); [apply wd_pure, wd_assert|].
    intros u _.
    apply wdp_bind with (P := fun _ => True); [apply wd_pure, Hset|].
    intros d _. apply wdp_ok. exact H1.
  - apply wdp_ok. exact H1.
Qed.

(** [byte_to_sector] for a position that the index addresses: every array
    is indexed inside its bounds, and the free map keeps its shape. *)
Lemma wdp_byte_to_sector st s ino pos create :
  deref st s = Ok ino -> 0 <= pos < MAX_LENGTH ->
  (create = true -> bitmap_wf (free_map st)) ->
  wd_post (byte_to_sector st s pos create)
    (fun r => create = true -> bitmap_wf (free_map (fst (fst r)))).
Proof.
  intros Hd Hpos Hb. unfold byte_to_sector. rewrite Hd. rewrite rbind_ret.
  rewrite (deref_sector _ _ _ Hd).
  rewrite quot_sector by (nums; lia).
  assert (Hk : 0 <= pos / 512 < MAX_SECTORS).
  { nums. split; [apply Z.div_pos; lia | apply Z.div_lt_upper_bound; lia]. }
  apply wdp_bind with (P := fun _ => True);
    [apply wd_pure, wd_fs_cache_get|].
  intros data _. cbv zeta.
  apply wdp_bind
    with (P := fun r => create = true ->
                        bitmap_wf (free_map (fst (fst (fst r))))).
  2: { intros [[[st1 ret] al] hd] HP. cbn [fst] in HP. destruct al.
       - apply wdp_bind
           with (P := fun st2 => create = true -> bitmap_wf (free_map st2)).
         + split; [apply wd_fs_cache_write|]. intros st2 E Hc.
           rewrite (fs_cache_write_free_map _ _ _ _ E). exact (HP Hc).
         + intros st2 H2. apply wdp_ok. exact H2.
       - apply wdp_ok. exact HP. }
  destruct (pos / 512 <? NUM_DIRECT) eqn:E.
  - apply Z.ltb_lt in E.
    apply wdp_bind with (P := fun _ => True);
      [apply wd_pure, wd_direct_get; lia|].
    intros d _.
    apply wdp_bind
      with (P := fun r => create = true -> bitmap_wf (free_map (fst (fst r)))).
    + destruct (create && (d =? NO_SECTOR)) eqn:Ec.
      * apply andb_true_iff in Ec. destruct Ec as [Ec _].
        eapply wdp_weaken;
          [apply wdp_alloc_entry;
           [apply Hb; exact Ec | intros; apply wd_direct_set; lia]|].
        intros a H _. exact H.
      * apply wdp_ok. exact Hb.
    + intros [[st1 data1] al] HP. cbn [fst] in HP.
      apply wdp_bind with (P := fun _ => True);
        [apply wd_pure, wd_direct_get; lia|].
      intros d2 _. apply wdp_ok. cbn [fst]. intros Hc.
      rewrite fs_cache_release_free_map. exact (HP Hc).
  - apply Z.ltb_ge in E.
    assert (Hi : 0 <= (pos / 512 - NUM_DIRECT) / INDIRECT_NUM_DIRECT
                 < NUM_INDIRECT).
    { nums. split; [apply Z.div_pos; lia | apply Z.div_lt_upper_bound; lia]. }
    assert (Hj : 0 <= (pos / 512 - NUM_DIRECT) mod INDIRECT_NUM_DIRECT
                 < INDIRECT_NUM_DIRECT)
      by (apply Z.mod_pos_bound; nums; lia).
    apply wdp_bind with (P := fun _ => True);
      [apply wd_pure, wd_indirect_get; exact Hi|].
    intros n _.
    apply wdp_bind
      with (P := fun r => create = true -> bitmap_wf (free_map (fst (fst r)))).
    + destruct ((n =? NO_SECTOR) && create) eqn:Ec.
      * apply andb_true_iff in Ec. destruct Ec as [_ Ec].
        apply wdp_bind with (P := fun r => bitmap_wf (free_map (fst r))).
        { eapply wdp_weaken; [apply wdp_free_map_get; apply Hb; exact Ec|].
          intros a H. apply H. }
        intros [st1 [sec|]] H1; cbn [fst] in H1.
        -- apply wdp_bind with (P := fun _ => True);
             [apply wd_pure, wd_assert|].
           intros u _.
           apply wdp_bind with (P := fun _ => True);
             [apply wd_pure, wd_indirect_set; exact Hi|].
           intros d _. cbv zeta.
           apply wdp_bind with (P := fun _ => True);
             [apply wd_pure, wd_fs_cache_get|].
           intros node _.
           apply wdp_bind with (P := fun _ => True).
           { apply wd_pure, wd_fill_sub; [lia|].
             rewrite Z2Nat.id by (nums; lia). lia. }
           intros node2 _. apply wdp_ok. cbn [fst]. intros _.
           rewrite fs_cache_release_free_map. exact H1.
        -- apply wdp_ok. cbn [fst]. intros _. exact H1.
      * destruct (negb (n =? NO_SECTOR)).
        -- apply wdp_bind with (P := fun _ => True);
             [apply wd_pure, wd_assert|].
           intros u _. cbv zeta.
           apply wdp_bind with (P := fun _ => True);
             [apply wd_pure, wd_fs_cache_get|].
           intros node _. apply wdp_ok. cbn [fst]. intros Hc.
           rewrite fs_cache_release_free_map. apply Hb. exact Hc.
        -- apply wdp_ok. cbn [fst]. intros Hc.
           rewrite fs_cache_release_free_map. apply Hb. exact Hc.
    + intros [[st1 subnode] hd] HP. cbn [fst] in HP.
      destruct subnode as [[[nsec nflags] node]|].
      * apply wdp_bind with (P := fun _ => True);
          [apply wd_pure, wd_sub_get; exact Hj|].
        intros c _.
        apply wdp_bind
          with (P := fun r => create = true ->
                              bitmap_wf (free_map (fst (fst r)))).
        -- destruct (create && (c =? NO_SECTOR)) eqn:Ec.
           ++ apply andb_true_iff in Ec. destruct Ec as [Ec _].
              eapply wdp_weaken;
                [apply wdp_alloc_entry;
                 [apply HP; exact Ec | intros; apply wd_sub_set; exact Hj]|].
              intros a H _. exact H.
           ++ apply wdp_ok. exact HP.
        -- intros [[st2 node2] al] HP2. cbn [fst] in HP2.
           apply wdp_bind with (P := fun _ => True);
             [apply wd_pure, wd_sub_get; exact Hj|].
           intros c2 _.
           apply wdp_bind with (P := fun _ => True).
           { apply wd_pure. destruct (negb (c2 =? NO_SECTOR)); [|exact I].
             apply wd_bind; [apply wd_assert | intros; exact I]. }
           intros ret _. apply wdp_ok. cbn [fst]. intros Hc.
           rewrite fs_cache_release_free_map. exact (HP2 Hc).
      * apply wdp_ok. cbn [fst]. exact HP.
Qed.
(** [byte_to_sector] indexes outside of [data->indirect] exactly for the
    positions past the [MAX_LENGTH] bytes that the index addresses. *)
Theorem byte_to_sector_index_bounds st s ino pos create :
  fs_ok st -> valid_sector st s -> deref st s = Ok ino ->
  (create = true -> bitmap_wf (free_map st)) ->
  0 <= pos < 2 ^ 31 ->
  (byte_to_sector st s pos create = Err OutOfBounds <-> MAX_LENGTH <= pos).
Proof.
  intros Hok Hv Hd Hb Hpos. split.
  - intros H. destruct (Z_lt_ge_dec pos MAX_LENGTH) as [Hlt|Hge]; [|lia].
    exfalso.
    destruct (wdp_byte_to_sector st s ino pos create Hd (conj (proj1 Hpos) Hlt)
                Hb) as [Hw _].
    rewrite H in Hw. exact Hw.
  - intros Hge. unfold byte_to_sector. rewrite Hd. rewrite rbind_ret.
    rewrite (deref_sector _ _ _ Hd).
    rewrite fs_cache_get_valid by assumption. rewrite rbind_ret.
    rewrite quot_sector by exact Hpos. cbv zeta.
    assert (Hk : MAX_SECTORS <= pos / 512)
      by (nums; apply Z.div_le_lower_bound; lia).
    replace (pos / 512 <? NUM_DIRECT) with false
      by (symmetry; apply Z.ltb_ge; nums; lia).
    unfold indirect_get.
    replace ((pos / 512 - NUM_DIRECT) / INDIRECT_NUM_DIRECT <? NUM_INDIRECT)
      with false.
    + rewrite andb_false_r. reflexivity.
    + symmetry. apply Z.ltb_ge. nums. apply Z.div_le_lower_bound; lia.
Qed.

Lemma byte_to_sector_index_bounds_witness :
  let st := Scenario.file_open 0 in
  (byte_to_sector st 5 8483839 true = Err OutOfBounds <->
   MAX_LENGTH <= 8483839) /\
  (byte_to_sector st 5 8483840 true = Err OutOfBounds <->
   MAX_LENGTH <= 8483840).
Proof.
  intros st.
  destruct (file_open_wf 0) as [Hok [Hwf [[i Hi] _]]]; [lia|].
  assert (Hb : bitmap_wf (free_map st)).
  { split; [vm_compute; split; congruence | vm_compute; congruence]. }
  split; apply (byte_to_sector_index_bounds st 5 i); try assumption;
    try apply Hwf; try (intros _; exact Hb); lia.
Defined.






(** The loop of [inode_read_at] when the positions read and those of the
    read-ahead are inside the index. *)
Lemma wd_inode_read_loop fuel : forall st s ino size off br out,
  deref st s = Ok ino ->
  0 <= off -> off + size + 512 <= MAX_LENGTH ->
  (Z.to_nat size <= fuel)%nat ->
  well_defined (inode_read_loop fuel st s size off br out).
Proof.
  induction fuel as [|fuel IH]; intros st s ino size off br out Hd Hoff Hmax Hf.
  - cbn [inode_read_loop].
    replace (0 <? size) with false by (symmetry; apply Z.ltb_ge; lia).
    exact I.
  - rewrite inode_read_loop_S.
    destruct (0 <? size) eqn:E; [|exact I]. apply Z.ltb_lt in E.
    apply wd_bind.
    { unfold inode_length. rewrite Hd. rewrite rbind_ret.
      apply wd_bind; [apply wd_fs_cache_get | intros; exact I]. }
    intros len _. cbv zeta.
    assert (Hnb : forall p, 0 <= p < MAX_LENGTH ->
              well_defined (byte_to_sector st s p false)).
    { intros p Hp.
      apply (wdp_byte_to_sector st s ino p false Hd Hp). discriminate. }
    apply wd_bind; [apply Hnb; lia|]. intros [[st1 idx] hd] _.
    apply wd_bind.
    { destruct (BLOCK_SECTOR_SIZE <? sint32 (len - off)); [|exact I].
      apply wd_bind; [|intros [[? ?] ?] _; exact I].
      change BLOCK_SECTOR_SIZE with 512.
      rewrite sint32_small by (nums; lia). apply Hnb. lia. }
    intros u _.
    match goal with
    | |- well_defined (if ?c <=? 0 then _ else _) =>
        destruct (Z.leb_spec c 0) as [Hc|Hc]; [exact I|];
        remember c as chunk eqn:Hchunk
    end.
    assert (Hcs : chunk <= size).
    { subst chunk.
      match goal with
      | |- (if size <? ?m then _ else _) <= _ =>
          destruct (Z.ltb_spec size m); lia
      end. }
    apply wd_bind.
    { destruct (_ && _); [apply wd_fs_cache_read|].
      apply wd_bind; [apply wd_fs_cache_get | intros; exact I]. }
    intros bytes _.
    rewrite sint32_small by (nums; lia).
    apply (IH st s ino); try assumption; lia.
Qed.

(** A read whose positions, those of the read-ahead included, are inside
    the index indexes no array outside of its bounds and uses no dangling
    pointer: it returns or stops at a failed assertion. *)
Theorem read_in_index_is_well_defined st s ino size off :
  deref st s = Ok ino ->
  0 <= off -> off + size + BLOCK_SECTOR_SIZE <= MAX_LENGTH ->
  (exists n bytes, inode_read_at st s size off = Ok (n, bytes)) \/
  inode_read_at st s size off = Err AssertFail.
Proof.
  intros Hd Hoff Hmax.
  assert (H : well_defined (inode_read_at st s size off)).
  { unfold inode_read_at.
    apply (wd_inode_read_loop _ st s ino);
      [exact Hd | exact Hoff | exact Hmax | lia]. }
  destruct (inode_read_at st s size off) as [[n bytes]|[]];
    try contradiction.
  - left. exists n, bytes. reflexivity.
  - right. reflexivity.
Qed.

Lemma read_in_index_is_well_defined_witness :
  let st := Scenario.state_of Scenario.huge_file in
  (exists n bytes, inode_read_at st 3 2000 1000 = Ok (n, bytes)) \/
  inode_read_at st 3 2000 1000 = Err AssertFail.
Proof.
  intros st.
  apply (read_in_index_is_well_defined st 3 (mkInode 3 1 false 0)).
  - vm_compute. reflexivity.
  - lia.
  - nums. lia.
Defined.

(* ===================================================================== *)
(** ** Behaviour on concrete runs *)
(* ===================================================================== *)

(** C7 (free map).  The claim: every sector index that [free_map_get]
    returns has its bit set in the free map, and [free_map_release] on it
    clears the bit again.  On a 40-sector device whose 40 sectors are all in
    use, [free_map_get] does not fail: [bitmap_lowest] scans the unused bits
    of the last element as well and returns index 40, which is no bit of
    the 40-bit map (and no sector of the device); [free_map_release] of
    that index fails its assertion instead of clearing a bit. *)
Theorem free_map_get_past_end :
  match Scenario.full40 with
  | Ok st =>
      free_map st = mkBitmap 40 [4294967295; 255] /\
      fs_disk_size st = 40 /\
      match free_map_get st with
      | Ok (st', Some sector) =>
          sector = 40 /\
          bit_cnt (free_map st') = 40 /\
          bitmap_test (free_map st') sector = Err AssertFail /\
          free_map_release st' sector 1 = Err AssertFail
      | _ => False
      end
  | Err _ => False
  end.
Proof. vm_compute. repeat split; reflexivity. Qed.

(** C1 (inode_close).  The claim: closing the last opener of a removed
    inode frees every data sector listed in its indirect sectors.  The file
    of [Scenario.sparse_removed] has one data sector, sector 5, listed at
    index 200 of its indirect sector 4.  [inode_close] frees the inode
    sector 3 and the indirect sector 4 but leaves sector 5 allocated: the
    inner loop stops at [NUM_DIRECT] = 186, not at [INDIRECT_NUM_DIRECT] =
    256. *)
Theorem inode_close_leaks_high_indirect_entries :
  match Scenario.sparse_removed with
  | Ok (st, ino) =>
      ino = 3 /\
      deref st ino = Ok (mkInode 3 1 true 0) /\
      indirect_get (sectors st ino) 0 = Ok 4 /\
      sub_get (sectors st 4) 200 = Ok 5 /\
      bitmap_test (free_map st) 5 = Ok true /\
      match inode_close st (Some ino) with
      | Ok st' =>
          open_inodes st' = [] /\
          bitmap_test (free_map st') 3 = Ok false /\
          bitmap_test (free_map st') 4 = Ok false /\
          bitmap_test (free_map st') 5 = Ok true
      | Err _ => False
      end
  | Err _ => False
  end.
Proof. vm_compute. repeat split; reflexivity. Qed.

(** C3 (directory counter).  The claim: after any sequence of directory
    operations, failed ones included, the counter of a directory equals the
    number of its entries in use other than "." and "..".  In
    [Scenario.crowded_root] the root directory has 62 such entries, a
    counter of 62, no free slot, and the device has one free sector.
    Creating "/f62" takes that sector for the inode, so that [dir_add]
    cannot grow the directory: it returns false, yet it has already added
    1 to the counter, which is now 63 for 62 entries. *)
Theorem dir_add_failure_bumps_counter :
  match Scenario.crowded_root with
  | Ok st =>
      inode_counter_get st ROOT_DIR_SECTOR = Ok 62 /\
      Scenario.live_entries st ROOT_DIR_SECTOR = Ok 62 /\
      match Filesys.filesys_create_file st (Some (Scenario.fname 62)) 0 None with
      | Ok (st', ok) =>
          ok = false /\
          inode_counter_get st' ROOT_DIR_SECTOR = Ok 63 /\
          Scenario.live_entries st' ROOT_DIR_SECTOR = Ok 62
      | Err _ => False
      end
  | Err _ => False
  end.
Proof. vm_compute. repeat split; reflexivity. Qed.

(** C5 (unwinding of filesys_create).  The claim: when [filesys_create]
    fails after allocating the inode sector, the free map is as before the
    call.  With the directory "/a" present, creating the directory "/a"
    again fails at [dir_add]; by then [dir_create] has allocated sector 6
    for the entries "." and ".." of the new directory.  The inode sector 5
    is released, sector 6 stays allocated. *)
Theorem filesys_create_dir_leaks_data_sector :
  match Scenario.with_dir_a with
  | Ok st =>
      free_map st = mkBitmap 64 [31; 0] /\
      match Filesys.filesys_create_dir st (Some [Byte.x2f; Byte.x61]) None with
      | Ok (st', ok) =>
          ok = false /\
          free_map st' = mkBitmap 64 [95; 0] /\
          bitmap_test (free_map st') 5 = Ok false /\
          bitmap_test (free_map st') 6 = Ok true /\
          open_inodes st' = open_inodes st
      | Err _ => False
      end
  | Err _ => False
  end.
Proof. vm_compute. repeat split; reflexivity. Qed.
